(** * Exercise guide: item list, share-link codec, storage and list view

    A shallow embedding of the single-file React application
    (the second document of [src/vite.config.js]): the functions
    [encodeData], [decodeData], [getQueryParam], [uid], [loadData],
    [saveData] and [buildShareText], the memoised values [filtered] and
    [selected], the handlers [openAdd], [openEdit], [handleSave],
    [handleDelete], [toast], [importJSON], the text of [exportJSON] and the
    two share-link readers, together with the parts of the ECMAScript and
    web-platform library they call.

    Strings are sequences of UTF-16 code units, values are the values
    that JSON text can denote (plus [undefined]), exceptions are explicit
    results, and the handlers run in a state monad over the application
    state, the clock and the random source. *)

From Stdlib Require Import ZArith List Bool Lia String Ascii QArith Qcanon.
From Stdlib Require Import Permutation Sorted.
From stdpp Require Import gmap.
Import ListNotations.
Local Open Scope Z_scope.

(** ** Strings *)

(** A JavaScript string is a finite sequence of 16-bit code units. *)
Abbreviation jsstring := (list Z).

Definition code_unit (c : Z) : Prop := 0 <= c < 65536.

Definition ch (a : ascii) : Z := Z.of_N (N_of_ascii a).

(** The code units of an ASCII literal. *)
Definition js (s : string) : jsstring := List.map ch (list_ascii_of_string s).

Definition in_range (lo hi c : Z) : bool := (lo <=? c) && (c <=? hi).

Definition is_ascii (c : Z) : bool := in_range 0 127 c.
Definition is_digit (c : Z) : bool := in_range 48 57 c.
Definition is_upper (c : Z) : bool := in_range 65 90 c.
Definition is_lower (c : Z) : bool := in_range 97 122 c.
Definition is_alnum (c : Z) : bool := is_digit c || is_upper c || is_lower c.

Definition is_high_surrogate (c : Z) : bool := in_range 55296 56319 c.
Definition is_low_surrogate (c : Z) : bool := in_range 56320 57343 c.

(** Membership of a code unit in the characters of a literal. *)
Definition one_of (s : string) (c : Z) : bool :=
  existsb (Z.eqb c) (js s).

(** WhiteSpace and LineTerminator of ECMA-262, the set that
    [String.prototype.trim] strips. *)
Definition is_js_space (c : Z) : bool :=
  in_range 9 13 c || (c =? 32) || (c =? 160) || (c =? 5760)
  || in_range 8192 8202 c || (c =? 8232) || (c =? 8233) || (c =? 8239)
  || (c =? 8287) || (c =? 12288) || (c =? 65279).

Fixpoint trimStart (s : jsstring) : jsstring :=
  match s with
  | c :: s' => if is_js_space c then trimStart s' else s
  | [] => []
  end.

Definition trimEnd (s : jsstring) : jsstring := rev (trimStart (rev s)).

Definition trim (s : jsstring) : jsstring := trimEnd (trimStart s).

(** [s.split(sep)] for a separator of one code unit. *)
Fixpoint split (sep : Z) (s : jsstring) : list jsstring :=
  match s with
  | [] => [[]]
  | c :: s' =>
      if c =? sep then [] :: split sep s'
      else match split sep s' with
           | seg :: segs => (c :: seg) :: segs
           | [] => [[c]]
           end
  end.

Fixpoint starts_with (p s : jsstring) : bool :=
  match p, s with
  | [], _ => true
  | a :: p', b :: s' => (a =? b) && starts_with p' s'
  | _ :: _, [] => false
  end.

(** [hay.includes(needle)] *)
Fixpoint includes (hay needle : jsstring) : bool :=
  starts_with needle hay ||
  match hay with
  | [] => false
  | _ :: hay' => includes hay' needle
  end.

(** [s.slice(from, to)] for non-negative indices. *)
Definition slice (s : jsstring) (from to : nat) : jsstring :=
  firstn (to - from) (skipn from s).

Definition ascii_lower (c : Z) : Z := if is_upper c then c + 32 else c.
Definition ascii_upper (c : Z) : Z := if is_lower c then c - 32 else c.

(** ** Digits *)

Definition digit_char (d : Z) : Z := if d <? 10 then 48 + d else 87 + d.

(** Digits of a non-negative integer in the given radix, most significant
    first; [fuel] bounds the number of digits. *)
Fixpoint digits_from (fuel : nat) (radix n : Z) (acc : jsstring) : jsstring :=
  match fuel with
  | O => acc
  | S fuel' =>
      let acc' := digit_char (n mod radix) :: acc in
      if n <? radix then acc' else digits_from fuel' radix (n / radix) acc'
  end.

Definition digits (radix n : Z) : jsstring :=
  digits_from (S (Z.to_nat (Z.log2 n))) radix n [].

(** [n.toString(radix)] for an integer [n]. *)
Definition Z_toString (radix n : Z) : jsstring :=
  if n <? 0 then ch "-" :: digits radix (- n) else digits radix n.

Definition hex_upper (d : Z) : Z := if d <? 10 then 48 + d else 55 + d.
Definition hex_lower (d : Z) : Z := if d <? 10 then 48 + d else 87 + d.

Definition hex_value (c : Z) : option Z :=
  if is_digit c then Some (c - 48)
  else if in_range 65 70 c then Some (c - 55)
  else if in_range 97 102 c then Some (c - 87)
  else None.

(** ** Results and exceptions *)

Inductive exn : Type :=
| TypeError
| SyntaxError
| URIError
| InvalidCharacterError
| SecurityError
| Error (msg : jsstring).

Inductive result (A : Type) : Type :=
| Return (a : A)
| Throw (e : exn).
Arguments Return {A} a.
Arguments Throw {A} e.

Definition bind {A B} (r : result A) (k : A -> result B) : result B :=
  match r with
  | Return a => k a
  | Throw e => Throw e
  end.

Notation "'let*' x ':=' r 'in' k" := (bind r (fun x => k))
  (at level 10, x name, r at level 100, k at level 200).
Notation "'let*' ' p ':=' r 'in' k" := (bind r (fun p => k))
  (at level 10, p strict pattern, r at level 100, k at level 200).

Definition try_catch {A} (r : result A) (handler : exn -> result A) : result A :=
  match r with
  | Return a => Return a
  | Throw e => handler e
  end.

Fixpoint mapM {A B} (f : A -> result B) (l : list A) : result (list B) :=
  match l with
  | [] => Return []
  | a :: l' => let* b := f a in let* bs := mapM f l' in Return (b :: bs)
  end.

Fixpoint filterM {A} (f : A -> result bool) (l : list A) : result (list A) :=
  match l with
  | [] => Return []
  | a :: l' =>
      let* b := f a in let* r := filterM f l' in Return (if b then a :: r else r)
  end.

(** ** Numbers *)

(** A Number is NaN, an infinity, or a finite value. A finite value is
    kept as the exact rational it denotes: the rounding to binary64 is
    not modelled, so the model agrees with an engine on the integers of
    magnitude up to 2^53, which include every timestamp the program
    handles; [-0] is identified with [0], which no operation used here
    tells apart. *)
Inductive number : Type :=
| NaN
| Infinity (negative : bool)
| Fin (q : Qc).

Definition num_of_Z (z : Z) : number := Fin (Q2Qc (inject_Z z)).

Definition num_is_integer (q : Qc) : bool := Pos.eqb (Qden (this q)) 1.

Definition num_sub (a b : number) : number :=
  match a, b with
  | NaN, _ | _, NaN => NaN
  | Infinity s, Infinity t => if Bool.eqb s t then NaN else Infinity s
  | Infinity s, Fin _ => Infinity s
  | Fin _, Infinity t => Infinity (negb t)
  | Fin x, Fin y => Fin (x - y)%Qc
  end.

(** Sign of a number as the comparator protocol of [Array.prototype.sort]
    reads it: NaN counts as zero. *)
Definition num_sign (a : number) : comparison :=
  match a with
  | NaN => Eq
  | Infinity true => Lt
  | Infinity false => Gt
  | Fin q => (this q ?= 0)%Q
  end.

Definition num_falsy (a : number) : bool :=
  match a with
  | NaN => true
  | Infinity _ => false
  | Fin q => Qeq_bool (this q) 0
  end.

Definition num_eqb (a b : number) : bool :=
  match a, b with
  | Infinity s, Infinity t => Bool.eqb s t
  | Fin x, Fin y => Qeq_bool (this x) (this y)
  | _, _ => false
  end.

(** ** Values *)

(** The values a store item, an imported record or a decoded share link
    can be: what JSON text denotes, and [undefined] for a property that
    is absent. An object is its own properties in enumeration order. *)
Unset Elimination Schemes.
Inductive value : Type :=
| VUndef
| VNull
| VBool (b : bool)
| VNum (n : number)
| VStr (s : jsstring)
| VArr (elems : list value)
| VObj (props : list (jsstring * value)).
Set Elimination Schemes.

Abbreviation object := (list (jsstring * value)).

Definition VInt (z : Z) : value := VNum (num_of_Z z).

(** What the engine decides and this development leaves open: the
    decimal rendering of a Number that is not an integer below 10^21,
    the numeric reading of a string, case mapping outside ASCII, the
    Korean collation behind [localeCompare], and the URL parser
    ([new URL(text).search], or the TypeError of a text that is no URL). *)
Class Engine : Type := {
  Number_toString_other : Qc -> jsstring;
  StringToNumber : jsstring -> number;
  toLowerCase_other : jsstring -> jsstring;
  toUpperCase_other : jsstring -> jsstring;
  localeCompare_ko : jsstring -> jsstring -> number;
  URL_search : jsstring -> result jsstring
}.

(** What the clock and the random source answer to their n-th call:
    [Date.now()] and [Math.random().toString(36)]. *)
Record Env : Type := {
  Date_now_at : nat -> Z;
  Math_random_at : nat -> jsstring
}.

(** A canonical array index: the decimal numeral of an integer below
    2^32 - 1. Such property names are enumerated first, in ascending
    order; the others follow in creation order. *)
Definition array_index (k : jsstring) : option Z :=
  match k with
  | [] => None
  | c :: k' =>
      if forallb is_digit k && negb ((c =? 48) && negb (Nat.eqb (length k') 0))
         && (length k <=? 10)%nat
      then let n := fold_left (fun acc d => acc * 10 + (d - 48)) k 0 in
           if n <? 4294967295 then Some n else None
      else None
  end.

Fixpoint lookup_prop (k : jsstring) (o : object) : option value :=
  match o with
  | [] => None
  | (k', v) :: o' => if bool_decide (k' = k) then Some v else lookup_prop k o'
  end.

(** CreateDataProperty on an ordinary object: an existing property
    keeps its place, a new one goes where the enumeration order puts it. *)
Fixpoint define_prop (k : jsstring) (v : value) (o : object) : object :=
  match o with
  | [] => [(k, v)]
  | (k', v') :: o' =>
      if bool_decide (k' = k) then (k, v) :: o'
      else match array_index k, array_index k' with
           | Some i, Some i' =>
               if i <? i' then (k, v) :: (k', v') :: o'
               else (k', v') :: define_prop k v o'
           | Some _, None => (k, v) :: (k', v') :: o'
           | None, _ => (k', v') :: define_prop k v o'
           end
  end.

(** An object literal [{ k1: v1, ..., kn: vn }] laid over [base]
    (the spread part, or nothing). *)
Definition object_literal (base : object) (fields : list (jsstring * value)) : object :=
  fold_left (fun o kv => define_prop (fst kv) (snd kv) o) fields base.

(** [{ ...v }]: the own enumerable properties of [v]. *)
Definition spread (v : value) : object :=
  match v with
  | VObj o => o
  | VArr l => imap (fun i x => (Z_toString 10 (Z.of_nat i), x)) l
  | VStr s => imap (fun i c => (Z_toString 10 (Z.of_nat i), VStr [c])) s
  | _ => []
  end.

(** [v[k]] for the property names the program reads: the eight item
    fields. No prototype defines any of them, except for
    [String.prototype.link], which the program never reaches: it reads
    [link] only from a record whose [id] is truthy, and a string has no
    [id]. Reading a property of [null] or [undefined] throws. *)
Definition Get (v : value) (k : jsstring) : result value :=
  match v with
  | VUndef | VNull => Throw TypeError
  | VObj o => Return (default VUndef (lookup_prop k o))
  | _ => Return VUndef
  end.

Definition ToBoolean (v : value) : bool :=
  match v with
  | VUndef | VNull => false
  | VBool b => b
  | VNum n => negb (num_falsy n)
  | VStr s => negb (bool_decide (s = []))
  | VArr _ | VObj _ => true
  end.

(** [a || b] for an operand [b] without effect. *)
Definition or_value (a b : value) : value :=
  if ToBoolean a then a else b.

(** [a === b]. Two objects or arrays are strictly equal only when they
    are one and the same; values here carry no identity, so the answer
    for them is the one two separately parsed values get. *)
Definition strict_eq (a b : value) : bool :=
  match a, b with
  | VUndef, VUndef | VNull, VNull => true
  | VBool x, VBool y => Bool.eqb x y
  | VNum x, VNum y => num_eqb x y
  | VStr x, VStr y => bool_decide (x = y)
  | _, _ => false
  end.

Definition isArray (v : value) : bool :=
  match v with VArr _ => true | _ => false end.

Section Coercions.
Context `{Engine}.

(** Number::toString with radix 10. *)
Definition Number_toString (n : number) : jsstring :=
  match n with
  | NaN => js "NaN"
  | Infinity false => js "Infinity"
  | Infinity true => js "-Infinity"
  | Fin q =>
      if num_is_integer q && (Z.abs (Qnum (this q)) <? 10 ^ 21)
      then Z_toString 10 (Qnum (this q))
      else Number_toString_other q
  end.

Definition toLowerCase (s : jsstring) : jsstring :=
  if forallb is_ascii s then List.map ascii_lower s else toLowerCase_other s.

Definition toUpperCase (s : jsstring) : jsstring :=
  if forallb is_ascii s then List.map ascii_upper s else toUpperCase_other s.

(** [Array.prototype.join]: [undefined] and [null] elements give the
    empty string, the others are converted by [tostr]. *)
Fixpoint join_by (tostr : value -> result jsstring) (sep : jsstring)
    (l : list value) : result jsstring :=
  let elem x :=
    match x with
    | VUndef | VNull => Return []
    | _ => tostr x
    end in
  match l with
  | [] => Return []
  | [x] => elem x
  | x :: l' =>
      let* s := elem x in
      let* r := join_by tostr sep l' in
      Return (s ++ sep ++ r)
  end.

(** ToString. An array is joined with commas. An object gives
    ["[object Object]"] through [Object.prototype.toString], unless it has
    a property [toString] of its own: such a property holds data, cannot
    be called, and [valueOf] then gives no primitive either. *)
Fixpoint ToString (v : value) : result jsstring :=
  match v with
  | VUndef => Return (js "undefined")
  | VNull => Return (js "null")
  | VBool true => Return (js "true")
  | VBool false => Return (js "false")
  | VNum n => Return (Number_toString n)
  | VStr s => Return s
  | VArr l => join_by ToString (js ",") l
  | VObj o =>
      match lookup_prop (js "toString") o with
      | Some _ => Throw TypeError
      | None => Return (js "[object Object]")
      end
  end.

(** [arr.join(sep)]: the receiver has to be an array. *)
Definition join (v : value) (sep : jsstring) : result jsstring :=
  match v with
  | VArr l => join_by ToString sep l
  | _ => Throw TypeError
  end.

(** ToNumber; an array or object goes through its string form. *)
Definition ToNumber (v : value) : result number :=
  match v with
  | VUndef => Return NaN
  | VNull => Return (num_of_Z 0)
  | VBool b => Return (num_of_Z (if b then 1 else 0))
  | VNum n => Return n
  | VStr s => Return (StringToNumber s)
  | VArr _ | VObj _ => let* s := ToString v in Return (StringToNumber s)
  end.

End Coercions.

(** ** JSON *)

Module JSON.

(** *** JSON.stringify *)

Definition unicode_escape (c : Z) : jsstring :=
  js "\u" ++ [hex_lower (c / 4096); hex_lower (c / 256 mod 16);
              hex_lower (c / 16 mod 16); hex_lower (c mod 16)].

(** One code unit that is not a surrogate, as QuoteJSONString writes it. *)
Definition quote_unit (c : Z) : jsstring :=
  if c =? 8 then js "\b"
  else if c =? 9 then js "\t"
  else if c =? 10 then js "\n"
  else if c =? 12 then js "\f"
  else if c =? 13 then js "\r"
  else if c =? 34 then [92; 34]
  else if c =? 92 then [92; 92]
  else if c <? 32 then unicode_escape c
  else [c].

(** The text between the quotes: a surrogate pair is copied, a lone
    surrogate is escaped (well-formed JSON.stringify). *)
Fixpoint quote_body (s : jsstring) : jsstring :=
  match s with
  | [] => []
  | c :: s1 =>
      if is_high_surrogate c then
        match s1 with
        | l :: s2 =>
            if is_low_surrogate l then c :: l :: quote_body s2
            else unicode_escape c ++ quote_body s1
        | [] => unicode_escape c
        end
      else if is_low_surrogate c then unicode_escape c ++ quote_body s1
      else quote_unit c ++ quote_body s1
  end.

Definition QuoteJSONString (s : jsstring) : jsstring :=
  34 :: quote_body s ++ [34].

Fixpoint join_texts (l : list jsstring) : jsstring :=
  match l with
  | [] => []
  | [x] => x
  | x :: l' => x ++ 44 :: join_texts l'
  end.

Section Stringify.
Context `{Engine}.

(** SerializeJSONProperty without replacer and indentation; [None] is
    the result [undefined]. An array writes [null] for such an element,
    an object leaves such a member out. *)
Fixpoint serialize (v : value) : option jsstring :=
  match v with
  | VUndef => None
  | VNull => Some (js "null")
  | VBool true => Some (js "true")
  | VBool false => Some (js "false")
  | VNum (Fin q) => Some (Number_toString (Fin q))
  | VNum _ => Some (js "null")
  | VStr s => Some (QuoteJSONString s)
  | VArr l =>
      let elems :=
        (fix go (l : list value) : list jsstring :=
           match l with
           | [] => []
           | x :: l' => default (js "null") (serialize x) :: go l'
           end) l in
      Some (91 :: join_texts elems ++ [93])
  | VObj o =>
      let members :=
        (fix go (o : object) : list jsstring :=
           match o with
           | [] => []
           | (k, x) :: o' =>
               match serialize x with
               | Some t => (QuoteJSONString k ++ 58 :: t) :: go o'
               | None => go o'
               end
           end) o in
      Some (123 :: join_texts members ++ [125])
  end.

(** [JSON.stringify(v)]: a string, or [undefined]. *)
Definition stringify (v : value) : value :=
  match serialize v with
  | Some t => VStr t
  | None => VUndef
  end.

End Stringify.

(** *** JSON.parse *)

Definition is_ws (c : Z) : bool :=
  (c =? 32) || (c =? 9) || (c =? 10) || (c =? 13).

Fixpoint skip_ws (s : jsstring) : jsstring :=
  match s with
  | c :: s' => if is_ws c then skip_ws s' else s
  | [] => []
  end.

Definition simple_escape (e : Z) : option Z :=
  if e =? 34 then Some 34
  else if e =? 92 then Some 92
  else if e =? 47 then Some 47
  else if e =? 98 then Some 8
  else if e =? 102 then Some 12
  else if e =? 110 then Some 10
  else if e =? 114 then Some 13
  else if e =? 116 then Some 9
  else None.

Definition hex4 (h1 h2 h3 h4 : Z) : option Z :=
  match hex_value h1, hex_value h2, hex_value h3, hex_value h4 with
  | Some a, Some b, Some c, Some d => Some (((a * 16 + b) * 16 + c) * 16 + d)
  | _, _, _, _ => None
  end.

Definition cons_unit (c : Z) (r : option (jsstring * jsstring)) :
    option (jsstring * jsstring) :=
  match r with
  | Some (body, rest) => Some (c :: body, rest)
  | None => None
  end.

(** The characters of a string literal after its opening quote, and
    the text after its closing quote. *)
Fixpoint parse_string_body (s : jsstring) : option (jsstring * jsstring) :=
  match s with
  | [] => None
  | c :: s1 =>
      if c =? 34 then Some ([], s1)
      else if c =? 92 then
        match s1 with
        | [] => None
        | e :: s2 =>
            if e =? 117 then
              match s2 with
              | h1 :: h2 :: h3 :: h4 :: s3 =>
                  match hex4 h1 h2 h3 h4 with
                  | Some u => cons_unit u (parse_string_body s3)
                  | None => None
                  end
              | _ => None
              end
            else
              match simple_escape e with
              | Some u => cons_unit u (parse_string_body s2)
              | None => None
              end
        end
      else if c <? 32 then None
      else cons_unit c (parse_string_body s1)
  end.

Fixpoint span_digits (s : jsstring) : jsstring * jsstring :=
  match s with
  | c :: s' =>
      if is_digit c then let '(ds, r) := span_digits s' in (c :: ds, r)
      else ([], s)
  | [] => ([], [])
  end.

Definition digits_value (ds : jsstring) : Z :=
  fold_left (fun acc d => acc * 10 + (d - 48)) ds 0.

(** The number [m * 10^e], negated when [neg]. *)
Definition make_number (neg : bool) (m e : Z) : number :=
  let m' := if neg then - m else m in
  Fin (Q2Qc (if 0 <=? e then inject_Z (m' * 10 ^ e)
             else Qmake m' (Z.to_pos (10 ^ (- e))))).

Definition parse_fraction (s : jsstring) : option (jsstring * jsstring) :=
  match s with
  | c :: t =>
      if c =? 46 then
        match span_digits t with
        | ([], _) => None
        | (fp, r) => Some (fp, r)
        end
      else Some ([], s)
  | [] => Some ([], s)
  end.

Definition parse_exponent (s : jsstring) : option (Z * jsstring) :=
  match s with
  | c :: t =>
      if (c =? 101) || (c =? 69) then
        let '(neg, t') :=
          match t with
          | g :: u => if g =? 45 then (true, u)
                      else if g =? 43 then (false, u) else (false, t)
          | [] => (false, t)
          end in
        match span_digits t' with
        | ([], _) => None
        | (ds, r) => Some (if neg then - digits_value ds else digits_value ds, r)
        end
      else Some (0, s)
  | [] => Some (0, s)
  end.

(** The numeral after its sign. *)
Definition parse_unsigned (neg : bool) (s1 : jsstring) :
    option (number * jsstring) :=
  match s1 with
  | [] => None
  | d :: t =>
      if is_digit d then
        let '(ip, s2) := if d =? 48 then ([d], t) else span_digits s1 in
        match parse_fraction s2 with
        | None => None
        | Some (fp, s3) =>
            match parse_exponent s3 with
            | None => None
            | Some (e, s4) =>
                Some (make_number neg (digits_value (ip ++ fp))
                        (e - Z.of_nat (length fp)), s4)
            end
        end
      else None
  end.

Definition parse_number (s : jsstring) : option (number * jsstring) :=
  match s with
  | c :: t => if c =? 45 then parse_unsigned true t else parse_unsigned false s
  | [] => None
  end.

Definition expect (lit : jsstring) (v : value) (s : jsstring) :
    option (value * jsstring) :=
  if starts_with lit s then Some (v, skipn (length lit) s) else None.

(** A JSON value at the head of [s] and the text after it. Every nested
    value and every further element or member costs one unit of [fuel];
    the length of the text is always enough. *)
Fixpoint parse_value (fuel : nat) (s : jsstring) : option (value * jsstring) :=
  match fuel with
  | O => None
  | S fuel' =>
      match skip_ws s with
      | [] => None
      | c :: s1 =>
          if c =? 123 then
            match skip_ws s1 with
            | c' :: s2 =>
                if c' =? 125 then Some (VObj [], s2)
                else parse_members fuel' [] s1
            | [] => None
            end
          else if c =? 91 then
            match skip_ws s1 with
            | c' :: s2 =>
                if c' =? 93 then Some (VArr [], s2)
                else parse_elements fuel' [] s1
            | [] => None
            end
          else if c =? 34 then
            match parse_string_body s1 with
            | Some (body, rest) => Some (VStr body, rest)
            | None => None
            end
          else if c =? 116 then expect (js "true") (VBool true) (c :: s1)
          else if c =? 102 then expect (js "false") (VBool false) (c :: s1)
          else if c =? 110 then expect (js "null") VNull (c :: s1)
          else
            match parse_number (c :: s1) with
            | Some (n, rest) => Some (VNum n, rest)
            | None => None
            end
      end
  end
with parse_elements (fuel : nat) (acc : list value) (s : jsstring) :
    option (value * jsstring) :=
  match fuel with
  | O => None
  | S fuel' =>
      match parse_value fuel' s with
      | None => None
      | Some (v, rest) =>
          match skip_ws rest with
          | c :: s1 =>
              if c =? 44 then parse_elements fuel' (v :: acc) s1
              else if c =? 93 then Some (VArr (rev (v :: acc)), s1)
              else None
          | [] => None
          end
      end
  end
with parse_members (fuel : nat) (acc : object) (s : jsstring) :
    option (value * jsstring) :=
  match fuel with
  | O => None
  | S fuel' =>
      match skip_ws s with
      | c :: s1 =>
          if c =? 34 then
            match parse_string_body s1 with
            | None => None
            | Some (k, s2) =>
                match skip_ws s2 with
                | c' :: s3 =>
                    if c' =? 58 then
                      match parse_value fuel' s3 with
                      | None => None
                      | Some (v, rest) =>
                          let acc' := define_prop k v acc in
                          match skip_ws rest with
                          | d :: s4 =>
                              if d =? 44 then parse_members fuel' acc' s4
                              else if d =? 125 then Some (VObj acc', s4)
                              else None
                          | [] => None
                          end
                      end
                    else None
                | [] => None
                end
            end
          else None
      | [] => None
      end
  end.

(** [JSON.parse(text)] without reviver. *)
Definition parse (text : jsstring) : result value :=
  match parse_value (S (length text)) text with
  | Some (v, rest) =>
      match skip_ws rest with
      | [] => Return v
      | _ :: _ => Throw SyntaxError
      end
  | None => Throw SyntaxError
  end.

End JSON.

(** ** URI and base64 functions of the platform *)

(** The UTF-8 octets of a code point. *)
Definition utf8_encode (cp : Z) : list Z :=
  if cp <? 128 then [cp]
  else if cp <? 2048 then [192 + cp / 64; 128 + cp mod 64]
  else if cp <? 65536 then
    [224 + cp / 4096; 128 + cp / 64 mod 64; 128 + cp mod 64]
  else
    [240 + cp / 262144; 128 + cp / 4096 mod 64; 128 + cp / 64 mod 64;
     128 + cp mod 64].

Definition utf16_encode (cp : Z) : jsstring :=
  if cp <? 65536 then [cp]
  else [55296 + (cp - 65536) / 1024; 56320 + (cp - 65536) mod 1024].

Definition code_point_of_pair (hi lo : Z) : Z :=
  (hi - 55296) * 1024 + (lo - 56320) + 65536.

(** ["%XX"] with upper-case digits. *)
Definition percent (b : Z) : jsstring :=
  [37; hex_upper (b / 16); hex_upper (b mod 16)].

Definition percent_all (bytes : list Z) : jsstring :=
  flat_map percent bytes.

Definition uri_unreserved (c : Z) : bool :=
  is_alnum c || one_of "-_.!~*'()" c.

(** The abstract operation Encode of ECMA-262 with the unescaped set of
    [encodeURIComponent]: an unpaired surrogate is a URIError. *)
Fixpoint Encode (s : jsstring) : result jsstring :=
  match s with
  | [] => Return []
  | c :: s1 =>
      if uri_unreserved c then
        let* r := Encode s1 in Return (c :: r)
      else if is_low_surrogate c then Throw URIError
      else if is_high_surrogate c then
        match s1 with
        | l :: s2 =>
            if is_low_surrogate l then
              let* r := Encode s2 in
              Return (percent_all (utf8_encode (code_point_of_pair c l)) ++ r)
            else Throw URIError
        | [] => Throw URIError
        end
      else
        let* r := Encode s1 in Return (percent_all (utf8_encode c) ++ r)
  end.

Definition hex2 (h1 h2 : Z) : option Z :=
  match hex_value h1, hex_value h2 with
  | Some a, Some b => Some (a * 16 + b)
  | _, _ => None
  end.

(** [unescape] of Annex B: ["%uXXXX"] and ["%XX"] become the code unit
    they name, everything else is copied. *)
Fixpoint unescape (s : jsstring) : jsstring :=
  match s with
  | [] => []
  | c :: s1 =>
      if c =? 37 then
        match s1 with
        | h1 :: h2 :: s3 =>
            if h1 =? 117 then
              match s3 with
              | h3 :: h4 :: h5 :: s6 =>
                  match JSON.hex4 h2 h3 h4 h5 with
                  | Some n => n :: unescape s6
                  | None => c :: unescape s1
                  end
              | _ => c :: unescape s1
              end
            else
              match hex2 h1 h2 with
              | Some n => n :: unescape s3
              | None => c :: unescape s1
              end
        | _ => c :: unescape s1
        end
      else c :: unescape s1
  end.

Definition escape_unreserved (c : Z) : bool :=
  is_alnum c || one_of "@*_+-./" c.

(** [escape] of Annex B. *)
Definition escape (s : jsstring) : jsstring :=
  flat_map (fun c =>
    if escape_unreserved c then [c]
    else if c <? 256 then percent c
    else [37; 117; hex_upper (c / 4096); hex_upper (c / 256 mod 16);
          hex_upper (c / 16 mod 16); hex_upper (c mod 16)]) s.

(** One ["%XX"] group at the head of [s]. *)
Definition read_percent (s : jsstring) : option (Z * jsstring) :=
  match s with
  | p :: h1 :: h2 :: r =>
      if p =? 37 then
        match hex2 h1 h2 with
        | Some b => Some (b, r)
        | None => None
        end
      else None
  | _ => None
  end.

Definition is_continuation (b : Z) : bool := in_range 128 191 b.

(** The code point of a well-formed UTF-8 sequence: continuation
    octets in range, no overlong form, no surrogate, at most U+10FFFF. *)
Definition utf8_decode2 (b0 b1 : Z) : option Z :=
  let cp := (b0 - 192) * 64 + (b1 - 128) in
  if is_continuation b1 && (128 <=? cp) then Some cp else None.

Definition utf8_decode3 (b0 b1 b2 : Z) : option Z :=
  let cp := ((b0 - 224) * 64 + (b1 - 128)) * 64 + (b2 - 128) in
  if is_continuation b1 && is_continuation b2 && (2048 <=? cp)
     && negb (in_range 55296 57343 cp)
  then Some cp else None.

Definition utf8_decode4 (b0 b1 b2 b3 : Z) : option Z :=
  let cp :=
    (((b0 - 240) * 64 + (b1 - 128)) * 64 + (b2 - 128)) * 64 + (b3 - 128) in
  if is_continuation b1 && is_continuation b2 && is_continuation b3
     && in_range 65536 1114111 cp
  then Some cp else None.

(** The abstract operation Decode of ECMA-262 with the empty reserved
    set of [decodeURIComponent]. Every step consumes input, so a [fuel]
    of the length of the text is enough. *)
Fixpoint Decode (fuel : nat) (s : jsstring) : result jsstring :=
  match fuel, s with
  | _, [] => Return []
  | O, _ :: _ => Throw URIError
  | S fuel', c :: s1 =>
      let continue cp rest :=
        match cp with
        | Some cp => let* r := Decode fuel' rest in Return (utf16_encode cp ++ r)
        | None => Throw URIError
        end in
      if negb (c =? 37) then
        let* r := Decode fuel' s1 in Return (c :: r)
      else
        match read_percent s with
        | None => Throw URIError
        | Some (b0, r0) =>
            if b0 <? 128 then continue (Some b0) r0
            else if b0 <? 192 then Throw URIError
            else if b0 <? 224 then
              match read_percent r0 with
              | Some (b1, r1) => continue (utf8_decode2 b0 b1) r1
              | None => Throw URIError
              end
            else if b0 <? 240 then
              match read_percent r0 with
              | Some (b1, r1) =>
                  match read_percent r1 with
                  | Some (b2, r2) => continue (utf8_decode3 b0 b1 b2) r2
                  | None => Throw URIError
                  end
              | None => Throw URIError
              end
            else if b0 <? 248 then
              match read_percent r0 with
              | Some (b1, r1) =>
                  match read_percent r1 with
                  | Some (b2, r2) =>
                      match read_percent r2 with
                      | Some (b3, r3) =>
                          continue (utf8_decode4 b0 b1 b2 b3) r3
                      | None => Throw URIError
                      end
                  | None => Throw URIError
                  end
              | None => Throw URIError
              end
            else Throw URIError
        end
  end.

Definition b64_char (n : Z) : Z :=
  if n <? 26 then 65 + n
  else if n <? 52 then 71 + n
  else if n <? 62 then n - 4
  else if n =? 62 then 43
  else 47.

Definition b64_value (c : Z) : option Z :=
  if is_upper c then Some (c - 65)
  else if is_lower c then Some (c - 71)
  else if is_digit c then Some (c + 4)
  else if c =? 43 then Some 62
  else if c =? 47 then Some 63
  else None.

Fixpoint base64_encode (bytes : list Z) : jsstring :=
  match bytes with
  | [] => []
  | [a] => [b64_char (a / 4); b64_char (a mod 4 * 16); 61; 61]
  | [a; b] =>
      [b64_char (a / 4); b64_char (a mod 4 * 16 + b / 16);
       b64_char (b mod 16 * 4); 61]
  | a :: b :: c :: rest =>
      b64_char (a / 4) :: b64_char (a mod 4 * 16 + b / 16)
      :: b64_char (b mod 16 * 4 + c / 64) :: b64_char (c mod 64)
      :: base64_encode rest
  end.

(** [btoa]: every code unit has to be a byte. *)
Definition btoa (s : jsstring) : result jsstring :=
  if forallb (in_range 0 255) s then Return (base64_encode s)
  else Throw InvalidCharacterError.

Definition is_ascii_ws (c : Z) : bool :=
  (c =? 9) || (c =? 10) || (c =? 12) || (c =? 13) || (c =? 32).

(** One or two trailing [=] go when the length is a multiple of four. *)
Definition strip_padding (s : jsstring) : jsstring :=
  if (length s mod 4 =? 0)%nat then
    match rev s with
    | a :: b :: r =>
        if a =? 61 then if b =? 61 then rev r else rev (b :: r) else s
    | [a] => if a =? 61 then [] else s
    | [] => s
    end
  else s.

Fixpoint sextets (s : jsstring) : option (list Z) :=
  match s with
  | [] => Some []
  | c :: s' =>
      match b64_value c, sextets s' with
      | Some n, Some ns => Some (n :: ns)
      | _, _ => None
      end
  end.

Fixpoint base64_decode (ns : list Z) : list Z :=
  match ns with
  | a :: b :: c :: d :: rest =>
      (a * 4 + b / 16) :: (b mod 16 * 16 + c / 4) :: (c mod 4 * 64 + d)
      :: base64_decode rest
  | [a; b; c] => [a * 4 + b / 16; b mod 16 * 16 + c / 4]
  | [a; b] => [a * 4 + b / 16]
  | _ => []
  end.

(** [atob]: forgiving-base64 decode of the Infra standard. *)
Definition atob (s : jsstring) : result jsstring :=
  let data := strip_padding (List.filter (fun c => negb (is_ascii_ws c)) s) in
  if (length data mod 4 =? 1)%nat then Throw InvalidCharacterError
  else
    match sextets data with
    | Some ns => Return (base64_decode ns)
    | None => Throw InvalidCharacterError
    end.

Section UriOfValue.
Context `{Engine}.

Definition encodeURIComponent (v : value) : result jsstring :=
  let* s := ToString v in Encode s.

Definition decodeURIComponent (s : jsstring) : result jsstring :=
  Decode (length s) s.

End UriOfValue.

(** ** The application *)

Definition STORAGE_KEY : jsstring := js "exerciseListV1".

(** The origin's local storage: out of reach (access throws), or a map
    from keys to strings. *)
Inductive Storage : Type :=
| Denied
| Granted (entries : gmap jsstring jsstring).

(** [localStorage.getItem(k)]; [None] is [null]. *)
Definition getItem (st : Storage) (k : jsstring) : result (option jsstring) :=
  match st with
  | Denied => Throw SecurityError
  | Granted entries => Return (entries !! k)
  end.

(** The names under which an item keeps its fields. *)
Definition k_id : jsstring := js "id".
Definition k_title : jsstring := js "title".
Definition k_content : jsstring := js "content".
Definition k_caution : jsstring := js "caution".
Definition k_link : jsstring := js "link".
Definition k_tags : jsstring := js "tags".
Definition k_createdAt : jsstring := js "createdAt".
Definition k_updatedAt : jsstring := js "updatedAt".

(** The three choices of the sort menu. *)
Inductive SortKey : Type := ByUpdatedAt | ByCreatedAt | ByTitle.

Definition sortKey_name (k : SortKey) : jsstring :=
  match k with
  | ByUpdatedAt => k_updatedAt
  | ByCreatedAt => k_createdAt
  | ByTitle => k_title
  end.

(** The state of the component [App]; the form fields hold the text of
    their inputs. *)
Record App : Type := {
  items : list value;
  query : jsstring;
  sortKey : SortKey;
  selectedId : value;
  modalOpen : bool;
  editingId : value;
  title : jsstring;
  content : jsstring;
  caution : jsstring;
  link : jsstring;
  tagsText : jsstring;
  toasts : list (jsstring * jsstring)
}.

(** What a handler runs in: the component state, how often the clock
    and the random source have been asked, and the dialogs shown. *)
Record World : Type := {
  app : App;
  ticks : nat;
  draws : nat;
  alerts : list jsstring
}.

Definition M (A : Type) : Type := World -> result A * World.

Definition ret {A} (a : A) : M A := fun w => (Return a, w).

Definition bindM {A B} (m : M A) (k : A -> M B) : M B :=
  fun w =>
    match m w with
    | (Return a, w') => k a w'
    | (Throw e, w') => (Throw e, w')
    end.

Notation "'let!' x ':=' m 'in' k" := (bindM m (fun x => k))
  (at level 10, x name, m at level 100, k at level 200).
Notation "m ';;' k" := (bindM m (fun _ => k))
  (at level 100, k at level 200, right associativity).

Definition lift {A} (r : result A) : M A := fun w => (r, w).

Definition tryM {A} (m : M A) (handler : exn -> M A) : M A :=
  fun w =>
    match m w with
    | (Return a, w') => (Return a, w')
    | (Throw e, w') => handler e w'
    end.

Fixpoint mapMM {A B} (f : A -> M B) (l : list A) : M (list B) :=
  match l with
  | [] => ret []
  | a :: l' => let! b := f a in let! bs := mapMM f l' in ret (b :: bs)
  end.

Definition get_app : M App := fun w => (Return (app w), w).

Definition set_app (f : App -> App) : M unit :=
  fun w => (Return tt, {| app := f (app w); ticks := ticks w;
                          draws := draws w; alerts := alerts w |}).

Definition alert (msg : jsstring) : M unit :=
  fun w => (Return tt, {| app := app w; ticks := ticks w; draws := draws w;
                          alerts := alerts w ++ [msg] |}).

(** [setItems(updater)]: an updater that throws leaves the list as it is. *)
Definition setItems (updater : list value -> result (list value)) : M unit :=
  let! st := get_app in
  let! l := lift (updater (items st)) in
  set_app (fun st =>
    {| items := l; query := query st; sortKey := sortKey st;
       selectedId := selectedId st; modalOpen := modalOpen st;
       editingId := editingId st; title := title st; content := content st;
       caution := caution st; link := link st; tagsText := tagsText st;
       toasts := toasts st |}).

Definition setSelectedId (v : value) : M unit :=
  set_app (fun st =>
    {| items := items st; query := query st; sortKey := sortKey st;
       selectedId := v; modalOpen := modalOpen st;
       editingId := editingId st; title := title st; content := content st;
       caution := caution st; link := link st; tagsText := tagsText st;
       toasts := toasts st |}).

Definition setModalOpen (b : bool) : M unit :=
  set_app (fun st =>
    {| items := items st; query := query st; sortKey := sortKey st;
       selectedId := selectedId st; modalOpen := b;
       editingId := editingId st; title := title st; content := content st;
       caution := caution st; link := link st; tagsText := tagsText st;
       toasts := toasts st |}).

Definition setToasts (f : list (jsstring * jsstring) -> list (jsstring * jsstring)) :
    M unit :=
  set_app (fun st =>
    {| items := items st; query := query st; sortKey := sortKey st;
       selectedId := selectedId st; modalOpen := modalOpen st;
       editingId := editingId st; title := title st; content := content st;
       caution := caution st; link := link st; tagsText := tagsText st;
       toasts := f (toasts st) |}).

(** Messages of the dialogs. *)
Definition msg_title_required : jsstring :=
  [51228; 47785; 51008; 32; 54596; 49688; 51077; 45768; 45796; 46].
Definition msg_untitled : jsstring := [47924; 51228].
Definition msg_import_done : jsstring :=
  [44032; 51256; 50724; 44592; 32; 50756; 47308].
Definition msg_import_failed : jsstring :=
  [44032; 51256; 50724; 44592; 32; 49892; 54056; 58; 32; 50976; 54952; 54620;
   32; 74; 83; 79; 78; 32; 54028; 51068; 51060; 32; 50500; 45785; 45768;
   45796; 46].
Definition msg_format_error : jsstring := [54805; 49885; 32; 50724; 47448].
Definition msg_bad_data : jsstring :=
  [45936; 51060; 53552; 32; 54805; 49885; 51060; 32; 50732; 48148; 47476;
   51648; 32; 50506; 50500; 50836; 46].
Definition msg_bad_link : jsstring :=
  [50976; 54952; 54620; 32; 44277; 50976; 32; 47553; 53356; 44032; 32; 50500;
   45768; 50640; 50836; 46].
Definition msg_link_error : jsstring :=
  [47553; 53356; 47484; 32; 51069; 45716; 32; 51473; 32; 50724; 47448; 44032;
   32; 45228; 50612; 50836; 46].

(** Arrays live at addresses. *)
Abbreviation heap := (gmap positive (list value)).

Section Program.
Context `{Engine} (env : Env).

(** *** Share-link codec *)

Definition encodeData (obj : value) : result jsstring :=
  let json := JSON.stringify obj in
  let* escaped := encodeURIComponent json in
  btoa (unescape escaped).

Definition decodeData (b64 : jsstring) : result value :=
  let* bin := atob b64 in
  let* json := decodeURIComponent (escape bin) in
  JSON.parse json.

(** *** Clock, random source and ids *)

Definition Date_now : M Z :=
  fun w => (Return (Date_now_at env (ticks w)),
            {| app := app w; ticks := S (ticks w); draws := draws w;
               alerts := alerts w |}).

(** [Math.random().toString(36)] *)
Definition Math_random_toString36 : M jsstring :=
  fun w => (Return (Math_random_at env (draws w)),
            {| app := app w; ticks := ticks w; draws := S (draws w);
               alerts := alerts w |}).

Definition uid : M jsstring :=
  let! now := Date_now in
  let! rnd := Math_random_toString36 in
  ret (toUpperCase (Z_toString 36 now ++ slice rnd 2 8)).

(** *** Storage *)

Definition loadData (st : Storage) : result (list value) :=
  try_catch
    (let* raw := getItem st STORAGE_KEY in
     match raw with
     | None => Return []
     | Some text =>
         if bool_decide (text = []) then Return []
         else
           let* parsed := JSON.parse text in
           Return (match parsed with VArr l => l | _ => [] end)
     end)
    (fun _ => Return []).

(** *** The list view *)

(** The haystack of one item:
    title, content, caution and tags, one per line, in lower case. *)
Definition haystack (it : value) : result jsstring :=
  let* t := Get it k_title in
  let* ts := ToString t in
  let* c := Get it k_content in
  let* cs := ToString (or_value c (VStr [])) in
  let* u := Get it k_caution in
  let* us := ToString (or_value u (VStr [])) in
  let* g := Get it k_tags in
  let* gs := join (or_value g (VArr [])) (js " ") in
  Return (toLowerCase (ts ++ 10 :: cs ++ 10 :: us ++ 10 :: gs)).

(** The comparator handed to [sort]. *)
Definition compare_items (key : SortKey) (a b : value) : result number :=
  match key with
  | ByTitle =>
      let* ta := Get a k_title in
      match ta with
      | VStr sa =>
          let* tb := Get b k_title in
          let* sb := ToString tb in
          Return (localeCompare_ko sa sb)
      | _ => Throw TypeError
      end
  | _ =>
      let* vb := Get b (sortKey_name key) in
      let* va := Get a (sortKey_name key) in
      let* nb := ToNumber (or_value vb (VInt 0)) in
      let* na := ToNumber (or_value va (VInt 0)) in
      Return (num_sub nb na)
  end.

(** SortCompare: [undefined] goes last without asking the comparator. *)
Definition SortCompare (cmp : value -> value -> result number) (x y : value) :
    result comparison :=
  match x, y with
  | VUndef, VUndef => Return Eq
  | VUndef, _ => Return Gt
  | _, VUndef => Return Lt
  | _, _ => let* v := cmp x y in Return (num_sign v)
  end.

Fixpoint insert_sorted (cmp : value -> value -> result number) (x : value)
    (l : list value) : result (list value) :=
  match l with
  | [] => Return [x]
  | y :: l' =>
      let* c := SortCompare cmp x y in
      match c with
      | Gt => let* r := insert_sorted cmp x l' in Return (y :: r)
      | _ => Return (x :: l)
      end
  end.

(** The order [Array.prototype.sort] produces. It is stable, and with a
    consistent comparator the standard leaves a stable sort no choice;
    insertion from the right is one way to compute it. *)
Fixpoint sorted_by (cmp : value -> value -> result number) (l : list value) :
    result (list value) :=
  match l with
  | [] => Return []
  | x :: l' => let* r := sorted_by cmp l' in insert_sorted cmp x r
  end.

(** [sort] rewrites the array it is called on; [filter] and the spread
    [[...a]] make a new one. *)

Definition alloc (h : heap) (l : list value) : positive * heap :=
  let a := fresh (dom h) in (a, <[a := l]> h).

Definition read (h : heap) (a : positive) : result (list value) :=
  match h !! a with
  | Some l => Return l
  | None => Throw TypeError
  end.

Definition Array_filter (h : heap) (a : positive) (f : value -> result bool) :
    result (positive * heap) :=
  let* l := read h a in
  let* r := filterM f l in
  Return (alloc h r).

Definition Array_spread (h : heap) (a : positive) : result (positive * heap) :=
  let* l := read h a in Return (alloc h l).

Definition Array_sort (h : heap) (a : positive)
    (cmp : value -> value -> result number) : result (positive * heap) :=
  let* l := read h a in
  let* r := sorted_by cmp l in
  Return (a, <[a := r]> h).

(** Lines 147-155: the items that match the query. *)
Definition filter_view (h : heap) (items : positive) (query : jsstring) :
    result (positive * heap) :=
  let q := toLowerCase (trim query) in
  if negb (bool_decide (q = [])) then
    Array_filter h items (fun it =>
      let* hay := haystack it in Return (includes hay q))
  else Return (items, h).

(** Lines 157-160: a sorted copy. *)
Definition sort_view (h : heap) (base : positive) (key : SortKey) :
    result (positive * heap) :=
  let* '(copy, h1) := Array_spread h base in
  Array_sort h1 copy (compare_items key).

(** The memoised value [filtered]. *)
Definition filtered (h : heap) (items : positive) (query : jsstring)
    (key : SortKey) : result (positive * heap) :=
  let* '(base, h1) := filter_view h items query in
  sort_view h1 base key.

(** *** Reading the query string *)

(** A string as UTF-8 octets; an unpaired surrogate becomes U+FFFD. *)
Fixpoint utf8_of_string (s : jsstring) : list Z :=
  match s with
  | [] => []
  | c :: s1 =>
      if is_high_surrogate c then
        match s1 with
        | l :: s2 =>
            if is_low_surrogate l then
              utf8_encode (code_point_of_pair c l) ++ utf8_of_string s2
            else utf8_encode 65533 ++ utf8_of_string s1
        | [] => utf8_encode 65533
        end
      else if is_low_surrogate c then utf8_encode 65533 ++ utf8_of_string s1
      else utf8_encode c ++ utf8_of_string s1
  end.

Fixpoint percent_decode (s : list Z) : list Z :=
  match s with
  | [] => []
  | c :: s1 =>
      if c =? 37 then
        match s1 with
        | h1 :: h2 :: s3 =>
            match hex2 h1 h2 with
            | Some b => b :: percent_decode s3
            | None => c :: percent_decode s1
            end
        | _ => c :: percent_decode s1
        end
      else c :: percent_decode s1
  end.

(** The first octet of a sequence in the UTF-8 decoder of the Encoding
    standard: what it emits, then code point so far, octets needed, and
    the bounds of the next octet. *)
Definition utf8_lead (b : Z) : jsstring * (Z * Z * Z * Z) :=
  if b <? 128 then ([b], (0, 0, 128, 191))
  else if in_range 194 223 b then ([], (b - 192, 1, 128, 191))
  else if in_range 224 239 b then
    ([], (b - 224, 2, if b =? 224 then 160 else 128,
          if b =? 237 then 159 else 191))
  else if in_range 240 244 b then
    ([], (b - 240, 3, if b =? 240 then 144 else 128,
          if b =? 244 then 143 else 191))
  else ([65533], (0, 0, 128, 191)).

(** UTF-8 decode without BOM: malformed input gives U+FFFD. *)
Fixpoint utf8_decode_lossy (st : Z * Z * Z * Z) (bytes : list Z) : jsstring :=
  let '(cp, needed, lower, upper) := st in
  match bytes with
  | [] => if needed =? 0 then [] else [65533]
  | b :: rest =>
      if needed =? 0 then
        let '(out, st') := utf8_lead b in out ++ utf8_decode_lossy st' rest
      else if in_range lower upper b then
        let cp' := cp * 64 + (b - 128) in
        if needed =? 1 then
          utf16_encode cp' ++ utf8_decode_lossy (0, 0, 128, 191) rest
        else utf8_decode_lossy (cp', needed - 1, 128, 191) rest
      else
        let '(out, st') := utf8_lead b in
        65533 :: out ++ utf8_decode_lossy st' rest
  end.

Fixpoint split_first (sep : Z) (s : list Z) : list Z * list Z :=
  match s with
  | [] => ([], [])
  | c :: s' =>
      if c =? sep then ([], s')
      else let '(a, b) := split_first sep s' in (c :: a, b)
  end.

Definition urlencoded_text (bytes : list Z) : jsstring :=
  utf8_decode_lossy (0, 0, 128, 191)
    (percent_decode (List.map (fun c => if c =? 43 then 32 else c) bytes)).

(** The application/x-www-form-urlencoded parser of the URL standard. *)
Definition urlencoded_parse (input : jsstring) : list (jsstring * jsstring) :=
  flat_map (fun seq =>
    match seq with
    | [] => []
    | _ :: _ =>
        let '(n, v) := split_first 61 seq in
        [(urlencoded_text n, urlencoded_text v)]
    end) (split 38 (utf8_of_string input)).

(** [new URLSearchParams(init)] for a string. *)
Definition URLSearchParams (init : jsstring) : list (jsstring * jsstring) :=
  urlencoded_parse
    match init with
    | c :: r => if c =? 63 then r else init
    | [] => []
    end.

Definition URLSearchParams_get (params : list (jsstring * jsstring))
    (name : jsstring) : option jsstring :=
  match List.find (fun p => bool_decide (fst p = name)) params with
  | Some p => Some (snd p)
  | None => None
  end.

(** [getQueryParam(key)] with [window.location.search] as an argument:
    [None] is [null]. *)
Definition getQueryParam (search key : jsstring) : option jsstring :=
  URLSearchParams_get (URLSearchParams search) key.

(** The address the share button copies. *)
Definition share_url (origin_and_path : jsstring) (its : list value) :
    result jsstring :=
  let* b64 := encodeData (VArr its) in
  Return (origin_and_path ++ js "?data=" ++ b64).

(** *** Handlers *)

Definition toast (msg : jsstring) : M unit :=
  let! id := uid in
  setToasts (fun t => t ++ [(id, msg)]).

Definition handleSave : M unit :=
  let! st := get_app in
  let t := trim (title st) in
  if bool_decide (t = []) then alert msg_title_required
  else
    let! now := Date_now in
    let tags :=
      List.filter (fun s => negb (bool_decide (s = [])))
        (List.map trim (split 44 (tagsText st))) in
    (if ToBoolean (editingId st) then
       setItems (fun prev =>
         mapM (fun it =>
           let* i := Get it k_id in
           if strict_eq i (editingId st) then
             Return (VObj (object_literal (spread it)
               [(k_title, VStr t); (k_content, VStr (content st));
                (k_caution, VStr (caution st)); (k_link, VStr (link st));
                (k_tags, VArr (List.map VStr tags));
                (k_updatedAt, VInt now)]))
           else Return it) prev);;
       setSelectedId (editingId st)
     else
       let! id := uid in
       let item := VObj (object_literal []
         [(k_id, VStr id); (k_title, VStr t); (k_content, VStr (content st));
          (k_caution, VStr (caution st)); (k_link, VStr (link st));
          (k_tags, VArr (List.map VStr tags));
          (k_createdAt, VInt now); (k_updatedAt, VInt now)]) in
       setItems (fun prev => Return (item :: prev));;
       setSelectedId (VStr id));;
    setModalOpen false.

(** [handleDelete(item)]; [answer] is what the user replies to the
    confirmation, whose text shows the title. *)
Definition handleDelete (item : value) (answer : bool) : M unit :=
  let! _ := lift (let* t := Get item k_title in ToString t) in
  if negb answer then ret tt
  else
    setItems (fun prev =>
      filterM (fun it =>
        let* a := Get it k_id in
        let* b := Get item k_id in
        Return (negb (strict_eq a b))) prev);;
    let! st := get_app in
    let! i := lift (Get item k_id) in
    if strict_eq (selectedId st) i then setSelectedId VNull else ret tt.

Definition number_or_now (v : value) : M value :=
  let! n := lift (ToNumber v) in
  if num_falsy n then let! now := Date_now in ret (VInt now)
  else ret (VNum n).

(** One record of an imported file, rebuilt field by field. *)
Definition import_record (d : value) : M value :=
  let! i := lift (Get d k_id) in
  let! id := if ToBoolean i then ret i
             else let! u := uid in ret (VStr u) in
  let! t := lift (Get d k_title) in
  let! title := lift (ToString (or_value t (VStr msg_untitled))) in
  let! c := lift (Get d k_content) in
  let! content := lift (ToString (or_value c (VStr []))) in
  let! u := lift (Get d k_caution) in
  let! caution := lift (ToString (or_value u (VStr []))) in
  let! l := lift (Get d k_link) in
  let! link := lift (ToString (or_value l (VStr []))) in
  let! g := lift (Get d k_tags) in
  let! tags := match g with
               | VArr elems => lift (mapM ToString elems)
               | _ => ret []
               end in
  let! ca := lift (Get d k_createdAt) in
  let! createdAt := number_or_now ca in
  let! ua := lift (Get d k_updatedAt) in
  let! updatedAt := number_or_now ua in
  ret (VObj (object_literal []
    [(k_id, id); (k_title, VStr title); (k_content, VStr content);
     (k_caution, VStr caution); (k_link, VStr link);
     (k_tags, VArr (List.map VStr tags));
     (k_createdAt, createdAt); (k_updatedAt, updatedAt)])).

(** The test [d && d.id && d.title] of the import filter. *)
Definition import_keeps (d : value) : result bool :=
  if negb (ToBoolean d) then Return false
  else
    let* i := Get d k_id in
    if negb (ToBoolean i) then Return false
    else let* t := Get d k_title in Return (ToBoolean t).

(** [importJSON(file)] from the moment the file has been read: [text] is
    [reader.result]. *)
Definition importJSON (text : jsstring) : M unit :=
  tryM
    (let! data := lift (JSON.parse text) in
     match data with
     | VArr records =>
         let! kept := lift (filterM import_keeps records) in
         let! safe := mapMM import_record kept in
         setItems (fun _ => Return safe);;
         toast msg_import_done
     | _ => lift (Throw (Error msg_format_error))
     end)
    (fun _ => alert msg_import_failed).

(** The effect that runs once after mounting: [search] is
    [window.location.search], [answer] the reply to the confirmation. The
    address bar, which the effect tidies at the end, is not modelled. *)
Definition shareLinkEffect (search : jsstring) (answer : bool) : M unit :=
  match getQueryParam search (js "data") with
  | None => ret tt
  | Some q =>
      if bool_decide (q = []) then ret tt
      else
        tryM
          (let! incoming := lift (decodeData q) in
           match incoming with
           | VArr l => if answer then setItems (fun _ => Return l) else ret tt
           | _ => ret tt
           end)
          (fun _ => ret tt)
  end.

(** The button that loads from a pasted link: [raw] is the reply to the
    prompt ([None] when dismissed). *)
Definition loadFromLink (raw : option jsstring) (answer : bool) : M unit :=
  match raw with
  | None => ret tt
  | Some text =>
      if bool_decide (text = []) then ret tt
      else
        tryM
          (let! search := lift (URL_search text) in
           match getQueryParam search (js "data") with
           | None => alert msg_bad_link
           | Some d =>
               if bool_decide (d = []) then alert msg_bad_link
               else
                 let! incoming := lift (decodeData d) in
                 match incoming with
                 | VArr l =>
                     if answer then setItems (fun _ => Return l) else ret tt
                 | _ => alert msg_bad_data
                 end
           end)
          (fun _ => alert msg_link_error)
  end.

End Program.

(** ** The data model: what counts as an item *)

(** The value of property [k] of [v], [undefined] when there is none. *)
Definition field (k : jsstring) (v : value) : value :=
  match v with
  | VObj o => default VUndef (lookup_prop k o)
  | _ => VUndef
  end.

Definition is_text (v : value) : bool :=
  match v with VStr _ => true | _ => false end.

Definition is_optional_text (v : value) : bool :=
  match v with VUndef | VStr _ => true | _ => false end.

Definition is_integer (v : value) : bool :=
  match v with
  | VNum (Fin q) => num_is_integer q
  | _ => false
  end.

Definition is_optional_time (v : value) : bool :=
  match v with VUndef => true | _ => is_integer v end.

Definition is_optional_tags (v : value) : bool :=
  match v with
  | VUndef => true
  | VArr l => forallb is_text l
  | _ => false
  end.

(** An item of section 3 of the specification: an object whose [id] is
    a non-empty string, whose [title] is a string, whose [content],
    [caution] and [link] are strings when present, whose [tags] are a
    sequence of strings when present, and whose timestamps are integers
    when present. *)
Definition is_item (v : value) : bool :=
  match v with
  | VObj _ =>
      match field k_id v with
      | VStr (_ :: _) => true
      | _ => false
      end
      && is_text (field k_title v)
      && is_optional_text (field k_content v)
      && is_optional_text (field k_caution v)
      && is_optional_text (field k_link v)
      && is_optional_tags (field k_tags v)
      && is_optional_time (field k_createdAt v)
      && is_optional_time (field k_updatedAt v)
  | _ => false
  end.

(** The text of a field, empty when the field is missing. *)
Definition text_of (v : value) : jsstring :=
  match v with VStr s => s | _ => [] end.

Definition tags_of (v : value) : list jsstring :=
  match field k_tags v with
  | VArr l => List.map text_of l
  | _ => []
  end.

(** The integer a timestamp field holds, [0] when the field is missing. *)
Definition time_of (k : jsstring) (v : value) : Z :=
  match field k v with
  | VNum (Fin q) => Qnum (this q)
  | _ => 0
  end.

Definition id_of (v : value) : jsstring := text_of (field k_id v).

Definition MAX_SAFE_INTEGER : Z := 2 ^ 53 - 1.

(** ** An engine and an environment to run examples with *)

Fixpoint from_unit (c0 : Z) (s : jsstring) : jsstring :=
  match s with
  | [] => []
  | c :: r => if c =? c0 then s else from_unit c0 r
  end.

(** Exact where the definitions above are; where they leave the engine
    a choice (non-ASCII case mapping, collation, numerals that are no
    plain integers) it makes a simple one. *)
Definition example_engine : Engine := {|
  Number_toString_other := fun _ => js "0";
  StringToNumber := fun s =>
    match trim s with
    | [] => num_of_Z 0
    | c :: r => if forallb is_digit (c :: r)
                then num_of_Z (JSON.digits_value (c :: r)) else NaN
    end;
  toLowerCase_other := fun s => s;
  toUpperCase_other := fun s => s;
  localeCompare_ko := fun _ _ => num_of_Z 0;
  URL_search := fun s => Return (from_unit 63 s)
|}.

(** A clock that advances by a millisecond per reading and a random
    source that keeps giving the same digits. *)
Definition example_env : Env := {|
  Date_now_at := fun n => 1700000000000 + Z.of_nat n;
  Math_random_at := fun _ => js "0.4fzyo82mvyr"
|}.

Definition empty_app : App := {|
  items := []; query := []; sortKey := ByUpdatedAt; selectedId := VNull;
  modalOpen := false; editingId := VNull; title := []; content := [];
  caution := []; link := []; tagsText := []; toasts := []
|}.

Definition world_of (st : App) : World :=
  {| app := st; ticks := 0; draws := 0; alerts := [] |}.

(** ** The operations of the item store, as the interface performs them *)

(** What the user types into the form. *)
Record Fields : Type := {
  f_title : jsstring;
  f_content : jsstring;
  f_caution : jsstring;
  f_link : jsstring;
  f_tagsText : jsstring
}.

(** The open form, holding [f], for a new item ([editing] is [null]) or
    for the item whose id is [editing]. *)
Definition with_form (f : Fields) (editing : value) (w : World) : World :=
  let st := app w in
  {| app := {| items := items st; query := query st; sortKey := sortKey st;
               selectedId := selectedId st; modalOpen := true;
               editingId := editing; title := f_title f;
               content := f_content f; caution := f_caution f;
               link := f_link f; tagsText := f_tagsText f;
               toasts := toasts st |};
     ticks := ticks w; draws := draws w; alerts := alerts w |}.

Section Operations.
Context `{Engine} (env : Env).

(** [create(fields)]: the form is opened empty, filled and saved. *)
Definition create (f : Fields) (w : World) : result unit * World :=
  handleSave env (with_form f VNull w).

(** [update(id, fields)]: the form is opened on the item, changed and
    saved. *)
Definition update (id : jsstring) (f : Fields) (w : World) :
    result unit * World :=
  handleSave env (with_form f (VStr id) w).

(** [delete(id)], for the item [item] that carries the id, once the user
    has confirmed. *)
Definition delete (item : value) (w : World) : result unit * World :=
  handleDelete item true w.

End Operations.

(** The item [handleSave] builds. *)
Definition new_item (id title content caution link : jsstring)
    (tags : list jsstring) (createdAt updatedAt : Z) : value :=
  VObj [(k_id, VStr id); (k_title, VStr title); (k_content, VStr content);
        (k_caution, VStr caution); (k_link, VStr link);
        (k_tags, VArr (List.map VStr tags));
        (k_createdAt, VInt createdAt); (k_updatedAt, VInt updatedAt)].

(** Tags as section 4.4 wants them: split at commas, each segment
    trimmed, empty segments dropped. *)
Definition normalized_tags (tagsText : jsstring) : list jsstring :=
  List.filter (fun s => negb (bool_decide (s = [])))
    (List.map trim (split 44 tagsText)).

(** An operation signals an error when it throws or shows an alert. *)
Definition signals_error {A} (before : World) (outcome : result A * World) :
    Prop :=
  (exists e, fst outcome = Throw e) \/ alerts (snd outcome) <> alerts before.

(** The id [uid] mints when the clock is read for the [at_tick]-th
    time: that reading in base 36, then the third to eighth character of
    the random numeral, all in upper case. *)
Definition minted_id `{Engine} (env : Env) (at_tick : nat) (w : World) :
    jsstring :=
  toUpperCase (Z_toString 36 (Date_now_at env at_tick)
               ++ slice (Math_random_at env (draws w)) 2 8).

(** What [handleSave] makes of one item of the list in edit mode. *)
Definition edited (st : App) (now : Z) (it : value) : value :=
  if bool_decide (id_of it = text_of (editingId st)) then
    VObj (object_literal (spread it)
      [(k_title, VStr (trim (title st))); (k_content, VStr (content st));
       (k_caution, VStr (caution st)); (k_link, VStr (link st));
       (k_tags, VArr (List.map VStr (normalized_tags (tagsText st))));
       (k_updatedAt, VInt now)])
  else it.

(** ** Example data *)

Definition shoulder_stretch : value :=
  new_item (js "LOYW3V294FZYO8") (js "Shoulder Stretch") (js "Hold 10 s")
    [] [] [js "shoulder"] 1700000000000 1700000005000.

Definition knee_bend : value :=
  new_item (js "LOYW3V2A7QRSTU") (js "Knee Bend") [] (js "stop if it hurts")
    [] [] 1700000001000 1700000001000.

Definition two_items : World :=
  world_of {| items := [shoulder_stretch; knee_bend]; query := [];
              sortKey := ByUpdatedAt; selectedId := VNull;
              modalOpen := false; editingId := VNull; title := [];
              content := []; caution := []; link := []; tagsText := [];
              toasts := [] |}.

Definition neck_tilt_form : Fields :=
  {| f_title := js "Neck Tilt"; f_content := js "slowly"; f_caution := [];
     f_link := []; f_tagsText := js "neck, , stretch" |}.

(** An item that is not in [two_items]. *)
Definition stranger : value :=
  new_item (js "NOSUCHID") (js "Plank") [] [] [] [] 1 1.

(** ** The list view, in the words of the specification *)

Fixpoint join_strings (sep : jsstring) (l : list jsstring) : jsstring :=
  match l with
  | [] => []
  | [x] => x
  | x :: l' => x ++ sep ++ join_strings sep l'
  end.

(** Title, content, caution and the tags joined by spaces, one after
    the other, each on a line of its own. *)
Definition searchable_text (it : value) : jsstring :=
  text_of (field k_title it) ++ 10 :: text_of (field k_content it)
  ++ 10 :: text_of (field k_caution it)
  ++ 10 :: join_strings (js " ") (tags_of it).

(** The same four texts put together with nothing in between. *)
Definition concatenated_text (it : value) : jsstring :=
  text_of (field k_title it) ++ text_of (field k_content it)
  ++ text_of (field k_caution it) ++ join_strings (js " ") (tags_of it).

(** [needle] occurs in [hay] when case is ignored. *)
Definition occurs_ignoring_case `{Engine} (needle hay : jsstring) : bool :=
  includes (toLowerCase hay) (toLowerCase needle).

(** Insertion into a list that descends by [key], before the first
    element whose key is not greater. *)
Fixpoint insert_desc (key : value -> Z) (x : value) (l : list value) :
    list value :=
  match l with
  | [] => [x]
  | y :: l' => if key x <? key y then y :: insert_desc key x l' else x :: l
  end.

Fixpoint sort_desc (key : value -> Z) (l : list value) : list value :=
  match l with
  | [] => []
  | x :: l' => insert_desc key x (sort_desc key l')
  end.

(** A heap with the example list at address 1. *)
Definition example_heap : heap := {[ 1%positive := [knee_bend; shoulder_stretch] ]}.

(** An item whose title and content meet at "b" and "c". *)
Definition abcd : value :=
  new_item (js "X1") (js "ab") (js "cd") [] [] [] 1 1.

(** ** Histories of the store *)

Definition clock_never_runs_back (env : Env) : Prop :=
  forall n m : nat, (n <= m)%nat -> Date_now_at env n <= Date_now_at env m.

(** An item whose timestamps are integers, the update not before the
    creation and the creation not after [now]. *)
Definition ordered_before (now : Z) (v : value) : Prop :=
  exists c u : Z,
    field k_createdAt v = VInt c /\ field k_updatedAt v = VInt u /\
    c <= u /\ c <= now.

(** Every item of the list is so, [now] being the next reading of the
    clock. *)
Definition timestamps_ordered (env : Env) (w : World) : Prop :=
  Forall (ordered_before (Date_now_at env (ticks w))) (items (app w)).

Section Histories.
Context `{Engine} (env : Env).

(** One operation on the store. An import or a share link counts when
    the list it leaves has ordered timestamps, none of them created
    after the next reading of the clock. *)
Inductive step : World -> World -> Prop :=
| step_create (f : Fields) (w : World) :
    step w (snd (create env f w))
| step_update (id : jsstring) (f : Fields) (w : World) :
    step w (snd (update env id f w))
| step_delete (item : value) (answer : bool) (w : World) :
    step w (snd (handleDelete item answer w))
| step_import (text : jsstring) (w : World) :
    timestamps_ordered env (snd (importJSON env text w)) ->
    step w (snd (importJSON env text w))
| step_share_link (search : jsstring) (answer : bool) (w : World) :
    timestamps_ordered env (snd (shareLinkEffect search answer w)) ->
    step w (snd (shareLinkEffect search answer w))
| step_load_link (raw : option jsstring) (answer : bool) (w : World) :
    timestamps_ordered env (snd (loadFromLink raw answer w)) ->
    step w (snd (loadFromLink raw answer w)).

(** The states the store goes through, from an empty list on. *)
Inductive reachable : World -> Prop :=
| reachable_empty (w : World) : items (app w) = [] -> reachable w
| reachable_step (w w' : World) : reachable w -> step w w' -> reachable w'.

End Histories.

(** ** Ingestion, in the words of the specification *)

(** JSON text written with ['] in the place of the double quote. *)
Definition json_text (s : string) : jsstring :=
  List.map (fun c => if c =? 39 then 34 else c) (js s).

(** Values that [String] and [Number] can convert: no object with a
    property [toString] of its own, at any depth that [join] reaches. *)
Fixpoint printable (v : value) : bool :=
  match v with
  | VArr l => forallb printable l
  | VObj o =>
      match lookup_prop (js "toString") o with
      | Some _ => false
      | None => true
      end
  | _ => true
  end.

(** The fields of a record that [importJSON] converts are printable. *)
Definition record_converts (d : value) : bool :=
  printable (field k_title d) && printable (field k_content d)
  && printable (field k_caution d) && printable (field k_link d)
  && match field k_tags d with
     | VArr l => forallb printable l
     | _ => true
     end
  && printable (field k_createdAt d) && printable (field k_updatedAt d).

(** The records an import keeps: those that are truthy and have a truthy
    [id] and a truthy [title]. *)
Definition import_kept (d : value) : bool :=
  ToBoolean d && ToBoolean (field k_id d) && ToBoolean (field k_title d).

Definition is_number (v : value) : bool :=
  match v with
  | VNum NaN => false
  | VNum _ => true
  | _ => false
  end.

(** A record with the declared types: texts for title, content, caution
    and link, a sequence of texts for the tags, numbers for the
    timestamps. *)
Definition is_sanitized (v : value) : bool :=
  is_text (field k_title v) && is_text (field k_content v)
  && is_text (field k_caution v) && is_text (field k_link v)
  && match field k_tags v with
     | VArr l => forallb is_text l
     | _ => false
     end
  && is_number (field k_createdAt v) && is_number (field k_updatedAt v).

(** What [String(v)] and [Number(v)] give, where they give something. *)
Definition string_of `{Engine} (v : value) : jsstring :=
  match ToString v with
  | Return s => s
  | Throw _ => []
  end.

Definition number_of `{Engine} (v : value) : number :=
  match ToNumber v with
  | Return n => n
  | Throw _ => NaN
  end.

(** A timestamp field counts as unset when [Number] makes NaN or zero
    of it, which is so for a field that is missing or holds [0]. *)
Definition unset_time `{Engine} (x : value) : bool := num_falsy (number_of x).

(** The timestamp an import gives a record: the number of the field, or
    the reading [now] of the clock for an unset one. *)
Definition timestamp_or_now `{Engine} (now : Z) (x : value) : value :=
  if unset_time x then VInt now else VNum (number_of x).

(** How often the clock has been read after the timestamp [x] of a
    record, when it had been read [n] times before: an unset timestamp
    costs one reading. *)
Definition tick_after `{Engine} (n : nat) (x : value) : nat :=
  if unset_time x then S n else n.

(** The item an import makes of a record [d] that it keeps: the [id] as
    it is, the texts through [String] (an empty text for a falsy
    content, caution or link), the tags through [String] one by one
    when they are an array and none otherwise, the timestamps through
    [Number], with [now_c] and [now_u] for an unset [createdAt] and
    [updatedAt]. *)
Definition sanitized `{Engine} (d : value) (now_c now_u : Z) : value :=
  VObj [(k_id, field k_id d);
        (k_title, VStr (string_of (field k_title d)));
        (k_content, VStr (string_of (or_value (field k_content d) (VStr []))));
        (k_caution, VStr (string_of (or_value (field k_caution d) (VStr []))));
        (k_link, VStr (string_of (or_value (field k_link d) (VStr []))));
        (k_tags, VArr match field k_tags d with
                      | VArr l => List.map (fun x => VStr (string_of x)) l
                      | _ => []
                      end);
        (k_createdAt, timestamp_or_now now_c (field k_createdAt d));
        (k_updatedAt, timestamp_or_now now_u (field k_updatedAt d))].

(** The items an import makes of the records [l] it keeps, one after
    the other, when the clock has been read [n] times before. *)
Fixpoint sanitized_records `{Engine} (env : Env) (n : nat) (l : list value) :
    list value :=
  match l with
  | [] => []
  | d :: l' =>
      let n1 := tick_after n (field k_createdAt d) in
      let n2 := tick_after n1 (field k_updatedAt d) in
      sanitized d (Date_now_at env n) (Date_now_at env n1)
      :: sanitized_records env n2 l'
  end.

Fixpoint ticks_after `{Engine} (n : nat) (l : list value) : nat :=
  match l with
  | [] => n
  | d :: l' =>
      ticks_after
        (tick_after (tick_after n (field k_createdAt d)) (field k_updatedAt d)) l'
  end.

(** Field [k] of the record [d] is missing or zero, and the item [v]
    has in its place a reading of the clock, the [n]-th for an [n] from
    [lo] on and below [hi]. *)
Definition defaulted_to_clock (env : Env) (lo hi : nat) (k : jsstring)
    (d v : value) : Prop :=
  field k d = VUndef \/ field k d = VInt 0 ->
  exists n : nat, (lo <= n < hi)%nat /\ field k v = VInt (Date_now_at env n).

(** A decoded share link with a record that has an [id] and nothing else. *)
Definition bare_record : value := VObj [(k_id, VStr (js "x"))].
Definition bare_token : jsstring := js "W3siaWQiOiJ4In1d".

(** A file whose only record is dated in the future, created and
    updated at one moment. *)
Definition future_dated_file : jsstring :=
  json_text "[{'id':'x','title':'t','createdAt':9999999999999,'updatedAt':9999999999999}]".

(** A file whose only record was updated before it was created. *)
Definition backdated_file : jsstring :=
  json_text "[{'id':'x','title':'t','createdAt':5,'updatedAt':3}]".

(** The same record as a share link. *)
Definition backdated_token : jsstring :=
  js "W3siaWQiOiJ4IiwidGl0bGUiOiJ0IiwiY3JlYXRlZEF0Ijo1LCJ1cGRhdGVkQXQiOjN9XQ==".

(** A file with four entries, one of them a complete record. *)
Definition mixed_file : jsstring :=
  json_text "[{'id':'x'},{'id':5,'title':'ok','tags':[1,null,'a'],'createdAt':'12'},null,7]".

Definition mixed_records : list value :=
  match JSON.parse mixed_file with
  | Return (VArr l) => l
  | _ => []
  end.

(** A file whose second record has a title that cannot be converted. *)
Definition unprintable_file : jsstring :=
  json_text "[{'id':'a','title':'ok'},{'id':'b','title':{'toString':1}}]".

Definition bare_link : jsstring := js "https://example.org/exercise-guide/?data=" ++ bare_token.

(** A clock that steps back by a millisecond at every reading. *)
Definition backward_env : Env := {|
  Date_now_at := fun n => 1700000000000 - Z.of_nat n;
  Math_random_at := fun _ => js "0.4fzyo82mvyr"
|}.

Definition fresh_world : World := world_of empty_app.

(** ** Auxiliary notions for the codec *)

(** The sextets [btoa] writes, before padding. *)
Fixpoint sextets_of (bytes : list Z) : list Z :=
  match bytes with
  | [] => []
  | [a] => [a / 4; a mod 4 * 16]
  | [a; b] => [a / 4; a mod 4 * 16 + b / 16; b mod 16 * 4]
  | a :: b :: c :: rest =>
      a / 4 :: (a mod 4 * 16 + b / 16) :: (b mod 16 * 4 + c / 64) :: c mod 64
      :: sextets_of rest
  end.

Definition padding_of (bytes : list Z) : jsstring :=
  match (length bytes mod 3)%nat with
  | 1%nat => [61; 61]
  | 2%nat => [61]
  | _ => []
  end.

Definition is_byte (b : Z) : Prop := 0 <= b < 256.

(** A string without unpaired surrogates. *)
Inductive well_formed : jsstring -> Prop :=
| wf_nil : well_formed []
| wf_unit (c : Z) (s : jsstring) :
    0 <= c < 65536 -> is_high_surrogate c = false ->
    is_low_surrogate c = false -> well_formed s -> well_formed (c :: s)
| wf_pair (h l : Z) (s : jsstring) :
    is_high_surrogate h = true -> is_low_surrogate l = true ->
    well_formed s -> well_formed (h :: l :: s).

Definition is_code_unit (c : Z) : bool := in_range 0 65535 c.

(** In the enumeration order of an object, [k'] may come after [k]:
    array indices first, in ascending order, and no name twice. *)
Definition may_follow (k k' : jsstring) : bool :=
  negb (bool_decide (k = k')) &&
  match array_index k', array_index k with
  | Some i', Some i => i <? i'
  | Some _, None => false
  | None, _ => true
  end.

Fixpoint enumeration_order (ks : list jsstring) : bool :=
  match ks with
  | [] => true
  | k :: r => forallb (may_follow k) r && enumeration_order r
  end.

(** The values that JSON text holds exactly: no [undefined], numbers
    that are integers within the safe range, strings of code units,
    objects with their properties in enumeration order. *)
Fixpoint storable (v : value) : bool :=
  match v with
  | VUndef => false
  | VNull | VBool _ => true
  | VNum (Fin q) =>
      num_is_integer q && (Z.abs (Qnum (this q)) <=? MAX_SAFE_INTEGER)
  | VNum _ => false
  | VStr s => forallb is_code_unit s
  | VArr l => forallb storable l
  | VObj o =>
      forallb (fun kv => match kv with
                         | (k, x) => forallb is_code_unit k && storable x
                         end) o
      && enumeration_order (List.map fst o)
  end.

(** The text after a JSON value inside the text of another: nothing, or
    a comma or closing bracket. *)
Definition delimited (rest : jsstring) : Prop :=
  match rest with
  | [] => True
  | c :: _ => c = 44 \/ c = 93 \/ c = 125
  end.

(** An item with Korean text, a symbol outside the basic plane and half
    of a surrogate pair. *)
Definition unicode_item : value :=
  new_item (js "LOYW3V2B000001") [50612; 44648; 32; 49828; 53944; 47112; 52845]
    [55357; 56490; 32; 55357] (js "a>b") [] [[51116; 54876]; js "x y"]
    1700000002000 1700000003000.

(** The text of an array element and the texts of the members of an
    object, as [JSON.serialize] writes them. *)
Definition element_text `{Engine} (x : value) : jsstring :=
  default (js "null") (JSON.serialize x).

Fixpoint member_texts `{Engine} (o : object) : list jsstring :=
  match o with
  | [] => []
  | (k, x) :: o' =>
      match JSON.serialize x with
      | Some t => (JSON.QuoteJSONString k ++ 58 :: t) :: member_texts o'
      | None => member_texts o'
      end
  end.

(** The first character of the text of a value: no white space and no
    closing bracket. *)
Definition starts_value (t : jsstring) : Prop :=
  match t with
  | c :: _ => JSON.is_ws c = false /\ c <> 93 /\ c <> 125
  | [] => False
  end.

(** What the round trip needs of a value [v]: it has a text, the text
    has no unpaired surrogate, and the parser reads [v] back from it. *)
Definition reads_back `{Engine} (v : value) : Prop :=
  storable v = true ->
  exists t,
    JSON.serialize v = Some t /\
    well_formed t /\
    starts_value t /\
    forall fuel rest,
      (length t <= fuel)%nat -> delimited rest ->
      JSON.parse_value fuel (t ++ rest) = Some (v, rest).

(** A member of a storable object. *)
Definition member_storable (kv : jsstring * value) : bool :=
  match kv with
  | (k, x) => forallb is_code_unit k && storable x
  end.

(** The characters [btoa] writes. *)
Definition base64_character (c : Z) : bool :=
  is_alnum c || (c =? 43) || (c =? 47) || (c =? 61).

(** An item with the Korean word for a squat as its title. *)
Definition squat : value :=
  new_item (js "LOYW3V2C000002") [49828; 53244; 53944] [] [] [] []
    1700000004000 1700000004000.

Definition squat_token : jsstring :=
  js "W3siaWQiOiJMT1lXM1YyQzAwMDAwMiIsInRpdGxlIjoi7Iqk7L+87Yq4IiwiY29udGVudCI6IiIsImNhdXRpb24iOiIiLCJsaW5rIjoiIiwidGFncyI6W10sImNyZWF0ZWRBdCI6MTcwMDAwMDAwNDAwMCwidXBkYXRlZEF0IjoxNzAwMDAwMDA0MDAwfV0=".

(** ** The rest of the component *)

(** *** Saving *)

(** The DOMException a full storage answers [setItem] with; the program
    does not look at it. *)
Definition QuotaExceededError : exn := Error (js "QuotaExceededError").

(** [localStorage.setItem(k, v)]. Whether the new entry fits is for the
    user agent to say: [fits] judges the entries the call would leave. *)
Definition setItem (fits : gmap jsstring jsstring -> bool) (st : Storage)
    (k v : jsstring) : result Storage :=
  match st with
  | Denied => Throw SecurityError
  | Granted entries =>
      if fits (<[k := v]> entries) then Return (Granted (<[k := v]> entries))
      else Throw QuotaExceededError
  end.

Section Saving.
Context `{Engine}.

(** [saveData(list)]: the storage it leaves. *)
Definition saveData (fits : gmap jsstring jsstring -> bool) (list : value)
    (st : Storage) : Storage :=
  match
    try_catch
      (let* text := ToString (JSON.stringify list) in
       let* st' := setItem fits st STORAGE_KEY text in
       Return st')
      (fun _ => Return st)
  with
  | Return st' => st'
  | Throw _ => st
  end.

End Saving.

(** *** The selected item *)

(** [Array.prototype.find]: the first element the predicate accepts,
    [undefined] when there is none. *)
Fixpoint Array_find (f : value -> result bool) (l : list value) : result value :=
  match l with
  | [] => Return VUndef
  | x :: l' => let* b := f x in if b then Return x else Array_find f l'
  end.

(** The memoised value [selected]. *)
Definition selected (st : App) : result value :=
  let* found :=
    Array_find (fun it =>
      let* i := Get it k_id in Return (strict_eq i (selectedId st))) (items st) in
  Return (or_value found VNull).

(** *** The form *)

Definition setEditingId (v : value) : M unit :=
  set_app (fun st =>
    {| items := items st; query := query st; sortKey := sortKey st;
       selectedId := selectedId st; modalOpen := modalOpen st;
       editingId := v; title := title st; content := content st;
       caution := caution st; link := link st; tagsText := tagsText st;
       toasts := toasts st |}).

Definition setTitle (s : jsstring) : M unit :=
  set_app (fun st =>
    {| items := items st; query := query st; sortKey := sortKey st;
       selectedId := selectedId st; modalOpen := modalOpen st;
       editingId := editingId st; title := s; content := content st;
       caution := caution st; link := link st; tagsText := tagsText st;
       toasts := toasts st |}).

Definition setContent (s : jsstring) : M unit :=
  set_app (fun st =>
    {| items := items st; query := query st; sortKey := sortKey st;
       selectedId := selectedId st; modalOpen := modalOpen st;
       editingId := editingId st; title := title st; content := s;
       caution := caution st; link := link st; tagsText := tagsText st;
       toasts := toasts st |}).

Definition setCaution (s : jsstring) : M unit :=
  set_app (fun st =>
    {| items := items st; query := query st; sortKey := sortKey st;
       selectedId := selectedId st; modalOpen := modalOpen st;
       editingId := editingId st; title := title st; content := content st;
       caution := s; link := link st; tagsText := tagsText st;
       toasts := toasts st |}).

Definition setLink (s : jsstring) : M unit :=
  set_app (fun st =>
    {| items := items st; query := query st; sortKey := sortKey st;
       selectedId := selectedId st; modalOpen := modalOpen st;
       editingId := editingId st; title := title st; content := content st;
       caution := caution st; link := s; tagsText := tagsText st;
       toasts := toasts st |}).

Definition setTagsText (s : jsstring) : M unit :=
  set_app (fun st =>
    {| items := items st; query := query st; sortKey := sortKey st;
       selectedId := selectedId st; modalOpen := modalOpen st;
       editingId := editingId st; title := title st; content := content st;
       caution := caution st; link := link st; tagsText := s;
       toasts := toasts st |}).

Definition resetForm : M unit :=
  setEditingId VNull;; setTitle [];; setContent [];; setCaution [];;
  setLink [];; setTagsText [].

Definition openAdd : M unit := resetForm;; setModalOpen true.

(** What [v || ""] hands to the setter of a text field, when it is a
    string. *)
Definition form_text (v : value) : option jsstring :=
  match or_value v (VStr []) with
  | VStr s => Some s
  | _ => None
  end.

Section Form.
Context `{Engine}.

(** [openEdit(item)]. The form fields of [App] hold strings. An item
    whose title, content, caution or link is neither falsy nor a string
    would put another kind of value there: that state is outside this
    model, and the answer is [None]. *)
Definition openEdit (item : value) : option (M unit) :=
  match form_text (field k_title item), form_text (field k_content item),
        form_text (field k_caution item), form_text (field k_link item) with
  | Some t, Some c, Some u, Some l =>
      Some (let! i := lift (Get item k_id) in
            setEditingId i;;
            setTitle t;; setContent c;; setCaution u;; setLink l;;
            let! g := lift (Get item k_tags) in
            let! ts := lift (join (or_value g (VArr [])) (js ", ")) in
            setTagsText ts;;
            setModalOpen true)
  | _, _, _, _ => None
  end.

End Form.

(** *** Toasts *)

(** The callback that [toast] leaves with the timer for the toast [id]. *)
Definition expireToast (id : jsstring) : M unit :=
  setToasts (List.filter (fun x => negb (bool_decide (fst x = id)))).

(** *** The text to copy *)

Definition pin_prefix : jsstring := [55357; 56524; 32].
Definition content_heading : jsstring :=
  [10; 50868; 46041; 32; 49444; 47749; 10].
Definition caution_heading : jsstring :=
  [10; 9888; 65039; 32; 51452; 51032; 49324; 54637; 10].
Definition link_heading : jsstring :=
  [10; 55357; 56599; 32; 52280; 44256; 32; 47553; 53356; 10].

(** [v.length] for a value that is not [null] or [undefined]. *)
Definition length_of (v : value) : value :=
  match v with
  | VArr l => VInt (Z.of_nat (length l))
  | VStr s => VInt (Z.of_nat (length s))
  | VObj o => default VUndef (lookup_prop (js "length") o)
  | _ => VUndef
  end.

Section ShareText.
Context `{Engine}.

(** [if (v) lines.push(heading + v)] *)
Definition push_section (heading : jsstring) (v : value)
    (lines : list jsstring) : result (list jsstring) :=
  if ToBoolean v then
    let* s := ToString v in Return (lines ++ [heading ++ s])
  else Return lines.

Definition buildShareText (item : value) : result jsstring :=
  let* t := Get item k_title in
  let* ts := ToString t in
  let lines := [pin_prefix ++ ts] in
  let* c := Get item k_content in
  let* lines := push_section content_heading c lines in
  let* u := Get item k_caution in
  let* lines := push_section caution_heading u lines in
  let* l := Get item k_link in
  let* lines := push_section link_heading l lines in
  let* g := Get item k_tags in
  let* lines :=
    if ToBoolean g && ToBoolean (length_of g) then
      let* gs := join g [32; 35] in Return (lines ++ [[10; 35] ++ gs])
    else Return lines in
  Return (join_strings [10] lines).

End ShareText.

(** ** The rest of the component, in plain terms *)

(** A character that a query string carries as it is: ASCII, and none
    of [&], [+] and [%]. *)
Definition query_plain (c : Z) : bool :=
  is_ascii c && negb (c =? 38) && negb (c =? 43) && negb (c =? 37).

(** A field of an item as the copied text shows it: nothing when the
    field is empty, else a blank line, the heading and the text. *)
Definition share_section (heading text : jsstring) : jsstring :=
  match text with
  | [] => []
  | _ :: _ => 10 :: heading ++ text
  end.

Definition share_tags (tags : list jsstring) : jsstring :=
  match tags with
  | [] => []
  | _ :: _ => 10 :: 10 :: 35 :: join_strings [32; 35] tags
  end.

(** The token of the list that holds [knee_bend] alone. *)
Definition knee_token : jsstring :=
  Eval vm_compute in
    match @encodeData example_engine (VArr [knee_bend]) with
    | Return t => t
    | Throw _ => []
    end.

(** The example list with its second item selected. *)
Definition knee_selected : World :=
  snd (setSelectedId (VStr (js "LOYW3V2A7QRSTU")) two_items).

(** Titles compared code unit by code unit. *)
Fixpoint compare_units (a b : jsstring) : comparison :=
  match a, b with
  | [], [] => Eq
  | [], _ :: _ => Lt
  | _ :: _, [] => Gt
  | x :: a', y :: b' =>
      match x ?= y with
      | Eq => compare_units a' b'
      | c => c
      end
  end.

(** The example engine with that order for its collation. *)
Definition ordinal_engine : Engine := {|
  Number_toString_other := @Number_toString_other example_engine;
  StringToNumber := @StringToNumber example_engine;
  toLowerCase_other := @toLowerCase_other example_engine;
  toUpperCase_other := @toUpperCase_other example_engine;
  localeCompare_ko := fun a b =>
    match compare_units a b with
    | Lt => num_of_Z (-1)
    | Eq => num_of_Z 0
    | Gt => num_of_Z 1
    end;
  URL_search := @URL_search example_engine
|}.

(** The example list as an array at address 1. *)
Definition items_heap : heap :=
  {[ 1%positive := [shoulder_stretch; knee_bend] ]}.

(** ** Exporting *)

Section Exporting.
Context `{Engine}.

(** SerializeJSONProperty without replacer and with a gap that is not
    empty; [indent] is the indentation reached. An array or object
    without content is written on one line. *)
Fixpoint serialize_indented (gap indent : jsstring) (v : value) :
    option jsstring :=
  match v with
  | VArr l =>
      let inner := indent ++ gap in
      let elems :=
        (fix go (l : list value) : list jsstring :=
           match l with
           | [] => []
           | x :: l' =>
               default (js "null") (serialize_indented gap inner x) :: go l'
           end) l in
      match elems with
      | [] => Some (js "[]")
      | _ :: _ =>
          Some (91 :: 10 :: inner ++ join_strings (44 :: 10 :: inner) elems
                ++ 10 :: indent ++ [93])
      end
  | VObj o =>
      let inner := indent ++ gap in
      let members :=
        (fix go (o : object) : list jsstring :=
           match o with
           | [] => []
           | (k, x) :: o' =>
               match serialize_indented gap inner x with
               | Some t => (JSON.QuoteJSONString k ++ 58 :: 32 :: t) :: go o'
               | None => go o'
               end
           end) o in
      match members with
      | [] => Some (js "{}")
      | _ :: _ =>
          Some (123 :: 10 :: inner ++ join_strings (44 :: 10 :: inner) members
                ++ 10 :: indent ++ [125])
      end
  | _ => JSON.serialize v
  end.

(** [JSON.stringify(v, null, 2)] *)
Definition stringify_2 (v : value) : value :=
  match serialize_indented [32; 32] [] v with
  | Some t => VStr t
  | None => VUndef
  end.

(** The text that [exportJSON] puts into the file it offers. *)
Definition export_text (items : list value) : value :=
  stringify_2 (VArr items).

Definition element_text_in (gap inner : jsstring) (x : value) : jsstring :=
  default (js "null") (serialize_indented gap inner x).

Fixpoint member_texts_in (gap inner : jsstring) (o : object) : list jsstring :=
  match o with
  | [] => []
  | (k, x) :: o' =>
      match serialize_indented gap inner x with
      | Some t => (JSON.QuoteJSONString k ++ 58 :: 32 :: t) :: member_texts_in gap inner o'
      | None => member_texts_in gap inner o'
      end
  end.

End Exporting.

(** The text after a value inside an indented text: nothing, a comma, a
    closing bracket or a line break. *)
Definition followed (rest : jsstring) : Prop :=
  match rest with
  | [] => True
  | c :: _ => c = 44 \/ c = 93 \/ c = 125 \/ c = 10
  end.

Definition blank (s : jsstring) : Prop := Forall (fun c => JSON.is_ws c = true) s.

(** What the round trip through an indented text needs of [v]: at every
    indentation it has a text, and the parser reads [v] back from it. *)
Definition reads_back_indented `{Engine} (gap : jsstring) (v : value) : Prop :=
  storable v = true ->
  forall indent, blank indent ->
  exists t,
    serialize_indented gap indent v = Some t /\
    starts_value t /\
    forall fuel rest,
      (length t <= fuel)%nat -> followed rest ->
      JSON.parse_value fuel (t ++ rest) = Some (v, rest).

(** What [create] writes down for an item. *)
Record ItemData : Type := {
  d_id : jsstring;
  d_title : jsstring;
  d_content : jsstring;
  d_caution : jsstring;
  d_link : jsstring;
  d_tags : list jsstring;
  d_createdAt : Z;
  d_updatedAt : Z
}.

Definition item_of (d : ItemData) : value :=
  new_item (d_id d) (d_title d) (d_content d) (d_caution d) (d_link d)
    (d_tags d) (d_createdAt d) (d_updatedAt d).

(** Data that an export and an import can carry: texts of code units,
    an id and a title that are not empty, timestamps that are safe
    integers other than zero. *)
Definition exportable (d : ItemData) : bool :=
  negb (bool_decide (d_id d = [])) && negb (bool_decide (d_title d = []))
  && forallb is_code_unit (d_id d) && forallb is_code_unit (d_title d)
  && forallb is_code_unit (d_content d) && forallb is_code_unit (d_caution d)
  && forallb is_code_unit (d_link d)
  && forallb (forallb is_code_unit) (d_tags d)
  && negb (d_createdAt d =? 0) && negb (d_updatedAt d =? 0)
  && (Z.abs (d_createdAt d) <=? MAX_SAFE_INTEGER)
  && (Z.abs (d_updatedAt d) <=? MAX_SAFE_INTEGER).

Definition shoulder_data : ItemData :=
  {| d_id := js "LOYW3V294FZYO8"; d_title := js "Shoulder Stretch";
     d_content := js "Hold 10 s"; d_caution := []; d_link := [];
     d_tags := [js "shoulder"]; d_createdAt := 1700000000000;
     d_updatedAt := 1700000005000 |}.

Definition squat_data : ItemData :=
  {| d_id := js "LOYW3V2C000002"; d_title := [49828; 53244; 53944];
     d_content := []; d_caution := []; d_link := []; d_tags := [];
     d_createdAt := 1700000004000; d_updatedAt := 1700000004000 |}.

(** The octets of the file that [exportJSON] offers: the Blob made of
    the text, in UTF-8. *)
Definition exportJSON_file `{Engine} (items : list value) : list Z :=
  match export_text items with
  | VStr t => utf8_of_string t
  | _ => utf8_of_string (js "undefined")
  end.

(** [reader.result] after [readAsText(file)]: the octets decoded as
    UTF-8, a byte order mark at the start left out. *)
Definition readAsText (bytes : list Z) : jsstring :=
  match bytes with
  | 239 :: 187 :: 191 :: rest => utf8_decode_lossy (0, 0, 128, 191) rest
  | _ => utf8_decode_lossy (0, 0, 128, 191) bytes
  end.

(** The value of a numeral in base 36, digits and small letters. *)
Definition digit_value36 (c : Z) : Z := if c <? 58 then c - 48 else c - 87.

Definition numeral_value36 (ds : jsstring) : Z :=
  fold_left (fun acc d => acc * 36 + digit_value36 d) ds 0.

(** A world like [two_items] whose clock has been read a thousand
    times. *)
Definition later_world : World :=
  {| app := app two_items; ticks := 1000; draws := 0; alerts := [] |}.

(** * Properties *)

(** ** Storage *)

Lemma parse_empty : JSON.parse [] = Throw SyntaxError.
Proof. reflexivity. Qed.

(** C2. [loadData] returns normally on every state of the storage: with
    the stored list when the text under the key parses to a JSON array,
    and with the empty list when the storage cannot be read, when the
    key is absent, when the text is no JSON, and when it parses to
    something else than an array. *)
Theorem loadData_never_raises (st : Storage) :
  exists l : list value,
    loadData st = Return l /\
    match st with
    | Denied => l = []
    | Granted entries =>
        match entries !! STORAGE_KEY with
        | None => l = []
        | Some text =>
            match JSON.parse text with
            | Return (VArr stored) => l = stored
            | Return _ => l = []
            | Throw _ => l = []
            end
        end
    end.
Proof.
  unfold loadData. destruct st as [|entries]; simpl.
  - exists []. split; reflexivity.
  - destruct (entries !! STORAGE_KEY) as [text|] eqn:Hget; simpl.
    + case_bool_decide as Hempty.
      * subst text. rewrite parse_empty. exists []. split; reflexivity.
      * destruct (JSON.parse text) as [parsed|e]; simpl.
        -- destruct parsed; eexists; split; reflexivity.
        -- exists []. split; reflexivity.
    + exists []. split; reflexivity.
Qed.

(** ** Properties of objects and items *)

Lemma lookup_define_prop_eq k v o : lookup_prop k (define_prop k v o) = Some v.
Proof.
  induction o as [|[k' v'] o IH]; simpl.
  - rewrite bool_decide_eq_true_2; auto.
  - case_bool_decide as Hk; simpl.
    + rewrite bool_decide_eq_true_2; auto.
    + destruct (array_index k) as [i|], (array_index k') as [i'|]; simpl;
        try destruct (i <? i'); simpl;
        rewrite ?(bool_decide_eq_true_2 (k = k)), ?(bool_decide_eq_false_2 (k' = k));
        auto.
Qed.

Lemma lookup_define_prop_ne k k' v o :
  k <> k' -> lookup_prop k' (define_prop k v o) = lookup_prop k' o.
Proof.
  intros Hne. induction o as [|[k0 v0] o IH]; simpl.
  - rewrite bool_decide_eq_false_2; auto.
  - case_bool_decide as Hk; simpl.
    + subst k0. rewrite !bool_decide_eq_false_2; auto.
    + destruct (array_index k) as [i|], (array_index k0) as [i'|]; simpl;
        try destruct (i <? i'); simpl;
        rewrite ?(bool_decide_eq_false_2 (k = k')); auto;
        rewrite IH; auto.
Qed.

Lemma Get_object o k : Get (VObj o) k = Return (field k (VObj o)).
Proof. reflexivity. Qed.

Lemma is_item_object v : is_item v = true -> exists o, v = VObj o.
Proof. destruct v; simpl; try discriminate. eauto. Qed.

Lemma is_item_Get v k : is_item v = true -> Get v k = Return (field k v).
Proof. intros [o ->]%is_item_object. reflexivity. Qed.

Lemma is_item_id v :
  is_item v = true -> field k_id v = VStr (id_of v) /\ id_of v <> [].
Proof.
  intros Hv. destruct (is_item_object v Hv) as [o ->].
  unfold is_item in Hv. unfold id_of.
  destruct (field k_id (VObj o)) as [| | | |[|c s]| |]; simpl in *; try discriminate.
  split; [reflexivity|discriminate].
Qed.

Lemma mapM_pure {A B} (f : A -> result B) (g : A -> B) (l : list A) :
  Forall (fun x => f x = Return (g x)) l -> mapM f l = Return (List.map g l).
Proof.
  induction 1 as [|x l Hx _ IH]; simpl; [reflexivity|].
  rewrite Hx, IH. reflexivity.
Qed.

Lemma filterM_pure {A} (f : A -> result bool) (p : A -> bool) (l : list A) :
  Forall (fun x => f x = Return (p x)) l ->
  filterM f l = Return (List.filter p l).
Proof.
  induction 1 as [|x l Hx _ IH]; simpl; [reflexivity|].
  rewrite Hx, IH. simpl. destruct (p x); reflexivity.
Qed.

Lemma lookup_map {A B} (g : A -> B) (l : list A) (i : nat) :
  List.map g l !! i = g <$> (l !! i).
Proof.
  revert i. induction l as [|x l IH]; intros [|i]; simpl; auto.
Qed.

(** ** Creating an item *)

Section Store.
Context `{Engine} (env : Env).

Lemma handleSave_blank (w : World) :
  trim (title (app w)) = [] -> handleSave env w = alert msg_title_required w.
Proof.
  intros Ht. unfold handleSave, bindM at 1. simpl.
  rewrite bool_decide_eq_true_2 by assumption. reflexivity.
Qed.

Lemma handleSave_new (w : World) :
  trim (title (app w)) <> [] ->
  ToBoolean (editingId (app w)) = false ->
  let st := app w in
  let id := minted_id env (S (ticks w)) w in
  let now := Date_now_at env (ticks w) in
  handleSave env w =
  (Return tt,
   {| app := {| items := new_item id (trim (title st)) (content st)
                           (caution st) (link st)
                           (normalized_tags (tagsText st)) now now
                         :: items st;
                query := query st; sortKey := sortKey st;
                selectedId := VStr id; modalOpen := false;
                editingId := editingId st; title := title st;
                content := content st; caution := caution st;
                link := link st; tagsText := tagsText st;
                toasts := toasts st |};
      ticks := S (S (ticks w)); draws := S (draws w); alerts := alerts w |}).
Proof.
  intros Ht He. unfold handleSave, bindM at 1. simpl.
  rewrite bool_decide_eq_false_2 by assumption. rewrite He.
  reflexivity.
Qed.

(** C3, amended. A title that trims to the empty string makes [create]
    show the "title is required" alert and leave the list as it was. Any
    other title makes it succeed: the new item takes the id that [uid]
    mints from the clock and the random source (nothing compares it with
    the ids already in the list), its [createdAt] and [updatedAt] are the
    one reading of the clock taken before, its tags are the segments of
    the comma-separated text, trimmed, without the empty ones, and it is
    put in front of the list. *)
Theorem create_validates_and_prepends (f : Fields) (w : World) :
  let t := trim (f_title f) in
  (t = [] ->
     create env f w = alert msg_title_required (with_form f VNull w) /\
     items (app (snd (create env f w))) = items (app w)) /\
  (t <> [] ->
     let now := Date_now_at env (ticks w) in
     let id := minted_id env (S (ticks w)) w in
     let item := new_item id t (f_content f) (f_caution f) (f_link f)
                   (normalized_tags (f_tagsText f)) now now in
     exists w',
       create env f w = (Return tt, w') /\
       items (app w') = item :: items (app w) /\
       selectedId (app w') = VStr id /\
       modalOpen (app w') = false /\
       alerts w' = alerts w).
Proof.
  intros t. unfold create. split; intros Ht.
  - rewrite handleSave_blank by exact Ht. split; reflexivity.
  - rewrite handleSave_new by (auto; exact Ht).
    eexists. split; [reflexivity|]. simpl. repeat split.
Qed.
End Store.

(** ** Updating and deleting *)

Section Frame.
Context `{Engine} (env : Env).

Lemma handleSave_edit (w : World) (id : jsstring) :
  trim (title (app w)) <> [] ->
  editingId (app w) = VStr id -> id <> [] ->
  Forall (fun v => is_item v = true) (items (app w)) ->
  let st := app w in
  let now := Date_now_at env (ticks w) in
  handleSave env w =
  (Return tt,
   {| app := {| items := List.map (edited st now) (items st);
                query := query st; sortKey := sortKey st;
                selectedId := VStr id; modalOpen := false;
                editingId := editingId st; title := title st;
                content := content st; caution := caution st;
                link := link st; tagsText := tagsText st;
                toasts := toasts st |};
      ticks := S (ticks w); draws := draws w; alerts := alerts w |}).
Proof.
  intros Ht He Hid Hitems. unfold handleSave, bindM at 1. simpl.
  rewrite bool_decide_eq_false_2 by assumption. rewrite He. simpl.
  rewrite bool_decide_eq_false_2 by assumption. simpl.
  unfold bindM, setItems, bindM, lift; simpl.
  erewrite mapM_pure with (g := edited (app w) (Date_now_at env (ticks w))).
  - simpl. rewrite ?He. reflexivity.
  - eapply Forall_impl; [exact Hitems|]. intros v Hv. simpl in Hv.
    rewrite is_item_Get by assumption. simpl.
    destruct (is_item_id v Hv) as [-> _]. simpl.
    unfold edited. rewrite He. simpl.
    destruct (bool_decide (id_of v = id)); reflexivity.
Qed.

Lemma handleDelete_confirmed (w : World) (item : value) :
  is_item item = true ->
  Forall (fun v => is_item v = true) (items (app w)) ->
  let st := app w in
  handleDelete item true w =
  (Return tt,
   {| app := {| items := List.filter
                  (fun v => negb (bool_decide (id_of v = id_of item)))
                  (items st);
                query := query st; sortKey := sortKey st;
                selectedId := if strict_eq (selectedId st) (VStr (id_of item))
                              then VNull else selectedId st;
                modalOpen := modalOpen st;
                editingId := editingId st; title := title st;
                content := content st; caution := caution st;
                link := link st; tagsText := tagsText st;
                toasts := toasts st |};
      ticks := ticks w; draws := draws w; alerts := alerts w |}).
Proof.
  intros Hitem Hitems. unfold handleDelete.
  destruct (is_item_object item Hitem) as [o Ho].
  destruct (is_item_id item Hitem) as [Hid _].
  assert (Htitle : exists s, field k_title item = VStr s).
  { subst item. unfold is_item in Hitem.
    destruct (field k_title (VObj o)); simpl in Hitem;
      rewrite ?andb_false_r in Hitem; try discriminate; eauto. }
  destruct Htitle as [s Hs].
  unfold bindM, setItems, bindM, lift, get_app; simpl.
  rewrite (is_item_Get item k_title Hitem), Hs. simpl.
  erewrite filterM_pure
    with (p := fun v => negb (bool_decide (id_of v = id_of item))).
  - simpl. rewrite (is_item_Get item k_id Hitem), Hid. simpl.
    destruct (strict_eq (selectedId (app w)) (VStr (id_of item))); reflexivity.
  - eapply Forall_impl; [exact Hitems|]. intros v Hv. simpl in Hv.
    rewrite (is_item_Get v k_id Hv), (is_item_Get item k_id Hitem). simpl.
    destruct (is_item_id v Hv) as [-> _]. rewrite Hid. reflexivity.
Qed.
End Frame.

Lemma lookup_object_literal_other k o fields :
  ~ In k (List.map fst fields) ->
  lookup_prop k (object_literal o fields) = lookup_prop k o.
Proof.
  unfold object_literal. revert o.
  induction fields as [|[k' v'] fields IH]; intros o Hk; simpl in *; auto.
  rewrite IH by tauto. apply lookup_define_prop_ne. tauto.
Qed.

Lemma edited_id st now v : is_item v = true -> id_of (edited st now v) = id_of v.
Proof.
  intros [o ->]%is_item_object. unfold edited.
  case_bool_decide; [|reflexivity].
  unfold id_of, field. rewrite lookup_object_literal_other; [reflexivity|].
  simpl. intros Hin. repeat destruct Hin as [Hin|Hin]; try discriminate Hin; auto.
Qed.

Lemma edited_other st now v :
  id_of v <> text_of (editingId st) -> edited st now v = v.
Proof. intros Hne. unfold edited. rewrite bool_decide_eq_false_2; auto. Qed.

Lemma map_fixed {A} (g : A -> A) (l : list A) :
  (forall x, In x l -> g x = x) -> List.map g l = l.
Proof.
  induction l as [|x l IH]; simpl; intros Hg; [reflexivity|].
  rewrite Hg, IH; auto.
Qed.

Section FrameTheorems.
Context `{Engine} (env : Env).

(** C10. In a list of items, [update] of the id of one of them leaves
    the list as long as it was, keeps at every position an item with the
    id that was there, and keeps the item itself wherever the id is
    another one; [delete] leaves exactly the items with another id, in
    the order they had. *)
Theorem update_delete_frame (w : World) (item : value) (f : Fields) :
  Forall (fun v => is_item v = true) (items (app w)) ->
  In item (items (app w)) ->
  (exists w',
     update env (id_of item) f w = (Return tt, w') /\
     length (items (app w')) = length (items (app w)) /\
     forall (i : nat) (v : value),
       items (app w) !! i = Some v ->
       exists v', items (app w') !! i = Some v' /\
                  id_of v' = id_of v /\
                  (id_of v <> id_of item -> v' = v)) /\
  (exists w',
     delete item w = (Return tt, w') /\
     items (app w') =
       List.filter (fun v => negb (bool_decide (id_of v = id_of item)))
         (items (app w))).
Proof.
  intros Hitems Hin.
  assert (Hitem : is_item item = true).
  { rewrite Forall_forall in Hitems. apply Hitems. apply list_elem_of_In. exact Hin. }
  split.
  - unfold update.
    destruct (decide (trim (f_title f) = [])) as [Hblank|Hfull].
    + rewrite handleSave_blank by exact Hblank.
      eexists. split; [reflexivity|]. simpl. split; [reflexivity|].
      intros i v Hv. exists v. auto.
    + rewrite (handleSave_edit env _ (id_of item)); simpl; auto.
      * eexists. split; [reflexivity|]. simpl. split.
        -- apply length_map.
        -- intros i v Hv. rewrite lookup_map, Hv. simpl.
           eexists. split; [reflexivity|].
           assert (Hvi : is_item v = true).
           { rewrite Forall_forall in Hitems. apply Hitems.
             eapply list_elem_of_lookup_2. exact Hv. }
           split; [apply edited_id; exact Hvi|].
           intros Hne. apply edited_other. exact Hne.
      * apply (is_item_id item Hitem).
  - unfold delete. rewrite handleDelete_confirmed by assumption.
    eexists. split; reflexivity.
Qed.

(** C6, amended. For an id that no item of the list carries, [update]
    and [delete] return normally and leave the list as it was: the
    program has no error for an unknown id. [delete] shows no alert.
    [update] shows none either when the title of the form trims to a
    text; when it trims to nothing, [update] shows the alert that asks
    for a title, as it does for any id, and nothing else. *)
Theorem unknown_id_changes_nothing (w : World) (item : value) (f : Fields) :
  Forall (fun v => is_item v = true) (items (app w)) ->
  is_item item = true ->
  (forall v, In v (items (app w)) -> id_of v <> id_of item) ->
  (exists w',
     update env (id_of item) f w = (Return tt, w') /\
     items (app w') = items (app w) /\
     alerts w' = if bool_decide (trim (f_title f) = [])
                 then alerts w ++ [msg_title_required]
                 else alerts w) /\
  (exists w',
     delete item w = (Return tt, w') /\
     items (app w') = items (app w) /\ alerts w' = alerts w).
Proof.
  intros Hitems Hitem Hfresh. split.
  - unfold update. case_bool_decide as Ht.
    + rewrite handleSave_blank by exact Ht.
      eexists. split; [reflexivity|]. split; reflexivity.
    + rewrite (handleSave_edit env _ (id_of item)); simpl; auto.
      * eexists. split; [reflexivity|]. simpl. split; [|reflexivity].
        apply map_fixed. intros v Hv. apply edited_other. simpl. auto.
      * apply (is_item_id item Hitem).
  - unfold delete. rewrite handleDelete_confirmed by assumption.
    eexists. split; [reflexivity|]. simpl. split; [|reflexivity].
    apply forallb_filter_id. apply forallb_forall. intros v Hv.
    rewrite bool_decide_eq_false_2; auto.
Qed.

End FrameTheorems.

(** *** The theorems at work on the example list *)

Lemma create_validates_and_prepends_witness :
  trim (f_title neck_tilt_form) <> [] /\
  exists w',
    @create example_engine example_env neck_tilt_form two_items = (Return tt, w') /\
    items (app w') =
      new_item (js "LOYW3V294FZYO8") (js "Neck Tilt") (js "slowly") [] []
        [js "neck"; js "stretch"] 1700000000000 1700000000000
      :: items (app two_items) /\
    selectedId (app w') = VStr (js "LOYW3V294FZYO8") /\
    modalOpen (app w') = false /\
    alerts w' = alerts two_items.
Proof.
  split; [vm_compute; discriminate|].
  apply (proj2 (@create_validates_and_prepends example_engine example_env
                  neck_tilt_form two_items)).
  vm_compute; discriminate.
Defined.

(** C3, as stated, fails: the id [uid] mints need not be fresh. On the
    example list, at the moment the example clock and random source
    describe, the new item gets the id that Shoulder Stretch has. *)
Lemma create_repeats_an_id :
  exists item,
    items (app (snd (@create example_engine example_env neck_tilt_form two_items)))
      = item :: items (app two_items) /\
    In (id_of item) (List.map id_of (items (app two_items))).
Proof.
  eexists. split; [reflexivity|]. left. reflexivity.
Qed.

Lemma update_delete_frame_witness :
  Forall (fun v => is_item v = true) (items (app two_items)) /\
  In knee_bend (items (app two_items)) /\
  exists w',
    @delete example_engine knee_bend two_items = (Return tt, w') /\
    items (app w') =
      List.filter (fun v => negb (bool_decide (id_of v = id_of knee_bend)))
        (items (app two_items)).
Proof.
  assert (H1 : Forall (fun v => is_item v = true) (items (app two_items))).
  { repeat constructor. }
  assert (H2 : In knee_bend (items (app two_items))).
  { right. left. reflexivity. }
  split; [exact H1|]. split; [exact H2|].
  exact (proj2 (@update_delete_frame example_engine example_env two_items
                  knee_bend neck_tilt_form H1 H2)).
Defined.

Lemma unknown_id_changes_nothing_witness :
  Forall (fun v => is_item v = true) (items (app two_items)) /\
  is_item stranger = true /\
  (forall v, In v (items (app two_items)) -> id_of v <> id_of stranger) /\
  (exists w',
     @update example_engine example_env (id_of stranger) neck_tilt_form two_items
       = (Return tt, w') /\
     items (app w') = items (app two_items) /\
     alerts w' = if bool_decide (trim (f_title neck_tilt_form) = [])
                 then alerts two_items ++ [msg_title_required]
                 else alerts two_items) /\
  (exists w',
     @delete example_engine stranger two_items = (Return tt, w') /\
     items (app w') = items (app two_items) /\ alerts w' = alerts two_items).
Proof.
  assert (H1 : Forall (fun v => is_item v = true) (items (app two_items))).
  { repeat constructor. }
  assert (H2 : is_item stranger = true) by reflexivity.
  assert (H3 : forall v, In v (items (app two_items)) -> id_of v <> id_of stranger).
  { intros v [<-|[<-|[]]]; vm_compute; discriminate. }
  repeat (split; [assumption|]).
  exact (@unknown_id_changes_nothing example_engine example_env two_items
           stranger neck_tilt_form H1 H2 H3).
Defined.

(** C6, as stated, fails: for an id that is not in the list, [update]
    and [delete] raise nothing and show nothing, and the list stays as it
    was. *)
Lemma unknown_id_is_no_error :
  ~ signals_error two_items
      (@update example_engine example_env (js "NOSUCHID") neck_tilt_form two_items) /\
  ~ signals_error two_items (@delete example_engine stranger two_items) /\
  items (app (snd (@update example_engine example_env (js "NOSUCHID")
                     neck_tilt_form two_items))) = items (app two_items) /\
  items (app (snd (@delete example_engine stranger two_items)))
    = items (app two_items).
Proof.
  split; [|split; [|split; reflexivity]].
  - intros [[e He]|Ha]; [discriminate He|]. apply Ha. reflexivity.
  - intros [[e He]|Ha]; [discriminate He|]. apply Ha. reflexivity.
Qed.

(** ** Searching *)

Lemma is_item_parts v :
  is_item v = true ->
  is_text (field k_title v) = true /\
  is_optional_text (field k_content v) = true /\
  is_optional_text (field k_caution v) = true /\
  is_optional_text (field k_link v) = true /\
  is_optional_tags (field k_tags v) = true /\
  is_optional_time (field k_createdAt v) = true /\
  is_optional_time (field k_updatedAt v) = true.
Proof.
  intros Hv. destruct (is_item_object v Hv) as [o ->].
  unfold is_item in Hv. repeat rewrite andb_true_iff in Hv. tauto.
Qed.

Section Search.
Context `{Engine}.

Lemma ToString_text v : is_text v = true -> ToString v = Return (text_of v).
Proof. destruct v; simpl; try discriminate. reflexivity. Qed.

Lemma ToString_optional_text v :
  is_optional_text v = true ->
  ToString (or_value v (VStr [])) = Return (text_of v).
Proof.
  destruct v as [| | | |s| |]; simpl; try discriminate; try reflexivity.
  intros _. unfold or_value. simpl. case_bool_decide; subst; reflexivity.
Qed.

Lemma join_by_texts sep l :
  forallb is_text l = true ->
  join_by ToString sep l = Return (join_strings sep (List.map text_of l)).
Proof.
  induction l as [|x l IH]; [reflexivity|].
  intros Hl. apply andb_true_iff in Hl as [Hx Hl].
  destruct x; try discriminate Hx.
  destruct l as [|y l]; [reflexivity|].
  change (join_by ToString sep (VStr s :: y :: l))
    with (let* r := join_by ToString sep (y :: l) in Return (s ++ sep ++ r)).
  rewrite IH by exact Hl. reflexivity.
Qed.

Lemma join_optional_tags v sep :
  is_optional_tags (field k_tags v) = true ->
  join (or_value (field k_tags v) (VArr [])) sep
  = Return (join_strings sep (tags_of v)).
Proof.
  unfold tags_of. destruct (field k_tags v); simpl; try discriminate.
  - reflexivity.
  - apply join_by_texts.
Qed.

Lemma haystack_item it :
  is_item it = true ->
  haystack it = Return (toLowerCase (searchable_text it)).
Proof.
  intros Hit. destruct (is_item_parts it Hit) as (Ht & Hc & Hu & _ & Hg & _).
  unfold haystack. rewrite !is_item_Get by exact Hit. simpl.
  rewrite (ToString_text _ Ht). simpl.
  rewrite (ToString_optional_text _ Hc). simpl.
  rewrite (ToString_optional_text _ Hu). simpl.
  rewrite (join_optional_tags _ _ Hg). reflexivity.
Qed.

(** C4, amended. The query, trimmed, is looked for without regard to
    case in the item's title, content, caution and tags joined by
    spaces, which are put on four lines, one after the other: the view
    holds exactly the items where it occurs, in the order of the list.
    For a query that is empty or only white space, the view is the list
    itself, unchanged. *)
Theorem filter_view_selects (h : heap) (a : positive) (L : list value)
    (q : jsstring) :
  h !! a = Some L ->
  Forall (fun v => is_item v = true) L ->
  exists (r : positive) (h' : heap),
    filter_view h a q = Return (r, h') /\
    h' !! r = Some (List.filter
                      (fun it => occurs_ignoring_case (trim q) (searchable_text it))
                      L) /\
    h' !! a = Some L /\
    (trim q = [] -> r = a /\ h' = h).
Proof.
  intros Ha HL. unfold filter_view.
  case_bool_decide as Hq; simpl.
  - exists a, h. split; [reflexivity|]. split; [|split; [exact Ha|auto]].
    rewrite Ha. f_equal. symmetry. apply forallb_filter_id.
    apply forallb_forall. intros it _. unfold occurs_ignoring_case.
    rewrite Hq. destruct (toLowerCase (searchable_text it)); reflexivity.
  - unfold Array_filter, read. rewrite Ha. simpl.
    erewrite filterM_pure
      with (p := fun it => occurs_ignoring_case (trim q) (searchable_text it)).
    + simpl. unfold alloc. eexists _, _. split; [reflexivity|].
      assert (Hfresh : fresh (dom h) <> a).
      { intros Heq. apply (is_fresh (dom h)). rewrite Heq.
        apply elem_of_dom. eauto. }
      split; [apply lookup_insert_eq|].
      split; [rewrite lookup_insert_ne; auto|].
      intros Ht. rewrite Ht in Hq. exfalso. apply Hq. reflexivity.
    + eapply Forall_impl; [exact HL|]. intros it Hit. simpl in Hit.
      rewrite (haystack_item it Hit). reflexivity.
Qed.

End Search.

Lemma filter_view_selects_witness :
  example_heap !! 1%positive = Some [knee_bend; shoulder_stretch] /\
  Forall (fun v => is_item v = true) [knee_bend; shoulder_stretch] /\
  exists (r : positive) (h' : heap),
    @filter_view example_engine example_heap 1%positive (js " SHOULDER ")
      = Return (r, h') /\
    h' !! r = Some [shoulder_stretch] /\
    h' !! 1%positive = Some [knee_bend; shoulder_stretch] /\
    (trim (js " SHOULDER ") = [] -> r = 1%positive /\ h' = example_heap).
Proof.
  assert (H1 : example_heap !! 1%positive = Some [knee_bend; shoulder_stretch])
    by reflexivity.
  assert (H2 : Forall (fun v => is_item v = true) [knee_bend; shoulder_stretch]).
  { repeat constructor. }
  split; [exact H1|]. split; [exact H2|].
  exact (@filter_view_selects example_engine example_heap 1%positive _
           (js " SHOULDER ") H1 H2).
Defined.

(** C4, as stated, fails: the texts are not put together end to end. The
    query "bc" occurs in the title followed by the content, yet the view
    does not hold the item. *)
Lemma query_across_fields_finds_nothing :
  @occurs_ignoring_case example_engine (trim (js "bc")) (concatenated_text abcd)
    = true /\
  exists (r : positive) (h' : heap),
    @filter_view example_engine {[ 1%positive := [abcd] ]} 1%positive (js "bc")
      = Return (r, h') /\
    h' !! r = Some [].
Proof.
  split; [reflexivity|]. eexists _, _. split; [reflexivity|]. reflexivity.
Qed.

(** ** Sorting *)

Lemma integer_number q : num_is_integer q = true -> Fin q = num_of_Z (Qnum (this q)).
Proof.
  intros Hq. unfold num_of_Z. f_equal. apply Qc_is_canon.
  destruct q as [[n d] Hc]. unfold num_is_integer in Hq. simpl in *.
  destruct d; try discriminate Hq. simpl.
  rewrite Qred_correct. reflexivity.
Qed.

Lemma num_falsy_of_Z z : num_falsy (num_of_Z z) = (z =? 0).
Proof.
  unfold num_falsy, num_of_Z. simpl.
  destruct (Z.eqb_spec z 0) as [->|Hz]; [reflexivity|].
  apply not_true_is_false. intros Hq. apply Qeq_bool_iff in Hq.
  rewrite Qred_correct in Hq. unfold Qeq in Hq. simpl in Hq. lia.
Qed.

Lemma num_sign_sub_of_Z a b :
  num_sign (num_sub (num_of_Z a) (num_of_Z b)) = (a ?= b).
Proof.
  unfold num_sub, num_of_Z, num_sign, Qcminus, Qcplus, Qcopp. simpl this.
  rewrite !Qred_correct.
  unfold Qcompare. simpl. rewrite !Z.mul_1_r.
  symmetry. apply Z.compare_sub.
Qed.

Lemma insert_desc_perm key x l : Permutation (x :: l) (insert_desc key x l).
Proof.
  induction l as [|y l IH]; simpl; [reflexivity|].
  destruct (key x <? key y); [|reflexivity].
  rewrite perm_swap. apply perm_skip. exact IH.
Qed.

Lemma sort_desc_perm key l : Permutation l (sort_desc key l).
Proof.
  induction l as [|x l IH]; simpl; [reflexivity|].
  rewrite <- insert_desc_perm. apply perm_skip. exact IH.
Qed.

Lemma insert_desc_sorted key x l :
  StronglySorted (fun a b => key b <= key a) l ->
  StronglySorted (fun a b => key b <= key a) (insert_desc key x l).
Proof.
  induction 1 as [|y l Hl IH Hy]; simpl.
  - repeat constructor.
  - destruct (Z.ltb_spec (key x) (key y)) as [Hlt|Hge].
    + constructor; [exact IH|].
      rewrite <- insert_desc_perm. constructor; [lia|exact Hy].
    + constructor; [constructor; assumption|].
      constructor; [lia|].
      eapply Forall_impl; [exact Hy|]. simpl. intros z Hz. lia.
Qed.

Lemma sort_desc_sorted key l :
  StronglySorted (fun a b => key b <= key a) (sort_desc key l).
Proof.
  induction l as [|x l IH]; simpl; [constructor|].
  apply insert_desc_sorted. exact IH.
Qed.

Section Sorting.
Context `{Engine}.

Lemma time_number k v :
  is_optional_time (field k v) = true ->
  ToNumber (or_value (field k v) (VInt 0)) = Return (num_of_Z (time_of k v)).
Proof.
  unfold time_of, or_value. destruct (field k v) as [| | |[| |q]| | |];
    try discriminate; try reflexivity.
  intros Hq.
  change (ToNumber (if negb (num_falsy (Fin q)) then VNum (Fin q) else VInt 0)
          = Return (num_of_Z (Qnum (this q)))).
  pose proof (integer_number q Hq) as Hn. rewrite <- Hn.
  destruct (num_falsy (Fin q)) eqn:Hf; [|reflexivity].
  simpl. rewrite Hn in Hf. rewrite num_falsy_of_Z in Hf.
  apply Z.eqb_eq in Hf. rewrite Hn, Hf. reflexivity.
Qed.

Lemma is_item_times v k :
  is_item v = true -> k = k_createdAt \/ k = k_updatedAt ->
  is_optional_time (field k v) = true.
Proof.
  intros Hv Hk. destruct (is_item_parts v Hv) as (_ & _ & _ & _ & _ & Hc & Hu).
  destruct Hk as [->| ->]; assumption.
Qed.

Lemma timestamp_key key :
  key <> ByTitle ->
  sortKey_name key = k_createdAt \/ sortKey_name key = k_updatedAt.
Proof. destruct key; simpl; auto. congruence. Qed.

Lemma compare_items_times key a b :
  key <> ByTitle -> is_item a = true -> is_item b = true ->
  SortCompare (compare_items key) a b
  = Return (time_of (sortKey_name key) b ?= time_of (sortKey_name key) a).
Proof.
  intros Hkey Ha Hb.
  assert (Hc : compare_items key a b
          = Return (num_sub (num_of_Z (time_of (sortKey_name key) b))
                            (num_of_Z (time_of (sortKey_name key) a)))).
  { pose proof (timestamp_key key Hkey) as Hk.
    assert (Hbody :
      (let* vb := Get b (sortKey_name key) in
       let* va := Get a (sortKey_name key) in
       let* nb := ToNumber (or_value vb (VInt 0)) in
       let* na := ToNumber (or_value va (VInt 0)) in
       Return (num_sub nb na))
      = Return (num_sub (num_of_Z (time_of (sortKey_name key) b))
                        (num_of_Z (time_of (sortKey_name key) a)))).
    { rewrite !is_item_Get by assumption. unfold bind at 1 2.
      rewrite !time_number by (eapply is_item_times; eauto). reflexivity. }
    destruct key; try congruence; exact Hbody. }
  destruct (is_item_object a Ha) as [oa ->], (is_item_object b Hb) as [ob ->].
  unfold SortCompare. rewrite Hc. unfold bind. rewrite num_sign_sub_of_Z. reflexivity.
Qed.

Lemma insert_sorted_items key x l :
  key <> ByTitle -> is_item x = true -> Forall (fun v => is_item v = true) l ->
  insert_sorted (compare_items key) x l
  = Return (insert_desc (time_of (sortKey_name key)) x l).
Proof.
  intros Hkey Hx. induction 1 as [|y l Hy Hl IH]; simpl; [reflexivity|].
  rewrite compare_items_times by assumption. simpl.
  rewrite Z.ltb_compare, (Z.compare_antisym (time_of _ x)).
  destruct (time_of (sortKey_name key) x ?= time_of (sortKey_name key) y); simpl;
    try reflexivity.
  rewrite IH. reflexivity.
Qed.

Lemma sorted_by_items key l :
  key <> ByTitle -> Forall (fun v => is_item v = true) l ->
  sorted_by (compare_items key) l
  = Return (sort_desc (time_of (sortKey_name key)) l).
Proof.
  intros Hkey. induction 1 as [|x l Hx Hl IH]; simpl; [reflexivity|].
  rewrite IH. simpl. apply insert_sorted_items; auto.
  rewrite <- sort_desc_perm. exact Hl.
Qed.

(** C5. Sorting by [updatedAt] or by [createdAt] leaves every array
    of the heap as it was, the list [L] among them, and puts the result
    in a new one: a permutation of [L] in which the timestamp never
    increases from an item to a later one, an item without the field
    counting as 0. *)
Theorem sort_view_orders (h : heap) (base : positive) (L : list value)
    (key : SortKey) :
  h !! base = Some L ->
  Forall (fun v => is_item v = true) L ->
  key <> ByTitle ->
  exists (r : positive) (h' : heap) (L' : list value),
    sort_view h base key = Return (r, h') /\
    h' !! r = Some L' /\
    Permutation L L' /\
    StronglySorted
      (fun x y => time_of (sortKey_name key) y <= time_of (sortKey_name key) x)
      L' /\
    h !! r = None /\
    (forall a l, h !! a = Some l -> h' !! a = Some l).
Proof.
  intros Hbase HL Hkey. unfold sort_view, Array_spread, read. rewrite Hbase. simpl.
  unfold Array_sort, read. rewrite lookup_insert_eq. simpl.
  rewrite sorted_by_items by assumption. simpl.
  eexists _, _, _. split; [reflexivity|].
  assert (Hfresh : h !! fresh (dom h) = None).
  { apply not_elem_of_dom. apply is_fresh. }
  split; [apply lookup_insert_eq|].
  split; [apply sort_desc_perm|].
  split; [apply sort_desc_sorted|].
  split; [exact Hfresh|].
  intros a l Ha. rewrite !lookup_insert_ne; [exact Ha| |]; congruence.
Qed.

End Sorting.

Lemma sort_view_orders_witness :
  example_heap !! 1%positive = Some [knee_bend; shoulder_stretch] /\
  Forall (fun v => is_item v = true) [knee_bend; shoulder_stretch] /\
  ByUpdatedAt <> ByTitle /\
  exists (r : positive) (h' : heap) (L' : list value),
    @sort_view example_engine example_heap 1%positive ByUpdatedAt = Return (r, h') /\
    h' !! r = Some L' /\
    Permutation [knee_bend; shoulder_stretch] L' /\
    StronglySorted (fun x y => time_of k_updatedAt y <= time_of k_updatedAt x) L' /\
    example_heap !! r = None /\
    (forall a l, example_heap !! a = Some l -> h' !! a = Some l).
Proof.
  assert (H1 : example_heap !! 1%positive = Some [knee_bend; shoulder_stretch])
    by reflexivity.
  assert (H2 : Forall (fun v => is_item v = true) [knee_bend; shoulder_stretch]).
  { repeat constructor. }
  assert (H3 : ByUpdatedAt <> ByTitle) by discriminate.
  repeat (split; [assumption|]).
  exact (@sort_view_orders example_engine example_heap 1%positive _ ByUpdatedAt
           H1 H2 H3).
Defined.

(** ** Timestamps along a history *)

Lemma mapM_Forall2 {A B} (f : A -> result B) (l : list A) (l' : list B) :
  mapM f l = Return l' -> Forall2 (fun x y => f x = Return y) l l'.
Proof.
  revert l'. induction l as [|x l IH]; simpl; intros l' Hl.
  - injection Hl as <-. constructor.
  - destruct (f x) as [y|e] eqn:Hx; simpl in Hl; [|discriminate].
    destruct (mapM f l) as [ys|e]; simpl in Hl; [|discriminate].
    injection Hl as <-. constructor; auto.
Qed.

Lemma filterM_incl {A} (f : A -> result bool) (l l' : list A) :
  filterM f l = Return l' -> forall x, In x l' -> In x l.
Proof.
  revert l'. induction l as [|a l IH]; simpl; intros l' Hl x Hx.
  - injection Hl as <-. exact Hx.
  - destruct (f a) as [b|e]; simpl in Hl; [|discriminate].
    destruct (filterM f l) as [r|e]; simpl in Hl; [|discriminate].
    injection Hl as <-. destruct b; [destruct Hx as [->|Hx]|]; eauto.
Qed.

Lemma ordered_before_later now now' v :
  now <= now' -> ordered_before now v -> ordered_before now' v.
Proof. intros Hle (c & u & Hc & Hu & Hcu & Hcn). exists c, u. repeat split; auto. lia. Qed.

Ltac other_key := intros Hk; vm_compute in Hk; discriminate Hk.

Section Timestamps.
Context `{Engine} (env : Env).
Hypothesis clock : clock_never_runs_back env.

Lemma timestamps_kept (w w' : World) :
  (forall v, In v (items (app w')) -> In v (items (app w))) ->
  (ticks w <= ticks w')%nat ->
  timestamps_ordered env w -> timestamps_ordered env w'.
Proof.
  unfold timestamps_ordered. rewrite !Forall_forall. intros Hin Ht Hw v Hv.
  apply (ordered_before_later (Date_now_at env (ticks w))); [apply clock; exact Ht|].
  apply Hw. apply list_elem_of_In, Hin, list_elem_of_In. exact Hv.
Qed.

Lemma edited_object_ordered (st : App) (now : Z) (o : object) (now' : Z) :
  now <= now' ->
  ordered_before now (VObj o) ->
  ordered_before now'
    (VObj (object_literal o
       [(k_title, VStr (trim (title st))); (k_content, VStr (content st));
        (k_caution, VStr (caution st)); (k_link, VStr (link st));
        (k_tags, VArr (List.map VStr (normalized_tags (tagsText st))));
        (k_updatedAt, VInt now)])).
Proof.
  intros Hle (c & u & Hc & Hu & Hcu & Hcn). exists c, now.
  unfold field in *. unfold object_literal. simpl fold_left.
  split; [|split; [|lia]].
  - rewrite !lookup_define_prop_ne by other_key. exact Hc.
  - rewrite lookup_define_prop_eq. reflexivity.
Qed.

Lemma handleSave_ordered (w : World) :
  timestamps_ordered env w -> timestamps_ordered env (snd (handleSave env w)).
Proof.
  intros Hw. destruct (decide (trim (title (app w)) = [])) as [Hblank|Hfull].
  { rewrite handleSave_blank by exact Hblank. exact Hw. }
  destruct (ToBoolean (editingId (app w))) eqn:He.
  - unfold handleSave, bindM at 1. simpl.
    rewrite bool_decide_eq_false_2 by assumption. rewrite He.
    unfold bindM, setItems, bindM, lift; simpl.
    match goal with |- context [mapM ?f ?l] => destruct (mapM f l) as [l'|e] eqn:Hmap end;
      simpl.
    + apply mapM_Forall2 in Hmap.
      unfold timestamps_ordered in *. simpl.
      revert Hw. induction Hmap as [|x y l l' Hxy _ IH]; intros Hw; [constructor|].
      apply Forall_cons in Hw as [Hx Hl]. constructor; [|apply IH; exact Hl].
      destruct (Get x k_id) as [i|e]; simpl in Hxy; [|discriminate].
      destruct (strict_eq i (editingId (app w))) eqn:Hi.
      * injection Hxy as <-. destruct x; simpl;
          try (destruct Hx as (c & u & Hc & _); discriminate Hc).
        apply (edited_object_ordered _ _ _ _ (clock _ _ (Nat.le_succ_diag_r _))).
        eapply ordered_before_later; [|exact Hx]. lia.
      * injection Hxy as <-.
        eapply ordered_before_later; [|exact Hx]. apply clock. lia.
    + eapply timestamps_kept; [| |exact Hw]; simpl; auto.
  - rewrite handleSave_new by assumption. unfold timestamps_ordered. simpl.
    constructor.
    + exists (Date_now_at env (ticks w)), (Date_now_at env (ticks w)).
      repeat split; try reflexivity; try lia. apply clock. lia.
    + eapply Forall_impl; [exact Hw|]. intros v. apply ordered_before_later.
      apply clock. lia.
Qed.

Lemma handleDelete_ordered (item : value) (answer : bool) (w : World) :
  timestamps_ordered env w ->
  timestamps_ordered env (snd (handleDelete item answer w)).
Proof.
  intros Hw. unfold handleDelete, bindM at 1, lift.
  destruct (let* t := Get item k_title in ToString t) as [s|e]; [|exact Hw].
  destruct answer; simpl; [|exact Hw].
  unfold bindM, setItems, bindM, lift, get_app; simpl.
  match goal with |- context [filterM ?f ?l] => destruct (filterM f l) as [l'|e] eqn:Hf end;
    simpl; [|exact Hw].
  eapply (timestamps_kept w); [| |exact Hw].
  - destruct (Get item k_id) as [i|e]; simpl;
      [destruct (strict_eq (selectedId (app w)) i)|]; simpl;
      apply (filterM_incl _ _ _ Hf).
  - destruct (Get item k_id) as [i|e]; simpl;
      [destruct (strict_eq (selectedId (app w)) i)|]; simpl; lia.
Qed.

(** C9, amended. While the clock never runs backwards, every state
    reached from an empty list by [create], [update] and [delete], and by
    imports and share links after which every item of the list has
    integer timestamps, the update not before the creation and the
    creation not after the next reading of the clock, has items whose
    [updatedAt] is an integer not below their [createdAt]. Imports and
    share links themselves take the timestamps of their input as they
    come, and an item they date in the future falls behind its creation
    at its next update. *)
Theorem updated_not_before_created (w : World) :
  reachable env w ->
  Forall (fun v => exists c u : Z,
            field k_createdAt v = VInt c /\ field k_updatedAt v = VInt u /\
            c <= u)
    (items (app w)).
Proof.
  intros Hr.
  assert (Hord : timestamps_ordered env w).
  { induction Hr as [w Hempty|w w' _ IH Hstep].
    - unfold timestamps_ordered. rewrite Hempty. constructor.
    - destruct Hstep; try assumption.
      + apply handleSave_ordered. unfold timestamps_ordered in *. exact IH.
      + apply handleSave_ordered. unfold timestamps_ordered in *. exact IH.
      + apply handleDelete_ordered. exact IH. }
  eapply Forall_impl; [exact Hord|].
  intros v (c & u & Hc & Hu & Hcu & _). eauto.
Qed.

End Timestamps.

(** ** Ingestion *)

Lemma value_induction (P : value -> Prop) :
  P VUndef -> P VNull -> (forall b, P (VBool b)) -> (forall n, P (VNum n)) ->
  (forall s, P (VStr s)) ->
  (forall l, Forall P l -> P (VArr l)) ->
  (forall o, Forall (fun kv => P (snd kv)) o -> P (VObj o)) ->
  forall v, P v.
Proof.
  intros Hu Hn Hb Hnum Hs Ha Ho.
  fix IH 1. intros [| |b|n|s|l|o].
  - exact Hu.
  - exact Hn.
  - apply Hb.
  - apply Hnum.
  - apply Hs.
  - apply Ha. induction l as [|x l IHl]; constructor; [apply IH|exact IHl].
  - apply Ho. induction o as [|[k x] o IHo]; constructor; [apply IH|exact IHo].
Qed.

Lemma Get_truthy d k : ToBoolean d = true -> Get d k = Return (field k d).
Proof. destruct d; simpl; try discriminate; reflexivity. Qed.

Lemma bindM_lift {A B} (a : A) (k : A -> M B) : bindM (lift (Return a)) k = k a.
Proof. reflexivity. Qed.

Lemma bindM_ret {A B} (a : A) (k : A -> M B) : bindM (ret a) k = k a.
Proof. reflexivity. Qed.

Section Ingestion.
Context `{Engine} (env : Env).

Lemma join_by_printable sep l :
  Forall (fun v => printable v = true -> exists s, ToString v = Return s) l ->
  forallb printable l = true ->
  exists s, join_by ToString sep l = Return s.
Proof.
  induction 1 as [|x l Hx Hl IH]; simpl; [eauto|].
  intros Hp. apply andb_true_iff in Hp as [Hpx Hpl].
  destruct (IH Hpl) as [r Hr]. destruct (Hx Hpx) as [s Hs].
  assert (He : exists e, match x with VUndef | VNull => Return [] | _ => ToString x end
                         = Return e).
  { destruct x; eauto. }
  destruct He as [e He].
  destruct l as [|y l]; [exact (ex_intro _ e He)|].
  change (join_by ToString sep (x :: y :: l))
    with (let* s := match x with VUndef | VNull => Return [] | _ => ToString x end in
          let* r := join_by ToString sep (y :: l) in Return (s ++ sep ++ r)).
  rewrite He, Hr. simpl. eauto.
Qed.

Lemma ToString_printable v : printable v = true -> exists s, ToString v = Return s.
Proof.
  induction v as [| |b|n|s|l IH|o _] using value_induction; intros Hp;
    try (simpl; eauto; fail).
  - destruct b; simpl; eauto.
  - simpl. apply join_by_printable; assumption.
  - simpl in *. destruct (lookup_prop (js "toString") o); [discriminate|eauto].
Qed.

Lemma ToNumber_printable v : printable v = true -> exists n, ToNumber v = Return n.
Proof.
  intros Hp. destruct v; simpl; eauto;
    destruct (ToString_printable _ Hp) as [s Hs]; simpl in Hs; rewrite Hs; simpl; eauto.
Qed.

Lemma forallb_is_text_map ss : forallb is_text (List.map VStr ss) = true.
Proof. induction ss; simpl; auto. Qed.

Lemma ToString_string_of v :
  printable v = true -> ToString v = Return (string_of v).
Proof.
  intros Hp. unfold string_of.
  destruct (ToString_printable v Hp) as [s ->]. reflexivity.
Qed.

Lemma ToNumber_number_of v :
  printable v = true -> ToNumber v = Return (number_of v).
Proof.
  intros Hp. unfold number_of.
  destruct (ToNumber_printable v Hp) as [n ->]. reflexivity.
Qed.

Lemma unprintable_truthy v : printable v = false -> ToBoolean v = true.
Proof. destruct v; simpl; try discriminate; reflexivity. Qed.

Lemma join_by_unprintable sep l :
  Forall (fun v => printable v = false -> exists e, ToString v = Throw e) l ->
  forallb printable l = false ->
  exists e, join_by ToString sep l = Throw e.
Proof.
  induction 1 as [|x l Hx Hl IH]; [discriminate|].
  intros Hp.
  change (forallb printable (x :: l)) with (printable x && forallb printable l) in Hp.
  set (elem := match x with VUndef | VNull => Return [] | _ => ToString x end).
  assert (Helem : printable x = false -> exists e, elem = Throw e).
  { intros Hpx. destruct (Hx Hpx) as [e He]. exists e. subst elem.
    destruct x; try discriminate Hpx; exact He. }
  destruct l as [|y l].
  - change (join_by ToString sep [x]) with elem.
    rewrite andb_true_r in Hp. exact (Helem Hp).
  - change (join_by ToString sep (x :: y :: l))
      with (let* s := elem in
            let* r := join_by ToString sep (y :: l) in Return (s ++ sep ++ r)).
    destruct (printable x) eqn:Hpx.
    + destruct (IH Hp) as [e He]. rewrite He.
      destruct elem; simpl; eauto.
    + destruct (Helem eq_refl) as [e ->]. simpl. eauto.
Qed.

Lemma ToString_unprintable v :
  printable v = false -> exists e, ToString v = Throw e.
Proof.
  induction v as [| |b|n|s|l IH|o _] using value_induction; intros Hp;
    try discriminate Hp.
  - simpl. apply join_by_unprintable; assumption.
  - simpl in *. destruct (lookup_prop (js "toString") o); [eauto|discriminate].
Qed.

Lemma ToNumber_unprintable v :
  printable v = false -> exists e, ToNumber v = Throw e.
Proof.
  intros Hp. destruct (ToString_unprintable v Hp) as [e He].
  destruct v; try discriminate Hp; unfold ToNumber; rewrite He; simpl; eauto.
Qed.

Lemma text_or_string_of v s0 :
  printable v = true ->
  ToString (or_value v (VStr s0)) = Return (string_of (or_value v (VStr s0))).
Proof.
  intros Hp. apply ToString_string_of. unfold or_value.
  destruct (ToBoolean v); [exact Hp|reflexivity].
Qed.

Lemma text_or_raises v s0 :
  printable v = false -> exists e, ToString (or_value v (VStr s0)) = Throw e.
Proof.
  intros Hp. unfold or_value. rewrite (unprintable_truthy v Hp).
  apply ToString_unprintable. exact Hp.
Qed.

Lemma mapM_string_of l :
  forallb printable l = true ->
  mapM ToString l = Return (List.map string_of l).
Proof.
  induction l as [|x l IH]; [reflexivity|].
  intros Hp.
  change (forallb printable (x :: l)) with (printable x && forallb printable l) in Hp.
  apply andb_true_iff in Hp as [Hx Hl].
  change (mapM ToString (x :: l))
    with (let* b := ToString x in let* bs := mapM ToString l in Return (b :: bs)).
  rewrite (ToString_string_of x Hx), (IH Hl). reflexivity.
Qed.

Lemma mapM_ToString_raises l :
  forallb printable l = false -> exists e, mapM ToString l = Throw e.
Proof.
  induction l as [|x l IH]; [discriminate|].
  intros Hp.
  change (forallb printable (x :: l)) with (printable x && forallb printable l) in Hp.
  change (mapM ToString (x :: l))
    with (let* b := ToString x in let* bs := mapM ToString l in Return (b :: bs)).
  destruct (printable x) eqn:Hx.
  - rewrite (ToString_string_of x Hx). destruct (IH Hp) as [e ->]. simpl. eauto.
  - destruct (ToString_unprintable x Hx) as [e ->]. simpl. eauto.
Qed.

Lemma number_or_now_value v w :
  printable v = true ->
  number_or_now env v w
  = (Return (timestamp_or_now (Date_now_at env (ticks w)) v),
     {| app := app w; ticks := tick_after (ticks w) v; draws := draws w;
        alerts := alerts w |}).
Proof.
  intros Hp. unfold number_or_now, bindM, lift.
  rewrite (ToNumber_number_of v Hp).
  unfold timestamp_or_now, tick_after, unset_time.
  destruct (num_falsy (number_of v)); [reflexivity|].
  destruct w; reflexivity.
Qed.

Lemma number_or_now_raises v w :
  printable v = false -> exists e, number_or_now env v w = (Throw e, w).
Proof.
  intros Hp. destruct (ToNumber_unprintable v Hp) as [e He].
  unfold number_or_now, bindM, lift. rewrite He. eauto.
Qed.

Lemma import_kept_parts d :
  import_kept d = true ->
  ToBoolean d = true /\ ToBoolean (field k_id d) = true /\
  ToBoolean (field k_title d) = true.
Proof.
  unfold import_kept. rewrite !andb_true_iff. tauto.
Qed.

Lemma bindM_raise {A B} (e : exn) (k : A -> M B) (w : World) :
  bindM (lift (Throw e)) k w = (Throw e, w).
Proof. reflexivity. Qed.

Lemma world_eta (w : World) :
  w = {| app := app w; ticks := ticks w; draws := draws w; alerts := alerts w |}.
Proof. destruct w; reflexivity. Qed.

(** A record that is kept and whose fields can be converted becomes the
    item [sanitized] describes, at the cost of a reading of the clock
    for each unset timestamp. *)
Lemma import_record_sanitized d w :
  import_kept d = true -> record_converts d = true ->
  import_record env d w
  = (Return (sanitized d (Date_now_at env (ticks w))
               (Date_now_at env (tick_after (ticks w) (field k_createdAt d)))),
     {| app := app w;
        ticks := tick_after (tick_after (ticks w) (field k_createdAt d))
                   (field k_updatedAt d);
        draws := draws w; alerts := alerts w |}).
Proof.
  intros Hk Hc. destruct (import_kept_parts d Hk) as (Hd & Hid & Htitle).
  unfold record_converts in Hc. repeat rewrite andb_true_iff in Hc.
  destruct Hc as [[[[[[Ht Hco] Hca] Hl] Hg] Hcr] Hup].
  assert (Htags :
    (match field k_tags d with
     | VArr elems => lift (mapM ToString elems)
     | _ => ret []
     end)
    = ret (match field k_tags d with
           | VArr l => List.map string_of l
           | _ => []
           end)).
  { destruct (field k_tags d); try reflexivity.
    rewrite (mapM_string_of _ Hg). reflexivity. }
  unfold import_record.
  rewrite (Get_truthy d k_id Hd), bindM_lift, Hid, bindM_ret.
  rewrite (Get_truthy d k_title Hd), bindM_lift.
  rewrite (text_or_string_of _ msg_untitled Ht), bindM_lift.
  rewrite (Get_truthy d k_content Hd), bindM_lift.
  rewrite (text_or_string_of _ [] Hco), bindM_lift.
  rewrite (Get_truthy d k_caution Hd), bindM_lift.
  rewrite (text_or_string_of _ [] Hca), bindM_lift.
  rewrite (Get_truthy d k_link Hd), bindM_lift.
  rewrite (text_or_string_of _ [] Hl), bindM_lift.
  rewrite (Get_truthy d k_tags Hd), bindM_lift, Htags, bindM_ret.
  rewrite (Get_truthy d k_createdAt Hd), bindM_lift.
  unfold bindM at 1. rewrite (number_or_now_value _ w Hcr).
  rewrite (Get_truthy d k_updatedAt Hd), bindM_lift.
  unfold bindM at 1. rewrite (number_or_now_value _ _ Hup).
  unfold ret, sanitized. cbn [ticks app draws alerts].
  unfold or_value at 1. rewrite Htitle.
  do 2 f_equal. f_equal.
  destruct (field k_tags d); try reflexivity.
  rewrite List.map_map. reflexivity.
Qed.

(** A kept record with a field that cannot be converted makes
    [import_record] throw; the component state is untouched. *)
Lemma import_record_raises d w :
  import_kept d = true -> record_converts d = false ->
  exists e n,
    import_record env d w
    = (Throw e, {| app := app w; ticks := n; draws := draws w;
                   alerts := alerts w |}).
Proof.
  intros Hk Hc. destruct (import_kept_parts d Hk) as (Hd & Hid & Htitle).
  unfold record_converts in Hc.
  unfold import_record.
  rewrite (Get_truthy d k_id Hd), bindM_lift, Hid, bindM_ret.
  rewrite (Get_truthy d k_title Hd), bindM_lift.
  destruct (printable (field k_title d)) eqn:Ht.
  2: { destruct (text_or_raises _ msg_untitled Ht) as [e ->].
       rewrite bindM_raise. exists e, (ticks w). rewrite <- world_eta. reflexivity. }
  rewrite (text_or_string_of _ msg_untitled Ht), bindM_lift.
  rewrite (Get_truthy d k_content Hd), bindM_lift.
  destruct (printable (field k_content d)) eqn:Hco.
  2: { destruct (text_or_raises _ [] Hco) as [e ->].
       rewrite bindM_raise. exists e, (ticks w). rewrite <- world_eta. reflexivity. }
  rewrite (text_or_string_of _ [] Hco), bindM_lift.
  rewrite (Get_truthy d k_caution Hd), bindM_lift.
  destruct (printable (field k_caution d)) eqn:Hca.
  2: { destruct (text_or_raises _ [] Hca) as [e ->].
       rewrite bindM_raise. exists e, (ticks w). rewrite <- world_eta. reflexivity. }
  rewrite (text_or_string_of _ [] Hca), bindM_lift.
  rewrite (Get_truthy d k_link Hd), bindM_lift.
  destruct (printable (field k_link d)) eqn:Hl.
  2: { destruct (text_or_raises _ [] Hl) as [e ->].
       rewrite bindM_raise. exists e, (ticks w). rewrite <- world_eta. reflexivity. }
  rewrite (text_or_string_of _ [] Hl), bindM_lift.
  rewrite (Get_truthy d k_tags Hd), bindM_lift.
  destruct (match field k_tags d with
            | VArr l => forallb printable l
            | _ => true
            end) eqn:Hg.
  2: { destruct (field k_tags d) as [| | | | |l|]; try discriminate Hg.
       destruct (mapM_ToString_raises l Hg) as [e ->].
       rewrite bindM_raise. exists e, (ticks w). rewrite <- world_eta. reflexivity. }
  assert (Htags : exists ss,
    (match field k_tags d with
     | VArr elems => lift (mapM ToString elems)
     | _ => ret []
     end) = ret ss).
  { destruct (field k_tags d); try (exists []; reflexivity).
    rewrite (mapM_string_of _ Hg). eexists. reflexivity. }
  destruct Htags as [ss ->]. rewrite bindM_ret.
  rewrite (Get_truthy d k_createdAt Hd), bindM_lift.
  destruct (printable (field k_createdAt d)) eqn:Hcr.
  2: { destruct (number_or_now_raises _ w Hcr) as [e He].
       unfold bindM at 1. rewrite He.
       exists e, (ticks w). rewrite <- world_eta. reflexivity. }
  unfold bindM at 1. rewrite (number_or_now_value _ w Hcr).
  rewrite (Get_truthy d k_updatedAt Hd), bindM_lift.
  destruct (printable (field k_updatedAt d)) eqn:Hup; [discriminate Hc|].
  unfold bindM at 1.
  match goal with |- context [number_or_now env _ ?w1] =>
    destruct (number_or_now_raises (field k_updatedAt d) w1 Hup) as [e He]
  end.
  rewrite He. eauto.
Qed.

Lemma import_records_sanitized (l : list value) (w : World) :
  Forall (fun d => import_kept d = true) l ->
  forallb record_converts l = true ->
  mapMM (import_record env) l w
  = (Return (sanitized_records env (ticks w) l),
     {| app := app w; ticks := ticks_after (ticks w) l; draws := draws w;
        alerts := alerts w |}).
Proof.
  intros Hl. revert w. induction Hl as [|d l Hk _ IH]; intros w Hc.
  - simpl. unfold ret. rewrite <- world_eta. reflexivity.
  - change (forallb record_converts (d :: l))
      with (record_converts d && forallb record_converts l) in Hc.
    apply andb_true_iff in Hc as [Hd Hrest].
    change (mapMM (import_record env) (d :: l))
      with (let! b := import_record env d in
            let! bs := mapMM (import_record env) l in ret (b :: bs)).
    unfold bindM at 1. rewrite (import_record_sanitized d w Hk Hd).
    unfold bindM at 1. rewrite (IH _ Hrest). reflexivity.
Qed.

Lemma import_records_raise (l : list value) (w : World) :
  Forall (fun d => import_kept d = true) l ->
  forallb record_converts l = false ->
  exists e n,
    mapMM (import_record env) l w
    = (Throw e, {| app := app w; ticks := n; draws := draws w;
                   alerts := alerts w |}).
Proof.
  intros Hl. revert w. induction Hl as [|d l Hk _ IH]; intros w Hc;
    [discriminate Hc|].
  change (forallb record_converts (d :: l))
    with (record_converts d && forallb record_converts l) in Hc.
  change (mapMM (import_record env) (d :: l))
    with (let! b := import_record env d in
          let! bs := mapMM (import_record env) l in ret (b :: bs)).
  destruct (record_converts d) eqn:Hd.
  - unfold bindM at 1. rewrite (import_record_sanitized d w Hk Hd).
    unfold bindM at 1.
    match goal with |- context [mapMM _ l ?w1] =>
      destruct (IH w1 Hc) as (e & n & ->)
    end.
    exists e, n. reflexivity.
  - destruct (import_record_raises d w Hk Hd) as (e & n & He).
    unfold bindM at 1. rewrite He. eauto.
Qed.

Lemma import_keeps_spec d : import_keeps d = Return (import_kept d).
Proof.
  unfold import_keeps, import_kept. destruct (ToBoolean d) eqn:Hd; simpl; [|reflexivity].
  rewrite !(Get_truthy d) by exact Hd. simpl.
  destruct (ToBoolean (field k_id d)); reflexivity.
Qed.

Lemma is_number_timestamp now x : is_number (timestamp_or_now now x) = true.
Proof.
  unfold timestamp_or_now, unset_time.
  destruct (num_falsy (number_of x)) eqn:Hf; [reflexivity|].
  destruct (number_of x); simpl in *; congruence.
Qed.

Lemma sanitized_is_sanitized d a b : is_sanitized (sanitized d a b) = true.
Proof.
  unfold is_sanitized, sanitized. simpl. rewrite !is_number_timestamp.
  destruct (field k_tags d); try reflexivity.
  rewrite !andb_true_r.
  match goal with |- forallb is_text (List.map _ ?l) = true => induction l end;
    simpl; auto.
Qed.

Lemma sanitized_records_clean n l :
  Forall (fun v => is_sanitized v = true) (sanitized_records env n l) /\
  List.map (field k_id) (sanitized_records env n l) = List.map (field k_id) l.
Proof.
  revert n. induction l as [|d l IH]; intros n; [split; constructor|].
  cbn [sanitized_records]. destruct (IH (tick_after (tick_after n (field k_createdAt d))
                                          (field k_updatedAt d))) as [H1 H2].
  split.
  - constructor; [apply sanitized_is_sanitized|exact H1].
  - cbn [List.map]. rewrite H2. reflexivity.
Qed.

Lemma tick_after_le n x : (n <= tick_after n x <= S n)%nat.
Proof. unfold tick_after. destruct (unset_time x); lia. Qed.

Lemma ticks_after_le n l : (n <= ticks_after n l)%nat.
Proof.
  revert n. induction l as [|d l IH]; intros n; cbn [ticks_after]; [lia|].
  pose proof (tick_after_le n (field k_createdAt d)).
  pose proof (tick_after_le (tick_after n (field k_createdAt d)) (field k_updatedAt d)).
  specialize (IH (tick_after (tick_after n (field k_createdAt d)) (field k_updatedAt d))).
  lia.
Qed.

Lemma missing_or_zero_unset x : x = VUndef \/ x = VInt 0 -> unset_time x = true.
Proof. intros [->| ->]; reflexivity. Qed.

(** A timestamp that is missing or zero in the record is a reading of
    the clock in the item, taken while the records were converted. *)
Lemma sanitized_records_defaulted lo n l :
  (lo <= n)%nat ->
  Forall2 (fun d v =>
             defaulted_to_clock env lo (ticks_after n l) k_createdAt d v /\
             defaulted_to_clock env lo (ticks_after n l) k_updatedAt d v)
    l (sanitized_records env n l).
Proof.
  revert n. induction l as [|d l IH]; intros n Hlo; [constructor|].
  cbn [sanitized_records ticks_after].
  set (n1 := tick_after n (field k_createdAt d)).
  set (n2 := tick_after n1 (field k_updatedAt d)).
  pose proof (tick_after_le n (field k_createdAt d)) as H1.
  pose proof (tick_after_le n1 (field k_updatedAt d)) as H2.
  pose proof (ticks_after_le n2 l) as H3.
  fold n1 in H1. fold n2 in H2.
  constructor; [|apply IH; lia].
  split; intros Hm; pose proof (missing_or_zero_unset _ Hm) as Hu.
  - exists n. split.
    + assert (n1 = S n) by (unfold n1, tick_after; rewrite Hu; reflexivity). lia.
    + unfold sanitized, timestamp_or_now. rewrite Hu. reflexivity.
  - exists n1. split.
    + assert (n2 = S n1) by (unfold n2, tick_after; rewrite Hu; reflexivity). lia.
    + unfold sanitized, timestamp_or_now. rewrite Hu. reflexivity.
Qed.

(** What an import does with a file that holds an array. *)
Lemma import_outcome (text : jsstring) (records : list value) (w : World) :
  JSON.parse text = Return (VArr records) ->
  exists w',
    importJSON env text w = (Return tt, w') /\
    if forallb record_converts (List.filter import_kept records) then
      alerts w' = alerts w /\
      items (app w')
      = sanitized_records env (ticks w) (List.filter import_kept records) /\
      ticks w' = S (ticks_after (ticks w) (List.filter import_kept records)) /\
      exists id, toasts (app w') = toasts (app w) ++ [(id, msg_import_done)]
    else
      alerts w' = alerts w ++ [msg_import_failed] /\ app w' = app w.
Proof.
  intros Hparse.
  assert (Hkept : Forall (fun d => import_kept d = true)
                    (List.filter import_kept records)).
  { apply Forall_forall. intros d Hd.
    apply list_elem_of_In, filter_In in Hd. tauto. }
  unfold importJSON, tryM. unfold bindM at 1, lift at 1. rewrite Hparse.
  unfold bindM at 1, lift at 1.
  rewrite (filterM_pure import_keeps import_kept)
    by (apply Forall_forall; intros d _; apply import_keeps_spec).
  unfold bindM at 1.
  destruct (forallb record_converts (List.filter import_kept records)) eqn:Hc.
  - rewrite (import_records_sanitized _ w Hkept Hc).
    eexists. split; [reflexivity|]. cbn.
    split; [reflexivity|]. split; [reflexivity|]. split; [reflexivity|].
    eexists. reflexivity.
  - destruct (import_records_raise _ w Hkept Hc) as (e & n & ->).
    eexists. split; [reflexivity|]. cbn. split; reflexivity.
Qed.

End Ingestion.

Section IngestionTheorem.
Context `{Engine} (env : Env).

(** C7, amended. An import drops every record that is falsy or has a
    falsy [id] or [title], and converts the records it keeps one by one,
    in their order. When [String] and [Number] can convert the fields of
    all of them, each kept record becomes the item [sanitized] makes of
    it: its [id] as it was, title, content, caution and link as texts,
    the tags as a sequence of texts, the timestamps as numbers, a
    timestamp that is missing or zero being a reading of the clock
    taken during the import. When one kept record has a field that
    cannot be converted, the import shows the failure alert and leaves
    the state of the component as it was. A share link, read when the
    page opens or pasted into the prompt, replaces the list by the
    decoded array as it is: no record is dropped, none is given
    defaults. *)
Theorem ingestion_sanitizes_imports_only
    (text : jsstring) (records : list value)
    (raw search token : jsstring) (decoded : list value) (w : World) :
  JSON.parse text = Return (VArr records) ->
  raw <> [] -> URL_search raw = Return search ->
  getQueryParam search (js "data") = Some token -> token <> [] ->
  decodeData token = Return (VArr decoded) ->
  (exists w',
     importJSON env text w = (Return tt, w') /\
     if forallb record_converts (List.filter import_kept records) then
       alerts w' = alerts w /\
       items (app w')
       = sanitized_records env (ticks w) (List.filter import_kept records) /\
       Forall (fun v => is_sanitized v = true) (items (app w')) /\
       List.map (field k_id) (items (app w'))
       = List.map (field k_id) (List.filter import_kept records) /\
       Forall2 (fun d v =>
                  defaulted_to_clock env (ticks w) (ticks w') k_createdAt d v /\
                  defaulted_to_clock env (ticks w) (ticks w') k_updatedAt d v)
         (List.filter import_kept records) (items (app w'))
     else
       alerts w' = alerts w ++ [msg_import_failed] /\ app w' = app w) /\
  (exists w',
     shareLinkEffect search true w = (Return tt, w') /\
     items (app w') = decoded) /\
  (exists w',
     loadFromLink (Some raw) true w = (Return tt, w') /\
     items (app w') = decoded).
Proof.
  intros Hparse Hraw Hurl Hget Htoken Hdec. split; [|split].
  - destruct (import_outcome env text records w Hparse) as (w' & Hrun & Hout).
    exists w'. split; [exact Hrun|].
    destruct (forallb record_converts (List.filter import_kept records));
      [|exact Hout].
    destruct Hout as (Hal & Hitems & Hticks & _).
    destruct (sanitized_records_clean env (ticks w)
                (List.filter import_kept records)) as [Hclean Hids].
    rewrite Hitems. repeat split; try assumption.
    eapply Forall2_impl;
      [apply (sanitized_records_defaulted env (ticks w)); apply Nat.le_refl|].
    intros d v [Hc Hu]. rewrite Hticks.
    split; intros Hm; [destruct (Hc Hm) as (n & Hn & Hv)
                      |destruct (Hu Hm) as (n & Hn & Hv)];
      exists n; (split; [lia|exact Hv]).
  - unfold shareLinkEffect. rewrite Hget.
    rewrite bool_decide_eq_false_2 by exact Htoken.
    unfold tryM, bindM, lift. rewrite Hdec. simpl.
    eexists. split; reflexivity.
  - unfold loadFromLink. rewrite bool_decide_eq_false_2 by exact Hraw.
    unfold tryM, bindM at 1, lift at 1. rewrite Hurl, Hget.
    rewrite bool_decide_eq_false_2 by exact Htoken.
    unfold bindM, lift. rewrite Hdec. simpl.
    eexists. split; reflexivity.
Qed.

End IngestionTheorem.

(** *** Ingestion at work *)

Lemma ingestion_sanitizes_imports_only_witness :
  JSON.parse mixed_file = Return (VArr mixed_records) /\
  bare_link <> [] /\
  @URL_search example_engine bare_link = Return (js "?data=" ++ bare_token) /\
  getQueryParam (js "?data=" ++ bare_token) (js "data") = Some bare_token /\
  bare_token <> [] /\
  decodeData bare_token = Return (VArr [bare_record]) /\
  (exists w',
     @importJSON example_engine example_env mixed_file two_items = (Return tt, w') /\
     if forallb record_converts (List.filter import_kept mixed_records) then
       alerts w' = alerts two_items /\
       items (app w')
       = @sanitized_records example_engine example_env (ticks two_items)
           (List.filter import_kept mixed_records) /\
       Forall (fun v => is_sanitized v = true) (items (app w')) /\
       List.map (field k_id) (items (app w'))
       = List.map (field k_id) (List.filter import_kept mixed_records) /\
       Forall2 (fun d v =>
                  defaulted_to_clock example_env (ticks two_items) (ticks w')
                    k_createdAt d v /\
                  defaulted_to_clock example_env (ticks two_items) (ticks w')
                    k_updatedAt d v)
         (List.filter import_kept mixed_records) (items (app w'))
     else
       alerts w' = alerts two_items ++ [msg_import_failed] /\
       app w' = app two_items) /\
  (exists w',
     shareLinkEffect (js "?data=" ++ bare_token) true two_items = (Return tt, w') /\
     items (app w') = [bare_record]) /\
  (exists w',
     @loadFromLink example_engine (Some bare_link) true two_items = (Return tt, w') /\
     items (app w') = [bare_record]).
Proof.
  assert (H1 : JSON.parse mixed_file = Return (VArr mixed_records)) by reflexivity.
  assert (H3 : bare_link <> []) by (vm_compute; discriminate).
  assert (H4 : @URL_search example_engine bare_link = Return (js "?data=" ++ bare_token))
    by reflexivity.
  assert (H5 : getQueryParam (js "?data=" ++ bare_token) (js "data") = Some bare_token)
    by reflexivity.
  assert (H6 : bare_token <> []) by (vm_compute; discriminate).
  assert (H7 : decodeData bare_token = Return (VArr [bare_record])) by reflexivity.
  repeat (split; [assumption|]).
  exact (@ingestion_sanitizes_imports_only example_engine example_env mixed_file
           mixed_records bare_link (js "?data=" ++ bare_token) bare_token
           [bare_record] two_items H1 H3 H4 H5 H6 H7).
Defined.

(** C7, as stated, fails. A share link with a record that has no title
    puts that record into the list as it is: not dropped, without a
    default title, without tags or timestamps. And an import stops with
    the failure alert, keeping the old list, when one record has a title
    that cannot be converted. *)
Lemma share_link_does_not_sanitize :
  decodeData bare_token = Return (VArr [bare_record]) /\
  items (app (snd (shareLinkEffect (js "?data=" ++ bare_token) true two_items)))
    = [bare_record] /\
  field k_title bare_record = VUndef /\
  is_sanitized bare_record = false /\
  items (app (snd (@importJSON example_engine example_env unprintable_file
                     two_items))) = items (app two_items) /\
  alerts (snd (@importJSON example_engine example_env unprintable_file two_items))
    = [msg_import_failed].
Proof. repeat split; vm_compute; reflexivity. Qed.

(** *** Timestamps at work *)

Lemma example_clock_never_runs_back : clock_never_runs_back example_env.
Proof. intros n m Hnm. simpl. lia. Qed.

Lemma updated_not_before_created_witness :
  clock_never_runs_back example_env /\
  @reachable example_engine example_env
    (snd (@create example_engine example_env neck_tilt_form fresh_world)) /\
  Forall (fun v => exists c u : Z,
            field k_createdAt v = VInt c /\ field k_updatedAt v = VInt u /\
            c <= u)
    (items (app (snd (@create example_engine example_env neck_tilt_form
                        fresh_world)))).
Proof.
  assert (H1 : clock_never_runs_back example_env)
    by exact example_clock_never_runs_back.
  assert (H2 : @reachable example_engine example_env
                 (snd (@create example_engine example_env neck_tilt_form fresh_world))).
  { apply (reachable_step example_env fresh_world).
    - apply reachable_empty. reflexivity.
    - apply (step_create example_env). }
  split; [exact H1|]. split; [exact H2|].
  exact (@updated_not_before_created example_engine example_env H1 _ H2).
Defined.

(** C9, as stated, fails. One import into the empty list, or one share
    link, gives an item whose [updatedAt] is below its [createdAt]; so
    does an edit of a new item when the clock has stepped back. *)
Lemma ingestion_breaks_timestamp_order :
  (exists v,
     items (app (snd (@importJSON example_engine example_env backdated_file
                        fresh_world))) = [v] /\
     time_of k_updatedAt v < time_of k_createdAt v) /\
  (exists v,
     items (app (snd (shareLinkEffect (js "?data=" ++ backdated_token) true
                        fresh_world))) = [v] /\
     time_of k_updatedAt v < time_of k_createdAt v) /\
  (exists v,
     items (app (snd (@update example_engine backward_env (js "LOYW3V274FZYO8")
                        neck_tilt_form
                        (snd (@create example_engine backward_env neck_tilt_form
                                fresh_world))))) = [v] /\
     time_of k_updatedAt v < time_of k_createdAt v).
Proof.
  split; [|split]; eexists; (split; [vm_compute; reflexivity|]); vm_compute; reflexivity.
Qed.

(** Why an ingested item must not be dated in the future: an import of
    an item created and updated at one moment yet to come keeps the
    order, and the next update of that item breaks it. *)
Lemma future_dated_item_falls_behind :
  exists v0 v,
    items (app (snd (@importJSON example_engine example_env future_dated_file
                       fresh_world))) = [v0] /\
    time_of k_createdAt v0 <= time_of k_updatedAt v0 /\
    items (app (snd (@update example_engine example_env (js "x") neck_tilt_form
                       (snd (@importJSON example_engine example_env
                               future_dated_file fresh_world))))) = [v] /\
    time_of k_updatedAt v < time_of k_createdAt v.
Proof.
  eexists _, _. split; [vm_compute; reflexivity|].
  split; [vm_compute; discriminate|].
  split; [vm_compute; reflexivity|]. vm_compute; reflexivity.
Qed.

(** ** Base64 *)


Lemma forall_below (P : Z -> bool) (n : nat) :
  forallb P (List.map Z.of_nat (seq 0 n)) = true ->
  forall z, 0 <= z < Z.of_nat n -> P z = true.
Proof.
  intros Hall z Hz. rewrite forallb_forall in Hall.
  apply Hall. apply in_map_iff. exists (Z.to_nat z). split; [lia|].
  apply in_seq. lia.
Qed.

Lemma b64_value_char n : 0 <= n < 64 -> b64_value (b64_char n) = Some n.
Proof.
  intros Hn.
  apply (forall_below (fun n => bool_decide (b64_value (b64_char n) = Some n)) 64)
    in Hn; [|vm_compute; reflexivity].
  apply bool_decide_eq_true in Hn. exact Hn.
Qed.

Lemma b64_char_plain n :
  0 <= n < 64 -> is_ascii_ws (b64_char n) = false /\ b64_char n <> 61.
Proof.
  intros Hn.
  apply (forall_below
    (fun n => negb (is_ascii_ws (b64_char n)) && negb (b64_char n =? 61)) 64)
    in Hn; [|vm_compute; reflexivity].
  apply andb_true_iff in Hn as [H1 H2].
  apply negb_true_iff in H1. apply negb_true_iff, Z.eqb_neq in H2. auto.
Qed.

Lemma list_ind3 {A} (P : list A -> Prop) :
  P [] -> (forall a, P [a]) -> (forall a b, P [a; b]) ->
  (forall a b c l, P l -> P (a :: b :: c :: l)) ->
  forall l, P l.
Proof.
  intros H0 H1 H2 H3. fix IH 1. intros [|a [|b [|c l]]].
  - exact H0.
  - apply H1.
  - apply H2.
  - apply H3, IH.
Qed.

Lemma list_ind2 {A} (P : list A -> Prop) :
  P [] -> (forall a, P [a]) ->
  (forall a b l, P l -> P (b :: l) -> P (a :: b :: l)) ->
  forall l, P l.
Proof.
  intros H0 H1 H2.
  assert (Hboth : forall l, P l /\ forall a, P (a :: l)).
  { induction l as [|b l [IH1 IH2]]; [split; [exact H0|exact H1]|].
    split; [apply IH2|]. intros a. apply H2; [exact IH1|apply IH2]. }
  intros l. apply Hboth.
Qed.


Lemma is_byte_range b : in_range 0 255 b = true <-> is_byte b.
Proof. unfold in_range, is_byte. rewrite andb_true_iff, !Z.leb_le. lia. Qed.

Lemma base64_encode_parts bytes :
  base64_encode bytes = List.map b64_char (sextets_of bytes) ++ padding_of bytes.
Proof.
  induction bytes as [|a|a b|a b c l IH] using list_ind3; try reflexivity.
  change (base64_encode (a :: b :: c :: l))
    with (b64_char (a / 4) :: b64_char (a mod 4 * 16 + b / 16)
          :: b64_char (b mod 16 * 4 + c / 64) :: b64_char (c mod 64)
          :: base64_encode l).
  rewrite IH. unfold padding_of.
  change (length (a :: b :: c :: l)) with (3 + length l)%nat.
  replace ((3 + length l) mod 3)%nat with (length l mod 3)%nat; [reflexivity|].
  rewrite <- (Nat.Div0.add_mod_idemp_l 3 (length l) 3). reflexivity.
Qed.

Lemma sextets_of_range bytes :
  Forall is_byte bytes -> Forall (fun n => 0 <= n < 64) (sextets_of bytes).
Proof.
  unfold is_byte.
  induction bytes as [|a|a b|a b c l IH] using list_ind3; intros Hb.
  - constructor.
  - apply Forall_cons in Hb as [Ha _]. simpl.
    repeat constructor; Z.div_mod_to_equations; lia.
  - apply Forall_cons in Hb as [Ha Hb]. apply Forall_cons in Hb as [Hb _]. simpl.
    repeat constructor; Z.div_mod_to_equations; lia.
  - apply Forall_cons in Hb as [Ha Hb]. apply Forall_cons in Hb as [Hb Hc].
    apply Forall_cons in Hc as [Hc Hl].
    change (sextets_of (a :: b :: c :: l))
      with (a / 4 :: (a mod 4 * 16 + b / 16) :: (b mod 16 * 4 + c / 64) :: c mod 64
            :: sextets_of l).
    repeat (constructor; [Z.div_mod_to_equations; lia|]). apply IH, Hl.
Qed.

Lemma sextets_of_length bytes :
  (length (sextets_of bytes) mod 4 <> 1)%nat /\
  ((length (sextets_of bytes) + length (padding_of bytes)) mod 4 = 0)%nat.
Proof.
  induction bytes as [|a|a b|a b c l IH] using list_ind3;
    try (split; [discriminate|reflexivity]).
  change (sextets_of (a :: b :: c :: l))
    with (a / 4 :: (a mod 4 * 16 + b / 16) :: (b mod 16 * 4 + c / 64) :: c mod 64
          :: sextets_of l).
  assert (Hp : padding_of (a :: b :: c :: l) = padding_of l).
  { unfold padding_of. change (length (a :: b :: c :: l)) with (3 + length l)%nat.
    replace ((3 + length l) mod 3)%nat with (length l mod 3)%nat; [reflexivity|].
    rewrite <- (Nat.Div0.add_mod_idemp_l 3 (length l) 3). reflexivity. }
  rewrite Hp.
  change (length (_ :: _ :: _ :: _ :: sextets_of l))
    with (4 + length (sextets_of l))%nat.
  destruct IH as [IH1 IH2]. split.
  - rewrite <- (Nat.Div0.add_mod_idemp_l 4 _ 4). exact IH1.
  - rewrite <- Nat.add_assoc, <- (Nat.Div0.add_mod_idemp_l 4 _ 4). exact IH2.
Qed.

Lemma base64_decode_sextets bytes :
  Forall is_byte bytes -> base64_decode (sextets_of bytes) = bytes.
Proof.
  unfold is_byte.
  induction bytes as [|a|a b|a b c l IH] using list_ind3; intros Hb.
  - reflexivity.
  - apply Forall_cons in Hb as [Ha _]. simpl. f_equal.
    Z.div_mod_to_equations; lia.
  - apply Forall_cons in Hb as [Ha Hb]. apply Forall_cons in Hb as [Hb _]. simpl.
    f_equal; [|f_equal]; Z.div_mod_to_equations; lia.
  - apply Forall_cons in Hb as [Ha Hb]. apply Forall_cons in Hb as [Hb Hc].
    apply Forall_cons in Hc as [Hc Hl].
    change (sextets_of (a :: b :: c :: l))
      with (a / 4 :: (a mod 4 * 16 + b / 16) :: (b mod 16 * 4 + c / 64) :: c mod 64
            :: sextets_of l).
    change (base64_decode (?w :: ?x :: ?y :: ?z :: sextets_of l))
      with ((w * 4 + x / 16) :: (x mod 16 * 16 + y / 4) :: (y mod 4 * 64 + z)
            :: base64_decode (sextets_of l)).
    rewrite (IH Hl).
    f_equal; [|f_equal; [|f_equal]]; Z.div_mod_to_equations; lia.
Qed.

Lemma sextets_chars ns :
  Forall (fun n => 0 <= n < 64) ns -> sextets (List.map b64_char ns) = Some ns.
Proof.
  induction 1 as [|n ns Hn _ IH]; simpl; [reflexivity|].
  rewrite (b64_value_char n Hn), IH. reflexivity.
Qed.

Lemma filter_spaces_encoded ns pad :
  Forall (fun n => 0 <= n < 64) ns -> Forall (fun c => c = 61) pad ->
  List.filter (fun c => negb (is_ascii_ws c)) (List.map b64_char ns ++ pad)
  = List.map b64_char ns ++ pad.
Proof.
  intros Hns Hpad. apply forallb_filter_id. rewrite forallb_app.
  apply andb_true_iff. split; apply forallb_forall.
  - intros c Hc. apply in_map_iff in Hc as (n & <- & Hn).
    rewrite Forall_forall in Hns. apply list_elem_of_In in Hn.
    destruct (b64_char_plain n (Hns n Hn)) as [-> _]. reflexivity.
  - intros c Hc. rewrite Forall_forall in Hpad. apply list_elem_of_In in Hc.
    rewrite (Hpad c Hc). reflexivity.
Qed.

Lemma strip_padding_encoded bytes :
  Forall is_byte bytes ->
  strip_padding (List.map b64_char (sextets_of bytes) ++ padding_of bytes)
  = List.map b64_char (sextets_of bytes).
Proof.
  intros Hb. pose proof (sextets_of_range bytes Hb) as Hr.
  destruct (sextets_of_length bytes) as [_ Hlen].
  unfold strip_padding. rewrite length_app, length_map, Hlen. simpl.
  rewrite rev_app_distr.
  assert (Hlast : forall b, In b (rev (List.map b64_char (sextets_of bytes))) ->
                            (b =? 61) = false).
  { intros b Hin. apply Z.eqb_neq. apply in_rev in Hin.
    apply in_map_iff in Hin as (n & <- & Hn).
    rewrite Forall_forall in Hr. apply list_elem_of_In in Hn.
    apply (b64_char_plain n (Hr n Hn)). }
  unfold padding_of. destruct (length bytes mod 3)%nat as [|[|[|k]]]; simpl.
  - rewrite app_nil_r.
    destruct (rev (List.map b64_char (sextets_of bytes))) as [|a [|b r]];
      try reflexivity; rewrite (Hlast a) by (left; reflexivity); reflexivity.
  - rewrite rev_involutive. reflexivity.
  - destruct (rev (List.map b64_char (sextets_of bytes))) as [|b r] eqn:Hrev.
    + apply (f_equal (@rev Z)) in Hrev. rewrite rev_involutive in Hrev.
      rewrite Hrev. reflexivity.
    + rewrite (Hlast b) by (left; reflexivity).
      apply (f_equal (@rev Z)) in Hrev. rewrite rev_involutive in Hrev.
      rewrite Hrev. reflexivity.
  - rewrite app_nil_r.
    destruct (rev (List.map b64_char (sextets_of bytes))) as [|a [|b r]];
      try reflexivity; rewrite (Hlast a) by (left; reflexivity); reflexivity.
Qed.

Lemma padding_is_equals bytes : Forall (fun c => c = 61) (padding_of bytes).
Proof.
  unfold padding_of. destruct (length bytes mod 3)%nat as [|[|[|k]]];
    repeat constructor.
Qed.

(** What [btoa] writes, [atob] reads back. *)
Lemma atob_btoa bytes :
  Forall is_byte bytes ->
  btoa bytes = Return (base64_encode bytes) /\
  atob (base64_encode bytes) = Return bytes.
Proof.
  intros Hb. split.
  - unfold btoa. replace (forallb (in_range 0 255) bytes) with true; [reflexivity|].
    symmetry. apply forallb_forall. intros b Hin. apply is_byte_range.
    rewrite Forall_forall in Hb. apply Hb, list_elem_of_In, Hin.
  - unfold atob. rewrite base64_encode_parts.
    rewrite filter_spaces_encoded
      by (auto using sextets_of_range, padding_is_equals).
    rewrite strip_padding_encoded by exact Hb. rewrite length_map.
    destruct (sextets_of_length bytes) as [Hne _].
    apply Nat.eqb_neq in Hne. rewrite Hne.
    rewrite sextets_chars by (apply sextets_of_range; exact Hb).
    rewrite base64_decode_sextets by exact Hb. reflexivity.
Qed.

(** ** Percent escapes and UTF-8 *)

Lemma hex_value_upper d : 0 <= d < 16 -> hex_value (hex_upper d) = Some d.
Proof.
  intros Hd.
  apply (forall_below (fun d => bool_decide (hex_value (hex_upper d) = Some d)) 16)
    in Hd; [|vm_compute; reflexivity].
  apply bool_decide_eq_true in Hd. exact Hd.
Qed.

Lemma hex_value_lower d : 0 <= d < 16 -> hex_value (hex_lower d) = Some d.
Proof.
  intros Hd.
  apply (forall_below (fun d => bool_decide (hex_value (hex_lower d) = Some d)) 16)
    in Hd; [|vm_compute; reflexivity].
  apply bool_decide_eq_true in Hd. exact Hd.
Qed.

Lemma hex_upper_not_u d : 0 <= d < 16 -> (hex_upper d =? 117) = false.
Proof.
  intros Hd. unfold hex_upper. destruct (d <? 10) eqn:H10; lia.
Qed.

Lemma hex2_percent b :
  is_byte b -> hex2 (hex_upper (b / 16)) (hex_upper (b mod 16)) = Some b.
Proof.
  unfold is_byte. intros Hb. unfold hex2.
  rewrite !hex_value_upper by (Z.div_mod_to_equations; lia).
  f_equal. Z.div_mod_to_equations; lia.
Qed.

Lemma read_percent_percent b r :
  is_byte b -> read_percent (percent b ++ r) = Some (b, r).
Proof. intros Hb. simpl. rewrite hex2_percent by exact Hb. reflexivity. Qed.

Lemma unescape_percent b r :
  is_byte b -> unescape (percent b ++ r) = b :: unescape r.
Proof.
  intros Hb. unfold percent.
  change (unescape ([37; hex_upper (b / 16); hex_upper (b mod 16)] ++ r))
    with (if hex_upper (b / 16) =? 117 then
            match r with
            | h3 :: h4 :: h5 :: s6 =>
                match JSON.hex4 (hex_upper (b mod 16)) h3 h4 h5 with
                | Some n => n :: unescape s6
                | None => 37 :: unescape (hex_upper (b / 16) :: hex_upper (b mod 16) :: r)
                end
            | _ => 37 :: unescape (hex_upper (b / 16) :: hex_upper (b mod 16) :: r)
            end
          else
            match hex2 (hex_upper (b / 16)) (hex_upper (b mod 16)) with
            | Some n => n :: unescape r
            | None => 37 :: unescape (hex_upper (b / 16) :: hex_upper (b mod 16) :: r)
            end).
  unfold is_byte in Hb.
  rewrite hex_upper_not_u by (Z.div_mod_to_equations; lia).
  rewrite hex2_percent by exact Hb. reflexivity.
Qed.

Lemma unescape_percent_all bytes r :
  Forall is_byte bytes -> unescape (percent_all bytes ++ r) = bytes ++ unescape r.
Proof.
  induction 1 as [|b bytes Hb _ IH]; [reflexivity|].
  unfold percent_all in *.
  change (flat_map percent (b :: bytes)) with (percent b ++ flat_map percent bytes).
  rewrite <- app_assoc.
  rewrite unescape_percent by exact Hb. rewrite IH. reflexivity.
Qed.

Lemma unescape_plain c r : c <> 37 -> unescape (c :: r) = c :: unescape r.
Proof. intros Hc. simpl. apply Z.eqb_neq in Hc. rewrite Hc. reflexivity. Qed.

Lemma uri_unreserved_ascii c :
  uri_unreserved c = true -> 0 <= c < 128 /\ c <> 37.
Proof.
  unfold uri_unreserved, is_alnum, is_digit, is_upper, is_lower, in_range, one_of.
  simpl. repeat rewrite orb_true_iff. repeat rewrite andb_true_iff.
  repeat rewrite Z.leb_le. repeat rewrite Z.eqb_eq. unfold ch. simpl. lia.
Qed.

Lemma escape_unreserved_ascii c :
  escape_unreserved c = true -> 0 <= c < 128 /\ c <> 37.
Proof.
  unfold escape_unreserved, is_alnum, is_digit, is_upper, is_lower, in_range, one_of.
  simpl. repeat rewrite orb_true_iff. repeat rewrite andb_true_iff.
  repeat rewrite Z.leb_le. repeat rewrite Z.eqb_eq. unfold ch. simpl. lia.
Qed.

Lemma utf8_encode_bytes cp :
  0 <= cp < 1114112 -> Forall is_byte (utf8_encode cp).
Proof.
  intros Hcp. unfold utf8_encode, is_byte.
  destruct (Z.ltb_spec cp 128); [repeat constructor; lia|].
  destruct (Z.ltb_spec cp 2048);
    [repeat constructor; Z.div_mod_to_equations; lia|].
  destruct (Z.ltb_spec cp 65536);
    repeat constructor; Z.div_mod_to_equations; lia.
Qed.

Lemma surrogate_ranges c :
  (is_high_surrogate c = true -> 55296 <= c <= 56319) /\
  (is_low_surrogate c = true -> 56320 <= c <= 57343) /\
  (is_high_surrogate c = false -> is_low_surrogate c = false ->
   c < 55296 \/ 57343 < c).
Proof.
  unfold is_high_surrogate, is_low_surrogate, in_range.
  repeat rewrite andb_true_iff. repeat rewrite andb_false_iff.
  repeat rewrite Z.leb_le. repeat rewrite Z.leb_gt. lia.
Qed.

Lemma pair_code_point h l :
  is_high_surrogate h = true -> is_low_surrogate l = true ->
  65536 <= code_point_of_pair h l < 1114112.
Proof.
  intros Hh Hl. apply surrogate_ranges in Hh. apply surrogate_ranges in Hl.
  unfold code_point_of_pair. lia.
Qed.

Lemma utf8_of_string_bytes s : well_formed s -> Forall is_byte (utf8_of_string s).
Proof.
  induction 1 as [|c s Hc Hh Hl _ IH|h l s Hh Hl _ IH]; simpl.
  - constructor.
  - rewrite Hh, Hl. apply Forall_app. split; [|exact IH].
    apply utf8_encode_bytes. lia.
  - rewrite Hh, Hl. apply Forall_app. split; [|exact IH].
    apply utf8_encode_bytes. pose proof (pair_code_point h l Hh Hl). lia.
Qed.

(** [encodeURIComponent] followed by [unescape] is the UTF-8 encoding. *)
Lemma unescape_Encode s :
  well_formed s ->
  exists e, Encode s = Return e /\ unescape e = utf8_of_string s.
Proof.
  induction 1 as [|c s Hc Hh Hl _ [e [He Hu]]|h l s Hh Hl _ [e [He Hu]]].
  - exists []. split; reflexivity.
  - simpl. rewrite Hh, Hl, He. simpl.
    destruct (uri_unreserved c) eqn:Hres.
    + apply uri_unreserved_ascii in Hres as [Hascii Hpct].
      eexists. split; [reflexivity|].
      rewrite unescape_plain by exact Hpct. rewrite Hu.
      unfold utf8_encode. destruct (Z.ltb_spec c 128); [reflexivity|lia].
    + eexists. split; [reflexivity|].
      rewrite unescape_percent_all by (apply utf8_encode_bytes; lia).
      rewrite Hu. reflexivity.
  - assert (Hres : uri_unreserved h = false).
    { destruct (uri_unreserved h) eqn:Hres; [|reflexivity].
      apply uri_unreserved_ascii in Hres. apply surrogate_ranges in Hh. lia. }
    assert (Hhl : is_low_surrogate h = false).
    { destruct (is_low_surrogate h) eqn:Hx; [|reflexivity].
      apply surrogate_ranges in Hx. apply surrogate_ranges in Hh. lia. }
    simpl. rewrite Hres, Hhl, Hh, Hl, He. simpl.
    eexists. split; [reflexivity|].
    pose proof (pair_code_point h l Hh Hl).
    rewrite unescape_percent_all by (apply utf8_encode_bytes; lia).
    rewrite Hu. reflexivity.
Qed.

Lemma Decode_unfold fuel s :
  Decode (S fuel) s =
  match s with
  | [] => Return []
  | c :: s1 =>
      if negb (c =? 37) then
        let* r := Decode fuel s1 in Return (c :: r)
      else
        match read_percent s with
        | None => Throw URIError
        | Some (b0, r0) =>
            if b0 <? 128 then
              let* r := Decode fuel r0 in Return (utf16_encode b0 ++ r)
            else if b0 <? 192 then Throw URIError
            else if b0 <? 224 then
              match read_percent r0 with
              | Some (b1, r1) =>
                  match utf8_decode2 b0 b1 with
                  | Some cp =>
                      let* r := Decode fuel r1 in Return (utf16_encode cp ++ r)
                  | None => Throw URIError
                  end
              | None => Throw URIError
              end
            else if b0 <? 240 then
              match read_percent r0 with
              | Some (b1, r1) =>
                  match read_percent r1 with
                  | Some (b2, r2) =>
                      match utf8_decode3 b0 b1 b2 with
                      | Some cp =>
                          let* r := Decode fuel r2 in
                          Return (utf16_encode cp ++ r)
                      | None => Throw URIError
                      end
                  | None => Throw URIError
                  end
              | None => Throw URIError
              end
            else if b0 <? 248 then
              match read_percent r0 with
              | Some (b1, r1) =>
                  match read_percent r1 with
                  | Some (b2, r2) =>
                      match read_percent r2 with
                      | Some (b3, r3) =>
                          match utf8_decode4 b0 b1 b2 b3 with
                          | Some cp =>
                              let* r := Decode fuel r3 in
                              Return (utf16_encode cp ++ r)
                          | None => Throw URIError
                          end
                      | None => Throw URIError
                      end
                  | None => Throw URIError
                  end
              | None => Throw URIError
              end
            else Throw URIError
        end
  end.
Proof. destruct s; reflexivity. Qed.

Lemma Decode_plain fuel c r :
  c <> 37 -> Decode (S fuel) (c :: r) = let* x := Decode fuel r in Return (c :: x).
Proof.
  intros Hc. rewrite Decode_unfold. apply Z.eqb_neq in Hc. rewrite Hc. reflexivity.
Qed.

Lemma percent_head b r : percent b ++ r = 37 :: hex_upper (b / 16) :: hex_upper (b mod 16) :: r.
Proof. reflexivity. Qed.

Lemma Decode_ascii fuel b r :
  0 <= b < 128 ->
  Decode (S fuel) (percent b ++ r) = let* x := Decode fuel r in Return (b :: x).
Proof.
  intros Hb. rewrite Decode_unfold.
  rewrite read_percent_percent by (unfold is_byte; lia). rewrite percent_head.
  cbv beta iota. change (negb (37 =? 37)) with false. cbv iota.
  destruct (Z.ltb_spec b 128); [|lia].
  unfold utf16_encode. destruct (Z.ltb_spec b 65536); [reflexivity|lia].
Qed.

Lemma Decode_two fuel cp r :
  128 <= cp < 2048 ->
  Decode (S fuel) (percent_all (utf8_encode cp) ++ r)
  = let* x := Decode fuel r in Return (cp :: x).
Proof.
  intros Hcp. unfold utf8_encode.
  destruct (Z.ltb_spec cp 128); [lia|]. destruct (Z.ltb_spec cp 2048); [|lia].
  set (b0 := 192 + cp / 64). set (b1 := 128 + cp mod 64).
  change (percent_all [b0; b1] ++ r) with (percent b0 ++ percent b1 ++ r).
  assert (Hb0 : 194 <= b0 < 224) by (subst b0; Z.div_mod_to_equations; lia).
  assert (Hb1 : 128 <= b1 < 192) by (subst b1; Z.div_mod_to_equations; lia).
  rewrite Decode_unfold.
  rewrite read_percent_percent by (unfold is_byte; lia). rewrite (percent_head b0).
  cbv beta iota. change (negb (37 =? 37)) with false. cbv iota.
  rewrite read_percent_percent by (unfold is_byte; lia). cbv beta iota.
  destruct (Z.ltb_spec b0 128); [lia|]. destruct (Z.ltb_spec b0 192); [lia|].
  destruct (Z.ltb_spec b0 224); [|lia].
  assert (Hd : utf8_decode2 b0 b1 = Some cp).
  { unfold utf8_decode2, is_continuation, in_range.
    replace ((b0 - 192) * 64 + (b1 - 128)) with cp
      by (subst b0 b1; Z.div_mod_to_equations; lia).
    destruct (Z.leb_spec 128 b1); [|lia]. destruct (Z.leb_spec b1 191); [|lia].
    destruct (Z.leb_spec 128 cp); [|lia]. reflexivity. }
  rewrite Hd. unfold utf16_encode. destruct (Z.ltb_spec cp 65536); [reflexivity|lia].
Qed.

Lemma Decode_three fuel cp r :
  2048 <= cp < 65536 -> is_high_surrogate cp = false ->
  is_low_surrogate cp = false ->
  Decode (S fuel) (percent_all (utf8_encode cp) ++ r)
  = let* x := Decode fuel r in Return (cp :: x).
Proof.
  intros Hcp Hh Hl. pose proof (proj2 (proj2 (surrogate_ranges cp)) Hh Hl) as Hs.
  unfold utf8_encode.
  destruct (Z.ltb_spec cp 128); [lia|]. destruct (Z.ltb_spec cp 2048); [lia|].
  destruct (Z.ltb_spec cp 65536); [|lia].
  set (b0 := 224 + cp / 4096). set (b1 := 128 + cp / 64 mod 64).
  set (b2 := 128 + cp mod 64).
  change (percent_all [b0; b1; b2] ++ r)
    with (percent b0 ++ percent b1 ++ percent b2 ++ r).
  assert (Hb0 : 224 <= b0 < 240) by (subst b0; Z.div_mod_to_equations; lia).
  assert (Hb1 : 128 <= b1 < 192) by (subst b1; Z.div_mod_to_equations; lia).
  assert (Hb2 : 128 <= b2 < 192) by (subst b2; Z.div_mod_to_equations; lia).
  rewrite Decode_unfold.
  rewrite read_percent_percent by (unfold is_byte; lia). rewrite (percent_head b0).
  cbv beta iota. change (negb (37 =? 37)) with false. cbv iota.
  rewrite read_percent_percent by (unfold is_byte; lia). cbv beta iota.
  rewrite read_percent_percent by (unfold is_byte; lia). cbv beta iota.
  destruct (Z.ltb_spec b0 128); [lia|]. destruct (Z.ltb_spec b0 192); [lia|].
  destruct (Z.ltb_spec b0 224); [lia|]. destruct (Z.ltb_spec b0 240); [|lia].
  assert (Hd : utf8_decode3 b0 b1 b2 = Some cp).
  { unfold utf8_decode3, is_continuation, in_range.
    replace (((b0 - 224) * 64 + (b1 - 128)) * 64 + (b2 - 128)) with cp
      by (subst b0 b1 b2; Z.div_mod_to_equations; lia).
    destruct (Z.leb_spec 128 b1); [|lia]. destruct (Z.leb_spec b1 191); [|lia].
    destruct (Z.leb_spec 128 b2); [|lia]. destruct (Z.leb_spec b2 191); [|lia].
    destruct (Z.leb_spec 2048 cp); [|lia].
    destruct (Z.leb_spec 55296 cp), (Z.leb_spec cp 57343); try reflexivity; lia. }
  rewrite Hd. unfold utf16_encode. destruct (Z.ltb_spec cp 65536); [reflexivity|lia].
Qed.

Lemma Decode_four fuel h l r :
  is_high_surrogate h = true -> is_low_surrogate l = true ->
  Decode (S fuel) (percent_all (utf8_encode (code_point_of_pair h l)) ++ r)
  = let* x := Decode fuel r in Return (h :: l :: x).
Proof.
  intros Hh Hl. pose proof (pair_code_point h l Hh Hl) as Hcp.
  apply surrogate_ranges in Hh. apply surrogate_ranges in Hl.
  assert (Hpair : code_point_of_pair h l = (h - 55296) * 1024 + (l - 56320) + 65536)
    by reflexivity.
  set (cp := code_point_of_pair h l) in *.
  unfold utf8_encode.
  destruct (Z.ltb_spec cp 128); [lia|]. destruct (Z.ltb_spec cp 2048); [lia|].
  destruct (Z.ltb_spec cp 65536); [lia|].
  set (b0 := 240 + cp / 262144). set (b1 := 128 + cp / 4096 mod 64).
  set (b2 := 128 + cp / 64 mod 64). set (b3 := 128 + cp mod 64).
  change (percent_all [b0; b1; b2; b3] ++ r)
    with (percent b0 ++ percent b1 ++ percent b2 ++ percent b3 ++ r).
  assert (Hb0 : 240 <= b0 < 245) by (subst b0; Z.div_mod_to_equations; lia).
  assert (Hb1 : 128 <= b1 < 192) by (subst b1; Z.div_mod_to_equations; lia).
  assert (Hb2 : 128 <= b2 < 192) by (subst b2; Z.div_mod_to_equations; lia).
  assert (Hb3 : 128 <= b3 < 192) by (subst b3; Z.div_mod_to_equations; lia).
  rewrite Decode_unfold.
  rewrite read_percent_percent by (unfold is_byte; lia). rewrite (percent_head b0).
  cbv beta iota. change (negb (37 =? 37)) with false. cbv iota.
  rewrite read_percent_percent by (unfold is_byte; lia). cbv beta iota.
  rewrite read_percent_percent by (unfold is_byte; lia). cbv beta iota.
  rewrite read_percent_percent by (unfold is_byte; lia). cbv beta iota.
  destruct (Z.ltb_spec b0 128); [lia|]. destruct (Z.ltb_spec b0 192); [lia|].
  destruct (Z.ltb_spec b0 224); [lia|]. destruct (Z.ltb_spec b0 240); [lia|].
  destruct (Z.ltb_spec b0 248); [|lia].
  assert (Hd : utf8_decode4 b0 b1 b2 b3 = Some cp).
  { unfold utf8_decode4, is_continuation, in_range.
    replace ((((b0 - 240) * 64 + (b1 - 128)) * 64 + (b2 - 128)) * 64 + (b3 - 128))
      with cp by (subst b0 b1 b2 b3; Z.div_mod_to_equations; lia).
    destruct (Z.leb_spec 128 b1); [|lia]. destruct (Z.leb_spec b1 191); [|lia].
    destruct (Z.leb_spec 128 b2); [|lia]. destruct (Z.leb_spec b2 191); [|lia].
    destruct (Z.leb_spec 128 b3); [|lia]. destruct (Z.leb_spec b3 191); [|lia].
    destruct (Z.leb_spec 65536 cp); [|lia].
    destruct (Z.leb_spec cp 1114111); [|lia]. reflexivity. }
  rewrite Hd. unfold utf16_encode. destruct (Z.ltb_spec cp 65536); [lia|].
  replace (55296 + (cp - 65536) / 1024) with h by (Z.div_mod_to_equations; lia).
  replace (56320 + (cp - 65536) mod 1024) with l by (Z.div_mod_to_equations; lia).
  reflexivity.
Qed.

Lemma escape_app a b : escape (a ++ b) = escape a ++ escape b.
Proof. unfold escape. apply flat_map_app. Qed.

Lemma escape_high_bytes bytes :
  Forall (fun b => 128 <= b < 256) bytes -> escape bytes = percent_all bytes.
Proof.
  induction 1 as [|b bytes Hb _ IH]; [reflexivity|].
  unfold escape, percent_all in *. simpl. rewrite IH.
  destruct (escape_unreserved b) eqn:Hres.
  - apply escape_unreserved_ascii in Hres. lia.
  - destruct (Z.ltb_spec b 256); [reflexivity|lia].
Qed.

Lemma utf8_encode_high cp :
  128 <= cp < 1114112 -> Forall (fun b => 128 <= b < 256) (utf8_encode cp).
Proof.
  intros Hcp. unfold utf8_encode.
  destruct (Z.ltb_spec cp 128); [lia|].
  destruct (Z.ltb_spec cp 2048);
    [repeat constructor; Z.div_mod_to_equations; lia|].
  destruct (Z.ltb_spec cp 65536);
    repeat constructor; Z.div_mod_to_equations; lia.
Qed.

(** [escape] followed by [decodeURIComponent] is the UTF-8 decoding. *)
Lemma Decode_escape s :
  well_formed s ->
  forall fuel, (length (escape (utf8_of_string s)) <= fuel)%nat ->
  Decode fuel (escape (utf8_of_string s)) = Return s.
Proof.
  induction 1 as [|c s Hc Hh Hl _ IH|h l s Hh Hl _ IH]; intros fuel Hfuel.
  - destruct fuel; reflexivity.
  - simpl utf8_of_string in *. rewrite Hh, Hl in *. rewrite escape_app in *.
    rewrite length_app in Hfuel.
    destruct (Z.ltb_spec c 128) as [Hascii|Hwide].
    + unfold utf8_encode in *. destruct (Z.ltb_spec c 128); [|lia].
      unfold escape at 1. unfold escape at 1 in Hfuel. simpl flat_map in *.
      rewrite app_nil_r in *.
      destruct (escape_unreserved c) eqn:Hres.
      * apply escape_unreserved_ascii in Hres as [_ Hpct].
        destruct fuel as [|fuel]; [simpl in Hfuel; lia|].
        change ([c] ++ escape (utf8_of_string s)) with (c :: escape (utf8_of_string s)).
        rewrite Decode_plain by exact Hpct.
        rewrite IH by (simpl in Hfuel; lia). reflexivity.
      * destruct (Z.ltb_spec c 256); [|lia].
        destruct fuel as [|fuel]; [simpl in Hfuel; lia|].
        rewrite Decode_ascii by lia.
        rewrite IH by (simpl in Hfuel; lia). reflexivity.
    + rewrite escape_high_bytes in * by (apply utf8_encode_high; lia).
      assert (Hlen : (1 <= length (percent_all (utf8_encode c)))%nat).
      { unfold utf8_encode. destruct (c <? 128), (c <? 2048), (c <? 65536);
          simpl; lia. }
      destruct fuel as [|fuel]; [lia|].
      destruct (Z.ltb_spec c 2048).
      * rewrite Decode_two by lia. rewrite IH by lia. reflexivity.
      * rewrite Decode_three by (auto; lia). rewrite IH by lia. reflexivity.
  - simpl utf8_of_string in *. rewrite Hh, Hl in *. rewrite escape_app in *.
    rewrite length_app in Hfuel.
    pose proof (pair_code_point h l Hh Hl) as Hcp.
    rewrite escape_high_bytes in * by (apply utf8_encode_high; lia).
    assert (Hlen : (1 <= length (percent_all (utf8_encode (code_point_of_pair h l))))%nat).
    { generalize (code_point_of_pair h l). intros cp. unfold utf8_encode.
      destruct (cp <? 128), (cp <? 2048), (cp <? 65536); simpl; lia. }
    destruct fuel as [|fuel]; [lia|].
    rewrite Decode_four by assumption. rewrite IH by lia. reflexivity.
Qed.

(** ** JSON text *)

Lemma is_code_unit_range c : is_code_unit c = true <-> 0 <= c < 65536.
Proof.
  unfold is_code_unit, in_range. rewrite andb_true_iff, !Z.leb_le. lia.
Qed.

Lemma well_formed_app a b : well_formed a -> well_formed b -> well_formed (a ++ b).
Proof.
  induction 1 as [|c s Hc Hh Hl _ IH|h l s Hh Hl _ IH]; intros Hb; simpl.
  - exact Hb.
  - apply wf_unit; auto.
  - apply wf_pair; auto.
Qed.

Lemma well_formed_ascii s : Forall (fun c => 0 <= c < 128) s -> well_formed s.
Proof.
  induction 1 as [|c s Hc _ IH]; constructor; auto; try lia;
    unfold is_high_surrogate, is_low_surrogate, in_range; lia.
Qed.

Lemma hex_lower_ascii d : 0 <= d < 16 -> 0 <= hex_lower d < 128.
Proof. intros Hd. unfold hex_lower. destruct (d <? 10); lia. Qed.

Lemma unicode_escape_ascii c :
  0 <= c < 65536 -> Forall (fun c => 0 <= c < 128) (JSON.unicode_escape c).
Proof.
  intros Hc. unfold JSON.unicode_escape. simpl.
  repeat constructor; try (unfold ch; simpl; lia);
    apply hex_lower_ascii; Z.div_mod_to_equations; lia.
Qed.

Lemma quote_unit_well_formed c :
  0 <= c < 65536 -> is_high_surrogate c = false -> is_low_surrogate c = false ->
  well_formed (JSON.quote_unit c).
Proof.
  intros Hc Hh Hl. unfold JSON.quote_unit.
  repeat (match goal with |- context [if ?x =? ?y then _ else _] =>
            destruct (x =? y);
            [apply well_formed_ascii; repeat constructor; unfold ch; simpl; lia|]
          end).
  destruct (c <? 32).
  - apply well_formed_ascii, unicode_escape_ascii, Hc.
  - apply wf_unit; auto. constructor.
Qed.

Lemma quote_body_well_formed s :
  Forall (fun c => 0 <= c < 65536) s -> well_formed (JSON.quote_body s).
Proof.
  induction s as [|a|a b l IH1 IH2] using list_ind2; intros Hs.
  - constructor.
  - apply Forall_cons in Hs as [Ha _].
    change (JSON.quote_body [a])
      with (if is_high_surrogate a then JSON.unicode_escape a
            else if is_low_surrogate a then JSON.unicode_escape a ++ []
                 else JSON.quote_unit a ++ []).
    destruct (is_high_surrogate a) eqn:Hh;
      [apply well_formed_ascii, unicode_escape_ascii, Ha|].
    destruct (is_low_surrogate a) eqn:Hl.
    + rewrite app_nil_r. apply well_formed_ascii, unicode_escape_ascii, Ha.
    + rewrite app_nil_r. apply quote_unit_well_formed; assumption.
  - apply Forall_cons in Hs as [Ha Hs]. pose proof Hs as Hbl.
    apply Forall_cons in Hs as [Hb Hl0].
    change (JSON.quote_body (a :: b :: l))
      with (if is_high_surrogate a then
              if is_low_surrogate b then a :: b :: JSON.quote_body l
              else JSON.unicode_escape a ++ JSON.quote_body (b :: l)
            else if is_low_surrogate a
                 then JSON.unicode_escape a ++ JSON.quote_body (b :: l)
                 else JSON.quote_unit a ++ JSON.quote_body (b :: l)).
    destruct (is_high_surrogate a) eqn:Hh.
    + destruct (is_low_surrogate b) eqn:Hl.
      * apply wf_pair; auto.
      * apply well_formed_app; [|auto].
        apply well_formed_ascii, unicode_escape_ascii, Ha.
    + destruct (is_low_surrogate a) eqn:Hl; (apply well_formed_app; [|auto]).
      * apply well_formed_ascii, unicode_escape_ascii, Ha.
      * apply quote_unit_well_formed; assumption.
Qed.

Lemma hex4_lower c :
  0 <= c < 65536 ->
  JSON.hex4 (hex_lower (c / 4096)) (hex_lower (c / 256 mod 16))
    (hex_lower (c / 16 mod 16)) (hex_lower (c mod 16)) = Some c.
Proof.
  intros Hc. unfold JSON.hex4.
  rewrite !hex_value_lower by (Z.div_mod_to_equations; lia).
  f_equal. Z.div_mod_to_equations; lia.
Qed.

Lemma parse_unicode_escape c r :
  0 <= c < 65536 ->
  JSON.parse_string_body (JSON.unicode_escape c ++ r)
  = JSON.cons_unit c (JSON.parse_string_body r).
Proof.
  intros Hc. unfold JSON.unicode_escape.
  change (JSON.parse_string_body
            ((js "\u" ++ [hex_lower (c / 4096); hex_lower (c / 256 mod 16);
                          hex_lower (c / 16 mod 16); hex_lower (c mod 16)]) ++ r))
    with (match JSON.hex4 (hex_lower (c / 4096)) (hex_lower (c / 256 mod 16))
                  (hex_lower (c / 16 mod 16)) (hex_lower (c mod 16)) with
          | Some u => JSON.cons_unit u (JSON.parse_string_body r)
          | None => None
          end).
  rewrite hex4_lower by exact Hc. reflexivity.
Qed.

Lemma parse_plain_unit c r :
  32 <= c -> c <> 34 -> c <> 92 ->
  JSON.parse_string_body (c :: r) = JSON.cons_unit c (JSON.parse_string_body r).
Proof.
  intros H32 H34 H92. simpl.
  apply Z.eqb_neq in H34, H92. rewrite H34, H92.
  destruct (Z.ltb_spec c 32); [lia|]. reflexivity.
Qed.

Lemma parse_quote_unit c r :
  0 <= c < 65536 ->
  JSON.parse_string_body (JSON.quote_unit c ++ r)
  = JSON.cons_unit c (JSON.parse_string_body r).
Proof.
  intros Hc. unfold JSON.quote_unit.
  repeat (match goal with |- context [if ?x =? ?y then _ else _] =>
            destruct (Z.eqb_spec x y) as [->|]; [reflexivity|]
          end).
  destruct (Z.ltb_spec c 32).
  - apply parse_unicode_escape, Hc.
  - apply parse_plain_unit; lia.
Qed.

Lemma surrogate_is_plain c :
  is_high_surrogate c = true \/ is_low_surrogate c = true ->
  32 <= c /\ c <> 34 /\ c <> 92 /\ 0 <= c < 65536.
Proof.
  pose proof (surrogate_ranges c) as (Hh & Hl & _). intros [H|H]; [apply Hh in H|apply Hl in H]; lia.
Qed.

(** A string literal reads back as the string it was written from. *)
Lemma parse_quote_body s rest :
  Forall (fun c => 0 <= c < 65536) s ->
  JSON.parse_string_body (JSON.quote_body s ++ 34 :: rest) = Some (s, rest).
Proof.
  induction s as [|a|a b l IH1 IH2] using list_ind2; intros Hs.
  - reflexivity.
  - apply Forall_cons in Hs as [Ha _].
    change (JSON.quote_body [a])
      with (if is_high_surrogate a then JSON.unicode_escape a
            else if is_low_surrogate a then JSON.unicode_escape a ++ []
                 else JSON.quote_unit a ++ []).
    destruct (is_high_surrogate a) eqn:Hh;
      [rewrite parse_unicode_escape by exact Ha; reflexivity|].
    destruct (is_low_surrogate a) eqn:Hl; rewrite <- app_assoc.
    + rewrite parse_unicode_escape by exact Ha. reflexivity.
    + rewrite parse_quote_unit by exact Ha. reflexivity.
  - apply Forall_cons in Hs as [Ha Hs]. pose proof Hs as Hbl.
    apply Forall_cons in Hs as [Hb Hl0].
    change (JSON.quote_body (a :: b :: l))
      with (if is_high_surrogate a then
              if is_low_surrogate b then a :: b :: JSON.quote_body l
              else JSON.unicode_escape a ++ JSON.quote_body (b :: l)
            else if is_low_surrogate a
                 then JSON.unicode_escape a ++ JSON.quote_body (b :: l)
                 else JSON.quote_unit a ++ JSON.quote_body (b :: l)).
    destruct (is_high_surrogate a) eqn:Hh.
    + destruct (is_low_surrogate b) eqn:Hl.
      * destruct (surrogate_is_plain a (or_introl Hh)) as (? & ? & ? & _).
        destruct (surrogate_is_plain b (or_intror Hl)) as (? & ? & ? & _).
        change ((a :: b :: JSON.quote_body l) ++ 34 :: rest)
          with (a :: b :: (JSON.quote_body l ++ 34 :: rest)).
        rewrite !parse_plain_unit by assumption. rewrite IH1 by assumption.
        reflexivity.
      * rewrite <- app_assoc, parse_unicode_escape by exact Ha.
        rewrite IH2 by assumption. reflexivity.
    + destruct (is_low_surrogate a) eqn:Hl; rewrite <- app_assoc.
      * rewrite parse_unicode_escape by exact Ha.
        rewrite IH2 by assumption. reflexivity.
      * rewrite parse_quote_unit by exact Ha.
        rewrite IH2 by assumption. reflexivity.
Qed.

Lemma digits_value_snoc ds d :
  JSON.digits_value (ds ++ [d]) = JSON.digits_value ds * 10 + (d - 48).
Proof. unfold JSON.digits_value. rewrite fold_left_app. reflexivity. Qed.

Lemma digits_from_unfold fuel n acc :
  digits_from (S fuel) 10 n acc
  = if n <? 10 then digit_char (n mod 10) :: acc
    else digits_from fuel 10 (n / 10) (digit_char (n mod 10) :: acc).
Proof. reflexivity. Qed.

Lemma last_digit n :
  0 <= n ->
  digit_char (n mod 10) = 48 + n mod 10 /\
  is_digit (digit_char (n mod 10)) = true.
Proof.
  intros Hn. assert (Hd : digit_char (n mod 10) = 48 + n mod 10).
  { unfold digit_char. destruct (Z.ltb_spec (n mod 10) 10); [reflexivity|].
    Z.div_mod_to_equations; lia. }
  split; [exact Hd|]. rewrite Hd. unfold is_digit, in_range.
  apply andb_true_iff. rewrite !Z.leb_le. Z.div_mod_to_equations; lia.
Qed.

Lemma digits_from_spec fuel n acc :
  0 <= n < 2 ^ Z.of_nat (S fuel) ->
  exists ds,
    digits_from (S fuel) 10 n acc = ds ++ acc /\
    Forall (fun c => is_digit c = true) ds /\
    JSON.digits_value ds = n /\
    match ds with
    | [] => False
    | d :: r => (d = 48 -> n = 0 /\ r = [])
    end.
Proof.
  revert n acc. induction fuel as [|fuel IH]; intros n acc Hn;
    rewrite digits_from_unfold;
    destruct (last_digit n (proj1 Hn)) as [Hd Hdig];
    destruct (Z.ltb_spec n 10) as [Hsmall|Hbig].
  1, 3: exists [digit_char (n mod 10)];
      assert (Hmod : n mod 10 = n) by (apply Z.mod_small; lia);
      split; [reflexivity|]; split; [constructor; [exact Hdig|constructor]|];
      split;
      [rewrite Hd, Hmod; unfold JSON.digits_value; simpl; lia
      |rewrite Hd, Hmod; intros H48; split; [lia|reflexivity]].
  - simpl in Hn. lia.
  - destruct (IH (n / 10) (digit_char (n mod 10) :: acc))
      as (ds & Hds & Hall & Hval & Hhd).
    { rewrite (Nat2Z.inj_succ (S fuel)), Z.pow_succ_r in Hn by lia.
      Z.div_mod_to_equations; lia. }
    exists (ds ++ [digit_char (n mod 10)]). rewrite <- app_assoc.
    split; [exact Hds|].
    split; [apply Forall_app; split;
            [exact Hall|constructor; [exact Hdig|constructor]]|].
    split.
    + rewrite digits_value_snoc, Hval, Hd. Z.div_mod_to_equations; lia.
    + destruct ds as [|d r]; [contradiction|]. simpl.
      intros H48. destruct (Hhd H48) as [Hz _]. Z.div_mod_to_equations; lia.
Qed.

Lemma digits_spec n :
  0 <= n ->
  exists ds,
    digits 10 n = ds /\
    Forall (fun c => is_digit c = true) ds /\
    JSON.digits_value ds = n /\
    match ds with
    | [] => False
    | d :: r => (d = 48 -> n = 0 /\ r = [])
    end.
Proof.
  intros Hn. unfold digits.
  destruct (digits_from_spec (Z.to_nat (Z.log2 n)) n []) as (ds & Hds & H).
  - rewrite Nat2Z.inj_succ, Z2Nat.id by apply Z.log2_nonneg.
    destruct (Z.eq_dec n 0) as [->|Hnz]; [simpl; lia|].
    split; [exact Hn|]. apply Z.log2_spec. lia.
  - exists ds. rewrite app_nil_r in Hds. auto.
Qed.

Lemma span_digits_app ds rest :
  Forall (fun c => is_digit c = true) ds ->
  match rest with [] => True | c :: _ => is_digit c = false end ->
  JSON.span_digits (ds ++ rest) = (ds, rest).
Proof.
  intros Hds Hrest. induction Hds as [|d ds Hd _ IH]; simpl.
  - destruct rest as [|c r]; [reflexivity|]. simpl. rewrite Hrest. reflexivity.
  - rewrite Hd, IH. reflexivity.
Qed.

Lemma delimited_not_number rest :
  delimited rest ->
  match rest with
  | [] => True
  | c :: _ => is_digit c = false /\ c <> 46 /\ c <> 101 /\ c <> 69
  end.
Proof.
  destruct rest as [|c r]; [auto|]. unfold delimited, is_digit, in_range.
  intros [->|[->| ->]]; repeat split; try reflexivity; lia.
Qed.

Lemma parse_after_digits rest :
  delimited rest ->
  JSON.parse_fraction rest = Some ([], rest) /\
  JSON.parse_exponent rest = Some (0, rest).
Proof.
  intros Hd. apply delimited_not_number in Hd.
  destruct rest as [|c r]; [split; reflexivity|].
  destruct Hd as (_ & H46 & H101 & H69).
  unfold JSON.parse_fraction, JSON.parse_exponent.
  apply Z.eqb_neq in H46, H101, H69. rewrite H46, H101, H69. split; reflexivity.
Qed.

Lemma parse_natural n rest neg :
  0 <= n -> delimited rest ->
  JSON.parse_unsigned neg (digits 10 n ++ rest)
  = Some (JSON.make_number neg n 0, rest).
Proof.
  intros Hn Hrest. unfold JSON.parse_unsigned.
  destruct (digits_spec n Hn) as (ds & -> & Hall & Hval & Hhd).
  destruct (parse_after_digits rest Hrest) as [Hf He].
  destruct ds as [|d r]; [contradiction|].
  pose proof Hall as Hall'. apply Forall_cons in Hall' as [Hd Hr].
  change ((d :: r) ++ rest) with (d :: (r ++ rest)). cbv iota. rewrite Hd.
  destruct (Z.eqb_spec d 48) as [H48|H48].
  - destruct (Hhd H48) as [Hz ->]. cbv beta iota zeta.
    change ([] ++ rest) with rest. rewrite Hf, He. cbv beta iota zeta.
    subst d n. reflexivity.
  - change (d :: r ++ rest) with ((d :: r) ++ rest).
    rewrite span_digits_app; [|exact Hall|].
    + cbv beta iota zeta. rewrite Hf, He. cbv beta iota zeta.
      rewrite app_nil_r, Hval. reflexivity.
    + apply delimited_not_number in Hrest. destruct rest; tauto.
Qed.

Lemma make_number_integer neg n :
  JSON.make_number neg n 0 = num_of_Z (if neg then - n else n).
Proof.
  unfold JSON.make_number, num_of_Z. simpl. rewrite Z.mul_1_r. reflexivity.
Qed.

Lemma digits_head n rest :
  0 <= n ->
  exists d t, digits 10 n ++ rest = d :: t /\ is_digit d = true.
Proof.
  intros Hn. destruct (digits_spec n Hn) as (ds & -> & Hall & _ & Hhd).
  destruct ds as [|d r]; [contradiction|]. apply Forall_cons in Hall as [Hd _].
  exists d, (r ++ rest). split; [reflexivity|exact Hd].
Qed.

(** The numeral of an integer reads back as that integer. *)
Lemma parse_number_integer z rest :
  delimited rest ->
  JSON.parse_number (Z_toString 10 z ++ rest) = Some (num_of_Z z, rest).
Proof.
  intros Hrest. unfold Z_toString.
  destruct (Z.ltb_spec z 0) as [Hneg|Hpos].
  - change ((ch "-" :: digits 10 (- z)) ++ rest) with (45 :: (digits 10 (- z) ++ rest)).
    unfold JSON.parse_number. change (45 =? 45) with true. cbv iota.
    rewrite parse_natural by (auto; lia).
    rewrite make_number_integer. f_equal. f_equal. f_equal. lia.
  - destruct (digits_head z rest Hpos) as (d & t & Hdt & Hd).
    pose proof (parse_natural z rest false Hpos Hrest) as Hnat.
    unfold JSON.parse_number. rewrite Hdt in *.
    assert (H45 : (d =? 45) = false).
    { unfold is_digit, in_range in Hd. apply andb_true_iff in Hd. lia. }
    rewrite H45, Hnat, make_number_integer. reflexivity.
Qed.

Lemma define_prop_last k v acc :
  Forall (fun kv => may_follow (fst kv) k = true) acc ->
  define_prop k v acc = acc ++ [(k, v)].
Proof.
  induction 1 as [|[k0 v0] acc Hk _ IH]; [reflexivity|].
  simpl in Hk. unfold may_follow in Hk. apply andb_true_iff in Hk as [Hne Hidx].
  apply negb_true_iff in Hne. simpl. rewrite Hne.
  destruct (array_index k) as [i|], (array_index k0) as [i0|];
    try discriminate; rewrite IH; try reflexivity.
  apply Z.ltb_lt in Hidx.
  destruct (Z.ltb_spec i i0) as [Hlt|Hge].
  - lia.
  - reflexivity.
Qed.

Lemma object_literal_in_order acc o :
  Forall (fun kv => forallb (may_follow (fst kv)) (List.map fst o) = true) acc ->
  enumeration_order (List.map fst o) = true ->
  object_literal acc o = acc ++ o.
Proof.
  unfold object_literal. revert acc.
  induction o as [|[k v] o IH]; intros acc Hacc Ho; simpl.
  - rewrite app_nil_r. reflexivity.
  - simpl in Ho. apply andb_true_iff in Ho as [Hk Ho].
    rewrite define_prop_last.
    + rewrite IH; [rewrite <- app_assoc; reflexivity| |exact Ho].
      apply Forall_app. split.
      * eapply Forall_impl; [exact Hacc|]. intros kv Hkv. simpl in Hkv.
        apply andb_true_iff in Hkv. tauto.
      * constructor; [exact Hk|constructor].
    + eapply Forall_impl; [exact Hacc|]. intros kv Hkv. simpl in Hkv.
      apply andb_true_iff in Hkv. tauto.
Qed.

Lemma skip_ws_head c s : JSON.is_ws c = false -> JSON.skip_ws (c :: s) = c :: s.
Proof. intros Hc. simpl. rewrite Hc. reflexivity. Qed.

Lemma skip_ws_delimiter c s :
  c = 44 \/ c = 93 \/ c = 125 \/ c = 58 -> JSON.skip_ws (c :: s) = c :: s.
Proof. intros [->|[->|[->| ->]]]; reflexivity. Qed.

Lemma parse_value_unfold fuel s :
  JSON.parse_value (S fuel) s =
  match JSON.skip_ws s with
  | [] => None
  | c :: s1 =>
      if c =? 123 then
        match JSON.skip_ws s1 with
        | c' :: s2 =>
            if c' =? 125 then Some (VObj [], s2)
            else JSON.parse_members fuel [] s1
        | [] => None
        end
      else if c =? 91 then
        match JSON.skip_ws s1 with
        | c' :: s2 =>
            if c' =? 93 then Some (VArr [], s2)
            else JSON.parse_elements fuel [] s1
        | [] => None
        end
      else if c =? 34 then
        match JSON.parse_string_body s1 with
        | Some (body, rest) => Some (VStr body, rest)
        | None => None
        end
      else if c =? 116 then JSON.expect (js "true") (VBool true) (c :: s1)
      else if c =? 102 then JSON.expect (js "false") (VBool false) (c :: s1)
      else if c =? 110 then JSON.expect (js "null") VNull (c :: s1)
      else
        match JSON.parse_number (c :: s1) with
        | Some (n, rest) => Some (VNum n, rest)
        | None => None
        end
  end.
Proof. reflexivity. Qed.

Lemma parse_elements_unfold fuel acc s :
  JSON.parse_elements (S fuel) acc s =
  match JSON.parse_value fuel s with
  | None => None
  | Some (v, rest) =>
      match JSON.skip_ws rest with
      | c :: s1 =>
          if c =? 44 then JSON.parse_elements fuel (v :: acc) s1
          else if c =? 93 then Some (VArr (rev (v :: acc)), s1)
          else None
      | [] => None
      end
  end.
Proof. reflexivity. Qed.

Lemma parse_members_unfold fuel acc s :
  JSON.parse_members (S fuel) acc s =
  match JSON.skip_ws s with
  | c :: s1 =>
      if c =? 34 then
        match JSON.parse_string_body s1 with
        | None => None
        | Some (k, s2) =>
            match JSON.skip_ws s2 with
            | c' :: s3 =>
                if c' =? 58 then
                  match JSON.parse_value fuel s3 with
                  | None => None
                  | Some (v, rest) =>
                      match JSON.skip_ws rest with
                      | d :: s4 =>
                          if d =? 44
                          then JSON.parse_members fuel (define_prop k v acc) s4
                          else if d =? 125
                               then Some (VObj (define_prop k v acc), s4)
                               else None
                      | [] => None
                      end
                  end
                else None
            | [] => None
            end
        end
      else None
  | [] => None
  end.
Proof. reflexivity. Qed.

Section Serialized.
Context `{Engine}.

Lemma serialize_array l :
  JSON.serialize (VArr l)
  = Some (91 :: JSON.join_texts (List.map element_text l) ++ [93]).
Proof.
  reflexivity.
Qed.

Lemma serialize_object o :
  JSON.serialize (VObj o)
  = Some (123 :: JSON.join_texts (member_texts o) ++ [125]).
Proof.
  simpl. f_equal. f_equal. f_equal. f_equal.
  induction o as [|[k x] o IH]; [reflexivity|].
  simpl. rewrite IH. reflexivity.
Qed.

Lemma join_texts_cons x y l :
  JSON.join_texts (x :: y :: l) = x ++ 44 :: JSON.join_texts (y :: l).
Proof. reflexivity. Qed.

Lemma reads_back_null : reads_back VNull.
Proof.
  intros _. exists (js "null"). split; [reflexivity|]. split; [|split].
  - apply well_formed_ascii. repeat constructor; unfold ch; simpl; lia.
  - repeat split; discriminate.
  - intros [|fuel] rest Hlen _; [simpl in Hlen; lia|]. reflexivity.
Qed.

Lemma reads_back_bool b : reads_back (VBool b).
Proof.
  intros _. destruct b.
  - exists (js "true"). split; [reflexivity|]. split; [|split].
    + apply well_formed_ascii. repeat constructor; unfold ch; simpl; lia.
    + repeat split; discriminate.
    + intros [|fuel] rest Hlen _; [simpl in Hlen; lia|]. reflexivity.
  - exists (js "false"). split; [reflexivity|]. split; [|split].
    + apply well_formed_ascii. repeat constructor; unfold ch; simpl; lia.
    + repeat split; discriminate.
    + intros [|fuel] rest Hlen _; [simpl in Hlen; lia|]. reflexivity.
Qed.

Lemma code_units_range s :
  forallb is_code_unit s = true -> Forall (fun c => 0 <= c < 65536) s.
Proof.
  intros Hs. apply Forall_forall. intros c Hc. apply is_code_unit_range.
  rewrite forallb_forall in Hs. apply Hs, list_elem_of_In, Hc.
Qed.

Lemma quoted_well_formed s :
  forallb is_code_unit s = true -> well_formed (JSON.QuoteJSONString s).
Proof.
  intros Hs. unfold JSON.QuoteJSONString.
  apply (well_formed_app [34]); [apply well_formed_ascii; repeat constructor; lia|].
  apply well_formed_app; [apply quote_body_well_formed, code_units_range, Hs|].
  apply well_formed_ascii; repeat constructor; lia.
Qed.

Lemma reads_back_string s : reads_back (VStr s).
Proof.
  intros Hs. simpl in Hs. exists (JSON.QuoteJSONString s).
  split; [reflexivity|]. split; [apply quoted_well_formed, Hs|].
  split; [repeat split; discriminate|].
  intros [|fuel] rest Hlen _; [simpl in Hlen; lia|].
  unfold JSON.QuoteJSONString.
  change ((34 :: JSON.quote_body s ++ [34]) ++ rest)
    with (34 :: ((JSON.quote_body s ++ [34]) ++ rest)).
  rewrite <- app_assoc. simpl JSON.parse_value.
  change ([34] ++ rest) with (34 :: rest).
  rewrite parse_quote_body by (apply code_units_range, Hs). reflexivity.
Qed.

Lemma digits_ascii n :
  0 <= n -> Forall (fun c => 0 <= c < 128) (digits 10 n).
Proof.
  intros Hn. destruct (digits_spec n Hn) as (ds & -> & Hall & _).
  eapply Forall_impl; [exact Hall|]. intros c Hc. simpl in Hc.
  unfold is_digit, in_range in Hc. apply andb_true_iff in Hc. lia.
Qed.

Lemma Z_toString_ascii z : Forall (fun c => 0 <= c < 128) (Z_toString 10 z).
Proof.
  unfold Z_toString. destruct (Z.ltb_spec z 0).
  - constructor; [unfold ch; simpl; lia|]. apply digits_ascii. lia.
  - apply digits_ascii. lia.
Qed.

Lemma Z_toString_head z :
  exists c t, Z_toString 10 z = c :: t /\ (c = 45 \/ is_digit c = true).
Proof.
  unfold Z_toString. destruct (Z.ltb_spec z 0) as [Hneg|Hpos].
  - eexists _, _. split; [reflexivity|]. left. reflexivity.
  - destruct (digits_head z [] Hpos) as (d & t & Hdt & Hd).
    rewrite app_nil_r in Hdt. exists d, t. auto.
Qed.

Lemma number_start c :
  c = 45 \/ is_digit c = true ->
  JSON.is_ws c = false /\ (c =? 123) = false /\ (c =? 91) = false
  /\ (c =? 34) = false /\ (c =? 116) = false
  /\ (c =? 102) = false /\ (c =? 110) = false /\ c <> 93 /\ c <> 125.
Proof.
  unfold JSON.is_ws. intros [->|Hc]; [repeat split; (reflexivity || discriminate)|].
  unfold is_digit, in_range in Hc. apply andb_true_iff in Hc.
  repeat split; lia.
Qed.

Lemma parse_value_number fuel z rest :
  delimited rest ->
  JSON.parse_value (S fuel) (Z_toString 10 z ++ rest)
  = Some (VNum (num_of_Z z), rest).
Proof.
  intros Hrest. pose proof (parse_number_integer z rest Hrest) as Hnum.
  destruct (Z_toString_head z) as (c & t & Hct & Hc). rewrite Hct in *.
  destruct (number_start c Hc) as (Hws & H1 & H2 & H3 & H4 & H5 & H6 & _).
  change ((c :: t) ++ rest) with (c :: (t ++ rest)) in *.
  rewrite parse_value_unfold, skip_ws_head by exact Hws.
  rewrite H1, H2, H3, H4, H5, H6, Hnum. reflexivity.
Qed.

Lemma reads_back_number n : reads_back (VNum n).
Proof.
  intros Hs. destruct n as [| |q]; try discriminate Hs. simpl in Hs.
  apply andb_true_iff in Hs as [Hint Hsafe]. apply Z.leb_le in Hsafe.
  assert (Hprint : Number_toString (Fin q) = Z_toString 10 (Qnum (this q))).
  { unfold Number_toString. rewrite Hint.
    destruct (Z.ltb_spec (Z.abs (Qnum (this q))) (10 ^ 21)) as [|Hbig];
      [reflexivity|].
    unfold MAX_SAFE_INTEGER in Hsafe. exfalso.
    assert (2 ^ 53 - 1 < 10 ^ 21) by reflexivity. lia. }
  exists (Z_toString 10 (Qnum (this q))).
  split; [change (JSON.serialize (VNum (Fin q))) with (Some (Number_toString (Fin q)));
          rewrite Hprint; reflexivity|].
  split; [apply well_formed_ascii, Z_toString_ascii|].
  destruct (Z_toString_head (Qnum (this q))) as (c & t & Hct & Hc).
  split.
  - rewrite Hct. destruct (number_start c Hc) as (? & _ & _ & _ & _ & _ & _ & ? & ?).
    repeat split; assumption.
  - intros [|fuel] rest Hlen Hrest; [rewrite Hct in Hlen; simpl in Hlen; lia|].
    rewrite parse_value_number by exact Hrest.
    rewrite <- integer_number by exact Hint. reflexivity.
Qed.

Lemma delimited_comma r : delimited (44 :: r).
Proof. simpl. auto. Qed.

Lemma delimited_bracket r : delimited (93 :: r).
Proof. simpl. auto. Qed.

Lemma delimited_brace r : delimited (125 :: r).
Proof. simpl. auto. Qed.

Lemma element_text_serialized x t :
  JSON.serialize x = Some t -> element_text x = t.
Proof. intros Hx. unfold element_text. rewrite Hx. reflexivity. Qed.

Lemma parse_elements_texts l :
  l <> [] -> Forall reads_back l -> forallb storable l = true ->
  forall fuel acc rest,
    (length (JSON.join_texts (List.map element_text l)) < fuel)%nat ->
    JSON.parse_elements fuel acc
      (JSON.join_texts (List.map element_text l) ++ 93 :: rest)
    = Some (VArr (rev acc ++ l), rest).
Proof.
  intros Hne Hall. induction Hall as [|x l Hx Hl IH]; [contradiction|].
  clear Hne. intros Hs fuel acc rest Hfuel.
  simpl in Hs. apply andb_true_iff in Hs as [Hsx Hsl].
  destruct (Hx Hsx) as (tx & Hser & _ & _ & Hparse).
  destruct fuel as [|fuel]; [lia|].
  rewrite parse_elements_unfold.
  destruct l as [|y l].
  - simpl List.map in *. simpl JSON.join_texts in *.
    rewrite (element_text_serialized x tx Hser) in *.
    rewrite Hparse by (auto using delimited_bracket; lia).
    rewrite skip_ws_delimiter by auto.
    change (93 =? 44) with false. change (93 =? 93) with true. cbv iota.
    simpl rev. reflexivity.
  - change (List.map element_text (x :: y :: l))
      with (element_text x :: element_text y :: List.map element_text l) in *.
    rewrite join_texts_cons in *.
    rewrite (element_text_serialized x tx Hser) in *.
    rewrite length_app, length_cons in Hfuel.
    rewrite <- app_assoc.
    change ((44 :: JSON.join_texts (element_text y :: List.map element_text l))
            ++ 93 :: rest)
      with (44 :: (JSON.join_texts (element_text y :: List.map element_text l)
                   ++ 93 :: rest)).
    rewrite Hparse by (auto using delimited_comma; lia).
    rewrite skip_ws_delimiter by auto.
    change (44 =? 44) with true. cbv iota.
    change (element_text y :: List.map element_text l)
      with (List.map element_text (y :: l)) in *.
    rewrite IH; [|discriminate|exact Hsl|lia].
    simpl rev. rewrite <- app_assoc. reflexivity.
Qed.

Lemma join_texts_well_formed ts :
  Forall well_formed ts -> well_formed (JSON.join_texts ts).
Proof.
  induction 1 as [|t ts Ht Hts IH]; [constructor|].
  destruct ts as [|u ts]; [exact Ht|].
  rewrite join_texts_cons. apply well_formed_app; [exact Ht|].
  apply (well_formed_app [44]); [|exact IH].
  apply well_formed_ascii. repeat constructor; lia.
Qed.

Lemma bracketed_well_formed a t b :
  0 <= a < 128 -> 0 <= b < 128 -> well_formed t -> well_formed (a :: t ++ [b]).
Proof.
  intros Ha Hb Ht. apply (well_formed_app [a]).
  - apply well_formed_ascii. repeat constructor; lia.
  - apply well_formed_app; [exact Ht|].
    apply well_formed_ascii. repeat constructor; lia.
Qed.

Lemma join_texts_starts t ts :
  starts_value t -> starts_value (JSON.join_texts (t :: ts)).
Proof.
  intros Ht. destruct ts as [|u ts]; [exact Ht|].
  rewrite join_texts_cons. destruct t; [contradiction|exact Ht].
Qed.

Lemma reads_back_array l : Forall reads_back l -> reads_back (VArr l).
Proof.
  intros Hall Hs. simpl in Hs.
  exists (91 :: JSON.join_texts (List.map element_text l) ++ [93]).
  split; [apply serialize_array|].
  assert (Htexts : Forall (fun x => well_formed (element_text x)
                                    /\ starts_value (element_text x)) l).
  { apply Forall_forall. intros x Hx.
    rewrite Forall_forall in Hall. rewrite forallb_forall in Hs.
    destruct (Hall x Hx (Hs x (proj1 (list_elem_of_In _ _) Hx)))
      as (t & Hser & Hwf & Hst & _).
    rewrite (element_text_serialized x t Hser). auto. }
  split; [|split].
  - apply bracketed_well_formed; try lia. apply join_texts_well_formed.
    apply Forall_forall. intros t Ht. apply list_elem_of_In, in_map_iff in Ht.
    destruct Ht as (x & <- & Hx). rewrite Forall_forall in Htexts.
    apply Htexts, list_elem_of_In, Hx.
  - repeat split; discriminate.
  - intros [|fuel] rest Hlen Hrest; [simpl in Hlen; lia|].
    change ((91 :: JSON.join_texts (List.map element_text l) ++ [93]) ++ rest)
      with (91 :: ((JSON.join_texts (List.map element_text l) ++ [93]) ++ rest)).
    rewrite <- app_assoc. change ([93] ++ rest) with (93 :: rest).
    rewrite parse_value_unfold, skip_ws_head by reflexivity.
    change (91 =? 123) with false. change (91 =? 91) with true. cbv iota.
    destruct l as [|x l].
    + reflexivity.
    + assert (Hstart : starts_value (JSON.join_texts (List.map element_text (x :: l)))).
      { apply join_texts_starts. apply Forall_cons in Htexts as [[_ Hst] _]. exact Hst. }
      destruct (JSON.join_texts (List.map element_text (x :: l))) as [|c t] eqn:Hjoin;
        [contradiction|].
      destruct Hstart as (Hws & H93 & _).
      change ((c :: t) ++ 93 :: rest) with (c :: (t ++ 93 :: rest)).
      rewrite skip_ws_head by exact Hws.
      apply Z.eqb_neq in H93. rewrite H93.
      change (c :: (t ++ 93 :: rest)) with ((c :: t) ++ 93 :: rest).
      rewrite <- Hjoin.
      rewrite parse_elements_texts; [reflexivity|discriminate|exact Hall|exact Hs|].
      rewrite Hjoin. rewrite length_cons, length_app in Hlen. simpl in *. lia.
Qed.

Lemma member_texts_cons k x o t :
  JSON.serialize x = Some t ->
  member_texts ((k, x) :: o) = (JSON.QuoteJSONString k ++ 58 :: t) :: member_texts o.
Proof. intros Hx. simpl. rewrite Hx. reflexivity. Qed.

Lemma member_text_shape k t r :
  (JSON.QuoteJSONString k ++ 58 :: t) ++ r
  = 34 :: (JSON.quote_body k ++ 34 :: 58 :: (t ++ r)).
Proof.
  unfold JSON.QuoteJSONString. simpl. f_equal.
  rewrite <- !app_assoc. reflexivity.
Qed.

Lemma parse_members_texts o :
  o <> [] -> Forall (fun kv => reads_back (snd kv)) o ->
  forallb member_storable o = true ->
  forall fuel acc rest,
    (length (JSON.join_texts (member_texts o)) < fuel)%nat ->
    JSON.parse_members fuel acc (JSON.join_texts (member_texts o) ++ 125 :: rest)
    = Some (VObj (object_literal acc o), rest).
Proof.
  intros Hne Hall. induction Hall as [|[k x] o Hx Ho IH]; [contradiction|].
  clear Hne. intros Hs fuel acc rest Hfuel.
  simpl in Hs. apply andb_true_iff in Hs as [Hkx Hso].
  apply andb_true_iff in Hkx as [Hk Hsx].
  destruct (Hx Hsx) as (tx & Hser & _ & _ & Hparse).
  rewrite (member_texts_cons k x o tx Hser) in *.
  destruct fuel as [|fuel]; [lia|].
  rewrite parse_members_unfold.
  destruct o as [|[k' x'] o].
  - change (JSON.join_texts ((JSON.QuoteJSONString k ++ 58 :: tx) :: member_texts []))
      with (JSON.QuoteJSONString k ++ 58 :: tx) in *.
    rewrite member_text_shape. rewrite skip_ws_head by reflexivity.
    change (34 =? 34) with true. cbv iota.
    rewrite parse_quote_body by (apply code_units_range, Hk).
    rewrite skip_ws_delimiter by auto. change (58 =? 58) with true. cbv iota.
    rewrite Hparse; [|rewrite length_app in Hfuel; simpl in Hfuel; lia
                     |apply delimited_brace].
    rewrite skip_ws_delimiter by auto.
    change (125 =? 44) with false. change (125 =? 125) with true. cbv iota.
    reflexivity.
  - assert (Hser' : exists t', JSON.serialize x' = Some t').
    { apply Forall_cons in Ho as [Hx' _]. simpl in Hso.
      apply andb_true_iff in Hso as [Hkx' _].
      apply andb_true_iff in Hkx' as [_ Hsx'].
      destruct (Hx' Hsx') as (t' & Ht' & _). eauto. }
    destruct Hser' as [t' Ht'].
    rewrite (member_texts_cons k' x' o t' Ht') in *.
    rewrite join_texts_cons in *.
    rewrite <- app_assoc. rewrite member_text_shape.
    rewrite skip_ws_head by reflexivity.
    change (34 =? 34) with true. cbv iota.
    rewrite parse_quote_body by (apply code_units_range, Hk).
    rewrite skip_ws_delimiter by auto. change (58 =? 58) with true. cbv iota.
    rewrite !length_app, !length_cons in Hfuel.
    change ((44 :: JSON.join_texts
                     ((JSON.QuoteJSONString k' ++ 58 :: t') :: member_texts o))
            ++ 125 :: rest)
      with (44 :: (JSON.join_texts
                     ((JSON.QuoteJSONString k' ++ 58 :: t') :: member_texts o)
                   ++ 125 :: rest)).
    rewrite Hparse; [|lia|apply delimited_comma].
    rewrite skip_ws_delimiter by auto.
    change (44 =? 44) with true. cbv iota.
    rewrite IH; [reflexivity|discriminate|exact Hso|].
    lia.
Qed.

Lemma storable_object o :
  storable (VObj o) = true ->
  forallb member_storable o = true /\ enumeration_order (List.map fst o) = true.
Proof. simpl. intros Hs. apply andb_true_iff in Hs. exact Hs. Qed.

Lemma member_texts_well_formed o :
  Forall (fun kv => reads_back (snd kv)) o ->
  forallb member_storable o = true ->
  Forall (fun t => well_formed t /\ starts_value t) (member_texts o).
Proof.
  induction 1 as [|[k x] o Hx _ IH]; intros Hs; [constructor|].
  simpl in Hs. apply andb_true_iff in Hs as [Hkx Hso].
  apply andb_true_iff in Hkx as [Hk Hsx].
  destruct (Hx Hsx) as (tx & Hser & Hwf & _ & _).
  rewrite (member_texts_cons k x o tx Hser). constructor; [|apply IH, Hso].
  split.
  - apply well_formed_app; [apply quoted_well_formed, Hk|].
    apply (well_formed_app [58]); [|exact Hwf].
    apply well_formed_ascii. repeat constructor; lia.
  - repeat split; discriminate.
Qed.

Lemma reads_back_object o :
  Forall (fun kv => reads_back (snd kv)) o -> reads_back (VObj o).
Proof.
  intros Hall Hs. apply storable_object in Hs as [Hs Horder].
  exists (123 :: JSON.join_texts (member_texts o) ++ [125]).
  split; [apply serialize_object|].
  pose proof (member_texts_well_formed o Hall Hs) as Htexts.
  split; [|split].
  - apply bracketed_well_formed; try lia. apply join_texts_well_formed.
    eapply Forall_impl; [exact Htexts|]. simpl. tauto.
  - repeat split; discriminate.
  - intros [|fuel] rest Hlen Hrest; [simpl in Hlen; lia|].
    change ((123 :: JSON.join_texts (member_texts o) ++ [125]) ++ rest)
      with (123 :: ((JSON.join_texts (member_texts o) ++ [125]) ++ rest)).
    rewrite <- app_assoc. change ([125] ++ rest) with (125 :: rest).
    rewrite parse_value_unfold, skip_ws_head by reflexivity.
    change (123 =? 123) with true. cbv iota.
    destruct o as [|kx o].
    + reflexivity.
    + assert (Hstart : starts_value (JSON.join_texts (member_texts (kx :: o)))).
      { destruct (member_texts (kx :: o)) as [|m ms] eqn:Hm.
        - exfalso. destruct kx as [k x]. apply Forall_cons in Hall as [Hx _].
          simpl in Hs. apply andb_true_iff in Hs as [Hkx _].
          apply andb_true_iff in Hkx as [_ Hsx].
          destruct (Hx Hsx) as (tx & Hser & _).
          rewrite (member_texts_cons k x o tx Hser) in Hm. discriminate.
        - apply join_texts_starts. apply Forall_cons in Htexts as [[_ Hst] _].
          exact Hst. }
      destruct (JSON.join_texts (member_texts (kx :: o))) as [|c t] eqn:Hjoin;
        [contradiction|].
      destruct Hstart as (Hws & _ & H125).
      change ((c :: t) ++ 125 :: rest) with (c :: (t ++ 125 :: rest)).
      rewrite skip_ws_head by exact Hws.
      apply Z.eqb_neq in H125. rewrite H125.
      change (c :: (t ++ 125 :: rest)) with ((c :: t) ++ 125 :: rest).
      rewrite <- Hjoin.
      rewrite parse_members_texts; [|discriminate|exact Hall|exact Hs|].
      * rewrite object_literal_in_order; [reflexivity|constructor|exact Horder].
      * rewrite Hjoin. rewrite length_cons, length_app in Hlen. simpl in *. lia.
Qed.

(** Every storable value reads back from its text. *)
Lemma storable_reads_back v : reads_back v.
Proof.
  induction v as [| |b|n|s|l IH|o IH] using value_induction.
  - intros Hs. discriminate Hs.
  - apply reads_back_null.
  - apply reads_back_bool.
  - apply reads_back_number.
  - apply reads_back_string.
  - apply reads_back_array, IH.
  - apply reads_back_object, IH.
Qed.

(** [JSON.parse] undoes [JSON.stringify]. *)
Lemma parse_stringify v :
  storable v = true ->
  exists t,
    JSON.stringify v = VStr t /\ well_formed t /\ JSON.parse t = Return v.
Proof.
  intros Hs. destruct (storable_reads_back v Hs) as (t & Hser & Hwf & _ & Hparse).
  exists t. unfold JSON.stringify. rewrite Hser. split; [reflexivity|].
  split; [exact Hwf|]. unfold JSON.parse.
  specialize (Hparse (S (length t)) [] (Nat.le_succ_diag_r _) I).
  rewrite app_nil_r in Hparse. rewrite Hparse. reflexivity.
Qed.

End Serialized.

(** ** The share-link codec *)

Section Codec.
Context `{Engine}.

(** The codec composed: the token of a storable value decodes to it. *)
Lemma decodeData_encodeData v :
  storable v = true ->
  exists token, encodeData v = Return token /\ decodeData token = Return v.
Proof.
  intros Hs. destruct (parse_stringify v Hs) as (t & Hjson & Hwf & Hparse).
  destruct (unescape_Encode t Hwf) as (e & He & Hu).
  pose proof (utf8_of_string_bytes t Hwf) as Hbytes.
  destruct (atob_btoa _ Hbytes) as [Hbtoa Hatob].
  exists (base64_encode (utf8_of_string t)). split.
  - unfold encodeData, encodeURIComponent. rewrite Hjson.
    simpl ToString. unfold bind.
    rewrite He, Hu. exact Hbtoa.
  - unfold decodeData. rewrite Hatob. unfold bind, decodeURIComponent.
    rewrite (Decode_escape t Hwf _ (Nat.le_refl _)). exact Hparse.
Qed.

(** The items the form makes are storable when their texts are code
    units and their timestamps safe integers. *)
Lemma new_item_storable id title content caution link tags created updated :
  forallb is_code_unit id = true -> forallb is_code_unit title = true ->
  forallb is_code_unit content = true -> forallb is_code_unit caution = true ->
  forallb is_code_unit link = true ->
  forallb (forallb is_code_unit) tags = true ->
  Z.abs created <= MAX_SAFE_INTEGER -> Z.abs updated <= MAX_SAFE_INTEGER ->
  storable (new_item id title content caution link tags created updated) = true.
Proof.
  intros Hid Htitle Hcontent Hcaution Hlink Htags Hc Hu.
  assert (Htime : forall z, Z.abs z <= MAX_SAFE_INTEGER -> storable (VInt z) = true).
  { intros z Hz. unfold VInt.
    assert (Hred : Qred (inject_Z z) = inject_Z z)
      by (apply Qred_identity; simpl; apply Z.gcd_1_r).
    change (storable (VNum (num_of_Z z)))
      with (num_is_integer (Q2Qc (inject_Z z))
            && (Z.abs (Qnum (this (Q2Qc (inject_Z z)))) <=? MAX_SAFE_INTEGER)).
    unfold num_is_integer. change (this (Q2Qc (inject_Z z))) with (Qred (inject_Z z)).
    rewrite Hred. simpl. apply Z.leb_le. exact Hz. }
  assert (Htagv : forallb storable (List.map VStr tags) = true).
  { clear -Htags. induction tags as [|t ts IH]; [reflexivity|].
    simpl in *. apply andb_true_iff in Htags as [Ht Hts].
    rewrite Ht. exact (IH Hts). }
  unfold new_item.
  change (storable (VObj ?o)) with
    (forallb member_storable o && enumeration_order (List.map fst o)).
  apply andb_true_iff. split; [|vm_compute; reflexivity].
  unfold forallb, member_storable.
  change (storable (VStr ?s)) with (forallb is_code_unit s).
  change (storable (VArr ?l)) with (forallb storable l).
  rewrite Hid, Htitle, Hcontent, Hcaution, Hlink, Htagv, (Htime _ Hc), (Htime _ Hu).
  vm_compute. reflexivity.
Qed.

Lemma b64_char_character n : 0 <= n < 64 -> base64_character (b64_char n) = true.
Proof.
  intros Hn.
  apply (forall_below (fun n => base64_character (b64_char n)) 64) in Hn;
    [exact Hn|vm_compute; reflexivity].
Qed.

(** A token is made of letters, digits, [+], [/] and [=]. *)
Lemma token_characters v token :
  encodeData v = Return token -> forallb base64_character token = true.
Proof.
  unfold encodeData. destruct (encodeURIComponent (JSON.stringify v)) as [e|x];
    [|discriminate].
  unfold bind, btoa. destruct (forallb (in_range 0 255) (unescape e)) eqn:Hb;
    [|discriminate].
  intros Heq. injection Heq as <-.
  assert (Hbytes : Forall is_byte (unescape e)).
  { apply Forall_forall. intros b Hin. apply is_byte_range.
    rewrite forallb_forall in Hb. apply Hb, list_elem_of_In, Hin. }
  rewrite base64_encode_parts, forallb_app. apply andb_true_iff. split.
  - apply forallb_forall. intros c Hin. apply in_map_iff in Hin as (n & <- & Hn).
    apply b64_char_character.
    pose proof (sextets_of_range _ Hbytes) as Hr. rewrite Forall_forall in Hr.
    apply Hr, list_elem_of_In, Hn.
  - apply forallb_forall. intros c Hin.
    pose proof (padding_is_equals (unescape e)) as Hp. rewrite Forall_forall in Hp.
    rewrite (Hp c); [reflexivity|]. apply list_elem_of_In, Hin.
Qed.

(** C1. For every list [L] of storable values, and so for every list of
    items whose text fields hold arbitrary sequences of UTF-16 code
    units, [encodeData] returns a token and [decodeData] returns, from
    that token, a list equal to [L] value for value. *)
Theorem share_link_round_trip (L : list value) :
  forallb storable L = true ->
  exists token,
    encodeData (VArr L) = Return token /\ decodeData token = Return (VArr L).
Proof. intros HL. apply decodeData_encodeData. exact HL. Qed.

End Codec.

Lemma share_link_round_trip_witness :
  forallb storable [unicode_item; squat] = true /\
  exists token,
    @encodeData example_engine (VArr [unicode_item; squat]) = Return token /\
    decodeData token = Return (VArr [unicode_item; squat]).
Proof.
  split; [vm_compute; reflexivity|].
  apply (@share_link_round_trip example_engine [unicode_item; squat]).
  vm_compute. reflexivity.
Defined.

(** C8. The token of the one-item list [squat] holds a plus sign; read
    back from the query string of the address the share button makes,
    the plus sign is a space, [decodeData] throws on what was read, and
    opening the address leaves the list as it was. *)
Theorem share_link_plus_sign_is_lost `{Engine} :
  encodeData (VArr [squat]) = Return squat_token /\
  forallb base64_character squat_token = true /\
  In 43 squat_token /\
  share_url (js "https://handyuja.github.io/exercise-guide/") [squat]
    = Return (js "https://handyuja.github.io/exercise-guide/" ++ js "?data="
              ++ squat_token) /\
  getQueryParam (js "?data=" ++ squat_token) (js "data")
    = Some (List.map (fun c => if c =? 43 then 32 else c) squat_token) /\
  decodeData (List.map (fun c => if c =? 43 then 32 else c) squat_token)
    = Throw InvalidCharacterError /\
  forall w answer,
    shareLinkEffect (js "?data=" ++ squat_token) answer w = (Return tt, w).
Proof.
  assert (He : encodeData (VArr [squat]) = Return squat_token)
    by (vm_compute; reflexivity).
  split; [exact He|].
  split; [vm_compute; reflexivity|].
  split; [vm_compute; tauto|].
  split; [unfold share_url; rewrite He; reflexivity|].
  assert (Hq : getQueryParam (js "?data=" ++ squat_token) (js "data")
    = Some (List.map (fun c => if c =? 43 then 32 else c) squat_token))
    by (vm_compute; reflexivity).
  assert (Hd : decodeData (List.map (fun c => if c =? 43 then 32 else c) squat_token)
    = Throw InvalidCharacterError) by (vm_compute; reflexivity).
  split; [exact Hq|]. split; [exact Hd|].
  intros w answer. unfold shareLinkEffect. rewrite Hq.
  rewrite bool_decide_eq_false_2 by (vm_compute; discriminate).
  unfold tryM, bindM, lift. rewrite Hd. reflexivity.
Qed.

(** ** What is saved is what is loaded *)

Section SavingProperties.
Context `{Engine}.

Lemma parse_text_not_empty t v : JSON.parse t = Return v -> t <> [].
Proof. intros Hp ->. rewrite parse_empty in Hp. discriminate Hp. Qed.

Lemma saveData_granted (fits : gmap jsstring jsstring -> bool) (list : value)
    (entries : gmap jsstring jsstring) (text : jsstring) :
  JSON.stringify list = VStr text ->
  fits (<[STORAGE_KEY := text]> entries) = true ->
  saveData fits list (Granted entries) = Granted (<[STORAGE_KEY := text]> entries).
Proof.
  intros Htext Hfits. unfold saveData. rewrite Htext. simpl ToString.
  unfold bind, setItem. rewrite Hfits. reflexivity.
Qed.

Lemma loadData_stored (entries : gmap jsstring jsstring) (text : jsstring)
    (L : list value) :
  JSON.parse text = Return (VArr L) ->
  loadData (Granted (<[STORAGE_KEY := text]> entries)) = Return L.
Proof.
  intros Hparse. unfold loadData, getItem, bind, try_catch.
  rewrite lookup_insert_eq.
  rewrite bool_decide_eq_false_2 by (eapply parse_text_not_empty; exact Hparse).
  rewrite Hparse. reflexivity.
Qed.

(** X1. A list of storable values that [saveData] writes into a storage
    that grants access and has room for the text is the list that
    [loadData] reads from it afterwards. *)
Theorem saved_list_loads_back (fits : gmap jsstring jsstring -> bool)
    (entries : gmap jsstring jsstring) (L : list value) (text : jsstring) :
  forallb storable L = true ->
  JSON.stringify (VArr L) = VStr text ->
  fits (<[STORAGE_KEY := text]> entries) = true ->
  loadData (saveData fits (VArr L) (Granted entries)) = Return L.
Proof.
  intros HL Htext Hfits.
  destruct (parse_stringify (VArr L) HL) as (t & Ht & _ & Hparse).
  rewrite Htext in Ht. injection Ht as <-.
  rewrite (saveData_granted fits (VArr L) entries text Htext Hfits).
  apply loadData_stored. exact Hparse.
Qed.

(** X2. [saveData] changes no entry of the storage under another key
    than its own, whatever it is given and whether or not the storage
    takes the new text. *)
Theorem saveData_keeps_other_keys (fits : gmap jsstring jsstring -> bool)
    (list : value) (st : Storage) (k : jsstring) :
  k <> STORAGE_KEY ->
  getItem (saveData fits list st) k = getItem st k.
Proof.
  intros Hk. unfold saveData.
  destruct (ToString (JSON.stringify list)) as [text|e]; [|reflexivity].
  unfold bind, setItem. destruct st as [|entries]; [reflexivity|].
  destruct (fits (<[STORAGE_KEY := text]> entries)); [|reflexivity].
  simpl. rewrite lookup_insert_ne by congruence. reflexivity.
Qed.

(** X3. When access to the storage is refused, or the storage has no
    room for the text, [saveData] leaves the storage as it was, so that
    [loadData] goes on returning the list saved before. *)
Theorem refused_save_keeps_storage (fits : gmap jsstring jsstring -> bool)
    (list : value) (st : Storage) :
  (forall entries, st = Granted entries ->
     forall text, ToString (JSON.stringify list) = Return text ->
       fits (<[STORAGE_KEY := text]> entries) = false) ->
  saveData fits list st = st /\
  loadData (saveData fits list st) = loadData st.
Proof.
  intros Hno. assert (Hsame : saveData fits list st = st).
  { unfold saveData.
    destruct (ToString (JSON.stringify list)) as [text|e] eqn:Ht; [|reflexivity].
    unfold bind, setItem. destruct st as [|entries]; [reflexivity|].
    rewrite (Hno entries eq_refl text eq_refl). reflexivity. }
  rewrite Hsame. split; reflexivity.
Qed.

End SavingProperties.

Lemma saved_list_loads_back_witness :
  forallb storable [shoulder_stretch; knee_bend] = true /\
  (exists text,
     @JSON.stringify example_engine (VArr [shoulder_stretch; knee_bend]) = VStr text /\
     (fun _ : gmap jsstring jsstring => true) (<[STORAGE_KEY := text]> ∅) = true) /\
  loadData (@saveData example_engine (fun _ => true)
              (VArr [shoulder_stretch; knee_bend]) (Granted ∅))
  = Return [shoulder_stretch; knee_bend].
Proof.
  assert (H1 : forallb storable [shoulder_stretch; knee_bend] = true)
    by (vm_compute; reflexivity).
  split; [exact H1|]. split.
  - eexists. split; [vm_compute; reflexivity|reflexivity].
  - eapply (@saved_list_loads_back example_engine (fun _ => true) ∅
              [shoulder_stretch; knee_bend]).
    + exact H1.
    + vm_compute. reflexivity.
    + reflexivity.
Defined.

Lemma saveData_keeps_other_keys_witness :
  js "theme" <> STORAGE_KEY /\
  getItem (@saveData example_engine (fun _ => true) (VArr [knee_bend])
             (Granted {[ js "theme" := js "dark" ]})) (js "theme")
  = getItem (Granted {[ js "theme" := js "dark" ]}) (js "theme").
Proof.
  assert (H1 : js "theme" <> STORAGE_KEY) by (vm_compute; discriminate).
  split; [exact H1|].
  exact (@saveData_keeps_other_keys example_engine (fun _ => true)
           (VArr [knee_bend]) (Granted {[ js "theme" := js "dark" ]})
           (js "theme") H1).
Defined.

Lemma refused_save_keeps_storage_witness :
  (forall entries, Granted ∅ = Granted entries ->
     forall text,
       @ToString example_engine (@JSON.stringify example_engine (VArr [knee_bend]))
       = Return text ->
       (fun _ : gmap jsstring jsstring => false) (<[STORAGE_KEY := text]> entries)
       = false) /\
  @saveData example_engine (fun _ => false) (VArr [knee_bend]) (Granted ∅)
  = Granted ∅ /\
  loadData (@saveData example_engine (fun _ => false) (VArr [knee_bend]) (Granted ∅))
  = loadData (Granted ∅).
Proof.
  assert (H1 : forall entries, Granted ∅ = Granted entries ->
     forall text,
       @ToString example_engine (@JSON.stringify example_engine (VArr [knee_bend]))
       = Return text ->
       (fun _ : gmap jsstring jsstring => false) (<[STORAGE_KEY := text]> entries)
       = false) by reflexivity.
  split; [exact H1|].
  exact (@refused_save_keeps_storage example_engine (fun _ => false)
           (VArr [knee_bend]) (Granted ∅) H1).
Defined.

(** ** Reading a query string back *)

Lemma query_plain_spec c :
  query_plain c = true -> 0 <= c < 128 /\ c <> 38 /\ c <> 43 /\ c <> 37.
Proof.
  unfold query_plain, is_ascii, in_range. rewrite !andb_true_iff, !negb_true_iff.
  rewrite !Z.leb_le, !Z.eqb_neq. lia.
Qed.

Lemma utf8_of_string_ascii s :
  Forall (fun c => 0 <= c < 128) s -> utf8_of_string s = s.
Proof.
  induction 1 as [|c s Hc _ IH]; [reflexivity|].
  simpl. rewrite IH.
  replace (is_high_surrogate c) with false
    by (unfold is_high_surrogate, in_range; lia).
  replace (is_low_surrogate c) with false
    by (unfold is_low_surrogate, in_range; lia).
  unfold utf8_encode. destruct (Z.ltb_spec c 128); [reflexivity|lia].
Qed.

Lemma split_without sep s : ~ In sep s -> split sep s = [s].
Proof.
  induction s as [|c s IH]; intros Hs; [reflexivity|].
  simpl. destruct (Z.eqb_spec c sep) as [->|Hne]; [exfalso; apply Hs; left; reflexivity|].
  rewrite IH; [reflexivity|]. intros Hin. apply Hs. right. exact Hin.
Qed.

Lemma split_first_at sep a b :
  ~ In sep a -> split_first sep (a ++ sep :: b) = (a, b).
Proof.
  induction a as [|c a IH]; intros Ha; simpl.
  - rewrite Z.eqb_refl. reflexivity.
  - destruct (Z.eqb_spec c sep) as [->|Hne]; [exfalso; apply Ha; left; reflexivity|].
    rewrite IH; [reflexivity|]. intros Hin. apply Ha. right. exact Hin.
Qed.

Lemma percent_decode_plain s : ~ In 37 s -> percent_decode s = s.
Proof.
  induction s as [|c s IH]; intros Hs; [reflexivity|].
  simpl. destruct (Z.eqb_spec c 37) as [->|Hne]; [exfalso; apply Hs; left; reflexivity|].
  rewrite IH; [reflexivity|]. intros Hin. apply Hs. right. exact Hin.
Qed.

Lemma utf8_decode_ascii s :
  Forall (fun c => 0 <= c < 128) s -> utf8_decode_lossy (0, 0, 128, 191) s = s.
Proof.
  induction 1 as [|c s Hc _ IH]; [reflexivity|].
  simpl. unfold utf8_lead. destruct (Z.ltb_spec c 128); [|lia].
  simpl. rewrite IH. reflexivity.
Qed.

Lemma urlencoded_text_plain s :
  forallb query_plain s = true -> urlencoded_text s = s.
Proof.
  intros Hs. rewrite forallb_forall in Hs.
  assert (Hplain : forall c, In c s -> 0 <= c < 128 /\ c <> 38 /\ c <> 43 /\ c <> 37).
  { intros c Hc. apply query_plain_spec, Hs, Hc. }
  unfold urlencoded_text.
  assert (Hmap : List.map (fun c => if c =? 43 then 32 else c) s = s).
  { apply map_fixed. intros c Hc. destruct (Hplain c Hc) as (_ & _ & H43 & _).
    destruct (Z.eqb_spec c 43); [contradiction|reflexivity]. }
  rewrite Hmap, percent_decode_plain.
  - apply utf8_decode_ascii, Forall_forall. intros c Hc.
    apply list_elem_of_In in Hc. apply (Hplain c Hc).
  - intros Hin. destruct (Hplain 37 Hin) as (_ & _ & _ & H37). congruence.
Qed.

Lemma urlencoded_parse_one s :
  s <> [] -> Forall (fun c => 0 <= c < 128) s -> ~ In 38 s ->
  urlencoded_parse s
  = [(urlencoded_text (fst (split_first 61 s)),
      urlencoded_text (snd (split_first 61 s)))].
Proof.
  intros Hne Hascii Hamp. unfold urlencoded_parse.
  rewrite (utf8_of_string_ascii _ Hascii), (split_without 38 _ Hamp).
  destruct s as [|c r]; [contradiction|].
  cbn [flat_map]. rewrite app_nil_r.
  destruct (split_first 61 (c :: r)) as [n v]. reflexivity.
Qed.

(** X4. A parameter written into a query string as it is reads back as
    it was, when name and value are ASCII without [&], [+] and [%] and
    the name has no [=]: [getQueryParam] undoes the template of the
    share button on such a value. *)
Theorem getQueryParam_reads_plain_value (key val : jsstring) :
  forallb query_plain key = true -> ~ In 61 key ->
  forallb query_plain val = true ->
  getQueryParam (63 :: key ++ 61 :: val) key = Some val.
Proof.
  intros Hkey Heq Hval.
  assert (Hall : forallb query_plain (key ++ 61 :: val) = true).
  { rewrite forallb_app. simpl. rewrite Hkey, Hval. reflexivity. }
  assert (Hascii : Forall (fun c => 0 <= c < 128) (key ++ 61 :: val)).
  { apply Forall_forall. intros c Hc. apply list_elem_of_In in Hc.
    rewrite forallb_forall in Hall. apply (query_plain_spec c (Hall c Hc)). }
  assert (Hamp : ~ In 38 (key ++ 61 :: val)).
  { intros Hin. rewrite forallb_forall in Hall.
    destruct (query_plain_spec 38 (Hall 38 Hin)) as (_ & H38 & _). congruence. }
  unfold getQueryParam, URLSearchParams. change (63 =? 63) with true. cbv iota.
  rewrite urlencoded_parse_one; [|destruct key; discriminate|exact Hascii|exact Hamp].
  rewrite (split_first_at 61 key val Heq).
  rewrite !urlencoded_text_plain by assumption.
  unfold URLSearchParams_get. simpl.
  rewrite bool_decide_eq_true_2 by reflexivity. reflexivity.
Qed.

Lemma urlencoded_text_ascii s :
  Forall (fun c => 0 <= c < 128) s -> ~ In 37 s ->
  urlencoded_text s = List.map (fun c => if c =? 43 then 32 else c) s.
Proof.
  intros Hascii Hpct. unfold urlencoded_text.
  rewrite percent_decode_plain.
  - apply utf8_decode_ascii. apply Forall_forall. intros c Hc.
    apply list_elem_of_In, in_map_iff in Hc. destruct Hc as (c0 & <- & Hc0).
    rewrite Forall_forall in Hascii.
    specialize (Hascii c0 (proj2 (list_elem_of_In _ _) Hc0)).
    destruct (c0 =? 43); lia.
  - intros Hin. apply in_map_iff in Hin as (c0 & Hc0 & Hin).
    destruct (Z.eqb_spec c0 43); [discriminate Hc0|]. subst c0. exact (Hpct Hin).
Qed.

Lemma base64_character_spec c :
  base64_character c = true -> 0 <= c < 128 /\ c <> 38 /\ c <> 37.
Proof.
  unfold base64_character, is_alnum, is_digit, is_upper, is_lower, in_range.
  rewrite !orb_true_iff, !andb_true_iff, !Z.leb_le, !Z.eqb_eq. lia.
Qed.

(** What the [data] parameter of an address gives for a token. *)
Lemma data_param_read token :
  forallb base64_character token = true ->
  getQueryParam (js "?data=" ++ token) (js "data")
  = Some (List.map (fun c => if c =? 43 then 32 else c) token).
Proof.
  intros Hchars. rewrite forallb_forall in Hchars.
  assert (Hspec : forall c, In c token -> 0 <= c < 128 /\ c <> 38 /\ c <> 37).
  { intros c Hc. apply base64_character_spec, Hchars, Hc. }
  change (js "?data=" ++ token) with (63 :: js "data" ++ 61 :: token).
  unfold getQueryParam, URLSearchParams. change (63 =? 63) with true. cbv iota.
  rewrite urlencoded_parse_one.
  - rewrite (split_first_at 61 (js "data") token)
      by (vm_compute; intuition discriminate).
    simpl fst. simpl snd.
    rewrite (urlencoded_text_plain (js "data")) by reflexivity.
    rewrite urlencoded_text_ascii.
    + reflexivity.
    + apply Forall_forall. intros c Hc. apply list_elem_of_In in Hc.
      apply (Hspec c Hc).
    + intros Hin. destruct (Hspec 37 Hin) as (_ & _ & H37). congruence.
  - discriminate.
  - apply Forall_forall. intros c Hc. apply list_elem_of_In in Hc.
    change (js "data" ++ 61 :: token) with ([100; 97; 116; 97; 61] ++ token) in Hc.
    apply in_app_or in Hc as [Hc|Hc]; [|apply (Hspec c Hc)].
    simpl in Hc. intuition lia.
  - intros Hin.
    change (js "data" ++ 61 :: token) with ([100; 97; 116; 97; 61] ++ token) in Hin.
    apply in_app_or in Hin as [Hin|Hin].
    + simpl in Hin. intuition discriminate.
    + destruct (Hspec 38 Hin) as (_ & H38 & _). congruence.
Qed.

Lemma getQueryParam_reads_plain_value_witness :
  forallb query_plain (js "data") = true /\ ~ In 61 (js "data") /\
  forallb query_plain bare_token = true /\
  getQueryParam (63 :: js "data" ++ 61 :: bare_token) (js "data") = Some bare_token.
Proof.
  assert (H1 : forallb query_plain (js "data") = true) by reflexivity.
  assert (H2 : ~ In 61 (js "data")) by (vm_compute; intuition discriminate).
  assert (H3 : forallb query_plain bare_token = true) by reflexivity.
  split; [exact H1|]. split; [exact H2|]. split; [exact H3|].
  exact (getQueryParam_reads_plain_value (js "data") bare_token H1 H2 H3).
Defined.

(** ** A share link that opens *)

Section Opening.
Context `{Engine}.

(** X5. The address the share button makes from a list of storable
    values opens, as long as the token has no plus sign: read from the
    address bar when the page loads, or pasted into the prompt of the
    other button, and confirmed, it puts exactly that list in the place
    of the current one, without any alert. *)
Theorem share_link_without_plus_opens (L : list value) (token : jsstring)
    (w : World) :
  forallb storable L = true ->
  encodeData (VArr L) = Return token ->
  ~ In 43 token ->
  shareLinkEffect (js "?data=" ++ token) true w
  = setItems (fun _ => Return L) w /\
  (forall raw, raw <> [] -> URL_search raw = Return (js "?data=" ++ token) ->
     loadFromLink (Some raw) true w = setItems (fun _ => Return L) w) /\
  alerts (snd (setItems (fun _ => Return L) w)) = alerts w /\
  items (app (snd (setItems (fun _ => Return L) w))) = L.
Proof.
  intros HL Htoken Hplus.
  destruct (decodeData_encodeData (VArr L) HL) as (t & Ht & Hdec).
  rewrite Htoken in Ht. injection Ht as <-.
  assert (Hne : token <> []).
  { intros ->. vm_compute in Hdec. discriminate Hdec. }
  assert (Hget : getQueryParam (js "?data=" ++ token) (js "data") = Some token).
  { rewrite (data_param_read token (token_characters (VArr L) token Htoken)).
    f_equal. apply map_fixed. intros c Hc.
    destruct (Z.eqb_spec c 43) as [->|]; [contradiction|reflexivity]. }
  split; [|split; [|split; reflexivity]].
  - unfold shareLinkEffect. rewrite Hget.
    rewrite bool_decide_eq_false_2 by exact Hne.
    unfold tryM, bindM at 1, lift. rewrite Hdec. reflexivity.
  - intros raw Hraw Hurl. unfold loadFromLink.
    rewrite bool_decide_eq_false_2 by exact Hraw.
    unfold tryM, bindM at 1, lift. rewrite Hurl. rewrite Hget.
    rewrite bool_decide_eq_false_2 by exact Hne.
    unfold bindM at 1. rewrite Hdec. reflexivity.
Qed.

End Opening.

Lemma share_link_without_plus_opens_witness :
  forallb storable [knee_bend] = true /\
  @encodeData example_engine (VArr [knee_bend]) = Return knee_token /\
  ~ In 43 knee_token /\
  shareLinkEffect (js "?data=" ++ knee_token) true two_items
  = setItems (fun _ => Return [knee_bend]) two_items.
Proof.
  assert (H1 : forallb storable [knee_bend] = true) by (vm_compute; reflexivity).
  assert (H2 : @encodeData example_engine (VArr [knee_bend]) = Return knee_token)
    by (vm_compute; reflexivity).
  assert (H3 : ~ In 43 knee_token) by (vm_compute; intuition discriminate).
  split; [exact H1|]. split; [exact H2|]. split; [exact H3|].
  exact (proj1 (@share_link_without_plus_opens example_engine [knee_bend]
                  knee_token two_items H1 H2 H3)).
Defined.

(** ** What the link readers can do *)


(** X7. The button that loads from a pasted link never throws. It
    either does nothing (prompt dismissed or left empty, confirmation
    declined), or shows one of its three alerts and leaves the list as it
    was, or, on a link whose [data] parameter decodes to an array and
    after confirmation, puts that array in the place of the list without
    an alert. *)
Theorem loadFromLink_outcome `{Engine} (raw : option jsstring) (answer : bool)
    (w : World) :
  loadFromLink raw answer w = (Return tt, w) \/
  (exists msg,
     (msg = msg_bad_link \/ msg = msg_bad_data \/ msg = msg_link_error) /\
     loadFromLink raw answer w = alert msg w) \/
  (answer = true /\
   exists text search token l,
     raw = Some text /\ URL_search text = Return search /\
     getQueryParam search (js "data") = Some token /\
     decodeData token = Return (VArr l) /\
     loadFromLink raw answer w = setItems (fun _ => Return l) w).
Proof.
  remember (loadFromLink raw answer w) as out eqn:Hout.
  unfold loadFromLink in Hout. destruct raw as [text|]; [|left; exact Hout].
  case_bool_decide; [left; exact Hout|].
  unfold tryM, bindM at 1, lift in Hout.
  destruct (URL_search text) as [search|e] eqn:Hurl; cbv beta iota in Hout;
    [|right; left; exists msg_link_error; auto].
  destruct (getQueryParam search (js "data")) as [token|] eqn:Hget;
    [|right; left; exists msg_bad_link; auto].
  case_bool_decide; [right; left; exists msg_bad_link; auto|].
  unfold bindM at 1 in Hout.
  destruct (decodeData token) as [v|e] eqn:Hdec; cbv beta iota in Hout;
    [|right; left; exists msg_link_error; auto].
  destruct v as [| | | | |l|];
    try (right; left; exists msg_bad_data; split; [auto|exact Hout]).
  destruct answer; [|left; exact Hout].
  right. right. split; [reflexivity|]. exists text, search, token, l. auto.
Qed.

(** ** Import: all or nothing *)

Section ImportOutcome.
Context `{Engine} (env : Env).

(** X8. An import never throws, and it does all or nothing. Either it
    shows the failure alert and leaves the list, the form and the toasts
    as they were; or it shows no alert, announces success by a toast, and
    puts in the place of the list one item for each record of the file
    that is truthy and has a truthy [id] and [title], each made of its
    record and of the clock as [sanitized] says: the list of before
    plays no part. *)
Theorem importJSON_all_or_nothing (text : jsstring) (w : World) :
  exists w',
    importJSON env text w = (Return tt, w') /\
    ((app w' = app w /\ alerts w' = alerts w ++ [msg_import_failed]) \/
     (alerts w' = alerts w /\
      exists records id,
        JSON.parse text = Return (VArr records) /\
        items (app w')
        = sanitized_records env (ticks w) (List.filter import_kept records) /\
        length (items (app w')) = length (List.filter import_kept records) /\
        toasts (app w') = toasts (app w) ++ [(id, msg_import_done)])).
Proof.
  destruct (JSON.parse text) as [data|e] eqn:Hparse.
  2: { unfold importJSON, tryM. unfold bindM at 1, lift at 1. rewrite Hparse.
       eexists. split; [reflexivity|left; split; reflexivity]. }
  destruct data as [| | | | |records|];
    try (unfold importJSON, tryM; unfold bindM at 1, lift at 1; rewrite Hparse;
         eexists; split; [reflexivity|left; split; reflexivity]).
  destruct (import_outcome env text records w Hparse) as (w' & Hrun & Hout).
  exists w'. split; [exact Hrun|].
  destruct (forallb record_converts (List.filter import_kept records)).
  - destruct Hout as (Hal & Hitems & _ & id & Htoast).
    right. split; [exact Hal|]. exists records, id.
    split; [reflexivity|]. split; [exact Hitems|]. split; [|exact Htoast].
    rewrite Hitems.
    destruct (sanitized_records_clean env (ticks w)
                (List.filter import_kept records)) as [_ Hids].
    apply (f_equal (@length value)) in Hids. rewrite !length_map in Hids.
    exact Hids.
  - destruct Hout as [Hal Happ]. left. split; assumption.
Qed.

(** X9. A file that parses to an array in which no record is truthy
    with a truthy [id] and [title] (the empty array, for one) empties the
    list, and the import reports success. *)
Theorem import_without_records_empties (text : jsstring)
    (records : list value) (w : World) :
  JSON.parse text = Return (VArr records) ->
  List.filter import_kept records = [] ->
  exists w',
    importJSON env text w = (Return tt, w') /\
    items (app w') = [] /\ alerts w' = alerts w /\
    toasts (app w')
    = toasts (app w) ++ [(minted_id env (ticks w) w, msg_import_done)].
Proof.
  intros Hparse Hnone.
  unfold importJSON, tryM. unfold bindM at 1, lift at 1. rewrite Hparse.
  unfold bindM at 1, lift at 1.
  rewrite (filterM_pure import_keeps import_kept)
    by (apply Forall_forall; intros d _; apply import_keeps_spec).
  rewrite Hnone. eexists. split; [reflexivity|].
  repeat split; reflexivity.
Qed.

End ImportOutcome.

Lemma import_without_records_empties_witness :
  JSON.parse (json_text "[{'title':'Plank'}, null]")
  = Return (VArr [VObj [(k_title, VStr (js "Plank"))]; VNull]) /\
  List.filter import_kept [VObj [(k_title, VStr (js "Plank"))]; VNull] = [] /\
  exists w',
    @importJSON example_engine example_env
      (json_text "[{'title':'Plank'}, null]") two_items = (Return tt, w') /\
    items (app w') = [] /\ alerts w' = alerts two_items /\
    toasts (app w')
    = toasts (app two_items)
      ++ [(@minted_id example_engine example_env (ticks two_items) two_items,
           msg_import_done)].
Proof.
  assert (H1 : JSON.parse (json_text "[{'title':'Plank'}, null]")
    = Return (VArr [VObj [(k_title, VStr (js "Plank"))]; VNull]))
    by (vm_compute; reflexivity).
  assert (H2 : List.filter import_kept [VObj [(k_title, VStr (js "Plank"))]; VNull] = [])
    by reflexivity.
  split; [exact H1|]. split; [exact H2|].
  exact (@import_without_records_empties example_engine example_env _ _
           two_items H1 H2).
Defined.

(** ** Trimming and splitting *)

Lemma trimStart_snoc l c :
  is_js_space c = false -> trimStart (l ++ [c]) = trimStart l ++ [c].
Proof.
  intros Hc. induction l as [|a l IH]; simpl.
  - rewrite Hc. reflexivity.
  - destruct (is_js_space a); [exact IH|reflexivity].
Qed.

Lemma trimEnd_cons c s :
  is_js_space c = false -> trimEnd (c :: s) = c :: trimEnd s.
Proof.
  intros Hc. unfold trimEnd. simpl rev.
  rewrite trimStart_snoc by exact Hc. rewrite rev_app_distr. reflexivity.
Qed.

Lemma trimStart_starts s :
  match trimStart s with
  | [] => True
  | c :: _ => is_js_space c = false
  end.
Proof.
  induction s as [|a s IH]; simpl; [exact I|].
  destruct (is_js_space a) eqn:Ha; [exact IH|exact Ha].
Qed.

Lemma trimStart_fixed s :
  match s with
  | [] => True
  | c :: _ => is_js_space c = false
  end -> trimStart s = s.
Proof. destruct s as [|c s]; simpl; [reflexivity|]. intros ->. reflexivity. Qed.

Lemma trimStart_idem s : trimStart (trimStart s) = trimStart s.
Proof. apply trimStart_fixed, trimStart_starts. Qed.

Lemma trimEnd_idem s : trimEnd (trimEnd s) = trimEnd s.
Proof. unfold trimEnd. rewrite rev_involutive, trimStart_idem. reflexivity. Qed.

Lemma trimEnd_starts s :
  match s with
  | [] => True
  | c :: _ => is_js_space c = false
  end ->
  match trimEnd s with
  | [] => True
  | c :: _ => is_js_space c = false
  end.
Proof.
  destruct s as [|c s]; [intros _; exact I|].
  intros Hc. rewrite trimEnd_cons by exact Hc. exact Hc.
Qed.

(** [trim] leaves what it returns alone. *)
Lemma trim_idem s : trim (trim s) = trim s.
Proof.
  unfold trim.
  rewrite (trimStart_fixed (trimEnd (trimStart s)))
    by apply trimEnd_starts, trimStart_starts.
  apply trimEnd_idem.
Qed.

Lemma trimStart_incl s c : In c (trimStart s) -> In c s.
Proof.
  induction s as [|a s IH]; simpl; [tauto|].
  destruct (is_js_space a); [intros Hin; right; exact (IH Hin)|tauto].
Qed.

Lemma trim_incl s c : In c (trim s) -> In c s.
Proof.
  unfold trim, trimEnd. intros Hin. apply trimStart_incl.
  apply in_rev in Hin. apply trimStart_incl in Hin. apply in_rev. exact Hin.
Qed.

Lemma split_nonempty sep s : split sep s <> [].
Proof.
  destruct s as [|c s]; simpl; [discriminate|].
  destruct (c =? sep); [discriminate|]. destruct (split sep s); discriminate.
Qed.

Lemma split_segments sep s : Forall (fun seg => ~ In sep seg) (split sep s).
Proof.
  induction s as [|c s IH]; simpl; [repeat constructor; tauto|].
  destruct (Z.eqb_spec c sep) as [->|Hne].
  - constructor; [tauto|exact IH].
  - destruct (split sep s) as [|seg segs]; [repeat constructor; simpl; intuition|].
    apply Forall_cons in IH as [Hseg Hsegs]. constructor; [|exact Hsegs].
    simpl. intuition.
Qed.

(** A tag as [handleSave] leaves it: not empty, without white space at
    either end, without comma. *)
Lemma normalized_tags_clean text :
  Forall (fun t => t <> [] /\ trim t = t /\ ~ In 44 t) (normalized_tags text).
Proof.
  unfold normalized_tags. apply Forall_forall. intros t Hin.
  apply list_elem_of_In, filter_In in Hin as [Hin Hne].
  apply in_map_iff in Hin as (seg & <- & Hseg).
  split; [|split].
  - apply negb_true_iff, bool_decide_eq_false in Hne. exact Hne.
  - apply trim_idem.
  - intros H44. apply trim_incl in H44.
    pose proof (split_segments 44 text) as Hall. rewrite Forall_forall in Hall.
    apply (Hall seg); [apply list_elem_of_In, Hseg|exact H44].
Qed.

Lemma tags_of_new_item id t c u l tags ca ua :
  tags_of (new_item id t c u l tags ca ua) = tags.
Proof.
  unfold tags_of, new_item, field. simpl.
  rewrite map_map. apply map_id.
Qed.

Section Tags.
Context `{Engine} (env : Env).

(** X10. Every tag of an item that [create] has made is a non-empty
    text with no comma in it and no white space at either end, whatever
    was typed into the tag field. *)
Theorem created_tags_are_clean (f : Fields) (w : World) :
  trim (f_title f) <> [] ->
  exists it rest,
    items (app (snd (create env f w))) = it :: rest /\
    Forall (fun t => t <> [] /\ trim t = t /\ ~ In 44 t) (tags_of it).
Proof.
  intros Ht. unfold create.
  rewrite handleSave_new by (simpl; auto).
  eexists _, _. split; [reflexivity|].
  rewrite tags_of_new_item. apply normalized_tags_clean.
Qed.

End Tags.

Lemma created_tags_are_clean_witness :
  trim (f_title neck_tilt_form) <> [] /\
  exists it rest,
    items (app (snd (@create example_engine example_env neck_tilt_form two_items)))
    = it :: rest /\
    Forall (fun t => t <> [] /\ trim t = t /\ ~ In 44 t) (tags_of it).
Proof.
  assert (H1 : trim (f_title neck_tilt_form) <> []) by (vm_compute; discriminate).
  split; [exact H1|].
  exact (@created_tags_are_clean example_engine example_env neck_tilt_form
           two_items H1).
Defined.

(** ** Deleting and the selection *)

Lemma Array_find_found f l x :
  Array_find f l = Return x -> x <> VUndef -> f x = Return true /\ In x l.
Proof.
  induction l as [|y l IH]; simpl; intros Hf Hx.
  - injection Hf as <-. contradiction.
  - destruct (f y) as [[|]|e] eqn:Hy; simpl in Hf; try discriminate Hf.
    + injection Hf as <-. split; [exact Hy|left; reflexivity].
    + destruct (IH Hf Hx) as [H1 H2]. split; [exact H1|right; exact H2].
Qed.

Lemma Array_find_none f l :
  Forall (fun x => f x = Return false) l -> Array_find f l = Return VUndef.
Proof. induction 1 as [|x l Hx _ IH]; simpl; [reflexivity|]. rewrite Hx. exact IH. Qed.

Lemma strict_eq_text s v : strict_eq (VStr s) v = true -> v = VStr s.
Proof.
  destruct v; simpl; try discriminate. intros Hs.
  apply bool_decide_eq_true in Hs. congruence.
Qed.

Lemma filter_items_kept (p : value -> bool) (l : list value) :
  Forall (fun v => is_item v = true) l ->
  Forall (fun v => is_item v = true) (List.filter p l).
Proof.
  intros Hl. apply Forall_forall. intros v Hv.
  apply list_elem_of_In, filter_In in Hv as [Hv _].
  rewrite Forall_forall in Hl. apply Hl, list_elem_of_In, Hv.
Qed.

Lemma filter_twice {A} (p : A -> bool) (l : list A) :
  List.filter p (List.filter p l) = List.filter p l.
Proof.
  induction l as [|x l IH]; simpl; [reflexivity|].
  destruct (p x) eqn:Hp; simpl; rewrite ?Hp, IH; reflexivity.
Qed.

Section Deleting.
Context `{Engine}.

(** X11. After a confirmed delete no item of the list carries the id
    of the deleted one, and confirming the same delete once more changes
    the list no further. *)
Theorem confirmed_delete_removes_id (item : value) (w : World) :
  is_item item = true ->
  Forall (fun v => is_item v = true) (items (app w)) ->
  let w' := snd (handleDelete item true w) in
  Forall (fun v => id_of v <> id_of item) (items (app w')) /\
  items (app (snd (handleDelete item true w'))) = items (app w').
Proof.
  intros Hitem Hitems w'. subst w'.
  rewrite (handleDelete_confirmed w item Hitem Hitems). simpl. split.
  - apply Forall_forall. intros v Hv.
    apply list_elem_of_In, filter_In in Hv as [_ Hv].
    apply negb_true_iff, bool_decide_eq_false in Hv. exact Hv.
  - rewrite handleDelete_confirmed; [|exact Hitem|apply filter_items_kept, Hitems].
    simpl. apply filter_twice.
Qed.

(** X12. When the item shown in the detail pane is deleted, the pane
    shows no item afterwards: [selected] is [null]. *)
Theorem deleted_selection_shows_nothing (item : value) (w : World) :
  is_item item = true ->
  Forall (fun v => is_item v = true) (items (app w)) ->
  selected (app w) = Return item ->
  selected (app (snd (handleDelete item true w))) = Return VNull.
Proof.
  intros Hitem Hitems Hsel.
  destruct (is_item_object item Hitem) as [o Ho].
  destruct (is_item_id item Hitem) as [Hid _].
  assert (Hselid : selectedId (app w) = VStr (id_of item)).
  { unfold selected in Hsel.
    destruct (Array_find _ (items (app w))) as [found|e] eqn:Hfind;
      [|discriminate Hsel].
    simpl in Hsel. injection Hsel as Hor.
    assert (Hfound : found = item).
    { unfold or_value in Hor. destruct (ToBoolean found); [exact Hor|].
      rewrite Ho in Hor. discriminate Hor. }
    subst found.
    destruct (Array_find_found _ _ _ Hfind) as [Hp _]; [subst item; discriminate|].
    rewrite (is_item_Get item k_id Hitem), Hid in Hp. simpl in Hp.
    injection Hp as Hp. apply strict_eq_text in Hp. exact Hp. }
  rewrite (handleDelete_confirmed w item Hitem Hitems). simpl.
  rewrite Hselid. simpl. rewrite bool_decide_eq_true_2 by reflexivity.
  unfold selected. simpl. rewrite Array_find_none; [reflexivity|].
  apply Forall_forall. intros v Hv.
  apply list_elem_of_In, filter_In in Hv as [Hv _].
  rewrite Forall_forall in Hitems.
  assert (Hiv : is_item v = true) by (apply Hitems, list_elem_of_In, Hv).
  rewrite (is_item_Get v k_id Hiv). destruct (is_item_id v Hiv) as [-> _].
  reflexivity.
Qed.

End Deleting.

Section Selecting.
Context `{Engine} (env : Env).

(** X13. After [create] has succeeded the detail pane shows the new
    item: [selected] is the item at the head of the list. *)
Theorem created_item_is_selected (f : Fields) (w : World) :
  trim (f_title f) <> [] ->
  exists it rest,
    items (app (snd (create env f w))) = it :: rest /\
    rest = items (app w) /\
    selected (app (snd (create env f w))) = Return it.
Proof.
  intros Ht. unfold create.
  rewrite handleSave_new by (simpl; auto).
  eexists _, _. split; [reflexivity|]. split; [reflexivity|].
  unfold selected. simpl.
  rewrite bool_decide_eq_true_2 by reflexivity. reflexivity.
Qed.

End Selecting.

Lemma confirmed_delete_removes_id_witness :
  is_item knee_bend = true /\
  Forall (fun v => is_item v = true) (items (app two_items)) /\
  Forall (fun v => id_of v <> id_of knee_bend)
    (items (app (snd (@handleDelete example_engine knee_bend true two_items)))) /\
  items (app (snd (@handleDelete example_engine knee_bend true
                     (snd (@handleDelete example_engine knee_bend true two_items)))))
  = items (app (snd (@handleDelete example_engine knee_bend true two_items))).
Proof.
  assert (H1 : is_item knee_bend = true) by reflexivity.
  assert (H2 : Forall (fun v => is_item v = true) (items (app two_items)))
    by (repeat constructor).
  split; [exact H1|]. split; [exact H2|].
  exact (@confirmed_delete_removes_id example_engine knee_bend two_items H1 H2).
Defined.

Lemma created_item_is_selected_witness :
  trim (f_title neck_tilt_form) <> [] /\
  exists it rest,
    items (app (snd (@create example_engine example_env neck_tilt_form two_items)))
    = it :: rest /\
    rest = items (app two_items) /\
    selected (app (snd (@create example_engine example_env neck_tilt_form
                          two_items))) = Return it.
Proof.
  assert (H1 : trim (f_title neck_tilt_form) <> []) by (vm_compute; discriminate).
  split; [exact H1|].
  exact (@created_item_is_selected example_engine example_env neck_tilt_form
           two_items H1).
Defined.

Lemma deleted_selection_shows_nothing_witness :
  is_item knee_bend = true /\
  Forall (fun v => is_item v = true) (items (app knee_selected)) /\
  selected (app knee_selected) = Return knee_bend /\
  selected (app (snd (@handleDelete example_engine knee_bend true knee_selected)))
  = Return VNull.
Proof.
  assert (H1 : is_item knee_bend = true) by reflexivity.
  assert (H2 : Forall (fun v => is_item v = true) (items (app knee_selected)))
    by (repeat constructor).
  assert (H3 : selected (app knee_selected) = Return knee_bend)
    by (vm_compute; reflexivity).
  split; [exact H1|]. split; [exact H2|]. split; [exact H3|].
  exact (@deleted_selection_shows_nothing example_engine knee_bend knee_selected
           H1 H2 H3).
Defined.

(** ** Editing without a change *)

Lemma split_app sep a b :
  ~ In sep a -> split sep (a ++ sep :: b) = a :: split sep b.
Proof.
  induction a as [|c a IH]; intros Ha; simpl.
  - rewrite Z.eqb_refl. reflexivity.
  - destruct (Z.eqb_spec c sep) as [->|Hne]; [exfalso; apply Ha; left; reflexivity|].
    rewrite IH; [reflexivity|]. intros Hin. apply Ha. right. exact Hin.
Qed.

Lemma normalized_tags_space s : normalized_tags (32 :: s) = normalized_tags s.
Proof.
  unfold normalized_tags. simpl split.
  pose proof (split_nonempty 44 s) as Hne.
  destruct (split 44 s) as [|seg segs]; [contradiction|]. reflexivity.
Qed.

Lemma normalized_tags_first t s :
  t <> [] -> trim t = t -> ~ In 44 t ->
  normalized_tags (t ++ 44 :: s) = t :: normalized_tags s.
Proof.
  intros Hne Htrim Hcomma. unfold normalized_tags.
  rewrite split_app by exact Hcomma. simpl. rewrite Htrim.
  rewrite bool_decide_eq_false_2 by exact Hne. reflexivity.
Qed.

(** Splitting undoes the joining of clean tags. *)
Lemma normalized_tags_join tags :
  Forall (fun g => g <> [] /\ trim g = g /\ ~ In 44 g) tags ->
  normalized_tags (join_strings (js ", ") tags) = tags.
Proof.
  induction 1 as [|g tags (Hne & Htrim & Hcomma) Htags IH]; [reflexivity|].
  destruct tags as [|g' tags].
  - simpl. unfold normalized_tags. rewrite split_without by exact Hcomma.
    simpl. rewrite Htrim. rewrite bool_decide_eq_false_2 by exact Hne.
    reflexivity.
  - change (join_strings (js ", ") (g :: g' :: tags))
      with (g ++ 44 :: 32 :: join_strings (js ", ") (g' :: tags)).
    rewrite normalized_tags_first by assumption.
    rewrite normalized_tags_space, IH. reflexivity.
Qed.

Lemma form_text_string s : form_text (VStr s) = Some s.
Proof.
  unfold form_text, or_value. simpl. case_bool_decide; subst; reflexivity.
Qed.

Lemma integer_time z : is_integer (VInt z) = true.
Proof.
  unfold is_integer, VInt, num_of_Z, num_is_integer.
  change (this (Q2Qc (inject_Z z))) with (Qred (inject_Z z)).
  rewrite Qred_identity by (simpl; apply Z.gcd_1_r). reflexivity.
Qed.

Lemma new_item_is_item id t c u l tags ca ua :
  id <> [] -> is_item (new_item id t c u l tags ca ua) = true.
Proof.
  intros Hid. unfold is_item, new_item, field. simpl.
  destruct id as [|i id]; [contradiction|].
  rewrite forallb_is_text_map.
  pose proof (integer_time ca) as Hca. pose proof (integer_time ua) as Hua.
  unfold is_optional_time. unfold VInt in *. simpl in *.
  rewrite Hca, Hua. reflexivity.
Qed.

Section EditingBack.
Context `{Engine} (env : Env).

Lemma openEdit_new_item id t c u l tags ca ua w :
  exists m,
    openEdit (new_item id t c u l tags ca ua) = Some m /\
    m w = (Return tt,
           with_form {| f_title := t; f_content := c; f_caution := u;
                        f_link := l;
                        f_tagsText := join_strings (js ", ") tags |}
             (VStr id) w).
Proof.
  unfold openEdit.
  change (field k_title (new_item id t c u l tags ca ua)) with (VStr t).
  change (field k_content (new_item id t c u l tags ca ua)) with (VStr c).
  change (field k_caution (new_item id t c u l tags ca ua)) with (VStr u).
  change (field k_link (new_item id t c u l tags ca ua)) with (VStr l).
  rewrite !form_text_string. eexists. split; [reflexivity|].
  change (Get (new_item id t c u l tags ca ua) k_id) with (Return (A:=value) (VStr id)).
  change (Get (new_item id t c u l tags ca ua) k_tags)
    with (Return (A:=value) (VArr (List.map VStr tags))).
  rewrite !bindM_lift.
  change (or_value (VArr (List.map VStr tags)) (VArr []))
    with (VArr (List.map VStr tags)).
  unfold join. rewrite join_by_texts by apply forallb_is_text_map.
  rewrite map_map, map_id. reflexivity.
Qed.

(** X14. Opening the editor on an item that [create] has made and
    saving without typing anything changes that item in nothing but its
    [updatedAt], which becomes the current time, and leaves the other
    items and the order of the list as they were. *)
Theorem edit_without_change_keeps_item (id t c u l : jsstring)
    (tags : list jsstring) (ca ua : Z) (before after : list value) (w : World) :
  id <> [] -> t <> [] -> trim t = t ->
  Forall (fun g => g <> [] /\ trim g = g /\ ~ In 44 g) tags ->
  items (app w) = before ++ new_item id t c u l tags ca ua :: after ->
  Forall (fun v => is_item v = true /\ id_of v <> id) (before ++ after) ->
  exists m w1 w2,
    openEdit (new_item id t c u l tags ca ua) = Some m /\
    m w = (Return tt, w1) /\
    handleSave env w1 = (Return tt, w2) /\
    items (app w2)
    = before ++ new_item id t c u l tags ca (Date_now_at env (ticks w)) :: after.
Proof.
  intros Hid Ht Htrim Htags Hitems Hothers.
  destruct (openEdit_new_item id t c u l tags ca ua w) as (m & Hm & Hrun).
  exists m. eexists _, _. split; [exact Hm|]. split; [exact Hrun|].
  apply Forall_app in Hothers as [Hbefore Hafter].
  assert (Hall : Forall (fun v => is_item v = true) (items (app w))).
  { rewrite Hitems. apply Forall_app. split; [|constructor].
    - eapply Forall_impl; [exact Hbefore|]. simpl. tauto.
    - apply new_item_is_item, Hid.
    - eapply Forall_impl; [exact Hafter|]. simpl. tauto. }
  rewrite (handleSave_edit env _ id); simpl; try assumption;
    [|rewrite Htrim; exact Ht|reflexivity].
  split; [reflexivity|]. simpl. rewrite Hitems, map_app. simpl. f_equal; [|f_equal].
  - apply map_fixed. intros v Hv. apply edited_other. simpl.
    rewrite Forall_forall in Hbefore. apply (Hbefore v), list_elem_of_In, Hv.
  - unfold edited. simpl.
    rewrite bool_decide_eq_true_2 by reflexivity.
    rewrite Htrim, normalized_tags_join by exact Htags. reflexivity.
  - apply map_fixed. intros v Hv. apply edited_other. simpl.
    rewrite Forall_forall in Hafter. apply (Hafter v), list_elem_of_In, Hv.
Qed.

End EditingBack.

Lemma edit_without_change_keeps_item_witness :
  js "LOYW3V294FZYO8" <> [] /\ js "Shoulder Stretch" <> [] /\
  trim (js "Shoulder Stretch") = js "Shoulder Stretch" /\
  Forall (fun g => g <> [] /\ trim g = g /\ ~ In 44 g) [js "shoulder"] /\
  items (app two_items) = [] ++ shoulder_stretch :: [knee_bend] /\
  Forall (fun v => is_item v = true /\ id_of v <> js "LOYW3V294FZYO8")
    ([] ++ [knee_bend]) /\
  exists m w1 w2,
    @openEdit example_engine shoulder_stretch = Some m /\
    m two_items = (Return tt, w1) /\
    @handleSave example_engine example_env w1 = (Return tt, w2) /\
    items (app w2)
    = [] ++ new_item (js "LOYW3V294FZYO8") (js "Shoulder Stretch")
              (js "Hold 10 s") [] [] [js "shoulder"] 1700000000000
              (Date_now_at example_env (ticks two_items)) :: [knee_bend].
Proof.
  assert (H1 : js "LOYW3V294FZYO8" <> []) by discriminate.
  assert (H2 : js "Shoulder Stretch" <> []) by discriminate.
  assert (H3 : trim (js "Shoulder Stretch") = js "Shoulder Stretch")
    by (vm_compute; reflexivity).
  assert (H4 : Forall (fun g => g <> [] /\ trim g = g /\ ~ In 44 g) [js "shoulder"]).
  { repeat constructor; [discriminate|vm_compute; intuition discriminate]. }
  assert (H5 : items (app two_items) = [] ++ shoulder_stretch :: [knee_bend])
    by reflexivity.
  assert (H6 : Forall (fun v => is_item v = true /\ id_of v <> js "LOYW3V294FZYO8")
                 ([] ++ [knee_bend])).
  { repeat constructor. vm_compute. discriminate. }
  split; [exact H1|]. split; [exact H2|]. split; [exact H3|].
  split; [exact H4|]. split; [exact H5|]. split; [exact H6|].
  exact (@edit_without_change_keeps_item example_engine example_env
           (js "LOYW3V294FZYO8") (js "Shoulder Stretch") (js "Hold 10 s") [] []
           [js "shoulder"] 1700000000000 1700000005000 [] [knee_bend] two_items
           H1 H2 H3 H4 H5 H6).
Defined.

(** ** The text to copy *)

Lemma join_strings_lines sep x l :
  join_strings sep (x :: l) = x ++ flat_map (fun y => sep ++ y) l.
Proof.
  revert x. induction l as [|y l IH]; intros x.
  - simpl. rewrite app_nil_r. reflexivity.
  - change (join_strings sep (x :: y :: l)) with (x ++ sep ++ join_strings sep (y :: l)).
    rewrite IH. simpl. rewrite <- !app_assoc. reflexivity.
Qed.

Section CopyText.
Context `{Engine}.

Lemma push_section_text heading v lines :
  is_optional_text v = true ->
  push_section heading v lines
  = Return (lines ++ match text_of v with
                     | [] => []
                     | _ :: _ => [heading ++ text_of v]
                     end).
Proof.
  unfold push_section. destruct v as [| | | |s| |]; try discriminate; intros _.
  - simpl. rewrite app_nil_r. reflexivity.
  - destruct s as [|c s]; simpl; [rewrite app_nil_r|]; reflexivity.
Qed.

Lemma share_section_lines heading s :
  flat_map (fun y => [10] ++ y)
    match s with
    | [] => []
    | _ :: _ => [heading ++ s]
    end
  = share_section heading s.
Proof. destruct s; simpl; [reflexivity|]. rewrite app_nil_r. reflexivity. Qed.

Lemma array_length_truthy (l : list value) :
  ToBoolean (length_of (VArr l)) = negb (Nat.eqb (length l) 0).
Proof.
  unfold length_of.
  change (ToBoolean (VInt (Z.of_nat (length l))))
    with (negb (num_falsy (num_of_Z (Z.of_nat (length l))))).
  rewrite num_falsy_of_Z. destruct l; reflexivity.
Qed.

Lemma tags_line_text g lines :
  is_optional_tags g = true ->
  (if ToBoolean g && ToBoolean (length_of g)
   then let* gs := join g [32; 35] in Return (lines ++ [[10; 35] ++ gs])
   else Return lines)
  = Return (lines ++ match g with
                     | VArr (x :: l) =>
                         [[10; 35] ++ join_strings [32; 35]
                                        (List.map text_of (x :: l))]
                     | _ => []
                     end).
Proof.
  destruct g as [| | | | |l|]; try discriminate; intros Hg.
  - simpl. rewrite app_nil_r. reflexivity.
  - rewrite array_length_truthy. destruct l as [|x l].
    + simpl. rewrite app_nil_r. reflexivity.
    + change (ToBoolean (VArr (x :: l))) with true. cbv beta iota.
      change (negb (Nat.eqb (length (x :: l)) 0)) with true. cbv beta iota.
      unfold andb, join. rewrite (join_by_texts _ _ Hg). reflexivity.
Qed.

Lemma share_tags_lines g :
  flat_map (fun y => [10] ++ y)
    match g with
    | VArr (x :: l) =>
        [[10; 35] ++ join_strings [32; 35] (List.map text_of (x :: l))]
    | _ => []
    end
  = share_tags match g with
               | VArr l => List.map text_of l
               | _ => []
               end.
Proof.
  destruct g as [| | | | |[|x l]|]; try reflexivity.
  simpl flat_map. rewrite app_nil_r. reflexivity.
Qed.

(** X15. For an item, [buildShareText] does not throw, and its text is
    the pin and the title, then, for each of content, caution and link
    that is not empty, a blank line, the heading and the field, and at
    the end, if there are tags, a blank line and the tags, each after a
    number sign: a field that is empty or missing leaves no trace. *)
Theorem copy_text_of_item (it : value) :
  is_item it = true ->
  buildShareText it
  = Return (pin_prefix ++ text_of (field k_title it)
            ++ share_section content_heading (text_of (field k_content it))
            ++ share_section caution_heading (text_of (field k_caution it))
            ++ share_section link_heading (text_of (field k_link it))
            ++ share_tags (tags_of it)).
Proof.
  intros Hit. destruct (is_item_parts it Hit) as (Ht & Hc & Hu & Hl & Hg & _).
  unfold buildShareText. rewrite !is_item_Get by exact Hit.
  unfold bind at 1. rewrite (ToString_text _ Ht). unfold bind at 1.
  unfold bind at 1. rewrite (push_section_text _ _ _ Hc). unfold bind at 1.
  unfold bind at 1. rewrite (push_section_text _ _ _ Hu). unfold bind at 1.
  unfold bind at 1. rewrite (push_section_text _ _ _ Hl). unfold bind at 1.
  unfold bind at 1. rewrite (tags_line_text _ _ Hg). unfold bind.
  rewrite <- !app_assoc.
  change ([pin_prefix ++ text_of (field k_title it)] ++ ?r)
    with ((pin_prefix ++ text_of (field k_title it)) :: r).
  rewrite join_strings_lines, !flat_map_app, !share_section_lines, share_tags_lines.
  rewrite <- !app_assoc. reflexivity.
Qed.

End CopyText.

Lemma copy_text_of_item_witness :
  is_item shoulder_stretch = true /\
  @buildShareText example_engine shoulder_stretch
  = Return (pin_prefix ++ js "Shoulder Stretch"
            ++ share_section content_heading (js "Hold 10 s")
            ++ share_section caution_heading []
            ++ share_section link_heading []
            ++ share_tags [js "shoulder"]).
Proof.
  assert (H1 : is_item shoulder_stretch = true) by reflexivity.
  split; [exact H1|].
  exact (@copy_text_of_item example_engine shoulder_stretch H1).
Defined.

(** ** Toasts *)

Section Toasts.
Context `{Engine} (env : Env).

Lemma filter_all {A} (p : A -> bool) (l : list A) :
  Forall (fun x => p x = true) l -> List.filter p l = l.
Proof.
  induction 1 as [|x l Hx _ IH]; simpl; [reflexivity|]. rewrite Hx, IH. reflexivity.
Qed.

(** X16. A toast goes as it came: when its time is up the toasts shown
    are those of before, in their order, provided none of them has the
    id that [uid] gave to the new one. *)
Theorem toast_expires (msg : jsstring) (w : World) :
  let id := minted_id env (ticks w) w in
  Forall (fun x => fst x <> id) (toasts (app w)) ->
  toasts (app (snd (toast env msg w))) = toasts (app w) ++ [(id, msg)] /\
  toasts (app (snd (expireToast id (snd (toast env msg w))))) = toasts (app w).
Proof.
  intros id Hnew. split; [reflexivity|].
  change (toasts (app (snd (expireToast id (snd (toast env msg w))))))
    with (List.filter (fun x => negb (bool_decide (fst x = id)))
            (toasts (app w) ++ [(id, msg)])).
  rewrite List.filter_app. simpl List.filter at 2.
  rewrite bool_decide_eq_true_2 by reflexivity. simpl negb. cbv iota.
  rewrite app_nil_r. apply filter_all.
  eapply Forall_impl; [exact Hnew|]. intros x Hx. simpl in *.
  apply negb_true_iff, bool_decide_eq_false. exact Hx.
Qed.

End Toasts.

Lemma toast_expires_witness :
  Forall (fun x => fst x <> @minted_id example_engine example_env
                             (ticks two_items) two_items)
    (toasts (app two_items)) /\
  toasts (app (snd (@toast example_engine example_env msg_import_done two_items)))
  = toasts (app two_items)
    ++ [(@minted_id example_engine example_env (ticks two_items) two_items,
         msg_import_done)] /\
  toasts (app (snd (expireToast
                      (@minted_id example_engine example_env (ticks two_items)
                         two_items)
                      (snd (@toast example_engine example_env msg_import_done
                              two_items)))))
  = toasts (app two_items).
Proof.
  assert (H1 : Forall (fun x => fst x <> @minted_id example_engine example_env
                                          (ticks two_items) two_items)
                 (toasts (app two_items))) by constructor.
  split; [exact H1|].
  exact (@toast_expires example_engine example_env msg_import_done two_items H1).
Defined.

(** ** The list view as a whole *)

Lemma insert_desc_stable key x l t :
  List.filter (fun v => key v =? t) (insert_desc key x l)
  = List.filter (fun v => key v =? t) (x :: l).
Proof.
  induction l as [|y l IH]; [reflexivity|].
  simpl insert_desc. destruct (Z.ltb_spec (key x) (key y)) as [Hlt|Hge];
    [|reflexivity].
  simpl List.filter in *. rewrite IH.
  destruct (Z.eqb_spec (key x) t) as [Hx|Hx], (Z.eqb_spec (key y) t) as [Hy|Hy];
    try reflexivity.
  lia.
Qed.

Lemma sort_desc_stable key l t :
  List.filter (fun v => key v =? t) (sort_desc key l)
  = List.filter (fun v => key v =? t) l.
Proof.
  induction l as [|x l IH]; [reflexivity|].
  simpl sort_desc. rewrite insert_desc_stable. simpl. rewrite IH. reflexivity.
Qed.

Section ListView.
Context `{Engine}.

Lemma sort_view_result h base L key L' :
  h !! base = Some L ->
  sorted_by (compare_items key) L = Return L' ->
  exists r h',
    sort_view h base key = Return (r, h') /\
    h' !! r = Some L' /\ h !! r = None /\
    (forall a l, h !! a = Some l -> h' !! a = Some l).
Proof.
  intros Hbase Hsort. unfold sort_view, Array_spread, read. rewrite Hbase. simpl.
  unfold Array_sort, read. rewrite lookup_insert_eq. simpl.
  rewrite Hsort. simpl.
  assert (Hfresh : h !! fresh (dom h) = None).
  { apply not_elem_of_dom. apply is_fresh. }
  eexists _, _. split; [reflexivity|].
  split; [apply lookup_insert_eq|]. split; [exact Hfresh|].
  intros a l Ha. rewrite !lookup_insert_ne; [exact Ha| |]; congruence.
Qed.

Lemma filter_view_result h a L q :
  h !! a = Some L ->
  Forall (fun v => is_item v = true) L ->
  exists r h',
    filter_view h a q = Return (r, h') /\
    h' !! r = Some (List.filter
                      (fun it => occurs_ignoring_case (trim q) (searchable_text it))
                      L) /\
    (forall b l, h !! b = Some l -> h' !! b = Some l).
Proof.
  intros Ha HL. unfold filter_view.
  case_bool_decide as Hq; simpl.
  - exists a, h. split; [reflexivity|]. split; [|auto].
    rewrite Ha. f_equal. symmetry. apply forallb_filter_id.
    apply forallb_forall. intros it _. unfold occurs_ignoring_case.
    rewrite Hq. destruct (toLowerCase (searchable_text it)); reflexivity.
  - unfold Array_filter, read. rewrite Ha. simpl.
    erewrite filterM_pure
      with (p := fun it => occurs_ignoring_case (trim q) (searchable_text it)).
    + simpl. unfold alloc. eexists _, _. split; [reflexivity|].
      split; [apply lookup_insert_eq|].
      intros b l Hb. rewrite lookup_insert_ne; [exact Hb|].
      intros Heq. apply (is_fresh (dom h)). rewrite Heq.
      apply elem_of_dom. eauto.
    + eapply Forall_impl; [exact HL|]. intros it Hit. simpl in Hit.
      rewrite (haystack_item it Hit). reflexivity.
Qed.

(** X17. The memoised view [filtered], sorted by a timestamp, is the
    items that match the query, latest first, in an array of its own:
    the array of the items and every other array stay as they were,
    also when the query is empty and the matching items are the items
    themselves. *)
Theorem filtered_view_is_a_sorted_copy (h : heap) (a : positive)
    (L : list value) (q : jsstring) (key : SortKey) :
  h !! a = Some L ->
  Forall (fun v => is_item v = true) L ->
  key <> ByTitle ->
  exists r h',
    filtered h a q key = Return (r, h') /\
    h' !! r = Some (sort_desc (time_of (sortKey_name key))
                      (List.filter
                         (fun it => occurs_ignoring_case (trim q)
                                      (searchable_text it)) L)) /\
    r <> a /\
    (forall b l, h !! b = Some l -> h' !! b = Some l).
Proof.
  intros Ha HL Hkey.
  destruct (filter_view_result h a L q Ha HL) as (r1 & h1 & Hf & Hr1 & Hkeep1).
  unfold filtered. rewrite Hf. cbv beta iota. unfold bind at 1. cbv beta iota.
  destruct (sort_view_result h1 r1 _ key _ Hr1
              (sorted_by_items key _ Hkey (filter_items_kept _ _ HL)))
    as (r & h' & Hs & Hr & Hfresh & Hkeep).
  exists r, h'. split; [exact Hs|]. split; [exact Hr|]. split.
  - intros ->. rewrite (Hkeep1 a L Ha) in Hfresh. discriminate Hfresh.
  - intros b l Hb. apply Hkeep, Hkeep1, Hb.
Qed.

(** X18. Sorting by a timestamp is stable: the items that have one and
    the same timestamp stand in the sorted list in the order they have in
    the list of items. *)
Theorem sort_view_is_stable (h : heap) (base : positive) (L : list value)
    (key : SortKey) :
  h !! base = Some L ->
  Forall (fun v => is_item v = true) L ->
  key <> ByTitle ->
  exists r h' L',
    sort_view h base key = Return (r, h') /\
    h' !! r = Some L' /\
    forall t : Z,
      List.filter (fun v => time_of (sortKey_name key) v =? t) L'
      = List.filter (fun v => time_of (sortKey_name key) v =? t) L.
Proof.
  intros Hbase HL Hkey.
  destruct (sort_view_result h base L key _ Hbase (sorted_by_items key L Hkey HL))
    as (r & h' & Hs & Hr & _).
  exists r, h', (sort_desc (time_of (sortKey_name key)) L).
  split; [exact Hs|]. split; [exact Hr|].
  intros t. apply sort_desc_stable.
Qed.

(** *** By title *)

Lemma compare_titles a b :
  is_item a = true -> is_item b = true ->
  SortCompare (compare_items ByTitle) a b
  = Return (num_sign (localeCompare_ko (text_of (field k_title a))
                        (text_of (field k_title b)))).
Proof.
  intros Ha Hb.
  destruct (is_item_parts a Ha) as (Hta & _), (is_item_parts b Hb) as (Htb & _).
  destruct (is_item_object a Ha) as [oa ->], (is_item_object b Hb) as [ob ->].
  unfold SortCompare, compare_items. rewrite !Get_object.
  destruct (field k_title (VObj oa)) as [| | | |sa| |]; try discriminate Hta.
  destruct (field k_title (VObj ob)) as [| | | |sb| |]; try discriminate Htb.
  reflexivity.
Qed.

Lemma insert_sorted_titles x l :
  is_item x = true -> Forall (fun v => is_item v = true) l ->
  exists r,
    insert_sorted (compare_items ByTitle) x l = Return r /\
    Permutation (x :: l) r /\
    (StronglySorted
       (fun a b => num_sign (localeCompare_ko (text_of (field k_title a))
                               (text_of (field k_title b))) <> Gt) l ->
     (forall s1 s2, num_sign (localeCompare_ko s1 s2) = Gt ->
                    num_sign (localeCompare_ko s2 s1) <> Gt) ->
     (forall s1 s2 s3, num_sign (localeCompare_ko s1 s2) <> Gt ->
                       num_sign (localeCompare_ko s2 s3) <> Gt ->
                       num_sign (localeCompare_ko s1 s3) <> Gt) ->
     StronglySorted
       (fun a b => num_sign (localeCompare_ko (text_of (field k_title a))
                               (text_of (field k_title b))) <> Gt) r).
Proof.
  intros Hx. induction 1 as [|y l Hy Hl IH].
  - exists [x]. split; [reflexivity|]. split; [reflexivity|].
    intros _ _ _. repeat constructor.
  - destruct IH as (r & Hr & Hperm & Hsorted).
    simpl insert_sorted. rewrite compare_titles by assumption. unfold bind at 1.
    destruct (num_sign (localeCompare_ko (text_of (field k_title x))
                          (text_of (field k_title y)))) eqn:Hc.
    + exists (x :: y :: l). split; [reflexivity|]. split; [reflexivity|].
      intros Hs _ Htrans. constructor; [exact Hs|].
      constructor; [congruence|].
      apply StronglySorted_inv in Hs as [_ Hs].
      eapply Forall_impl; [exact Hs|]. intros z Hz. simpl in *.
      eapply Htrans; [|exact Hz]. congruence.
    + exists (x :: y :: l). split; [reflexivity|]. split; [reflexivity|].
      intros Hs _ Htrans. constructor; [exact Hs|].
      constructor; [congruence|].
      apply StronglySorted_inv in Hs as [_ Hs].
      eapply Forall_impl; [exact Hs|]. intros z Hz. simpl in *.
      eapply Htrans; [|exact Hz]. congruence.
    + rewrite Hr. exists (y :: r). split; [reflexivity|].
      split; [rewrite perm_swap; constructor; exact Hperm|].
      intros Hs Hanti Htrans.
      apply StronglySorted_inv in Hs as [Hs Hyl].
      constructor; [apply Hsorted; assumption|].
      apply Forall_forall. intros z Hz. apply list_elem_of_In in Hz.
      apply (Permutation_in _ (Permutation_sym Hperm)) in Hz as [<-|Hz].
      * apply Hanti. exact Hc.
      * rewrite Forall_forall in Hyl. apply Hyl, list_elem_of_In, Hz.
Qed.

Lemma sorted_by_titles l :
  Forall (fun v => is_item v = true) l ->
  exists r,
    sorted_by (compare_items ByTitle) l = Return r /\
    Permutation l r /\
    ((forall s1 s2, num_sign (localeCompare_ko s1 s2) = Gt ->
                    num_sign (localeCompare_ko s2 s1) <> Gt) ->
     (forall s1 s2 s3, num_sign (localeCompare_ko s1 s2) <> Gt ->
                       num_sign (localeCompare_ko s2 s3) <> Gt ->
                       num_sign (localeCompare_ko s1 s3) <> Gt) ->
     StronglySorted
       (fun a b => num_sign (localeCompare_ko (text_of (field k_title a))
                               (text_of (field k_title b))) <> Gt) r).
Proof.
  induction 1 as [|x l Hx Hl IH].
  - exists []. split; [reflexivity|]. split; [reflexivity|]. intros _ _. constructor.
  - destruct IH as (r & Hr & Hperm & Hsorted).
    assert (Hitems : Forall (fun v => is_item v = true) r).
    { rewrite <- Hperm. exact Hl. }
    destruct (insert_sorted_titles x r Hx Hitems) as (r' & Hr' & Hperm' & Hsorted').
    exists r'. simpl. rewrite Hr. simpl. split; [exact Hr'|].
    split; [rewrite <- Hperm'; constructor; exact Hperm|].
    intros Hanti Htrans. apply Hsorted'; auto.
Qed.

(** X19. Sorting by title gives, in an array of its own, a permutation
    of the items, whatever the collation of the engine; the array of the
    items and every other array stay as they were. *)
Theorem sort_by_title_permutes (h : heap) (base : positive) (L : list value) :
  h !! base = Some L ->
  Forall (fun v => is_item v = true) L ->
  exists r h' L',
    sort_view h base ByTitle = Return (r, h') /\
    h' !! r = Some L' /\
    Permutation L L' /\
    h !! r = None /\
    (forall a l, h !! a = Some l -> h' !! a = Some l).
Proof.
  intros Hbase HL. destruct (sorted_by_titles L HL) as (L' & Hs & Hperm & _).
  destruct (sort_view_result h base L ByTitle L' Hbase Hs)
    as (r & h' & Hv & Hr & Hfresh & Hkeep).
  exists r, h', L'. auto.
Qed.

(** X20. When the collation of the engine is an order (of two titles
    the one is not both after and before the other, and being not after
    is transitive), sorting by title puts the items in an order in which
    no title stands after that of a later item. *)
Theorem sort_by_title_orders (h : heap) (base : positive) (L : list value) :
  (forall s1 s2, num_sign (localeCompare_ko s1 s2) = Gt ->
                 num_sign (localeCompare_ko s2 s1) <> Gt) ->
  (forall s1 s2 s3, num_sign (localeCompare_ko s1 s2) <> Gt ->
                    num_sign (localeCompare_ko s2 s3) <> Gt ->
                    num_sign (localeCompare_ko s1 s3) <> Gt) ->
  h !! base = Some L ->
  Forall (fun v => is_item v = true) L ->
  exists r h' L',
    sort_view h base ByTitle = Return (r, h') /\
    h' !! r = Some L' /\
    StronglySorted
      (fun a b => num_sign (localeCompare_ko (text_of (field k_title a))
                              (text_of (field k_title b))) <> Gt) L'.
Proof.
  intros Hanti Htrans Hbase HL.
  destruct (sorted_by_titles L HL) as (L' & Hs & _ & Hsorted).
  destruct (sort_view_result h base L ByTitle L' Hbase Hs)
    as (r & h' & Hv & Hr & _).
  exists r, h', L'. auto.
Qed.

End ListView.

Lemma sort_view_is_stable_witness :
  items_heap !! 1%positive = Some [shoulder_stretch; knee_bend] /\
  Forall (fun v => is_item v = true) [shoulder_stretch; knee_bend] /\
  ByCreatedAt <> ByTitle /\
  exists r h' L',
    @sort_view example_engine items_heap 1%positive ByCreatedAt = Return (r, h') /\
    h' !! r = Some L' /\
    forall t : Z,
      List.filter (fun v => time_of (sortKey_name ByCreatedAt) v =? t) L'
      = List.filter (fun v => time_of (sortKey_name ByCreatedAt) v =? t)
          [shoulder_stretch; knee_bend].
Proof.
  assert (H1 : items_heap !! 1%positive = Some [shoulder_stretch; knee_bend])
    by reflexivity.
  assert (H2 : Forall (fun v => is_item v = true) [shoulder_stretch; knee_bend])
    by (repeat constructor).
  assert (H3 : ByCreatedAt <> ByTitle) by discriminate.
  split; [exact H1|]. split; [exact H2|]. split; [exact H3|].
  exact (@sort_view_is_stable example_engine items_heap 1%positive _ ByCreatedAt
           H1 H2 H3).
Defined.

Lemma filtered_view_is_a_sorted_copy_witness :
  items_heap !! 1%positive = Some [shoulder_stretch; knee_bend] /\
  Forall (fun v => is_item v = true) [shoulder_stretch; knee_bend] /\
  ByUpdatedAt <> ByTitle /\
  exists r h',
    @filtered example_engine items_heap 1%positive [] ByUpdatedAt = Return (r, h') /\
    h' !! r = Some (sort_desc (time_of (sortKey_name ByUpdatedAt))
                      (List.filter
                         (fun it => @occurs_ignoring_case example_engine (trim [])
                                      (searchable_text it))
                         [shoulder_stretch; knee_bend])) /\
    r <> 1%positive /\
    (forall b l, items_heap !! b = Some l -> h' !! b = Some l).
Proof.
  assert (H1 : items_heap !! 1%positive = Some [shoulder_stretch; knee_bend])
    by reflexivity.
  assert (H2 : Forall (fun v => is_item v = true) [shoulder_stretch; knee_bend])
    by (repeat constructor).
  assert (H3 : ByUpdatedAt <> ByTitle) by discriminate.
  split; [exact H1|]. split; [exact H2|]. split; [exact H3|].
  exact (@filtered_view_is_a_sorted_copy example_engine items_heap 1%positive _ []
           ByUpdatedAt H1 H2 H3).
Defined.

Lemma sort_by_title_permutes_witness :
  items_heap !! 1%positive = Some [shoulder_stretch; knee_bend] /\
  Forall (fun v => is_item v = true) [shoulder_stretch; knee_bend] /\
  exists r h' L',
    @sort_view ordinal_engine items_heap 1%positive ByTitle = Return (r, h') /\
    h' !! r = Some L' /\
    Permutation [shoulder_stretch; knee_bend] L' /\
    items_heap !! r = None /\
    (forall a l, items_heap !! a = Some l -> h' !! a = Some l).
Proof.
  assert (H1 : items_heap !! 1%positive = Some [shoulder_stretch; knee_bend])
    by reflexivity.
  assert (H2 : Forall (fun v => is_item v = true) [shoulder_stretch; knee_bend])
    by (repeat constructor).
  split; [exact H1|]. split; [exact H2|].
  exact (@sort_by_title_permutes ordinal_engine items_heap 1%positive _ H1 H2).
Defined.

(** *** An order to sort titles by *)

Lemma compare_units_refl a : compare_units a a = Eq.
Proof. induction a as [|x a IH]; simpl; [reflexivity|]. rewrite Z.compare_refl. exact IH. Qed.

Lemma compare_units_antisym a b :
  compare_units b a = CompOpp (compare_units a b).
Proof.
  revert b. induction a as [|x a IH]; intros [|y b]; simpl; try reflexivity.
  rewrite (Z.compare_antisym x y).
  destruct (x ?= y); simpl; [apply IH|reflexivity|reflexivity].
Qed.

Lemma compare_units_trans a b c :
  compare_units a b <> Gt -> compare_units b c <> Gt -> compare_units a c <> Gt.
Proof.
  revert b c. induction a as [|x a IH]; intros [|y b] [|z c]; simpl;
    try congruence.
  destruct (Z.compare_spec x y) as [->|Hxy|Hxy]; [| |congruence].
  - destruct (Z.compare_spec y z) as [->|Hyz|Hyz]; [|congruence|congruence].
    apply IH.
  - intros _. destruct (Z.compare_spec y z) as [->|Hyz|Hyz]; [| |congruence].
    + intros _. destruct (Z.compare_spec x z); [lia|congruence|lia].
    + intros _. destruct (Z.compare_spec x z); [lia|congruence|lia].
Qed.

Lemma ordinal_sign a b :
  num_sign (@localeCompare_ko ordinal_engine a b) = compare_units a b.
Proof. simpl. destruct (compare_units a b); reflexivity. Qed.

Lemma sort_by_title_orders_witness :
  (forall s1 s2, num_sign (@localeCompare_ko ordinal_engine s1 s2) = Gt ->
                 num_sign (@localeCompare_ko ordinal_engine s2 s1) <> Gt) /\
  (forall s1 s2 s3, num_sign (@localeCompare_ko ordinal_engine s1 s2) <> Gt ->
                    num_sign (@localeCompare_ko ordinal_engine s2 s3) <> Gt ->
                    num_sign (@localeCompare_ko ordinal_engine s1 s3) <> Gt) /\
  items_heap !! 1%positive = Some [shoulder_stretch; knee_bend] /\
  Forall (fun v => is_item v = true) [shoulder_stretch; knee_bend] /\
  exists r h' L',
    @sort_view ordinal_engine items_heap 1%positive ByTitle = Return (r, h') /\
    h' !! r = Some L' /\
    StronglySorted
      (fun a b => num_sign (@localeCompare_ko ordinal_engine
                              (text_of (field k_title a))
                              (text_of (field k_title b))) <> Gt) L'.
Proof.
  assert (H1 : forall s1 s2,
             num_sign (@localeCompare_ko ordinal_engine s1 s2) = Gt ->
             num_sign (@localeCompare_ko ordinal_engine s2 s1) <> Gt).
  { intros s1 s2. rewrite !ordinal_sign, (compare_units_antisym s1 s2).
    intros ->. discriminate. }
  assert (H2 : forall s1 s2 s3,
             num_sign (@localeCompare_ko ordinal_engine s1 s2) <> Gt ->
             num_sign (@localeCompare_ko ordinal_engine s2 s3) <> Gt ->
             num_sign (@localeCompare_ko ordinal_engine s1 s3) <> Gt).
  { intros s1 s2 s3. rewrite !ordinal_sign. apply compare_units_trans. }
  assert (H3 : items_heap !! 1%positive = Some [shoulder_stretch; knee_bend])
    by reflexivity.
  assert (H4 : Forall (fun v => is_item v = true) [shoulder_stretch; knee_bend])
    by (repeat constructor).
  split; [exact H1|]. split; [exact H2|]. split; [exact H3|]. split; [exact H4|].
  exact (@sort_by_title_orders ordinal_engine items_heap 1%positive _ H1 H2 H3 H4).
Defined.

(** ** The ids that [uid] mints *)

Lemma digit_char_plain d :
  0 <= d < 36 -> is_digit (digit_char d) || is_lower (digit_char d) = true.
Proof.
  intros Hd. unfold digit_char, is_digit, is_lower, in_range.
  destruct (Z.ltb_spec d 10); apply orb_true_iff; [left|right];
    apply andb_true_iff; split; apply Z.leb_le; lia.
Qed.

Lemma digits_from_plain fuel n acc :
  Forall (fun c => is_digit c || is_lower c = true) acc ->
  Forall (fun c => is_digit c || is_lower c = true) (digits_from fuel 36 n acc).
Proof.
  revert n acc. induction fuel as [|fuel IH]; intros n acc Hacc; simpl; [exact Hacc|].
  assert (Hd : Forall (fun c => is_digit c || is_lower c = true)
                 (digit_char (n mod 36) :: acc)).
  { constructor; [|exact Hacc]. apply digit_char_plain.
    apply Z.mod_pos_bound. lia. }
  destruct (n <? 36); [exact Hd|]. apply IH. exact Hd.
Qed.

Lemma digits_from_length fuel radix n acc :
  (length acc <= length (digits_from fuel radix n acc))%nat.
Proof.
  revert n acc. induction fuel as [|fuel IH]; intros n acc; simpl; [lia|].
  destruct (n <? radix); [simpl; lia|].
  etransitivity; [|apply IH]. simpl. lia.
Qed.

Lemma digits_not_empty radix n : digits radix n <> [].
Proof.
  unfold digits. simpl. intros Hd.
  destruct (n <? radix); [discriminate Hd|].
  pose proof (digits_from_length (Z.to_nat (Z.log2 n)) radix (n / radix)
                [digit_char (n mod radix)]) as Hlen.
  rewrite Hd in Hlen. simpl in Hlen. lia.
Qed.

Lemma plain_is_ascii s :
  Forall (fun c => is_digit c || is_lower c = true) s -> forallb is_ascii s = true.
Proof.
  intros Hs. apply forallb_forall. intros c Hc.
  rewrite Forall_forall in Hs. specialize (Hs c (proj2 (list_elem_of_In _ _) Hc)).
  unfold is_digit, is_lower, is_ascii, in_range in *.
  rewrite orb_true_iff, !andb_true_iff, !Z.leb_le in Hs.
  apply andb_true_iff. rewrite !Z.leb_le. lia.
Qed.

Lemma ascii_upper_plain c :
  is_digit c || is_lower c = true ->
  is_digit (ascii_upper c) || is_upper (ascii_upper c) = true.
Proof.
  unfold ascii_upper, is_digit, is_lower, is_upper, in_range. intros Hc.
  rewrite orb_true_iff, !andb_true_iff, !Z.leb_le in Hc.
  destruct (Z.leb_spec 97 c), (Z.leb_spec c 122); simpl;
    rewrite orb_true_iff, !andb_true_iff, !Z.leb_le; lia.
Qed.

Section Ids.
Context `{Engine} (env : Env).

Lemma minted_id_alphanumeric (at_tick : nat) (w : World) :
  0 <= Date_now_at env at_tick ->
  Forall (fun c => is_digit c || is_lower c = true)
    (skipn 2 (Math_random_at env (draws w))) ->
  minted_id env at_tick w <> [] /\
  Forall (fun c => is_digit c || is_upper c = true) (minted_id env at_tick w) /\
  (length (minted_id env at_tick w)
   <= length (Z_toString 36 (Date_now_at env at_tick)) + 6)%nat.
Proof.
  intros Hnow Hrnd. unfold minted_id.
  set (now := Date_now_at env at_tick) in *.
  set (rnd := Math_random_at env (draws w)) in *.
  assert (Hts : Z_toString 36 now = digits 36 now).
  { unfold Z_toString. destruct (Z.ltb_spec now 0); [lia|reflexivity]. }
  assert (Hplain : Forall (fun c => is_digit c || is_lower c = true)
                     (Z_toString 36 now ++ slice rnd 2 8)).
  { apply Forall_app. split.
    - rewrite Hts. unfold digits. apply digits_from_plain. constructor.
    - unfold slice. apply Forall_forall. intros c Hc.
      rewrite Forall_forall in Hrnd. apply Hrnd.
      apply list_elem_of_In. apply list_elem_of_In in Hc.
      rewrite <- (firstn_skipn (8 - 2) (skipn 2 rnd)).
      apply in_or_app. left. exact Hc. }
  unfold toUpperCase. rewrite (plain_is_ascii _ Hplain).
  split; [|split].
  - rewrite Hts. pose proof (digits_not_empty 36 now) as Hne.
    destruct (digits 36 now); [contradiction|discriminate].
  - apply Forall_forall. intros c Hc. apply list_elem_of_In, in_map_iff in Hc.
    destruct Hc as (c0 & <- & Hc0). apply ascii_upper_plain.
    rewrite Forall_forall in Hplain. apply Hplain, list_elem_of_In, Hc0.
  - rewrite length_map, length_app. unfold slice.
    pose proof (firstn_le_length (8 - 2) (skipn 2 rnd)) as Hl.
    pose proof (length_firstn (8 - 2) (skipn 2 rnd)) as Hf. simpl in *. lia.
Qed.

(** X21. When the clock reads a time that is not negative and the
    random numeral is made of digits and small letters after its first
    two characters, the id that [uid] mints is not empty, is made of
    digits and capital letters only, and is at most six characters
    longer than the time written in base 36. *)
Theorem uid_is_alphanumeric (w : World) :
  0 <= Date_now_at env (ticks w) ->
  Forall (fun c => is_digit c || is_lower c = true)
    (skipn 2 (Math_random_at env (draws w))) ->
  exists id,
    fst (uid env w) = Return id /\
    id <> [] /\
    Forall (fun c => is_digit c || is_upper c = true) id /\
    (length id <= length (Z_toString 36 (Date_now_at env (ticks w))) + 6)%nat.
Proof.
  intros Hnow Hrnd. exists (minted_id env (ticks w) w). split; [reflexivity|].
  apply minted_id_alphanumeric; assumption.
Qed.

End Ids.

Lemma uid_is_alphanumeric_witness :
  0 <= Date_now_at example_env (ticks two_items) /\
  Forall (fun c => is_digit c || is_lower c = true)
    (skipn 2 (Math_random_at example_env (draws two_items))) /\
  exists id,
    fst (@uid example_engine example_env two_items) = Return id /\
    id <> [] /\
    Forall (fun c => is_digit c || is_upper c = true) id /\
    (length id
     <= length (Z_toString 36 (Date_now_at example_env (ticks two_items))) + 6)%nat.
Proof.
  assert (H1 : 0 <= Date_now_at example_env (ticks two_items)) by (vm_compute; discriminate).
  assert (H2 : Forall (fun c => is_digit c || is_lower c = true)
                 (skipn 2 (Math_random_at example_env (draws two_items))))
    by (repeat constructor).
  split; [exact H1|]. split; [exact H2|].
  exact (@uid_is_alphanumeric example_engine example_env two_items H1 H2).
Defined.

(** ** The form for a new item, and what an update keeps *)

Lemma edited_keeps_field st now v k :
  is_item v = true ->
  ~ In k [k_title; k_content; k_caution; k_link; k_tags; k_updatedAt] ->
  field k (edited st now v) = field k v.
Proof.
  intros [o ->]%is_item_object Hk. unfold edited.
  case_bool_decide; [|reflexivity].
  unfold field. rewrite lookup_object_literal_other; [reflexivity|exact Hk].
Qed.

Section FormProperties.
Context `{Engine} (env : Env).

(** X22. Whatever the form held before, the id of an item edited
    earlier included, a form opened by [openAdd] and saved with a title
    that is not blank adds a new item in front of the list and overwrites
    none: the new item has that title, trimmed, and nothing else. *)
Theorem add_form_saves_a_new_item (t : jsstring) (w : World) :
  trim t <> [] ->
  exists w1 w2 w3,
    openAdd w = (Return tt, w1) /\
    setTitle t w1 = (Return tt, w2) /\
    handleSave env w2 = (Return tt, w3) /\
    items (app w3)
    = new_item (minted_id env (S (ticks w)) w) (trim t) [] [] [] []
        (Date_now_at env (ticks w)) (Date_now_at env (ticks w))
      :: items (app w).
Proof.
  intros Ht.
  destruct w as [[its q sk sel mo ed ti co ca li tg to] tk dr al].
  eexists _, _, _.
  split; [vm_compute; reflexivity|]. split; [vm_compute; reflexivity|].
  rewrite handleSave_new by (simpl; auto). split; reflexivity.
Qed.

(** X23. An update changes the id and the creation time of no item,
    and so neither the number of items: after it the list has the same
    ids and the same creation times, in the same order, whether or not an
    item carries the id and whether or not the title was accepted. *)
Theorem update_keeps_ids_and_creation (id : jsstring) (f : Fields) (w : World) :
  id <> [] ->
  Forall (fun v => is_item v = true) (items (app w)) ->
  List.map (field k_id) (items (app (snd (update env id f w))))
  = List.map (field k_id) (items (app w)) /\
  List.map (field k_createdAt) (items (app (snd (update env id f w))))
  = List.map (field k_createdAt) (items (app w)).
Proof.
  intros Hid Hitems. unfold update.
  destruct (decide (trim (f_title f) = [])) as [Hblank|Hblank].
  - rewrite handleSave_blank by exact Hblank. split; reflexivity.
  - rewrite (handleSave_edit env _ id) by (simpl; auto). simpl.
    rewrite !map_map. split; apply map_ext_in; intros v Hv;
      apply edited_keeps_field;
      try (rewrite Forall_forall in Hitems; apply Hitems, list_elem_of_In, Hv);
      simpl; intros Hin; repeat destruct Hin as [Hin|Hin];
      try discriminate Hin; auto.
Qed.

End FormProperties.

Lemma add_form_saves_a_new_item_witness :
  trim (js " Plank ") <> [] /\
  exists w1 w2 w3,
    openAdd knee_selected = (Return tt, w1) /\
    setTitle (js " Plank ") w1 = (Return tt, w2) /\
    @handleSave example_engine example_env w2 = (Return tt, w3) /\
    items (app w3)
    = new_item (@minted_id example_engine example_env (S (ticks knee_selected))
                  knee_selected)
        (trim (js " Plank ")) [] [] [] []
        (Date_now_at example_env (ticks knee_selected))
        (Date_now_at example_env (ticks knee_selected))
      :: items (app knee_selected).
Proof.
  assert (H1 : trim (js " Plank ") <> []) by (vm_compute; discriminate).
  split; [exact H1|].
  exact (@add_form_saves_a_new_item example_engine example_env (js " Plank ")
           knee_selected H1).
Defined.

Lemma update_keeps_ids_and_creation_witness :
  js "LOYW3V2A7QRSTU" <> [] /\
  Forall (fun v => is_item v = true) (items (app two_items)) /\
  List.map (field k_id)
    (items (app (snd (@update example_engine example_env (js "LOYW3V2A7QRSTU")
                        neck_tilt_form two_items))))
  = List.map (field k_id) (items (app two_items)) /\
  List.map (field k_createdAt)
    (items (app (snd (@update example_engine example_env (js "LOYW3V2A7QRSTU")
                        neck_tilt_form two_items))))
  = List.map (field k_createdAt) (items (app two_items)).
Proof.
  assert (H1 : js "LOYW3V2A7QRSTU" <> []) by discriminate.
  assert (H2 : Forall (fun v => is_item v = true) (items (app two_items)))
    by (repeat constructor).
  split; [exact H1|]. split; [exact H2|].
  exact (@update_keeps_ids_and_creation example_engine example_env
           (js "LOYW3V2A7QRSTU") neck_tilt_form two_items H1 H2).
Defined.

(** ** An exported file reads back *)

Lemma followed_not_number rest :
  followed rest ->
  match rest with
  | [] => True
  | c :: _ => is_digit c = false /\ c <> 46 /\ c <> 101 /\ c <> 69
  end.
Proof.
  destruct rest as [|c r]; [auto|]. unfold followed, is_digit, in_range.
  intros [->|[->|[->| ->]]]; repeat split; try reflexivity; lia.
Qed.

Lemma parse_after_digits_followed rest :
  followed rest ->
  JSON.parse_fraction rest = Some ([], rest) /\
  JSON.parse_exponent rest = Some (0, rest).
Proof.
  intros Hd. apply followed_not_number in Hd.
  destruct rest as [|c r]; [split; reflexivity|].
  destruct Hd as (_ & H46 & H101 & H69).
  unfold JSON.parse_fraction, JSON.parse_exponent.
  apply Z.eqb_neq in H46, H101, H69. rewrite H46, H101, H69. split; reflexivity.
Qed.

Lemma parse_natural_followed n rest neg :
  0 <= n -> followed rest ->
  JSON.parse_unsigned neg (digits 10 n ++ rest)
  = Some (JSON.make_number neg n 0, rest).
Proof.
  intros Hn Hrest. unfold JSON.parse_unsigned.
  destruct (digits_spec n Hn) as (ds & -> & Hall & Hval & Hhd).
  destruct (parse_after_digits_followed rest Hrest) as [Hf He].
  destruct ds as [|d r]; [contradiction|].
  pose proof Hall as Hall'. apply Forall_cons in Hall' as [Hd Hr].
  change ((d :: r) ++ rest) with (d :: (r ++ rest)). cbv iota. rewrite Hd.
  destruct (Z.eqb_spec d 48) as [H48|H48].
  - destruct (Hhd H48) as [Hz ->]. cbv beta iota zeta.
    change ([] ++ rest) with rest. rewrite Hf, He. cbv beta iota zeta.
    subst d n. reflexivity.
  - change (d :: r ++ rest) with ((d :: r) ++ rest).
    rewrite span_digits_app; [|exact Hall|].
    + cbv beta iota zeta. rewrite Hf, He. cbv beta iota zeta.
      rewrite app_nil_r, Hval. reflexivity.
    + apply followed_not_number in Hrest. destruct rest; tauto.
Qed.

Lemma parse_number_integer_followed z rest :
  followed rest ->
  JSON.parse_number (Z_toString 10 z ++ rest) = Some (num_of_Z z, rest).
Proof.
  intros Hrest. unfold Z_toString.
  destruct (Z.ltb_spec z 0) as [Hneg|Hpos].
  - change ((ch "-" :: digits 10 (- z)) ++ rest) with (45 :: (digits 10 (- z) ++ rest)).
    unfold JSON.parse_number. change (45 =? 45) with true. cbv iota.
    rewrite parse_natural_followed by (auto; lia).
    rewrite make_number_integer. f_equal. f_equal. f_equal. lia.
  - destruct (digits_head z rest Hpos) as (d & t & Hdt & Hd).
    pose proof (parse_natural_followed z rest false Hpos Hrest) as Hnat.
    unfold JSON.parse_number. rewrite Hdt in *.
    assert (H45 : (d =? 45) = false).
    { unfold is_digit, in_range in Hd. apply andb_true_iff in Hd. lia. }
    rewrite H45, Hnat, make_number_integer. reflexivity.
Qed.

Lemma skip_ws_blank ws s : blank ws -> JSON.skip_ws (ws ++ s) = JSON.skip_ws s.
Proof.
  induction 1 as [|c ws Hc _ IH]; [reflexivity|]. simpl. rewrite Hc. exact IH.
Qed.

Lemma parse_value_blank fuel ws s :
  blank ws -> JSON.parse_value fuel (ws ++ s) = JSON.parse_value fuel s.
Proof.
  intros Hws. destruct fuel as [|fuel]; [reflexivity|].
  rewrite !parse_value_unfold, skip_ws_blank by exact Hws. reflexivity.
Qed.

Lemma parse_elements_blank fuel acc ws s :
  blank ws -> JSON.parse_elements fuel acc (ws ++ s) = JSON.parse_elements fuel acc s.
Proof.
  intros Hws. destruct fuel as [|fuel]; [reflexivity|].
  rewrite !parse_elements_unfold, parse_value_blank by exact Hws. reflexivity.
Qed.

Lemma parse_members_blank fuel acc ws s :
  blank ws -> JSON.parse_members fuel acc (ws ++ s) = JSON.parse_members fuel acc s.
Proof.
  intros Hws. destruct fuel as [|fuel]; [reflexivity|].
  rewrite !parse_members_unfold, skip_ws_blank by exact Hws. reflexivity.
Qed.

Lemma blank_line indent : blank indent -> blank (10 :: indent).
Proof. intros Hi. constructor; [reflexivity|exact Hi]. Qed.

Lemma skip_ws_closing indent c rest :
  blank indent -> c = 93 \/ c = 125 ->
  JSON.skip_ws (10 :: indent ++ c :: rest) = c :: rest.
Proof.
  intros Hi Hc. change (10 :: indent ++ c :: rest) with ((10 :: indent) ++ c :: rest).
  rewrite skip_ws_blank by (apply blank_line, Hi).
  destruct Hc as [-> | ->]; reflexivity.
Qed.

Section Indented.
Context `{Engine}.
Variable gap : jsstring.
Hypothesis gap_blank : blank gap.

Lemma serialize_indented_array indent l :
  serialize_indented gap indent (VArr l)
  = match List.map (element_text_in gap (indent ++ gap)) l with
    | [] => Some (js "[]")
    | _ :: _ =>
        Some (91 :: 10 :: (indent ++ gap)
              ++ join_strings (44 :: 10 :: indent ++ gap)
                   (List.map (element_text_in gap (indent ++ gap)) l)
              ++ 10 :: indent ++ [93])
    end.
Proof. reflexivity. Qed.

Lemma serialize_indented_object indent o :
  serialize_indented gap indent (VObj o)
  = match member_texts_in gap (indent ++ gap) o with
    | [] => Some (js "{}")
    | _ :: _ =>
        Some (123 :: 10 :: (indent ++ gap)
              ++ join_strings (44 :: 10 :: indent ++ gap)
                   (member_texts_in gap (indent ++ gap) o)
              ++ 10 :: indent ++ [125])
    end.
Proof.
  simpl.
  match goal with
  | |- match ?F with _ => _ end = _ =>
      assert (Hgo : F = member_texts_in gap (indent ++ gap) o)
  end.
  { induction o as [|[k x] o IH]; [reflexivity|]. simpl. rewrite IH. reflexivity. }
  rewrite Hgo. reflexivity.
Qed.

Lemma reads_back_indented_null : reads_back_indented gap VNull.
Proof.
  intros _ indent _. exists (js "null"). split; [reflexivity|]. split.
  - repeat split; discriminate.
  - intros [|fuel] rest Hlen _; [simpl in Hlen; lia|]. reflexivity.
Qed.

Lemma reads_back_indented_bool b : reads_back_indented gap (VBool b).
Proof.
  intros _ indent _. destruct b.
  - exists (js "true"). split; [reflexivity|]. split.
    + repeat split; discriminate.
    + intros [|fuel] rest Hlen _; [simpl in Hlen; lia|]. reflexivity.
  - exists (js "false"). split; [reflexivity|]. split.
    + repeat split; discriminate.
    + intros [|fuel] rest Hlen _; [simpl in Hlen; lia|]. reflexivity.
Qed.

Lemma reads_back_indented_string s : reads_back_indented gap (VStr s).
Proof.
  intros Hs indent _. simpl in Hs. exists (JSON.QuoteJSONString s).
  split; [reflexivity|]. split; [repeat split; discriminate|].
  intros [|fuel] rest Hlen _; [simpl in Hlen; lia|].
  unfold JSON.QuoteJSONString.
  change ((34 :: JSON.quote_body s ++ [34]) ++ rest)
    with (34 :: ((JSON.quote_body s ++ [34]) ++ rest)).
  rewrite <- app_assoc. simpl JSON.parse_value.
  change ([34] ++ rest) with (34 :: rest).
  rewrite parse_quote_body by (apply code_units_range, Hs). reflexivity.
Qed.

Lemma parse_value_number_followed fuel z rest :
  followed rest ->
  JSON.parse_value (S fuel) (Z_toString 10 z ++ rest)
  = Some (VNum (num_of_Z z), rest).
Proof.
  intros Hrest. pose proof (parse_number_integer_followed z rest Hrest) as Hnum.
  destruct (Z_toString_head z) as (c & t & Hct & Hc). rewrite Hct in *.
  destruct (number_start c Hc) as (Hws & H1 & H2 & H3 & H4 & H5 & H6 & _).
  change ((c :: t) ++ rest) with (c :: (t ++ rest)) in *.
  rewrite parse_value_unfold, skip_ws_head by exact Hws.
  rewrite H1, H2, H3, H4, H5, H6, Hnum. reflexivity.
Qed.

Lemma reads_back_indented_number n : reads_back_indented gap (VNum n).
Proof.
  intros Hs indent _. destruct n as [| |q]; try discriminate Hs. simpl in Hs.
  apply andb_true_iff in Hs as [Hint Hsafe]. apply Z.leb_le in Hsafe.
  assert (Hprint : Number_toString (Fin q) = Z_toString 10 (Qnum (this q))).
  { unfold Number_toString. rewrite Hint.
    destruct (Z.ltb_spec (Z.abs (Qnum (this q))) (10 ^ 21)) as [|Hbig];
      [reflexivity|].
    unfold MAX_SAFE_INTEGER in Hsafe. exfalso.
    assert (2 ^ 53 - 1 < 10 ^ 21) by reflexivity. lia. }
  exists (Z_toString 10 (Qnum (this q))).
  split; [change (serialize_indented gap indent (VNum (Fin q)))
            with (Some (Number_toString (Fin q)));
          rewrite Hprint; reflexivity|].
  destruct (Z_toString_head (Qnum (this q))) as (c & t & Hct & Hc).
  split.
  - rewrite Hct. destruct (number_start c Hc) as (? & _ & _ & _ & _ & _ & _ & ? & ?).
    repeat split; assumption.
  - intros [|fuel] rest Hlen Hrest; [rewrite Hct in Hlen; simpl in Hlen; lia|].
    rewrite parse_value_number_followed by exact Hrest.
    rewrite <- integer_number by exact Hint. reflexivity.
Qed.

Lemma join_strings_cons sep x y l :
  join_strings sep (x :: y :: l) = x ++ sep ++ join_strings sep (y :: l).
Proof. reflexivity. Qed.

Lemma followed_comma r : followed (44 :: r).
Proof. simpl. auto. Qed.

Lemma followed_break r : followed (10 :: r).
Proof. simpl. auto. Qed.

Lemma element_text_in_serialized inner x t :
  serialize_indented gap inner x = Some t -> element_text_in gap inner x = t.
Proof. intros Hx. unfold element_text_in. rewrite Hx. reflexivity. Qed.

Lemma parse_elements_indented inner indent l :
  l <> [] -> blank inner -> blank indent ->
  Forall (reads_back_indented gap) l -> forallb storable l = true ->
  forall fuel acc rest,
    (length (join_strings (44 :: 10 :: inner)%Z
               (List.map (element_text_in gap inner) l)) < fuel)%nat ->
    JSON.parse_elements fuel acc
      (join_strings (44 :: 10 :: inner) (List.map (element_text_in gap inner) l)
       ++ 10 :: indent ++ 93 :: rest)
    = Some (VArr (rev acc ++ l), rest).
Proof.
  intros Hne Hinner Hindent Hall. induction Hall as [|x l Hx Hl IH]; [contradiction|].
  clear Hne. intros Hs fuel acc rest Hfuel.
  simpl in Hs. apply andb_true_iff in Hs as [Hsx Hsl].
  destruct (Hx Hsx inner Hinner) as (tx & Hser & _ & Hparse).
  destruct fuel as [|fuel]; [lia|].
  rewrite parse_elements_unfold.
  destruct l as [|y l].
  - simpl List.map in *. simpl join_strings in *.
    rewrite (element_text_in_serialized inner x tx Hser) in *.
    rewrite Hparse by (auto using followed_break; lia).
    rewrite skip_ws_closing by auto.
    change (93 =? 44) with false. change (93 =? 93) with true. cbv iota.
    simpl rev. reflexivity.
  - change (List.map (element_text_in gap inner) (x :: y :: l))
      with (element_text_in gap inner x :: element_text_in gap inner y
            :: List.map (element_text_in gap inner) l) in *.
    rewrite join_strings_cons in *.
    rewrite (element_text_in_serialized inner x tx Hser) in *.
    rewrite !length_app in Hfuel. rewrite <- !app_assoc.
    change ((44 :: 10 :: inner) ++ ?r) with (44 :: ((10 :: inner) ++ r)).
    rewrite Hparse by (auto using followed_comma; lia).
    rewrite skip_ws_delimiter by auto.
    change (44 =? 44) with true. cbv iota.
    rewrite parse_elements_blank by (apply blank_line, Hinner).
    change (element_text_in gap inner y :: List.map (element_text_in gap inner) l)
      with (List.map (element_text_in gap inner) (y :: l)) in *.
    rewrite IH; [|discriminate|exact Hsl|rewrite !length_cons in Hfuel; lia].
    simpl rev. rewrite <- app_assoc. reflexivity.
Qed.

Lemma join_strings_starts sep t ts :
  starts_value t -> starts_value (join_strings sep (t :: ts)).
Proof.
  intros Ht. destruct ts as [|u ts]; [exact Ht|].
  rewrite join_strings_cons. destruct t; [contradiction|exact Ht].
Qed.

Lemma blank_app a b : blank a -> blank b -> blank (a ++ b).
Proof. intros Ha Hb. apply Forall_app. split; assumption. Qed.

Lemma reads_back_indented_array l :
  Forall (reads_back_indented gap) l -> reads_back_indented gap (VArr l).
Proof.
  intros Hall Hs indent Hindent. simpl in Hs.
  assert (Hinner : blank (indent ++ gap)) by (apply blank_app; assumption).
  rewrite serialize_indented_array.
  destruct l as [|x l].
  - exists (js "[]"). split; [reflexivity|]. split; [repeat split; discriminate|].
    intros [|fuel] rest Hlen _; [simpl in Hlen; lia|]. reflexivity.
  - set (inner := indent ++ gap) in *.
    set (texts := List.map (element_text_in gap inner) (x :: l)).
    assert (Hstart : starts_value (join_strings (44 :: 10 :: inner) texts)).
    { subst texts. simpl List.map. apply join_strings_starts.
      apply Forall_cons in Hall as [Hx _]. simpl in Hs.
      apply andb_true_iff in Hs as [Hsx _].
      destruct (Hx Hsx inner Hinner) as (t & Hser & Hst & _).
      rewrite (element_text_in_serialized inner x t Hser). exact Hst. }
    assert (Hshape : exists y ys, texts = y :: ys) by (subst texts; simpl; eauto).
    destruct Hshape as (y & ys & Hshape). rewrite Hshape. rewrite <- Hshape.
    eexists. split; [reflexivity|]. split; [repeat split; discriminate|].
    intros [|fuel] rest Hlen Hrest; [simpl in Hlen; lia|].
    change ((91 :: 10 :: inner ++ join_strings (44 :: 10 :: inner) texts
             ++ 10 :: indent ++ [93]) ++ rest)
      with (91 :: ((10 :: inner ++ join_strings (44 :: 10 :: inner) texts
                    ++ 10 :: indent ++ [93]) ++ rest)).
    rewrite parse_value_unfold, skip_ws_head by reflexivity.
    change (91 =? 123) with false. change (91 =? 91) with true. cbv iota.
    assert (Htext :
      (10 :: inner ++ join_strings (44 :: 10 :: inner) texts ++ 10 :: indent ++ [93])
      ++ rest
      = (10 :: inner)
        ++ (join_strings (44 :: 10 :: inner) texts ++ 10 :: indent ++ 93 :: rest)).
    { simpl. rewrite <- !app_assoc. simpl. rewrite <- !app_assoc. reflexivity. }
    rewrite Htext, skip_ws_blank by (apply blank_line, Hinner).
    destruct (join_strings (44 :: 10 :: inner) texts) as [|c t] eqn:Hjoin;
      [contradiction|].
    destruct Hstart as (Hws & H93 & _).
    change ((c :: t) ++ 10 :: indent ++ 93 :: rest)
      with (c :: (t ++ 10 :: indent ++ 93 :: rest)).
    rewrite skip_ws_head by exact Hws.
    apply Z.eqb_neq in H93. rewrite H93.
    rewrite parse_elements_blank by (apply blank_line, Hinner).
    change (c :: (t ++ 10 :: indent ++ 93 :: rest))
      with ((c :: t) ++ 10 :: indent ++ 93 :: rest).
    rewrite <- Hjoin. subst texts.
    rewrite parse_elements_indented;
      [reflexivity|discriminate|exact Hinner|exact Hindent|exact Hall|exact Hs|].
    rewrite Hjoin.
    repeat (rewrite length_app in Hlen || rewrite length_cons in Hlen). simpl. lia.
Qed.

Lemma member_texts_in_cons inner k x o t :
  serialize_indented gap inner x = Some t ->
  member_texts_in gap inner ((k, x) :: o)
  = (JSON.QuoteJSONString k ++ 58 :: 32 :: t) :: member_texts_in gap inner o.
Proof. intros Hx. simpl. rewrite Hx. reflexivity. Qed.

Lemma member_text_in_shape k t r :
  (JSON.QuoteJSONString k ++ 58 :: 32 :: t) ++ r
  = 34 :: (JSON.quote_body k ++ 34 :: 58 :: [32] ++ (t ++ r)).
Proof.
  unfold JSON.QuoteJSONString. simpl. f_equal.
  rewrite <- !app_assoc. reflexivity.
Qed.

Lemma quoted_shape k r :
  JSON.QuoteJSONString k ++ r = 34 :: (JSON.quote_body k ++ 34 :: r).
Proof.
  unfold JSON.QuoteJSONString. simpl. f_equal. rewrite <- app_assoc. reflexivity.
Qed.

Lemma parse_members_indented inner indent o :
  o <> [] -> blank inner -> blank indent ->
  Forall (fun kv => reads_back_indented gap (snd kv)) o ->
  forallb member_storable o = true ->
  forall fuel acc rest,
    (length (join_strings (44 :: 10 :: inner)%Z (member_texts_in gap inner o))
     < fuel)%nat ->
    JSON.parse_members fuel acc
      (join_strings (44 :: 10 :: inner) (member_texts_in gap inner o)
       ++ 10 :: indent ++ 125 :: rest)
    = Some (VObj (object_literal acc o), rest).
Proof.
  intros Hne Hinner Hindent Hall.
  induction Hall as [|[k x] o Hx Ho IH]; [contradiction|].
  clear Hne. intros Hs fuel acc rest Hfuel.
  simpl in Hs. apply andb_true_iff in Hs as [Hkx Hso].
  apply andb_true_iff in Hkx as [Hk Hsx].
  destruct (Hx Hsx inner Hinner) as (tx & Hser & _ & Hparse).
  rewrite (member_texts_in_cons inner k x o tx Hser) in *.
  destruct fuel as [|fuel]; [lia|].
  rewrite parse_members_unfold.
  destruct o as [|[k' x'] o].
  - change (join_strings (44 :: 10 :: inner)
              ((JSON.QuoteJSONString k ++ 58 :: 32 :: tx) :: member_texts_in gap inner []))
      with (JSON.QuoteJSONString k ++ 58 :: 32 :: tx) in *.
    rewrite member_text_in_shape. rewrite skip_ws_head by reflexivity.
    change (34 =? 34) with true. cbv iota.
    rewrite parse_quote_body by (apply code_units_range, Hk).
    rewrite skip_ws_delimiter by auto. change (58 =? 58) with true. cbv iota.
    rewrite parse_value_blank by (repeat constructor).
    rewrite Hparse; [|rewrite length_app in Hfuel; simpl in Hfuel; lia
                     |apply followed_break].
    rewrite skip_ws_closing by auto.
    change (125 =? 44) with false. change (125 =? 125) with true. cbv iota.
    reflexivity.
  - assert (Hser' : exists t', serialize_indented gap inner x' = Some t').
    { apply Forall_cons in Ho as [Hx' _]. simpl in Hso.
      apply andb_true_iff in Hso as [Hkx' _].
      apply andb_true_iff in Hkx' as [_ Hsx'].
      destruct (Hx' Hsx' inner Hinner) as (t' & Ht' & _). eauto. }
    destruct Hser' as [t' Ht'].
    rewrite (member_texts_in_cons inner k' x' o t' Ht') in *.
    rewrite join_strings_cons in *.
    rewrite <- !app_assoc. rewrite quoted_shape.
    change ((58 :: 32 :: tx) ++ ?r) with (58 :: ([32] ++ (tx ++ r))).
    rewrite skip_ws_head by reflexivity.
    change (34 =? 34) with true. cbv iota.
    rewrite parse_quote_body by (apply code_units_range, Hk).
    rewrite skip_ws_delimiter by auto. change (58 =? 58) with true. cbv iota.
    rewrite parse_value_blank by (repeat constructor).
    repeat (rewrite length_app in Hfuel || rewrite length_cons in Hfuel).
    change ((44 :: 10 :: inner) ++ ?r) with (44 :: ((10 :: inner) ++ r)).
    rewrite Hparse; [|lia|apply followed_comma].
    rewrite skip_ws_delimiter by auto.
    change (44 =? 44) with true. cbv iota.
    rewrite parse_members_blank by (apply blank_line, Hinner).
    rewrite IH; [reflexivity|discriminate|exact Hso|].
    lia.
Qed.

Lemma reads_back_indented_object o :
  Forall (fun kv => reads_back_indented gap (snd kv)) o ->
  reads_back_indented gap (VObj o).
Proof.
  intros Hall Hs indent Hindent. apply storable_object in Hs as [Hs Horder].
  assert (Hinner : blank (indent ++ gap)) by (apply blank_app; assumption).
  rewrite serialize_indented_object.
  destruct o as [|[k x] o].
  - exists (js "{}"). split; [reflexivity|]. split; [repeat split; discriminate|].
    intros [|fuel] rest Hlen _; [simpl in Hlen; lia|]. reflexivity.
  - set (inner := indent ++ gap) in *.
    assert (Hfirst : exists t, serialize_indented gap inner x = Some t).
    { apply Forall_cons in Hall as [Hx _]. simpl in Hs.
      apply andb_true_iff in Hs as [Hkx _].
      apply andb_true_iff in Hkx as [_ Hsx].
      destruct (Hx Hsx inner Hinner) as (t & Ht & _). eauto. }
    destruct Hfirst as [tx Htx].
    set (texts := member_texts_in gap inner ((k, x) :: o)).
    assert (Hshape : texts = (JSON.QuoteJSONString k ++ 58 :: 32 :: tx)
                             :: member_texts_in gap inner o).
    { subst texts. apply member_texts_in_cons, Htx. }
    assert (Hstart : starts_value (join_strings (44 :: 10 :: inner) texts)).
    { rewrite Hshape. apply join_strings_starts. repeat split; discriminate. }
    rewrite Hshape. rewrite <- Hshape.
    eexists. split; [reflexivity|]. split; [repeat split; discriminate|].
    intros [|fuel] rest Hlen Hrest; [simpl in Hlen; lia|].
    change ((123 :: 10 :: inner ++ join_strings (44 :: 10 :: inner) texts
             ++ 10 :: indent ++ [125]) ++ rest)
      with (123 :: ((10 :: inner ++ join_strings (44 :: 10 :: inner) texts
                     ++ 10 :: indent ++ [125]) ++ rest)).
    rewrite parse_value_unfold, skip_ws_head by reflexivity.
    change (123 =? 123) with true. cbv iota.
    assert (Htext :
      (10 :: inner ++ join_strings (44 :: 10 :: inner) texts ++ 10 :: indent ++ [125])
      ++ rest
      = (10 :: inner)
        ++ (join_strings (44 :: 10 :: inner) texts ++ 10 :: indent ++ 125 :: rest)).
    { simpl. rewrite <- !app_assoc. simpl. rewrite <- !app_assoc. reflexivity. }
    rewrite Htext, skip_ws_blank by (apply blank_line, Hinner).
    destruct (join_strings (44 :: 10 :: inner) texts) as [|c t] eqn:Hjoin;
      [contradiction|].
    destruct Hstart as (Hws & _ & H125).
    change ((c :: t) ++ 10 :: indent ++ 125 :: rest)
      with (c :: (t ++ 10 :: indent ++ 125 :: rest)).
    rewrite skip_ws_head by exact Hws.
    apply Z.eqb_neq in H125. rewrite H125.
    rewrite parse_members_blank by (apply blank_line, Hinner).
    change (c :: (t ++ 10 :: indent ++ 125 :: rest))
      with ((c :: t) ++ 10 :: indent ++ 125 :: rest).
    rewrite <- Hjoin. subst texts.
    rewrite parse_members_indented;
      [|discriminate|exact Hinner|exact Hindent|exact Hall|exact Hs|].
    + rewrite object_literal_in_order; [reflexivity|constructor|exact Horder].
    + rewrite Hjoin.
      repeat (rewrite length_app in Hlen || rewrite length_cons in Hlen). simpl. lia.
Qed.

(** Every storable value reads back from its indented text. *)
Lemma storable_reads_back_indented v : reads_back_indented gap v.
Proof.
  induction v as [| |b|n|s|l IH|o IH] using value_induction.
  - intros Hs. discriminate Hs.
  - apply reads_back_indented_null.
  - apply reads_back_indented_bool.
  - apply reads_back_indented_number.
  - apply reads_back_indented_string.
  - apply reads_back_indented_array, IH.
  - apply reads_back_indented_object, IH.
Qed.

End Indented.

(** ** Through the file *)

Lemma utf8_decode_cons cp needed lower upper b rest :
  utf8_decode_lossy (cp, needed, lower, upper) (b :: rest)
  = if needed =? 0 then
      let '(out, st') := utf8_lead b in out ++ utf8_decode_lossy st' rest
    else if in_range lower upper b then
      let cp' := cp * 64 + (b - 128) in
      if needed =? 1 then
        utf16_encode cp' ++ utf8_decode_lossy (0, 0, 128, 191) rest
      else utf8_decode_lossy (cp', needed - 1, 128, 191) rest
    else
      let '(out, st') := utf8_lead b in
      65533 :: out ++ utf8_decode_lossy st' rest.
Proof. reflexivity. Qed.

Lemma utf8_continue cp needed lower upper b rest :
  needed = 2 \/ needed = 3 -> lower <= b <= upper ->
  utf8_decode_lossy (cp, needed, lower, upper) (b :: rest)
  = utf8_decode_lossy (cp * 64 + (b - 128), needed - 1, 128, 191) rest.
Proof.
  intros Hn Hb. rewrite utf8_decode_cons.
  replace (needed =? 0) with false by (symmetry; apply Z.eqb_neq; lia).
  replace (in_range lower upper b) with true
    by (symmetry; unfold in_range; apply andb_true_iff; rewrite !Z.leb_le; lia).
  replace (needed =? 1) with false by (symmetry; apply Z.eqb_neq; lia).
  reflexivity.
Qed.

Lemma utf8_finish cp b rest :
  128 <= b <= 191 ->
  utf8_decode_lossy (cp, 1, 128, 191) (b :: rest)
  = utf16_encode (cp * 64 + (b - 128)) ++ utf8_decode_lossy (0, 0, 128, 191) rest.
Proof.
  intros Hb. rewrite utf8_decode_cons.
  change (1 =? 0) with false. change (1 =? 1) with true. cbv iota.
  replace (in_range 128 191 b) with true
    by (symmetry; unfold in_range; apply andb_true_iff; rewrite !Z.leb_le; lia).
  reflexivity.
Qed.

Lemma utf8_start b rest :
  utf8_decode_lossy (0, 0, 128, 191) (b :: rest)
  = fst (utf8_lead b) ++ utf8_decode_lossy (snd (utf8_lead b)) rest.
Proof.
  rewrite utf8_decode_cons. change (0 =? 0) with true. cbv iota.
  destruct (utf8_lead b) as [out st']. reflexivity.
Qed.

Lemma utf8_lead_two b :
  194 <= b <= 223 -> utf8_lead b = ([], (b - 192, 1, 128, 191)).
Proof.
  intros Hb. unfold utf8_lead.
  replace (b <? 128) with false by (symmetry; apply Z.ltb_ge; lia).
  replace (in_range 194 223 b) with true
    by (symmetry; unfold in_range; apply andb_true_iff; rewrite !Z.leb_le; lia).
  reflexivity.
Qed.

Lemma utf8_lead_three b :
  224 <= b <= 239 ->
  utf8_lead b = ([], (b - 224, 2, if b =? 224 then 160 else 128,
                      if b =? 237 then 159 else 191)).
Proof.
  intros Hb. unfold utf8_lead.
  replace (b <? 128) with false by (symmetry; apply Z.ltb_ge; lia).
  replace (in_range 194 223 b) with false
    by (symmetry; unfold in_range; apply andb_false_iff; rewrite !Z.leb_gt; lia).
  replace (in_range 224 239 b) with true
    by (symmetry; unfold in_range; apply andb_true_iff; rewrite !Z.leb_le; lia).
  reflexivity.
Qed.

Lemma utf8_lead_four b :
  240 <= b <= 244 ->
  utf8_lead b = ([], (b - 240, 3, if b =? 240 then 144 else 128,
                      if b =? 244 then 143 else 191)).
Proof.
  intros Hb. unfold utf8_lead.
  replace (b <? 128) with false by (symmetry; apply Z.ltb_ge; lia).
  replace (in_range 194 223 b) with false
    by (symmetry; unfold in_range; apply andb_false_iff; rewrite !Z.leb_gt; lia).
  replace (in_range 224 239 b) with false
    by (symmetry; unfold in_range; apply andb_false_iff; rewrite !Z.leb_gt; lia).
  replace (in_range 240 244 b) with true
    by (symmetry; unfold in_range; apply andb_true_iff; rewrite !Z.leb_le; lia).
  reflexivity.
Qed.

(** The decoder reads the octets of a code point as that code point. *)
Ltac list_head :=
  repeat match goal with
         | |- context [(?a :: ?l) ++ ?r] => change ((a :: l) ++ r) with (a :: (l ++ r))
         | |- context [[] ++ ?r] => change ([] ++ r) with r
         end.

Lemma utf8_decode_code_point cp rest :
  0 <= cp < 1114112 -> cp < 55296 \/ 57343 < cp ->
  utf8_decode_lossy (0, 0, 128, 191) (utf8_encode cp ++ rest)
  = utf16_encode cp ++ utf8_decode_lossy (0, 0, 128, 191) rest.
Proof.
  intros Hcp Hsur. unfold utf8_encode.
  destruct (Z.ltb_spec cp 128) as [H1|H1].
  - cbv iota. list_head. rewrite utf8_start. unfold utf8_lead.
    replace (cp <? 128) with true by (symmetry; apply Z.ltb_lt; lia).
    simpl. unfold utf16_encode.
    replace (cp <? 65536) with true by (symmetry; apply Z.ltb_lt; lia).
    reflexivity.
  - destruct (Z.ltb_spec cp 2048) as [H2|H2].
    + cbv iota. list_head. rewrite utf8_start, utf8_lead_two
        by (Z.div_mod_to_equations; lia).
      simpl fst. simpl snd. change ([] ++ ?r) with r.
      rewrite utf8_finish by (Z.div_mod_to_equations; lia).
      f_equal. f_equal. Z.div_mod_to_equations; lia.
    + destruct (Z.ltb_spec cp 65536) as [H3|H3].
      * cbv iota. list_head. rewrite utf8_start, utf8_lead_three
          by (Z.div_mod_to_equations; lia).
        simpl fst. simpl snd. change ([] ++ ?r) with r.
        rewrite utf8_continue; [|auto|].
        -- rewrite utf8_finish by (Z.div_mod_to_equations; lia).
           f_equal. f_equal. Z.div_mod_to_equations; lia.
        -- destruct (Z.eqb_spec (224 + cp / 4096) 224),
             (Z.eqb_spec (224 + cp / 4096) 237);
             Z.div_mod_to_equations; lia.
      * cbv iota. list_head. rewrite utf8_start, utf8_lead_four
          by (Z.div_mod_to_equations; lia).
        simpl fst. simpl snd. change ([] ++ ?r) with r.
        rewrite utf8_continue; [|auto|].
        -- change (3 - 1) with 2.
           rewrite utf8_continue; [|auto|Z.div_mod_to_equations; lia].
           change (2 - 1) with 1.
           rewrite utf8_finish by (Z.div_mod_to_equations; lia).
           f_equal. f_equal. Z.div_mod_to_equations; lia.
        -- destruct (Z.eqb_spec (240 + cp / 262144) 240),
             (Z.eqb_spec (240 + cp / 262144) 244);
             Z.div_mod_to_equations; lia.
Qed.

(** A text without unpaired surrogate is what its UTF-8 decodes to. *)
Lemma utf8_decode_of_string s :
  well_formed s -> utf8_decode_lossy (0, 0, 128, 191) (utf8_of_string s) = s.
Proof.
  induction 1 as [|c s Hc Hh Hl _ IH|h l s Hh Hl _ IH].
  - reflexivity.
  - simpl utf8_of_string. rewrite Hh, Hl.
    rewrite utf8_decode_code_point;
      [|lia|apply (proj2 (proj2 (surrogate_ranges c))); assumption].
    rewrite IH. unfold utf16_encode.
    replace (c <? 65536) with true by (symmetry; apply Z.ltb_lt; lia).
    reflexivity.
  - simpl utf8_of_string. rewrite Hh, Hl.
    pose proof (pair_code_point h l Hh Hl) as Hcp.
    rewrite utf8_decode_code_point by lia.
    rewrite IH. unfold utf16_encode.
    replace (code_point_of_pair h l <? 65536) with false
      by (symmetry; apply Z.ltb_ge; lia).
    apply surrogate_ranges in Hh. apply surrogate_ranges in Hl.
    unfold code_point_of_pair. simpl. f_equal; [|f_equal];
      Z.div_mod_to_equations; lia.
Qed.

Lemma blank_well_formed s : blank s -> well_formed s.
Proof.
  intros Hs. apply well_formed_ascii.
  eapply Forall_impl; [exact Hs|]. intros c Hc. simpl in Hc.
  unfold JSON.is_ws in Hc. rewrite !orb_true_iff, !Z.eqb_eq in Hc. lia.
Qed.

Lemma join_strings_well_formed sep ts :
  well_formed sep -> Forall well_formed ts -> well_formed (join_strings sep ts).
Proof.
  intros Hsep. induction 1 as [|t ts Ht Hts IH]; [constructor|].
  destruct ts as [|u ts]; [exact Ht|].
  change (join_strings sep (t :: u :: ts))
    with (t ++ sep ++ join_strings sep (u :: ts)).
  apply well_formed_app; [exact Ht|]. apply well_formed_app; [exact Hsep|exact IH].
Qed.

Section IndentedText.
Context `{Engine}.
Variable gap : jsstring.
Hypothesis gap_blank : blank gap.

Lemma framed_well_formed a inner texts indent b :
  0 <= a < 128 -> 0 <= b < 128 -> blank inner -> blank indent ->
  Forall well_formed texts ->
  well_formed (a :: 10 :: inner ++ join_strings (44 :: 10 :: inner) texts
               ++ 10 :: indent ++ [b]).
Proof.
  intros Ha Hb Hinner Hindent Htexts.
  apply (well_formed_app [a; 10]);
    [apply well_formed_ascii; repeat constructor; lia|].
  apply well_formed_app; [apply blank_well_formed, Hinner|].
  apply well_formed_app.
  - apply join_strings_well_formed; [|exact Htexts].
    apply (well_formed_app [44; 10]);
      [apply well_formed_ascii; repeat constructor; lia|].
    apply blank_well_formed, Hinner.
  - apply (well_formed_app [10]);
      [apply well_formed_ascii; repeat constructor; lia|].
    apply well_formed_app; [apply blank_well_formed, Hindent|].
    apply well_formed_ascii. repeat constructor; lia.
Qed.

Lemma null_well_formed : well_formed (js "null").
Proof. apply well_formed_ascii. repeat constructor; unfold ch; simpl; lia. Qed.

(** The indented text of a storable value has no unpaired surrogate. *)
Lemma serialize_indented_well_formed v :
  storable v = true ->
  forall indent t,
    blank indent -> serialize_indented gap indent v = Some t -> well_formed t.
Proof.
  induction v as [| |b|n|s|l IH|o IH] using value_induction;
    intros Hs indent t Hindent Ht.
  - discriminate Hs.
  - injection Ht as <-. apply null_well_formed.
  - destruct b; injection Ht as <-; apply well_formed_ascii;
      repeat constructor; unfold ch; simpl; lia.
  - destruct (storable_reads_back (VNum n) Hs) as (t' & Hser & Hwf & _).
    change (serialize_indented gap indent (VNum n)) with (JSON.serialize (VNum n)) in Ht.
    rewrite Hser in Ht. injection Ht as <-. exact Hwf.
  - injection Ht as <-. apply quoted_well_formed. exact Hs.
  - assert (Hinner : blank (indent ++ gap)) by (apply blank_app; assumption).
    rewrite serialize_indented_array in Ht. simpl in Hs.
    assert (Htexts : Forall well_formed
                       (List.map (element_text_in gap (indent ++ gap)) l)).
    { apply Forall_forall. intros u Hu. apply list_elem_of_In, in_map_iff in Hu.
      destruct Hu as (x & <- & Hx). unfold element_text_in.
      destruct (serialize_indented gap (indent ++ gap) x) as [tx|] eqn:Hx';
        [|apply null_well_formed].
      rewrite Forall_forall in IH. rewrite forallb_forall in Hs.
      apply (IH x (proj2 (list_elem_of_In _ _) Hx) (Hs x Hx) _ _ Hinner Hx'). }
    destruct (List.map (element_text_in gap (indent ++ gap)) l) as [|u us] eqn:Hmap.
    + injection Ht as <-. apply well_formed_ascii.
      repeat constructor; unfold ch; simpl; lia.
    + rewrite <- Hmap in Ht. set (body := 91 :: _) in Ht. injection Ht as <-.
      subst body. apply framed_well_formed; auto; try lia.
      rewrite Hmap. exact Htexts.
  - assert (Hinner : blank (indent ++ gap)) by (apply blank_app; assumption).
    rewrite serialize_indented_object in Ht.
    apply storable_object in Hs as [Hs _].
    assert (Htexts : Forall well_formed (member_texts_in gap (indent ++ gap) o)).
    { clear Ht. induction IH as [|[k x] o Hx _ IHo]; [constructor|].
      simpl in Hs. apply andb_true_iff in Hs as [Hkx Hso].
      apply andb_true_iff in Hkx as [Hk Hsx].
      change (member_texts_in gap (indent ++ gap) ((k, x) :: o))
        with (match serialize_indented gap (indent ++ gap) x with
              | Some t0 => (JSON.QuoteJSONString k ++ 58 :: 32 :: t0)
                           :: member_texts_in gap (indent ++ gap) o
              | None => member_texts_in gap (indent ++ gap) o
              end).
      destruct (serialize_indented gap (indent ++ gap) x) as [tx|] eqn:Hx';
        [|apply IHo, Hso].
      constructor; [|apply IHo, Hso].
      apply well_formed_app; [apply quoted_well_formed, Hk|].
      apply (well_formed_app [58; 32]);
        [apply well_formed_ascii; repeat constructor; lia|].
      apply (Hx Hsx _ _ Hinner Hx'). }
    destruct (member_texts_in gap (indent ++ gap) o) as [|u us] eqn:Hmap.
    + injection Ht as <-. apply well_formed_ascii.
      repeat constructor; unfold ch; simpl; lia.
    + rewrite <- Hmap in Ht. set (body := 123 :: _) in Ht. injection Ht as <-.
      subst body. apply framed_well_formed; auto; try lia.
      rewrite Hmap. exact Htexts.
Qed.

End IndentedText.

Section ExportImport.
Context `{Engine} (env : Env).

(** [JSON.parse] undoes [JSON.stringify] with an indentation of two. *)
Lemma parse_stringify_2 v :
  storable v = true ->
  exists t, stringify_2 v = VStr t /\ well_formed t /\ JSON.parse t = Return v.
Proof.
  intros Hs.
  assert (Hgap : blank [32; 32]) by (repeat constructor).
  destruct (storable_reads_back_indented [32; 32] Hgap v Hs [])
    as (t & Hser & _ & Hparse); [constructor|].
  exists t. unfold stringify_2. rewrite Hser. split; [reflexivity|].
  split.
  - apply (serialize_indented_well_formed [32; 32] Hgap v Hs [] t);
      [constructor|exact Hser].
  - unfold JSON.parse.
    specialize (Hparse (S (length t)) [] (Nat.le_succ_diag_r _) I).
    rewrite app_nil_r in Hparse. rewrite Hparse. reflexivity.
Qed.

(** The text of an array begins with its bracket, and so does the file:
    there is no byte order mark to leave out. *)
Lemma readAsText_array_text l t :
  stringify_2 (VArr l) = VStr t -> well_formed t ->
  readAsText (utf8_of_string t) = t.
Proof.
  intros Ht Hwf.
  assert (Hhead : exists r, t = 91 :: r).
  { unfold stringify_2 in Ht. rewrite serialize_indented_array in Ht.
    destruct (List.map (element_text_in [32; 32] ([] ++ [32; 32])) l);
      injection Ht as <-; eexists; reflexivity. }
  destruct Hhead as [r ->].
  rewrite <- (utf8_decode_of_string (91 :: r) Hwf) at 2.
  reflexivity.
Qed.

Lemma exportable_parts d :
  exportable d = true ->
  d_id d <> [] /\ d_title d <> [] /\
  forallb is_code_unit (d_id d) = true /\
  forallb is_code_unit (d_title d) = true /\
  forallb is_code_unit (d_content d) = true /\
  forallb is_code_unit (d_caution d) = true /\
  forallb is_code_unit (d_link d) = true /\
  forallb (forallb is_code_unit) (d_tags d) = true /\
  d_createdAt d <> 0 /\ d_updatedAt d <> 0 /\
  Z.abs (d_createdAt d) <= MAX_SAFE_INTEGER /\
  Z.abs (d_updatedAt d) <= MAX_SAFE_INTEGER.
Proof.
  unfold exportable. rewrite !andb_true_iff, !negb_true_iff.
  rewrite !bool_decide_eq_false, !Z.eqb_neq, !Z.leb_le. tauto.
Qed.

Lemma item_of_storable d : exportable d = true -> storable (item_of d) = true.
Proof.
  intros Hd. apply exportable_parts in Hd.
  apply new_item_storable; tauto.
Qed.

Lemma items_storable ds :
  forallb exportable ds = true -> forallb storable (List.map item_of ds) = true.
Proof.
  induction ds as [|d ds IH]; [reflexivity|].
  intros Hd. simpl in Hd. apply andb_true_iff in Hd as [Hd Hds].
  change (forallb storable (List.map item_of (d :: ds)))
    with (storable (item_of d) && forallb storable (List.map item_of ds)).
  rewrite (item_of_storable d Hd). exact (IH Hds).
Qed.

Lemma import_kept_item d : exportable d = true -> import_kept (item_of d) = true.
Proof.
  intros Hd. apply exportable_parts in Hd as (Hid & Ht & _).
  unfold import_kept, item_of, new_item, field. simpl.
  rewrite !bool_decide_eq_false_2 by assumption. reflexivity.
Qed.

Lemma number_or_now_time z w :
  z <> 0 -> number_or_now env (VInt z) w = (Return (VInt z), w).
Proof.
  intros Hz. unfold number_or_now, bindM, lift.
  change (ToNumber (VInt z)) with (@Return number (num_of_Z z)). cbv beta iota.
  rewrite num_falsy_of_Z. apply Z.eqb_neq in Hz. rewrite Hz. reflexivity.
Qed.

Lemma mapM_ToString_strings ss : mapM ToString (List.map VStr ss) = Return ss.
Proof.
  induction ss as [|s ss IH]; [reflexivity|]. simpl. rewrite IH. reflexivity.
Qed.

Lemma or_value_text s d : s <> [] -> or_value (VStr s) d = VStr s.
Proof.
  intros Hs. unfold or_value. simpl. rewrite bool_decide_eq_false_2 by exact Hs.
  reflexivity.
Qed.

(** An item that [create] has made comes out of an import as it went in. *)
Lemma import_record_item d w :
  exportable d = true -> import_record env (item_of d) w = (Return (item_of d), w).
Proof.
  intros Hd. apply exportable_parts in Hd as (Hid & Ht & _ & _ & _ & _ & _ & _ & Hc & Hu & _).
  unfold import_record, item_of.
  set (it := new_item (d_id d) (d_title d) (d_content d) (d_caution d) (d_link d)
               (d_tags d) (d_createdAt d) (d_updatedAt d)).
  change (Get it k_id) with (Return (A:=value) (VStr (d_id d))).
  change (Get it k_title) with (Return (A:=value) (VStr (d_title d))).
  change (Get it k_content) with (Return (A:=value) (VStr (d_content d))).
  change (Get it k_caution) with (Return (A:=value) (VStr (d_caution d))).
  change (Get it k_link) with (Return (A:=value) (VStr (d_link d))).
  change (Get it k_tags) with (Return (A:=value) (VArr (List.map VStr (d_tags d)))).
  change (Get it k_createdAt) with (Return (A:=value) (VInt (d_createdAt d))).
  change (Get it k_updatedAt) with (Return (A:=value) (VInt (d_updatedAt d))).
  rewrite !bindM_lift.
  change (ToBoolean (VStr (d_id d))) with (negb (bool_decide (d_id d = []))).
  rewrite bool_decide_eq_false_2 by exact Hid. simpl negb. cbv iota.
  rewrite bindM_ret, bindM_lift.
  rewrite (or_value_text _ _ Ht). simpl ToString at 1.
  repeat (rewrite bindM_lift
          || rewrite (ToString_optional_text (VStr _)) by reflexivity).
  cbv iota. rewrite mapM_ToString_strings.
  repeat rewrite bindM_lift.
  unfold bindM at 1. rewrite (number_or_now_time _ _ Hc). cbv beta iota.
  rewrite bindM_lift.
  unfold bindM at 1. rewrite (number_or_now_time _ _ Hu). cbv beta iota.
  reflexivity.
Qed.

Lemma import_records_items ds w :
  forallb exportable ds = true ->
  mapMM (import_record env) (List.map item_of ds) w
  = (Return (List.map item_of ds), w).
Proof.
  revert w. induction ds as [|d ds IH]; intros w; [reflexivity|].
  intros Hd. simpl in Hd. apply andb_true_iff in Hd as [Hd Hds].
  change (mapMM (import_record env) (List.map item_of (d :: ds)))
    with (let! b := import_record env (item_of d) in
          let! bs := mapMM (import_record env) (List.map item_of ds) in
          ret (b :: bs)).
  unfold bindM at 1. rewrite (import_record_item d w Hd). cbv beta iota.
  unfold bindM at 1. rewrite (IH w Hds). reflexivity.
Qed.

Lemma filter_kept_items ds :
  forallb exportable ds = true ->
  List.filter import_kept (List.map item_of ds) = List.map item_of ds.
Proof.
  induction ds as [|d ds IH]; [reflexivity|].
  intros Hd. simpl in Hd. apply andb_true_iff in Hd as [Hd Hds].
  change (List.filter import_kept (List.map item_of (d :: ds)))
    with (if import_kept (item_of d)
          then item_of d :: List.filter import_kept (List.map item_of ds)
          else List.filter import_kept (List.map item_of ds)).
  rewrite (import_kept_item d Hd), (IH Hds). reflexivity.
Qed.

(** X24. The file that [exportJSON] writes for a list of items that
    [create] has made, read by [importJSON], brings back that very list,
    in its order, and the import reports success: export and import are
    inverse to each other on such items. *)
Theorem exported_file_imports_back (ds : list ItemData) (w : World) :
  forallb exportable ds = true ->
  exists w',
    importJSON env (readAsText (exportJSON_file (List.map item_of ds))) w
    = (Return tt, w') /\
    items (app w') = List.map item_of ds /\
    alerts w' = alerts w /\
    toasts (app w')
    = toasts (app w) ++ [(minted_id env (ticks w) w, msg_import_done)].
Proof.
  intros Hds.
  destruct (parse_stringify_2 (VArr (List.map item_of ds)) (items_storable ds Hds))
    as (text & Htext & Hwf & Hparse).
  unfold exportJSON_file, export_text. rewrite Htext.
  rewrite (readAsText_array_text _ _ Htext Hwf).
  eexists.
  unfold importJSON, tryM. unfold bindM at 1, lift at 1. rewrite Hparse.
  unfold bindM at 1, lift at 1.
  rewrite (filterM_pure import_keeps import_kept)
    by (apply Forall_forall; intros d _; apply import_keeps_spec).
  rewrite (filter_kept_items ds Hds).
  unfold bindM at 1. rewrite (import_records_items ds w Hds). cbv beta iota.
  split; [reflexivity|]. repeat split; reflexivity.
Qed.

End ExportImport.

Lemma exported_file_imports_back_witness :
  forallb exportable [shoulder_data; squat_data] = true /\
  exists w',
    @importJSON example_engine example_env
      (readAsText (@exportJSON_file example_engine
                     (List.map item_of [shoulder_data; squat_data]))) two_items
    = (Return tt, w') /\
    items (app w') = List.map item_of [shoulder_data; squat_data] /\
    alerts w' = alerts two_items /\
    toasts (app w')
    = toasts (app two_items)
      ++ [(@minted_id example_engine example_env (ticks two_items) two_items,
           msg_import_done)].
Proof.
  assert (H1 : forallb exportable [shoulder_data; squat_data] = true)
    by (vm_compute; reflexivity).
  split; [exact H1|].
  exact (@exported_file_imports_back example_engine example_env
           [shoulder_data; squat_data] two_items H1).
Defined.

(** ** Ids and the clock *)

Lemma digit_value36_char d : 0 <= d < 36 -> digit_value36 (digit_char d) = d.
Proof.
  intros Hd. unfold digit_value36, digit_char.
  destruct (Z.ltb_spec d 10).
  - destruct (Z.ltb_spec (48 + d) 58); lia.
  - destruct (Z.ltb_spec (87 + d) 58); lia.
Qed.

Lemma numeral_value36_snoc ds d :
  numeral_value36 (ds ++ [d]) = numeral_value36 ds * 36 + digit_value36 d.
Proof. unfold numeral_value36. rewrite fold_left_app. reflexivity. Qed.

Lemma digits_from_value36 fuel n acc :
  0 <= n < 2 ^ Z.of_nat (S fuel) ->
  exists ds,
    digits_from (S fuel) 36 n acc = ds ++ acc /\ numeral_value36 ds = n.
Proof.
  revert n acc. induction fuel as [|fuel IH]; intros n acc Hn.
  - change (digits_from 1 36 n acc)
      with (if n <? 36 then digit_char (n mod 36) :: acc
            else digit_char (n mod 36) :: acc).
    change (2 ^ Z.of_nat 1) with 2 in Hn.
    exists [digit_char (n mod 36)]. split; [destruct (n <? 36); reflexivity|].
    unfold numeral_value36. simpl. rewrite digit_value36_char;
      Z.div_mod_to_equations; lia.
  - change (digits_from (S (S fuel)) 36 n acc)
      with (if n <? 36 then digit_char (n mod 36) :: acc
            else digits_from (S fuel) 36 (n / 36) (digit_char (n mod 36) :: acc)).
    destruct (Z.ltb_spec n 36) as [Hlt|Hge].
    + exists [digit_char (n mod 36)]. split; [reflexivity|].
      unfold numeral_value36. simpl. rewrite digit_value36_char;
        Z.div_mod_to_equations; lia.
    + destruct (IH (n / 36) (digit_char (n mod 36) :: acc)) as (ds & Hds & Hval).
      { rewrite Nat2Z.inj_succ, Z.pow_succ_r in Hn by lia.
        split; [apply Z.div_pos; lia|].
        apply Z.div_lt_upper_bound; lia. }
      exists (ds ++ [digit_char (n mod 36)]). split.
      * rewrite Hds, <- app_assoc. reflexivity.
      * rewrite numeral_value36_snoc, Hval, digit_value36_char
          by (apply Z.mod_pos_bound; lia).
        Z.div_mod_to_equations; lia.
Qed.

Lemma Z_toString36_value n :
  0 <= n -> numeral_value36 (Z_toString 36 n) = n.
Proof.
  intros Hn. unfold Z_toString.
  destruct (Z.ltb_spec n 0); [lia|]. unfold digits.
  destruct (digits_from_value36 (Z.to_nat (Z.log2 n)) n []) as (ds & Hds & Hval).
  { split; [exact Hn|].
    rewrite Nat2Z.inj_succ, Z2Nat.id by apply Z.log2_nonneg.
    destruct (Z.eq_dec n 0) as [->|Hnz]; [reflexivity|].
    apply Z.log2_spec. lia. }
  rewrite Hds, app_nil_r. exact Hval.
Qed.

Lemma ascii_upper_inj c d :
  is_digit c || is_lower c = true -> is_digit d || is_lower d = true ->
  ascii_upper c = ascii_upper d -> c = d.
Proof.
  unfold ascii_upper, is_digit, is_lower, in_range. intros Hc Hd.
  rewrite orb_true_iff, !andb_true_iff, !Z.leb_le in Hc, Hd.
  destruct (Z.leb_spec 97 c), (Z.leb_spec c 122), (Z.leb_spec 97 d),
    (Z.leb_spec d 122); simpl; lia.
Qed.

Lemma map_ascii_upper_inj s t :
  Forall (fun c => is_digit c || is_lower c = true) s ->
  Forall (fun c => is_digit c || is_lower c = true) t ->
  List.map ascii_upper s = List.map ascii_upper t -> s = t.
Proof.
  intros Hs. revert t. induction Hs as [|c s Hc _ IH]; intros [|d t] Ht Heq;
    try discriminate Heq; [reflexivity|].
  apply Forall_cons in Ht as [Hd Ht]. simpl in Heq. injection Heq as Hcd Hst.
  f_equal; [apply ascii_upper_inj; assumption|apply IH; assumption].
Qed.

Lemma slice_plain rnd :
  Forall (fun c => is_digit c || is_lower c = true) (skipn 2 rnd) ->
  Forall (fun c => is_digit c || is_lower c = true) (slice rnd 2 8).
Proof.
  intros Hrnd. unfold slice. apply Forall_forall. intros c Hc.
  rewrite Forall_forall in Hrnd. apply Hrnd.
  apply list_elem_of_In. apply list_elem_of_In in Hc.
  rewrite <- (firstn_skipn (8 - 2) (skipn 2 rnd)).
  apply in_or_app. left. exact Hc.
Qed.

Lemma Z_toString36_plain n :
  0 <= n -> Forall (fun c => is_digit c || is_lower c = true) (Z_toString 36 n).
Proof.
  intros Hn. unfold Z_toString. destruct (Z.ltb_spec n 0); [lia|].
  unfold digits. apply digits_from_plain. constructor.
Qed.

Section IdsApart.
Context `{Engine} (env : Env).

(** X25. Two ids that [uid] mints at different readings of the clock
    are different, when the readings are not negative and the random
    numerals, made of digits and small letters after their first two
    characters, give random parts of one length (six characters, unless
    the numeral is short). *)
Theorem ids_of_different_times_differ (w1 w2 : World) :
  0 <= Date_now_at env (ticks w1) -> 0 <= Date_now_at env (ticks w2) ->
  Date_now_at env (ticks w1) <> Date_now_at env (ticks w2) ->
  Forall (fun c => is_digit c || is_lower c = true)
    (skipn 2 (Math_random_at env (draws w1))) ->
  Forall (fun c => is_digit c || is_lower c = true)
    (skipn 2 (Math_random_at env (draws w2))) ->
  length (slice (Math_random_at env (draws w1)) 2 8)
  = length (slice (Math_random_at env (draws w2)) 2 8) ->
  fst (uid env w1) <> fst (uid env w2).
Proof.
  intros Hn1 Hn2 Hne Hr1 Hr2 Hlen.
  change (fst (uid env w1)) with (Return (A:=jsstring) (minted_id env (ticks w1) w1)).
  change (fst (uid env w2)) with (Return (A:=jsstring) (minted_id env (ticks w2) w2)).
  unfold minted_id. intros Heq. injection Heq as Heq.
  set (n1 := Date_now_at env (ticks w1)) in *.
  set (n2 := Date_now_at env (ticks w2)) in *.
  set (r1 := slice (Math_random_at env (draws w1)) 2 8) in *.
  set (r2 := slice (Math_random_at env (draws w2)) 2 8) in *.
  assert (Hp1 : Forall (fun c => is_digit c || is_lower c = true)
                  (Z_toString 36 n1 ++ r1)).
  { apply Forall_app. split; [apply Z_toString36_plain, Hn1|apply slice_plain, Hr1]. }
  assert (Hp2 : Forall (fun c => is_digit c || is_lower c = true)
                  (Z_toString 36 n2 ++ r2)).
  { apply Forall_app. split; [apply Z_toString36_plain, Hn2|apply slice_plain, Hr2]. }
  unfold toUpperCase in Heq.
  rewrite (plain_is_ascii _ Hp1), (plain_is_ascii _ Hp2) in Heq.
  apply (map_ascii_upper_inj _ _ Hp1 Hp2) in Heq.
  assert (Hl : length (Z_toString 36 n1) = length (Z_toString 36 n2)).
  { apply (f_equal (@length Z)) in Heq. rewrite !length_app in Heq. lia. }
  apply app_inj_1 in Heq as [Hd _]; [|exact Hl].
  apply Hne. rewrite <- (Z_toString36_value n1 Hn1), <- (Z_toString36_value n2 Hn2).
  rewrite Hd. reflexivity.
Qed.

End IdsApart.

Lemma ids_of_different_times_differ_witness :
  0 <= Date_now_at example_env (ticks two_items) /\
  0 <= Date_now_at example_env (ticks later_world) /\
  Date_now_at example_env (ticks two_items)
  <> Date_now_at example_env (ticks later_world) /\
  Forall (fun c => is_digit c || is_lower c = true)
    (skipn 2 (Math_random_at example_env (draws two_items))) /\
  Forall (fun c => is_digit c || is_lower c = true)
    (skipn 2 (Math_random_at example_env (draws later_world))) /\
  length (slice (Math_random_at example_env (draws two_items)) 2 8)
  = length (slice (Math_random_at example_env (draws later_world)) 2 8) /\
  fst (@uid example_engine example_env two_items)
  <> fst (@uid example_engine example_env later_world).
Proof.
  assert (H1 : 0 <= Date_now_at example_env (ticks two_items))
    by (vm_compute; discriminate).
  assert (H2 : 0 <= Date_now_at example_env (ticks later_world))
    by (vm_compute; discriminate).
  assert (H3 : Date_now_at example_env (ticks two_items)
               <> Date_now_at example_env (ticks later_world))
    by (vm_compute; discriminate).
  assert (H4 : Forall (fun c => is_digit c || is_lower c = true)
                 (skipn 2 (Math_random_at example_env (draws two_items))))
    by (repeat constructor).
  assert (H5 : Forall (fun c => is_digit c || is_lower c = true)
                 (skipn 2 (Math_random_at example_env (draws later_world))))
    by (repeat constructor).
  assert (H6 : length (slice (Math_random_at example_env (draws two_items)) 2 8)
               = length (slice (Math_random_at example_env (draws later_world)) 2 8))
    by reflexivity.
  split; [exact H1|]. split; [exact H2|]. split; [exact H3|]. split; [exact H4|].
  split; [exact H5|]. split; [exact H6|].
  exact (@ids_of_different_times_differ example_engine example_env two_items
           later_world H1 H2 H3 H4 H5 H6).
Defined.

(** ** What is created is there after a reload *)

Lemma split_incl sep s seg c : In seg (split sep s) -> In c seg -> In c s.
Proof.
  revert seg. induction s as [|a s IH]; intros seg Hseg Hc.
  - simpl in Hseg. destruct Hseg as [<-|[]]. destruct Hc.
  - simpl in Hseg. destruct (Z.eqb_spec a sep) as [->|Hne].
    + destruct Hseg as [<-|Hseg]; [destruct Hc|]. right. exact (IH seg Hseg Hc).
    + pose proof (split_nonempty sep s) as Hnon.
      destruct (split sep s) as [|seg0 segs]; [contradiction|].
      destruct Hseg as [<-|Hseg].
      * destruct Hc as [<-|Hc]; [left; reflexivity|].
        right. apply (IH seg0); [left; reflexivity|exact Hc].
      * right. apply (IH seg); [right; exact Hseg|exact Hc].
Qed.

Lemma trim_code_units s :
  forallb is_code_unit s = true -> forallb is_code_unit (trim s) = true.
Proof.
  intros Hs. apply forallb_forall. intros c Hc.
  rewrite forallb_forall in Hs. apply Hs, trim_incl, Hc.
Qed.

Lemma normalized_tags_code_units text :
  forallb is_code_unit text = true ->
  forallb (forallb is_code_unit) (normalized_tags text) = true.
Proof.
  intros Ht. apply forallb_forall. intros tag Htag.
  unfold normalized_tags in Htag. apply filter_In in Htag as [Htag _].
  apply in_map_iff in Htag as (seg & <- & Hseg).
  apply trim_code_units. apply forallb_forall. intros c Hc.
  rewrite forallb_forall in Ht. apply Ht. exact (split_incl 44 text seg c Hseg Hc).
Qed.

Lemma alphanumeric_code_units s :
  Forall (fun c => is_digit c || is_upper c = true) s ->
  forallb is_code_unit s = true.
Proof.
  intros Hs. apply forallb_forall. intros c Hc.
  rewrite Forall_forall in Hs. specialize (Hs c (proj2 (list_elem_of_In _ _) Hc)).
  unfold is_digit, is_upper, is_code_unit, in_range in *.
  rewrite orb_true_iff, !andb_true_iff, !Z.leb_le in Hs.
  apply andb_true_iff. rewrite !Z.leb_le. lia.
Qed.

Section Reload.
Context `{Engine} (env : Env).

(** X26. An item that [create] has made is there after a reload: when
    the list was storable, the form held text, the clock read a safe time
    and the storage takes the new text, [loadData] returns, from what
    [saveData] wrote after the creation, the list with the new item in
    front. *)
Theorem created_item_survives_reload (f : Fields) (w : World)
    (fits : gmap jsstring jsstring -> bool) (entries : gmap jsstring jsstring) :
  trim (f_title f) <> [] ->
  forallb storable (items (app w)) = true ->
  forallb is_code_unit (f_title f) = true ->
  forallb is_code_unit (f_content f) = true ->
  forallb is_code_unit (f_caution f) = true ->
  forallb is_code_unit (f_link f) = true ->
  forallb is_code_unit (f_tagsText f) = true ->
  0 <= Date_now_at env (ticks w) <= MAX_SAFE_INTEGER ->
  0 <= Date_now_at env (S (ticks w)) ->
  Forall (fun c => is_digit c || is_lower c = true)
    (skipn 2 (Math_random_at env (draws w))) ->
  (forall entries', fits entries' = true) ->
  exists it,
    items (app (snd (create env f w))) = it :: items (app w) /\
    loadData (saveData fits (VArr (items (app (snd (create env f w)))))
                (Granted entries))
    = Return (it :: items (app w)).
Proof.
  intros Ht Hitems Hft Hfc Hfu Hfl Hfg Hnow Hnext Hrnd Hfits.
  unfold create. rewrite handleSave_new by (simpl; auto).
  eexists. split; [reflexivity|]. simpl snd. simpl app. simpl items.
  set (it := new_item _ _ _ _ _ _ _ _).
  assert (Hstorable : forallb storable (it :: items (app w)) = true).
  { change (forallb storable (it :: items (app w)))
      with (storable it && forallb storable (items (app w))).
    rewrite Hitems, andb_true_r. subst it.
    destruct (minted_id_alphanumeric env (S (ticks w)) w Hnext Hrnd) as (_ & Hid & _).
    apply new_item_storable; simpl;
      auto using trim_code_units, normalized_tags_code_units,
                 alphanumeric_code_units;
      apply Z.abs_le; unfold MAX_SAFE_INTEGER in *; lia. }
  destruct (parse_stringify (VArr (it :: items (app w))) Hstorable)
    as (text & Htext & _ & Hparse).
  rewrite (saveData_granted fits _ entries text Htext (Hfits _)).
  apply loadData_stored. exact Hparse.
Qed.

End Reload.

Lemma created_item_survives_reload_witness :
  trim (f_title neck_tilt_form) <> [] /\
  forallb storable (items (app two_items)) = true /\
  forallb is_code_unit (f_title neck_tilt_form) = true /\
  forallb is_code_unit (f_content neck_tilt_form) = true /\
  forallb is_code_unit (f_caution neck_tilt_form) = true /\
  forallb is_code_unit (f_link neck_tilt_form) = true /\
  forallb is_code_unit (f_tagsText neck_tilt_form) = true /\
  0 <= Date_now_at example_env (ticks two_items) <= MAX_SAFE_INTEGER /\
  0 <= Date_now_at example_env (S (ticks two_items)) /\
  Forall (fun c => is_digit c || is_lower c = true)
    (skipn 2 (Math_random_at example_env (draws two_items))) /\
  (forall entries', (fun _ : gmap jsstring jsstring => true) entries' = true) /\
  exists it,
    items (app (snd (@create example_engine example_env neck_tilt_form two_items)))
    = it :: items (app two_items) /\
    loadData
      (@saveData example_engine (fun _ => true)
         (VArr (items (app (snd (@create example_engine example_env
                                   neck_tilt_form two_items)))))
         (Granted ∅))
    = Return (it :: items (app two_items)).
Proof.
  assert (H1 : trim (f_title neck_tilt_form) <> []) by (vm_compute; discriminate).
  assert (H2 : forallb storable (items (app two_items)) = true)
    by (vm_compute; reflexivity).
  assert (H3 : forallb is_code_unit (f_title neck_tilt_form) = true) by reflexivity.
  assert (H4 : forallb is_code_unit (f_content neck_tilt_form) = true) by reflexivity.
  assert (H5 : forallb is_code_unit (f_caution neck_tilt_form) = true) by reflexivity.
  assert (H6 : forallb is_code_unit (f_link neck_tilt_form) = true) by reflexivity.
  assert (H7 : forallb is_code_unit (f_tagsText neck_tilt_form) = true) by reflexivity.
  assert (H8 : 0 <= Date_now_at example_env (ticks two_items) <= MAX_SAFE_INTEGER)
    by (vm_compute; split; discriminate).
  assert (H9 : 0 <= Date_now_at example_env (S (ticks two_items)))
    by (vm_compute; discriminate).
  assert (H10 : Forall (fun c => is_digit c || is_lower c = true)
                  (skipn 2 (Math_random_at example_env (draws two_items))))
    by (repeat constructor).
  assert (H11 : forall entries',
             (fun _ : gmap jsstring jsstring => true) entries' = true)
    by reflexivity.
  split; [exact H1|]. split; [exact H2|]. split; [exact H3|]. split; [exact H4|].
  split; [exact H5|]. split; [exact H6|]. split; [exact H7|]. split; [exact H8|].
  split; [exact H9|]. split; [exact H10|]. split; [exact H11|].
  exact (@created_item_survives_reload example_engine example_env neck_tilt_form
           two_items (fun _ => true) ∅ H1 H2 H3 H4 H5 H6 H7 H8 H9 H10 H11).
Defined.

(** ** The plus sign in a token *)

Section PlusSign.
Context `{Engine}.

(** X27. A token reads back from the address with every plus sign
    turned into a space, and otherwise as it was: the value that
    [getQueryParam] returns is the token exactly when the token has no
    plus sign. *)
Theorem token_reads_back_with_spaces (v : value) (token : jsstring) :
  encodeData v = Return token ->
  getQueryParam (js "?data=" ++ token) (js "data")
  = Some (List.map (fun c => if c =? 43 then 32 else c) token) /\
  (getQueryParam (js "?data=" ++ token) (js "data") = Some token
   <-> ~ In 43 token).
Proof.
  intros Htoken.
  pose proof (data_param_read token (token_characters v token Htoken)) as Hget.
  split; [exact Hget|]. rewrite Hget. split.
  - intros Heq Hplus. injection Heq as Heq.
    apply (f_equal (fun s => existsb (Z.eqb 43) s)) in Heq.
    assert (H1 : existsb (Z.eqb 43) token = true).
    { apply existsb_exists. exists 43. split; [exact Hplus|reflexivity]. }
    assert (H2 : existsb (Z.eqb 43)
                   (List.map (fun c => if c =? 43 then 32 else c) token) = false).
    { apply not_true_is_false. intros Hex. apply existsb_exists in Hex.
      destruct Hex as (c & Hc & Hc43). apply Z.eqb_eq in Hc43. subst c.
      apply in_map_iff in Hc as (c0 & Hc0 & _).
      destruct (Z.eqb_spec c0 43); [discriminate Hc0|]. congruence. }
    congruence.
  - intros Hplus. f_equal. apply map_fixed. intros c Hc.
    destruct (Z.eqb_spec c 43) as [->|]; [contradiction|reflexivity].
Qed.

End PlusSign.

Lemma token_reads_back_with_spaces_witness :
  @encodeData example_engine (VArr [squat]) = Return squat_token /\
  getQueryParam (js "?data=" ++ squat_token) (js "data")
  = Some (List.map (fun c => if c =? 43 then 32 else c) squat_token) /\
  (getQueryParam (js "?data=" ++ squat_token) (js "data") = Some squat_token
   <-> ~ In 43 squat_token).
Proof.
  assert (H1 : @encodeData example_engine (VArr [squat]) = Return squat_token)
    by (vm_compute; reflexivity).
  split; [exact H1|].
  exact (@token_reads_back_with_spaces example_engine (VArr [squat]) squat_token H1).
Defined.
